(* ===== verification/_CoqProject ===== *)
-Q . S2P
Prelude.v
Mem.v
CList.v
Rbtree.v
RbModel.v
RbRep.v
RbInsert.v
RbErase.v
RbWalk.v
SchedFair.v
Sched.v
SchedRR.v
SchedRun.v
Arrays.v
CString.v
CStringSpec.v
Bits.v
Console.v
Tty.v
RadixTree.v
Buddy.v
BuddySpec.v
BuddyTidy.v
Slab.v
SlabSpec.v
Pgtable.v
Memory.v
MemorySpec.v
Timer.v
Wait.v
Avl.v
AvlModel.v
AvlSpec.v
AvlRemove.v
PageCache.v
Buffer.v
BufferSpec.v
Hd.v
HdSpec.v
Fs.v
FsSpec.v
Inode.v
InodeSpec.v
Namei.v
NameiSpec.v
File.v
FileSpec.v
SkBuff.v
Chain.v
Mmap.v
MmapSpec.v
Net.v
Route.v
RouteSpec.v
NetDev.v
NetDevSpec.v
Arp.v
ArpSpec.v
Ip.v
IpSpec.v
ArpRcv.v
ArpRcvSpec.v
DevConf.v
Ether.v
Sock.v
SockSpec.v
Tcp.v
TcpConn.v
TcpSpec.v
TcpQueue.v
Traps.v
TrapsSpec.v
Proc.v
ProcSpec.v
BootSpec.v
Programs.v
Mkfs.v
MkfsSpec.v
SmallOps.v
Printk.v
