(* ===== verification/Prelude.v ===== *)
(** * PrettyOS: a verification development

    PrettyOS is a small kernel for the i386 in C.  This development models its C code (data structures, processes and scheduling,
    memory management, console and keyboard, the file system, the network, interrupts and the start of the kernel) as programs on
    an explicit memory, and proves what they do.  Where the code does not do what it means to,
    the theorem states what it does.

    ** How the code is modelled

    [Mem] has the memory, a finite map from addresses to the values of scalar objects, and the monad [M] of programs on
    it: a program returns a value and a memory, or stops with [Fault] (no object at an address), [Panic] or [Timeout].  A member
    [p->f] is the cell at [p] plus the offset of [f] in the layout of gcc for the i386, so that casts between structures,
    pointers to members and pointer arithmetic mean what they mean in C.  Buffers that are read with different
    widths (sectors, packets) are arrays of bytes.  Integers are [Z] with the wrap-around of their width written out ([u8],
    [u16], [u32], [s8], [s16], [s32] of this file).  Every function of the source is a definition with its name; a loop body or a part
    of a function that is proved by itself has a name of its own.  Variables of the program are the addresses of their cells, and are section
    variables.  Local variables whose address is taken are cells too; those that are read before they are set are parameters.

    [Mem] also instantiates the Iris proof mode with the predicates on memories ([heapProp]), and defines the weakest
    precondition [wp] and [triple P e Q], written with double braces, of total correctness: from every memory one part of
    which satisfies [P], [e] returns a value and a memory with the same rest and with [Q].  So a triple shows that the code ends,
    does not fault, and touches nothing that [P] does not mention.

    Loops: [run n] repeats a body at most [n] times and then answers [Timeout]; [loop] is [run] with the number of cells of the
    memory plus one.  A loop that walks over linked nodes visits no node twice and ends before this bound; that it does is part
    of each triple ([wp_loop] asks for it).  Counted loops are [run] with one turn more than they have iterations.  Recursive
    functions of the source are structural on a bound: ten turns for [get_free_pages] (there are ten orders), the height of a radix tree
    (at most 9), 41 levels of an AVL tree (the code's [avl_maxheight], enough for trees of less than 2^20 areas), a
    number above the height of the tree for [avl_check], the depth of the calls between [ip_queue_xmit] and [ip_fragment], and of those between [tcp_close] and the sockets
    that wait to be accepted.  Waiting, for hardware or in a loop that calls the scheduler, is bounded by a parameter [turns] or [polls], and the endless
    loop of a task by a number of rounds.

    Interrupts: [cli], [sti], [save_flags] and [restore_flags] have no effect in this sequential model.  Printing of messages is left out, except in the functions
    that only print.

    ** The parts

    Data structures.
    - [CList] (lib/list.c, list.h): rings of doubly linked nodes; a ring is a FIFO queue ([list_add_get_del_fifo]).
    - [Rbtree] (lib/rbtree.c, rbtree.h), [RbModel] (red-black trees as an inductive type with their balance), [RbRep] (trees in
      memory), [RbInsert], [RbErase], [RbWalk]: insertion and deletion put a node in and take it out, keep the order of the others
      and the balance; first, last, next, previous, replacement.
    - [RadixTree] (lib/radix-tree.c): insertion and lookup.  The object cache of the nodes is a class, [NodeCache], that hands out
      nodes with any contents; the tree is correct as long as they are clean ([clean_cache]), and [radix_tree_stale_item] shows what happens otherwise.
    - [Arrays], [CString], [CStringSpec] (lib/string.c, lib/vsprintf.c, lib/klibc.c), [Bits] (lib/bitmap.c, lib/math.c, kernel/pid.c).
    - [Printk] (lib/printf.c, kernel/panic.c, the rest of lib/klibc.c): formatted messages, against a reference of the format; printing of the areas, the free
      lists and the caches of memory.
    - [Chain]: singly linked lists that are changed through a pointer to a link, as the network code has them.

    Processes and time.
    - [SchedFair] (kernel/sched_fair.c): the tree of the entities in virtual time.  [Sched], [SchedRR] (kernel/sched.c,
      kernel/clock.c): the two classes, [schedule], blocking, the clock interrupt.  [SchedRun]: runs
      of the clock, a round robin of slices; printing of the tree.
    - [Proc] (kernel/fork.c, exit.c, signal.c, sys.c, fs/binfmt_elf.c, init/main.c), [ProcSpec]: fork, exit, the extent of the image of the kernel.  [BootSpec]: the
      start of the first tasks, on top of the object caches (the class [TaskCaches]), the numbers of processes and the run queue, and the
      first tasks under the clock, from the start of the kernel on.  [Programs] (kernel/proc.c): what the first tasks run; their delays under clock
      interrupts that arrive in any pattern.
    - [Traps] (kernel/traps.c, i8259.c, start.c, the rest of clock.c), [TrapsSpec]: the gates of interrupts, descriptors of segments.
    - [Timer] (kernel/timer.c: the ring of timers, the interface [TimerQueue] and its implementation by the ring), [Wait]
      (kernel/wait.c: wait queues and semaphores).

    Memory.
    - [Buddy], [BuddySpec], [BuddyTidy] (mm/buddy.c, mm/page_alloc.c): allocation takes a block of the order asked for, whenever there is
      one, and exactly its pages; freeing; merging at boot.
    - [Slab], [SlabSpec] (mm/slab.c): objects of a slab and the lists of a cache.
    - [Pgtable] (mm/pgtable.c), [Memory] (mm/memory.c), [MemorySpec]: page tables, page faults, the setting up of the pages at the start, after
      which those above the low memory are free, and those of the low memory with a stale flag.
    - [Avl], [AvlModel], [AvlSpec], [AvlRemove] (mm/mmap.c): the AVL tree of the areas of a process.  [Mmap], [MmapSpec] (the rest of
      mm/mmap.c, mm/kmalloc.c): mapping and unmapping; the tree and the list of the areas keep agreeing.
    - [PageCache] (mm/filemap.c, mm/swap.c): pages of a file, in a radix tree and in two lists.

    Console and keyboard.
    - [Console] (kernel/console.c), [Tty] (kernel/keyboard.c, kernel/tty.c).

    Files.
    - [Buffer], [BufferSpec] (fs/buffer_head.c), [Hd], [HdSpec] (kernel/hd.c).
    - [Fs], [FsSpec] (fs/bitmap.c, fs/block.c), [Inode], [InodeSpec] (fs/inode.c), [Namei], [NameiSpec] (fs/namei.c, fs/link.c),
      [File], [FileSpec] (fs/open.c, fs/file.c, fs/read_write.c, fs/fcntl.c, fs/stat.c).  The operations that go through
      the disk are proved against the class [BlockIO] of what they rely on: a buffer of a sector is read from and written to its place on the disk.  [ram_disk] is an
      instance; the driver is not, as [hd_rw_reads_two_sectors] shows, so that these theorems are conditional on a repaired driver.  The properties of the list
      do not use the class: they are about the code between the buffer and the memory ([inode_copy_roundtrip], [entry_scan_finds], [super_copy_roundtrip]).
    - [Mkfs], [MkfsSpec] (fs/super.c, fs/fs.c): the super block, the maps of a new file system, mounting of the root.

    Network.
    - [SkBuff] (net/inet/skbuff.c): a queue of packets is a deque.  [Net] (net/inet/devinet.c, netdevice.h).
    - [Route], [RouteSpec] (net/inet/route.c): routing takes the first match, which has the longest prefix in an ordered table.
    - [NetDev], [NetDevSpec] (net/inet/dev.c, notifier.h): packets are sent and received in order, and all received packets are handled;
      drivers and protocols are the classes [Driver] and [Receiver].  [DevConf] (the rest of net/inet/dev.c, drivers/net/space.c): the report
      of the devices to a caller.  [Ether] (net/eth.c, drivers/net/net_init.c, loopback.c): headers of frames, registration of cards.
    - [Arp], [ArpSpec], [ArpRcv], [ArpRcvSpec] (net/inet/arp.c): entries expire together with their timers, against the class [TimerQueue].
    - [Ip], [IpSpec] (net/inet/ip.c, net/inet/protocol.c): headers, fragments, sending, receiving; the handlers of the protocols are
      the class [Handlers].
    - [Sock], [SockSpec] (net/inet/af_inet.c, sock.c, net/socket.c): the table of sockets and the choice of a number.
    - [Tcp], [TcpConn], [TcpSpec], [TcpQueue] (net/inet/tcp.c, tcp.h): segments, the states of a connection and its operations, the search of the
      reader in the queue, packets that wait.

    [SmallOps] has short functions of several of these parts.

    ** The theorems

    A theorem whose comment begins with a number in the form C1, C2, ... is a property of the list that goes with the development.  The
    others are theorems about further operations and about behaviour that is not intended.
    - Structures and their refinement: rings, queues of packets and ring buffers behave as sequences; the trees keep balance and
      order and contain exactly what was put in; free lists, slabs and buffers contain exactly what is free.
    - Refinement and liveness of scheduling: under ticks outside the kernel the clock and the tree of virtual times implement a round robin
      ([clock_round_robin]), in which each task gets the processor ([task_gets_processor]) and which the start of the kernel enters ([boot_alternates]).
    - Equivalence: [vsprintf] with the rendering of a format, [avl_check] with balance and order, [bad_mask] with prefixes.
    - Functional behaviour of the operations on every branch, with the error values.
    - Round trips: digits written by [itoa], inodes and super blocks written to the buffer of a sector, bases of segments written to descriptors.
    - Bounds: what [dev_ifconf] writes, the number of a socket, the extent of a loaded image.
    - States: from an open connection no state of the closing handshake is reached but [TCP_LAST_ACK] ([tcp_never_fin_wait]).
    - Termination and progress: each triple; [milli_delay_ends] while the clock runs; [dev_tint_drains] and [received_packets_handled] for packets.
    - Loops that do not end and other errors: [set_leds_hangs], [out_char_tab_hangs], [del_timer_absent_hangs], [arp_destory_hangs],
      [dev_close_hangs], [strcmp_never_equal], [get_pidmap_duplicate], [clear_zmap_bit_keeps] and others.

    ** Not modelled

    The boot loader and the assembly files other than [memcpy] (entry of interrupts and system calls, which save registers and switch stacks); functions
    between [#if 0] and [#endif]; [delay], a loop without effect; the report of the disk (print_identify_info, print_hard_disk_partition); the printing of messages by
    functions that also do something else. *)

From Stdlib Require Export ZArith Lia.
From stdpp Require Export gmap list.

#[global] Open Scope Z_scope.

(** ** Machine integers

    The kernel is compiled for i386: [int], [long] and pointers are 32 bits
    wide, [short] 16, [char] 8.  A value of a w-bit unsigned type is kept as a
    [Z] in [0, 2^w); a signed one in [-2^(w-1), 2^(w-1)).  The functions below
    are the conversions C inserts, and the wrap-around of the arithmetic. *)

Definition u32 (z : Z) : Z := z mod 2 ^ 32.
Definition u16 (z : Z) : Z := z mod 2 ^ 16.
Definition u8 (z : Z) : Z := z mod 2 ^ 8.

Definition s32 (z : Z) : Z := (z + 2 ^ 31) mod 2 ^ 32 - 2 ^ 31.
Definition s16 (z : Z) : Z := (z + 2 ^ 15) mod 2 ^ 16 - 2 ^ 15.
Definition s8 (z : Z) : Z := (z + 2 ^ 7) mod 2 ^ 8 - 2 ^ 7.

(** [lia] with division and remainder by constants. *)
Ltac dlia := Z.to_euclidean_division_equations; lia.

(** C's truth values. *)
Definition b2z (b : bool) : Z := if b then 1 else 0.
Definition truth (z : Z) : bool := negb (z =? 0).

(** The null pointer. *)
Definition NULL : Z := 0.

(** Error numbers of errno.h that several components return, negated. *)
Definition ENOMEM : Z := 12.
Definition EINVAL : Z := 22.

Lemma u32_range z : 0 ≤ u32 z < 2 ^ 32.
Proof. apply Z.mod_pos_bound. lia. Qed.

Lemma u16_range z : 0 ≤ u16 z < 2 ^ 16.
Proof. apply Z.mod_pos_bound. lia. Qed.

Lemma u8_range z : 0 ≤ u8 z < 2 ^ 8.
Proof. apply Z.mod_pos_bound. lia. Qed.

Lemma s32_range z : - 2 ^ 31 ≤ s32 z < 2 ^ 31.
Proof. unfold s32. pose proof (Z.mod_pos_bound (z + 2 ^ 31) (2 ^ 32) ltac:(lia)). lia. Qed.

Lemma u32_small z : 0 ≤ z < 2 ^ 32 → u32 z = z.
Proof. apply Z.mod_small. Qed.

Lemma u8_small z : 0 ≤ z < 2 ^ 8 → u8 z = z.
Proof. apply Z.mod_small. Qed.

Lemma s32_small z : - 2 ^ 31 ≤ z < 2 ^ 31 → s32 z = z.
Proof. intros H. unfold s32. rewrite Z.mod_small; lia. Qed.

Lemma s32_sub a b : s32 (s32 a - s32 b) = s32 (a - b).
Proof.
  unfold s32. f_equal. replace ((a + 2 ^ 31) mod 2 ^ 32 - 2 ^ 31 - ((b + 2 ^ 31) mod 2 ^ 32 - 2 ^ 31) + 2 ^ 31)
    with ((a + 2 ^ 31) mod 2 ^ 32 - (b + 2 ^ 31) mod 2 ^ 32 + 2 ^ 31) by lia.
  rewrite <-Zplus_mod_idemp_l, <-Zminus_mod, Zplus_mod_idemp_l. f_equal. lia.
Qed.

Lemma s32_succ n : s32 (s32 n + 1) = s32 (n + 1).
Proof.
  unfold s32. replace ((n + 2 ^ 31) mod 2 ^ 32 - 2 ^ 31 + 1 + 2 ^ 31) with ((n + 2 ^ 31) mod 2 ^ 32 + 1) by lia.
  rewrite Zplus_mod_idemp_l. do 2 f_equal. lia.
Qed.

Lemma s8_small z : - 2 ^ 7 ≤ z < 2 ^ 7 → s8 z = z.
Proof. intros H. unfold s8. rewrite Z.mod_small; lia. Qed.

Lemma truth_b2z b : truth (b2z b) = b.
Proof. by destruct b. Qed.

(** Tests that are decided. *)
Lemma eqb_false x y : x ≠ y → (x =? y) = false.
Proof. apply Z.eqb_neq. Qed.

Lemma geb_false a b : a < b → (a >=? b) = false.
Proof. intros H. rewrite Z.geb_leb. by apply Z.leb_gt. Qed.
