(* ===== verification/Mem.v ===== *)
(** * The memory of the kernel and the programs that run on it

    [mem] is the store of the C program: a finite map from addresses to the
    values of the scalar objects (struct members, array elements, globals) that
    live there.  A struct member [p->f] is the cell at [p] plus the offset that
    [f] has on i386, so pointer arithmetic, [container_of], and pointers to
    members ([&node->rb_left]) mean what they mean in C.

    A piece of C code is a value of [M A]: it takes a memory and either returns
    a value with the new memory, or stops: [Fault] is an access to an address
    where no object lives, [Panic] is a call of [panic], [Timeout] a loop that
    did more iterations than there are cells in memory.

    [heapProp] makes predicates on memories a separation logic in which the
    Iris proof mode works, and [wp] is the (total correctness) weakest
    precondition of a program. *)

From iris.bi Require Export bi.
From iris.proofmode Require Export environments coq_tactics reduction.
From iris.proofmode Require Export proofmode.
From S2P Require Export Prelude.

Abbreviation mem := (gmap Z Z).

(** ** Programs *)

Inductive res (A : Type) : Type :=
  | Ok (a : A) (m : mem)
  | Fault
  | Panic
  | Timeout.
Arguments Ok {A} a m.
Arguments Fault {A}.
Arguments Panic {A}.
Arguments Timeout {A}.

Definition M (A : Type) : Type := mem → res A.

#[global] Instance M_ret : MRet M := λ A a m, Ok a m.

#[global] Instance M_bind : MBind M := λ A B k e m,
  match e m with
  | Ok a m' => k a m'
  | Fault => Fault
  | Panic => Panic
  | Timeout => Timeout
  end.

Definition load (p : Z) : M Z := λ m,
  match m !! p with Some v => Ok v m | None => Fault end.

Definition store (p v : Z) : M unit := λ m,
  match m !! p with Some _ => Ok tt (<[p := v]> m) | None => Fault end.

Definition panic {A} : M A := λ _, Panic.

Definition fault {A} : M A := λ _, Fault.

Definition timeout {A} : M A := λ _, Timeout.

(** [run n body s] repeats [body] from the loop state [s] until it answers
    [inr r], the value of the loop, at most [n] times. *)
Fixpoint run {S R} (n : nat) (body : S → M (S + R)) (s : S) : M R :=
  match n with
  | O => timeout
  | Datatypes.S n' =>
      r ← body s;
      match r with
      | inl s' => run n' body s'
      | inr r => mret r
      end
  end.

(** A loop of the C code.  Its bound is the number of cells of the memory: the
    loops modelled with [loop] walk over linked nodes, and a walk that visits no
    node twice ends before the bound (the specifications prove it does). *)
Definition loop {S R} (body : S → M (S + R)) (s : S) : M R := λ m,
  run (Datatypes.S (size m)) body s m.

(** Assignment of a structure: the members at the offsets [offs]. *)
Fixpoint copy_members (offs : list Z) (dst src : Z) : M unit :=
  match offs with
  | [] => mret tt
  | o :: offs => v ← load (src + o); store (dst + o) v;; copy_members offs dst src
  end.

(** What a program that returns has done, for programs that are shown not to return: the result of a sequence, and an
    invariant [I] of a loop whose value satisfies [Q]. *)
Lemma bind_ok {A B} (e : M A) (k : A → M B) m b m' : (e ≫= k) m = Ok b m' → ∃ a m1, e m = Ok a m1 ∧ k a m1 = Ok b m'.
Proof. unfold mbind, M_bind. destruct (e m) as [a m1| | |] eqn:E; try done. eauto. Qed.

Lemma load_inv p m v m' : load p m = Ok v m' → m' = m ∧ m !! p = Some v.
Proof. unfold load. destruct (m !! p); [|done]. by intros [= <- <-]. Qed.

Lemma store_inv p w m u m' : store p w m = Ok u m' → m' = <[p := w]> m ∧ ∃ v, m !! p = Some v.
Proof. unfold store. destruct (m !! p); [|done]. intros [= <- <-]. eauto. Qed.

Lemma run_inv {S R} (body : S → M (S + R)) (I : S → mem → Prop) (Q : R → mem → Prop) n s m r m' :
  (∀ s m x m', I s m → body s m = Ok x m' → match x with inl s' => I s' m' | inr r => Q r m' end) →
  I s m → run n body s m = Ok r m' → Q r m'.
Proof.
  intros Hbody. revert s m. induction n as [|n IH]; intros s m HI; [done|]. intros (x & m1 & Hx & H)%bind_ok.
  specialize (Hbody _ _ _ _ HI Hx). destruct x as [s'|r']; [by apply (IH s' m1)|]. by injection H as <- <-.
Qed.

Lemma loop_inv {S R} (body : S → M (S + R)) (I : S → mem → Prop) (Q : R → mem → Prop) s m r m' :
  (∀ s m x m', I s m → body s m = Ok x m' → match x with inl s' => I s' m' | inr r => Q r m' end) →
  I s m → loop body s m = Ok r m' → Q r m'.
Proof. apply run_inv. Qed.

(** ** Heap predicates

    A heap predicate is closed under extension of the heap, so that the logic
    is affine: what a specification does not mention may be forgotten. *)

Record heapProp := HeapProp {
  hp_holds :> mem → Prop;
  hp_mono h1 h2 : h1 ⊆ h2 → hp_holds h1 → hp_holds h2;
}.
Arguments hp_holds : simpl never.
Add Printing Constructor heapProp.
Bind Scope bi_scope with heapProp.

Section ofe.
#[local] Instance hp_equiv : Equiv heapProp := λ P Q, ∀ h, P h ↔ Q h.
#[local] Instance hp_equivalence : Equivalence (≡@{heapProp}).
Proof.
  split.
  - by intros P h.
  - intros P Q H h. by rw (H h).
  - intros P Q R H1 H2 h. by rw (H1 h) (H2 h).
Qed.
Canonical Structure heapPropO := discreteO heapProp.
End ofe.

(** The connectives. *)
Record hp_entails (P Q : heapProp) : Prop := HpEntails {
  hp_in_entails (h : mem) : P h → Q h;
}.

Program Definition hp_pure (φ : Prop) : heapProp := HeapProp (λ _, φ) _.
Next Obligation. done. Qed.

Definition hp_emp : heapProp := hp_pure True.

Program Definition hp_and (P Q : heapProp) : heapProp := HeapProp (λ h, P h ∧ Q h) _.
Next Obligation. simpl. intros P Q h1 h2 Hs [HP HQ]. eauto using hp_mono. Qed.

Program Definition hp_or (P Q : heapProp) : heapProp := HeapProp (λ h, P h ∨ Q h) _.
Next Obligation. simpl. intros P Q h1 h2 Hs [HP|HQ]; eauto using hp_mono. Qed.

Program Definition hp_impl (P Q : heapProp) : heapProp :=
  HeapProp (λ h, ∀ h', h ⊆ h' → P h' → Q h') _.
Next Obligation. simpl. intros P Q h1 h2 Hs H h' Hh' HP. apply H; [by etrans|done]. Qed.

Program Definition hp_forall A (Φ : A → heapProp) : heapProp := HeapProp (λ h, ∀ a, Φ a h) _.
Next Obligation. simpl. intros A Φ h1 h2 Hs H a. eauto using hp_mono. Qed.

Program Definition hp_exist A (Φ : A → heapProp) : heapProp := HeapProp (λ h, ∃ a, Φ a h) _.
Next Obligation. simpl. intros A Φ h1 h2 Hs [a H]. exists a. eauto using hp_mono. Qed.

Program Definition hp_sep (P Q : heapProp) : heapProp :=
  HeapProp (λ h, ∃ h1 h2, h = h1 ∪ h2 ∧ h1 ##ₘ h2 ∧ P h1 ∧ Q h2) _.
Next Obligation.
  simpl. intros P Q h h' Hs (h1 & h2 & -> & Hd & HP & HQ).
  exists h1, (h' ∖ h1). split_and!.
  - symmetry. apply map_difference_union.
    etrans; [|exact Hs]. by apply map_union_subseteq_l.
  - by apply map_disjoint_difference_r1.
  - done.
  - eapply hp_mono; [|exact HQ]. apply map_subseteq_spec. intros i x Hi.
    apply lookup_difference_Some. split.
    + eapply lookup_weaken; [|exact Hs]. by apply lookup_union_Some_r.
    + by eapply map_disjoint_Some_l.
Qed.

Program Definition hp_wand (P Q : heapProp) : heapProp :=
  HeapProp (λ h, ∀ h', h ##ₘ h' → P h' → Q (h ∪ h')) _.
Next Obligation.
  simpl. intros P Q h1 h2 Hs H h' Hd HP.
  apply (hp_mono _ (h1 ∪ h')); [by apply map_union_mono_r|].
  apply H; [|done]. by eapply map_disjoint_weaken_l.
Qed.

Definition hp_persistently (P : heapProp) : heapProp := hp_pure (hp_entails hp_emp P).

(** ** The laws of the logic *)

Lemma hp_bi_mixin :
  BiMixin hp_entails hp_emp hp_pure hp_and hp_or hp_impl hp_forall hp_exist hp_sep hp_wand.
Proof.
  split.
  - split; [by intros P|]. intros P Q R [H1] [H2]. split. auto.
  - intros P Q. split; [intros H; split; split; intros h; apply H|].
    intros [[H1] [H2]] h. split; auto.
  - intros n φ ψ Hφ h. exact Hφ.
  - intros n P P' HP Q Q' HQ h. specialize (HP h). specialize (HQ h). unfold hp_holds; simpl. tauto.
  - intros n P P' HP Q Q' HQ h. specialize (HP h). specialize (HQ h). unfold hp_holds; simpl. tauto.
  - intros n P P' HP Q Q' HQ h. split; intros H h' Hs H'; apply HQ, H, HP; done.
  - intros A n Φ Ψ H h. split; intros H' a; apply H, H'.
  - intros A n Φ Ψ H h. split; intros [a H']; exists a; by apply H.
  - intros n P P' HP Q Q' HQ h.
    split; intros (h1 & h2 & ? & ? & ? & ?); exists h1, h2;
      split_and!; try done; by (apply HP || apply HQ).
  - intros n P P' HP Q Q' HQ h. split; intros H h' Hd H'; apply HQ, H, HP; done.
  - intros φ P Hφ. split. intros h _. exact Hφ.
  - intros φ P H. split. intros h Hφ. by apply (hp_in_entails _ _ (H Hφ)).
  - intros P Q. split. intros h [HP _]. exact HP.
  - intros P Q. split. intros h [_ HQ]. exact HQ.
  - intros P Q R [H1] [H2]. split. intros h HP. split; auto.
  - intros P Q. split. intros h HP. by left.
  - intros P Q. split. intros h HQ. by right.
  - intros P Q R [H1] [H2]. split. intros h [HP|HQ]; auto.
  - intros P Q R [H]. split. intros h HP h' Hs HQ. apply H. split; [by eapply hp_mono|done].
  - intros P Q R [H]. split. intros h [HP HQ]. by apply (H h HP h).
  - intros A P Ψ H. split. intros h HP a. by apply (hp_in_entails _ _ (H a)).
  - intros A Ψ a. split. intros h H. apply H.
  - intros A Ψ a. split. intros h H. by exists a.
  - intros A Φ Q H. split. intros h [a Ha]. by apply (hp_in_entails _ _ (H a)).
  - intros P P' Q Q' [H1] [H2]. split. intros h (h1 & h2 & -> & Hd & HP & HQ).
    exists h1, h2. split_and!; auto.
  - intros P. split. intros h HP. exists ∅, h. rw map_empty_union.
    split_and!; [done|apply map_disjoint_empty_l|done|done].
  - intros P. split. intros h (h1 & h2 & -> & Hd & _ & HP). eapply hp_mono; [|exact HP].
    by apply map_union_subseteq_r.
  - intros P Q. split. intros h (h1 & h2 & -> & Hd & HP & HQ). exists h2, h1.
    split_and!; try done. by apply map_union_comm.
  - intros P Q R. split. intros h (h12 & h3 & -> & Hd & (h1 & h2 & -> & Hd' & HP & HQ) & HR).
    apply map_disjoint_union_l in Hd as [Hd1 Hd2].
    exists h1, (h2 ∪ h3). split_and!; [by rw assoc_L|by apply map_disjoint_union_r|done|].
    by exists h2, h3.
  - intros P Q R [H]. split. intros h HP h' Hd HQ. apply H. by exists h, h'.
  - intros P Q R [H]. split. intros h (h1 & h2 & -> & Hd & HP & HQ). by apply H.
Qed.

Lemma hp_persistently_mixin :
  BiPersistentlyMixin hp_entails hp_emp hp_and hp_exist hp_sep hp_persistently.
Proof.
  eapply bi_persistently_mixin_discrete, hp_bi_mixin.
  - done.
  - intros A Φ [H]. destruct (H ∅ I) as [a Ha]. exists a. split. intros h _.
    eapply hp_mono; [|exact Ha]. apply map_empty_subseteq.
  - done.
Qed.

Lemma hp_later_mixin :
  BiLaterMixin hp_entails hp_pure hp_or hp_impl hp_forall hp_exist hp_sep hp_persistently id.
Proof. by eapply bi_later_mixin_id, hp_bi_mixin. Qed.

Canonical Structure heapPropI : bi :=
  {| bi_ofe_mixin := ofe_mixin_of heapProp;
     bi_bi_mixin := hp_bi_mixin;
     bi_bi_persistently_mixin := hp_persistently_mixin;
     bi_bi_later_mixin := hp_later_mixin |}.

#[global] Instance heapProp_affine : BiAffine heapPropI | 0.
Proof. by intros P. Qed.

#[global] Instance heapProp_pure_forall : BiPureForall heapPropI.
Proof. intros A φ. split. intros h H. exact H. Qed.

(** ** Cells *)

Program Definition pt (p v : Z) : heapProp := HeapProp (λ h, h !! p = Some v) _.
Next Obligation. simpl. intros p v h1 h2 Hs H. by eapply lookup_weaken. Qed.

Notation "p ↦ v" := (pt p v) (at level 20, format "p  ↦  v") : bi_scope.

(** [cells n]: at least [n] cells are owned. *)
Program Definition cells (n : nat) : heapProp := HeapProp (λ h, (n ≤ size h)%nat) _.
Next Obligation.
  simpl. intros n h1 h2 Hs H. pose proof (map_subseteq_size _ _ Hs). lia.
Qed.

Lemma pt_excl p v w : p ↦ v -∗ p ↦ w -∗ False.
Proof.
  apply bi.entails_wand, bi.wand_intro_r. split. intros h (h1 & h2 & -> & Hd & H1 & H2).
  exact (proj1 (map_disjoint_spec h1 h2) Hd p v w H1 H2).
Qed.

Lemma pt_ne p q v w : p ↦ v -∗ q ↦ w -∗ ⌜p ≠ q⌝.
Proof. iIntros "H1 H2" (->). iApply (pt_excl with "H1 H2"). Qed.

Lemma cells_0 : ⊢ cells 0.
Proof. split. intros h _. unfold hp_holds. simpl. lia. Qed.

Lemma pt_cells p v : p ↦ v ⊢ cells 1.
Proof.
  split. intros h H. unfold hp_holds; simpl. unfold hp_holds in H; simpl in H.
  destruct (decide (size h = 0%nat)) as [Hz|]; [|lia].
  apply map_size_empty_inv in Hz. by simplify_map_eq.
Qed.

Lemma cells_add n1 n2 : cells n1 -∗ cells n2 -∗ cells (n1 + n2).
Proof.
  apply bi.entails_wand, bi.wand_intro_r. split. intros h (h1 & h2 & -> & Hd & H1 & H2).
  unfold hp_holds in *; simpl in *. rw map_size_disj_union; [lia|done].
Qed.

Lemma cells_le n1 n2 : (n2 ≤ n1)%nat → cells n1 ⊢ cells n2.
Proof. intros Hn. split. intros h H. unfold hp_holds in *; simpl in *. lia. Qed.

(** ** Weakest preconditions

    [wp e Q] holds of a heap [h] when [e], run on any memory that extends [h],
    returns, leaves the extension as it was, and turns [h] into a heap where [Q]
    holds of the value returned. *)

Program Definition wp {A} (e : M A) (Q : A → heapProp) : heapProp :=
  HeapProp (λ h, ∀ hf, h ##ₘ hf →
    ∃ a h', e (h ∪ hf) = Ok a (h' ∪ hf) ∧ h' ##ₘ hf ∧ Q a h') _.
Next Obligation.
  simpl. intros A e Q h1 h2 Hs H hf Hd.
  pose proof (map_difference_union _ _ Hs) as Hu.
  pose proof (map_disjoint_difference_r1 h2 h1 h1 (reflexivity _)) as Hd12.
  rw -Hu in Hd. apply map_disjoint_union_l in Hd as [Hd1 Hd2].
  destruct (H ((h2 ∖ h1) ∪ hf)) as (a & h' & He & Hd' & HQ).
  { by apply map_disjoint_union_r. }
  apply map_disjoint_union_r in Hd' as [Hd3 Hd4].
  exists a, (h' ∪ (h2 ∖ h1)). split_and!.
  - rw -{1}Hu. rw -!assoc_L. exact He.
  - by apply map_disjoint_union_l.
  - eapply hp_mono; [|exact HQ]. by apply map_union_subseteq_l.
Qed.

(** [triple P e Q]: from a memory one part of which satisfies [P], [e] returns a
    value [a] and a memory whose other part is unchanged and where [Q a] holds. *)
Definition triple {A} (P : heapProp) (e : M A) (Q : A → heapProp) : Prop :=
  ∀ h hf, P h → h ##ₘ hf →
    ∃ a h', e (h ∪ hf) = Ok a (h' ∪ hf) ∧ h' ##ₘ hf ∧ Q a h'.

#[warnings="-closed-notation-not-level-0"] Notation "'{{' P } } e {{ x , Q } }" := (triple P%I e (fun x => Q%I))
  (at level 20, P, e, Q at level 200, x binder,
   format "'[hv' {{  P  } }  '/  ' e  '/' {{  x ,  Q  } } ']'") : stdpp_scope.

Lemma triple_wp {A} P (e : M A) Q : triple P e Q ↔ (P ⊢ wp e Q).
Proof. split; [intros H; split; intros h HP hf Hd; by apply H|intros [H] h hf HP Hd; by apply (H h HP)]. Qed.

Section wp.
Context {A B : Type}.
Implicit Types (Q : A → heapProp).

Lemma wp_ret (a : A) Q : Q a ⊢ wp (mret a) Q.
Proof. split. intros h H hf Hd. by exists a, h. Qed.

Lemma wp_bind (e : M A) (k : A → M B) (Q : B → heapProp) :
  wp e (λ a, wp (k a) Q) ⊢ wp (e ≫= k) Q.
Proof.
  split. intros h H hf Hd. destruct (H hf Hd) as (a & h' & He & Hd' & Hk).
  destruct (Hk hf Hd') as (b & h'' & Hk' & Hd'' & HQ).
  exists b, h''. split_and!; try done. unfold mbind, M_bind. by rw He.
Qed.

Lemma wp_wand (e : M A) Q Q' : wp e Q -∗ (∀ a, Q a -∗ Q' a) -∗ wp e Q'.
Proof.
  apply bi.entails_wand, bi.wand_intro_r. split. intros h (h1 & h2 & -> & Hd & H1 & H2) hf Hf.
  apply map_disjoint_union_l in Hf as [Hf1 Hf2].
  destruct (H1 (h2 ∪ hf)) as (a & h' & He & Hd' & HQ); [by apply map_disjoint_union_r|].
  apply map_disjoint_union_r in Hd' as [Hd1 Hd2].
  exists a, (h2 ∪ h'). split_and!.
  - rw -assoc_L He. f_equal. rw assoc_L. f_equal. by apply map_union_comm.
  - by apply map_disjoint_union_l.
  - apply (H2 a); [by symmetry|done].
Qed.

Lemma wp_mono (e : M A) Q Q' : (∀ a, Q a ⊢ Q' a) → wp e Q ⊢ wp e Q'.
Proof.
  iIntros (H) "He". iApply (wp_wand with "He"). iIntros (a) "HQ". by iApply H.
Qed.

Lemma wp_frame (e : M A) R Q : R ∗ wp e Q ⊢ wp e (λ a, R ∗ Q a).
Proof.
  iIntros "[HR He]". iApply (wp_wand with "He"). iIntros (a) "HQ". iFrame.
Qed.

Lemma wp_ext (e e' : M A) Q : (∀ m, e m = e' m) → wp e Q ⊢ wp e' Q.
Proof. intros He. split. intros h H hf Hd. rw -He. by apply H. Qed.

#[global] Instance wp_proper (e : M A) :
  Proper (pointwise_relation _ (⊢) ==> (⊢)) (wp e).
Proof. intros Q Q' H. by apply wp_mono. Qed.

#[global] Instance frame_wp p (e : M A) R Q Q' :
  (∀ a, Frame p R (Q a) (Q' a)) → Frame p R (wp e Q) (wp e Q') | 2.
Proof.
  unfold Frame. intros H. iIntros "[HR He]". iApply (wp_wand with "He").
  iIntros (a) "HQ". iApply H. iFrame.
Qed.
End wp.

Lemma wp_assoc {A B C} (e : M A) (f : A → M B) (g : B → M C) Q :
  wp ((e ≫= f) ≫= g) Q ⊢ wp (e ≫= λ a, f a ≫= g) Q.
Proof. apply wp_ext. intros m. unfold mbind, M_bind. by destruct (e m). Qed.

Lemma wp_load p v Q : p ↦ v -∗ (p ↦ v -∗ Q v) -∗ wp (load p) Q.
Proof.
  apply bi.entails_wand, bi.wand_intro_r. split. intros h (h1 & h2 & -> & Hd & H1 & H2) hf Hf.
  exists v, (h1 ∪ h2). split_and!.
  - unfold load. rw (lookup_union_Some_l (h1 ∪ h2) hf p v); [done|]. by apply lookup_union_Some_l.
  - done.
  - rw map_union_comm; [|done]. apply H2; [by symmetry|done].
Qed.

Lemma wp_store p v w (Q : unit → heapProp) : p ↦ v -∗ (p ↦ w -∗ Q tt) -∗ wp (store p w) Q.
Proof.
  apply bi.entails_wand, bi.wand_intro_r. split. intros h (h1 & h2 & -> & Hd & H1 & H2) hf Hf.
  unfold hp_holds in H1; simpl in H1.
  apply map_disjoint_union_l in Hf as [Hf1 Hf2].
  assert (h2 !! p = None) by (eapply map_disjoint_Some_l; [exact Hd|exact H1]).
  assert (hf !! p = None) by (eapply map_disjoint_Some_l; [exact Hf1|exact H1]).
  assert (<[p:=w]> h1 ##ₘ h2) by (by apply map_disjoint_insert_l_2).
  exists tt, (<[p:=w]> h1 ∪ h2). split_and!.
  - unfold store. rw (lookup_union_Some_l (h1 ∪ h2) hf p v); [|by apply lookup_union_Some_l].
    by rw !insert_union_l.
  - apply map_disjoint_union_l. split; [|done]. by apply map_disjoint_insert_l_2.
  - rw map_union_comm; [|done]. apply H2; [by symmetry|].
    unfold hp_holds; simpl. by rw lookup_insert_eq.
Qed.

(** A loop with invariant [I n s], where [n] bounds the iterations that are left:
    it ends because at least [n] cells are owned. *)
Lemma wp_run {S R} (body : S → M (S + R)) (I : nat → S → heapProp) (Q : R → heapProp) k :
  (∀ n s, I n s ⊢ wp (body s)
     (λ r, match r with inl s' => ∃ n', ⌜(n' < n)%nat⌝ ∗ I n' s' | inr r => Q r end)) →
  ∀ n s, (n < k)%nat → I n s ⊢ wp (run k body s) Q.
Proof.
  intros Hbody. induction k as [|k IH]; intros n s Hn; [lia|]. simpl.
  iIntros "HI". iApply wp_bind. iPoseProof (Hbody with "HI") as "Hb".
  iApply (wp_wand with "Hb"). iIntros ([s'|r]) "H".
  - iDestruct "H" as (n') "[%Hn' H]". iApply (IH with "H"). lia.
  - by iApply wp_ret.
Qed.

Lemma wp_run_from {S R} (body : S → M (S + R)) (I : nat → S → heapProp) (Q : R → heapProp) n k s : (n < k)%nat →
  (∀ n s, I n s ⊢ wp (body s)
     (λ r, match r with inl s' => ∃ n', ⌜(n' < n)%nat⌝ ∗ I n' s' | inr r => Q r end)) →
  I n s ⊢ wp (run k body s) Q.
Proof. intros Hn Hbody. by apply wp_run. Qed.

Lemma wp_loop {S R} (body : S → M (S + R)) (I : nat → S → heapProp) (Q : R → heapProp) n s :
  (I n s ⊢ cells n) →
  (∀ n s, I n s ⊢ wp (body s)
     (λ r, match r with inl s' => ∃ n', ⌜(n' < n)%nat⌝ ∗ I n' s' | inr r => Q r end)) →
  I n s ⊢ wp (loop body s) Q.
Proof.
  intros [Hc] Hbody. split. intros h HI hf Hd.
  assert (n < Datatypes.S (size (h ∪ hf)))%nat as Hn.
  { pose proof (Hc h HI) as Hsz. unfold hp_holds in Hsz; simpl in Hsz.
    rw map_size_disj_union; [lia|done]. }
  destruct (wp_run body I Q _ Hbody n s Hn) as [Hr]. by apply Hr.
Qed.

(** ** Symbolic execution in the proof mode

    [wp_load], [wp_store] and [wp_step lem with "..."] run the first command of the
    goal [wp (c ≫= k) Q] and leave [wp (k v) Q]. *)

Lemma tac_load_bind {B} Δ i p v (k : Z → M B) Q :
  envs_lookup i Δ = Some (false, p ↦ v)%I →
  envs_entails Δ (wp (k v) Q) →
  envs_entails Δ (wp (load p ≫= k) Q).
Proof.
  rw envs_entails_unseal. intros Hi Hk. rw envs_lookup_split // /= Hk.
  iIntros "[Hp H]". iApply wp_bind. iApply (wp_load with "Hp"). iExact "H".
Qed.

Lemma tac_load Δ i p v Q :
  envs_lookup i Δ = Some (false, p ↦ v)%I →
  envs_entails Δ (Q v) →
  envs_entails Δ (wp (load p) Q).
Proof.
  rw envs_entails_unseal. intros Hi Hk. rw envs_lookup_split // /= Hk.
  iIntros "[Hp H]". iApply (wp_load with "Hp"). iExact "H".
Qed.

Lemma tac_store_bind {B} Δ i p v w (k : unit → M B) Q :
  envs_lookup i Δ = Some (false, p ↦ v)%I →
  match envs_simple_replace i false (Esnoc Enil i (p ↦ w)%I) Δ with
  | Some Δ' => envs_entails Δ' (wp (k tt) Q)
  | None => False
  end →
  envs_entails Δ (wp (store p w ≫= k) Q).
Proof.
  rw envs_entails_unseal. intros Hi Hk.
  destruct (envs_simple_replace _ _ _ _) as [Δ'|] eqn:HΔ'; [|contradiction].
  rw envs_simple_replace_sound // /= Hk right_id.
  iIntros "[Hp H]". iApply wp_bind. iApply (wp_store with "Hp"). iExact "H".
Qed.

Lemma tac_store Δ i p v w (Q : unit → heapProp) :
  envs_lookup i Δ = Some (false, p ↦ v)%I →
  match envs_simple_replace i false (Esnoc Enil i (p ↦ w)%I) Δ with
  | Some Δ' => envs_entails Δ' (Q tt)
  | None => False
  end →
  envs_entails Δ (wp (store p w) Q).
Proof.
  rw envs_entails_unseal. intros Hi Hk.
  destruct (envs_simple_replace _ _ _ _) as [Δ'|] eqn:HΔ'; [|contradiction].
  rw envs_simple_replace_sound // /= Hk right_id.
  iIntros "[Hp H]". iApply (wp_store with "Hp"). iExact "H".
Qed.

Lemma tac_ret_bind {A B} Δ (a : A) (k : A → M B) Q :
  envs_entails Δ (wp (k a) Q) → envs_entails Δ (wp (mret a ≫= k) Q).
Proof. rw envs_entails_unseal. intros ->. iIntros "H". iApply wp_bind. by iApply wp_ret. Qed.

Lemma tac_ret {A} Δ (a : A) Q : envs_entails Δ (Q a) → envs_entails Δ (wp (mret a) Q).
Proof. rw envs_entails_unseal. intros ->. apply wp_ret. Qed.

Lemma tac_bind_assoc {A B C} Δ (e : M A) (f : A → M B) (k : B → M C) Q :
  envs_entails Δ (wp (e ≫= (λ a, f a ≫= k)) Q) → envs_entails Δ (wp ((e ≫= f) ≫= k) Q).
Proof.
  rw envs_entails_unseal. intros ->. split. intros h H hf Hd.
  destruct (H hf Hd) as (a & h' & He & Hr). exists a, h'. split; [|done].
  rw -He. unfold mbind, M_bind. by destruct (e _).
Qed.

Ltac is_literal a :=
  lazymatch a with
  | Z0 => idtac
  | Zpos _ => idtac
  | Zneg _ => idtac
  end.

(** Tests between literals, and connectives of decided tests. *)
Ltac wp_red :=
  cbn beta iota zeta delta [fst snd];
  repeat (match goal with
  | |- context [?a =? ?b] =>
      is_literal a; is_literal b;
      let r := eval vm_compute in (a =? b) in
      change (a =? b) with r
  | |- context [?a =? ?a] => rw (Z.eqb_refl a)
  | |- context [negb true] => change (negb true) with false
  | |- context [negb false] => change (negb false) with true
  | |- context [true && ?b] => change (true && b) with b
  | |- context [false && ?b] => change (false && b) with false
  | |- context [true || ?b] => change (true || b) with true
  | |- context [false || ?b] => change (false || b) with b
  end; cbn beta iota zeta).

Ltac wp_pure_step :=
  lazymatch goal with
  | |- envs_entails _ (wp (mret _ ≫= _) _) => eapply tac_ret_bind
  | |- envs_entails _ (wp (mret _) _) => eapply tac_ret
  | |- envs_entails _ (wp ((_ ≫= _) ≫= _) _) => eapply tac_bind_assoc
  end; wp_red.

Ltac wp_pures := iStartProof; wp_red; repeat wp_pure_step.

Tactic Notation "wp_load" :=
  wp_pures;
  lazymatch goal with
  | |- envs_entails _ (wp (load _ ≫= _) _) =>
      eapply tac_load_bind; [iAssumptionCore|cbn beta iota zeta]
  | |- envs_entails _ (wp (load _) _) =>
      eapply tac_load; [iAssumptionCore|cbn beta iota zeta]
  | |- envs_entails _ (wp ?e _) => fail "wp_load: not a load:" e
  end; wp_pures.

Tactic Notation "wp_store" :=
  wp_pures;
  lazymatch goal with
  | |- envs_entails _ (wp (store _ _ ≫= _) _) =>
      eapply tac_store_bind; [iAssumptionCore|pm_reduce; cbn beta iota zeta]
  | |- envs_entails _ (wp (store _ _) _) =>
      eapply tac_store; [iAssumptionCore|pm_reduce; cbn beta iota zeta]
  | |- envs_entails _ (wp ?e _) => fail "wp_store: not a store:" e
  end; wp_pures.

(** Runs a command with its specification: [lem : P ⊢ wp e Q] or a wand. *)
Ltac wp_focus :=
  wp_pures;
  lazymatch goal with
  | |- envs_entails _ (wp (_ ≫= _) _) => iApply wp_bind
  | |- envs_entails _ (wp _ _) => idtac
  end.

Tactic Notation "wp_apply" open_constr(lem) :=
  wp_focus; iApply lem.

Tactic Notation "wp_use" open_constr(lem) "with" constr(pat) "as" constr(ipat) :=
  wp_focus; iApply (wp_wand with pat);
  [iApply lem; try iFrame|iIntros ipat; wp_pures].
