(* ===== verification/CList.v ===== *)
(** * Circular doubly linked lists: lib/list.c and include/linux/list.h

    A [struct list_head] at address [p] is the two cells [p + list_next] and
    [p + list_prev].  [dlist head xs] says that [head] is the sentinel of a ring
    whose other members are, in order, the nodes [xs].

    The names of the source are kept although two pairs of them are exchanged:
    [list_add_head] links its argument before the sentinel (at the end of the
    sequence) and [list_add_tail] after it (at the front). *)

From S2P Require Export Mem.

(** ** The code *)

(** struct list_head: the offsets of its members. *)
Definition list_next : Z := 0.
Definition list_prev : Z := 4.

(** include/linux/poison.h *)
Definition LIST_POISON1 : Z := 0x00100100.
Definition LIST_POISON2 : Z := 0x00200200.

Definition INIT_LIST_HEAD (list : Z) : M unit :=
  store (list + list_next) list;;
  store (list + list_prev) list.

Definition __list_add (item prev next : Z) : M unit :=
  store (next + list_prev) item;;
  store (item + list_next) next;;
  store (item + list_prev) prev;;
  store (prev + list_next) item.

Definition list_add_tail (item head : Z) : M unit :=
  if item =? NULL then mret tt
  else n ← load (head + list_next); __list_add item head n.

Definition list_add_head (item head : Z) : M unit :=
  if item =? NULL then mret tt
  else p ← load (head + list_prev); __list_add item p head.

(** #define list_add list_add_head *)
Definition list_add : Z → Z → M unit := list_add_head.

Definition __list_del (prev next : Z) : M unit :=
  (if next =? NULL then mret tt else store (next + list_prev) prev);;
  (if prev =? NULL then mret tt else store (prev + list_next) next).

Definition list_del (entry : Z) : M unit :=
  p ← load (entry + list_prev);
  n ← load (entry + list_next);
  __list_del p n;;
  store (entry + list_next) LIST_POISON1;;
  store (entry + list_prev) LIST_POISON2.

Definition list_del_init (entry : Z) : M unit :=
  p ← load (entry + list_prev);
  n ← load (entry + list_next);
  __list_del p n;;
  INIT_LIST_HEAD entry.

(** [||]: the second member is read only when the first test fails. *)
Definition list_empty (head : Z) : M bool :=
  n ← load (head + list_next);
  if n =? head then mret true
  else p ← load (head + list_prev); mret (p =? head).

Definition list_empty_careful (head : Z) : M bool :=
  n ← load (head + list_next);
  if n =? head then p ← load (head + list_prev); mret (p =? head)
  else mret false.

(** An out-parameter [struct list_head **entry] is the content of the variable it
    points to ([None]: a null pointer); the function returns its status and
    that content afterwards. *)
Definition list_get_head (head : Z) (entry : option Z) : M (Z * option Z) :=
  match entry with
  | None => mret (-1, None)
  | Some e =>
      if head =? NULL then mret (-1, Some e)
      else
        n ← load (head + list_next);
        if negb (n =? head) then mret (0, Some n) else mret (-2, Some e)
  end.

Definition list_get_tail (head : Z) (entry : option Z) : M (Z * option Z) :=
  match entry with
  | None => mret (-1, None)
  | Some e =>
      if head =? NULL then mret (-1, Some e)
      else
        p ← load (head + list_prev);
        if negb (p =? head) then mret (0, Some p) else mret (-2, Some e)
  end.

(** [*entry] of a null [entry] is a fault. *)
Definition list_del_entry (entry : option Z) : M (Z * option Z) :=
  match entry with
  | Some e => if e =? NULL then mret (-2, entry) else list_del e;; mret (0, entry)
  | None => fault
  end.

Definition list_get_head_del (head : Z) (entry : option Z) : M (Z * option Z) :=
  '(r, entry) ← list_get_head head entry;
  if r =? 0 then list_del_entry entry else mret (-2, entry).

(** Its condition is [if(list_get_tail(head, entry))]: it deletes when the lookup
    failed. *)
Definition list_get_tail_del (head : Z) (entry : option Z) : M (Z * option Z) :=
  '(r, entry) ← list_get_tail head entry;
  if negb (r =? 0) then list_del_entry entry else mret (-2, entry).

Definition list_get : Z → option Z → M (Z * option Z) := list_get_tail.
Definition list_get_del : Z → option Z → M (Z * option Z) := list_get_head_del.

(** The loop of the macro of that name: [body] may unlink the node it is given
    and may leave the loop with a value ([inr]); [a] is the state the body
    changes. *)
Definition list_for_each_safe {A R} (head : Z) (body : Z → A → M (A + R)) (a : A) : M (A + R) :=
  pos ← load (head + list_next);
  n ← load (pos + list_next);
  loop (λ '(pos, n, a),
    if pos =? head then mret (inr (inl a))
    else
      r ← body pos a;
      match r with
      | inl a' => n' ← load (n + list_next); mret (inl (n, n', a'))
      | inr r => mret (inr (inr r))
      end) (pos, n, a).

Definition list_num (head : Z) : M Z :=
  r ← list_for_each_safe (R := Empty_set) head (λ _ num, mret (inl (s32 (num + 1)))) 0;
  match r with
  | inl num => mret num
  | inr e => match (e : Empty_set) with end
  end.

(** ** The sequence a ring represents *)

Definition first_or (q : Z) (xs : list Z) : Z := default q (head xs).
Definition last_or (p : Z) (xs : list Z) : Z := default p (last xs).

(** The [next] cells of [p] and of the nodes [xs], the last of them pointing to
    [q]; and the [prev] cells of [xs] and [q], the first of them pointing to [p]. *)
Fixpoint nexts (p : Z) (xs : list Z) (q : Z) : heapProp :=
  match xs with
  | [] => (p + list_next) ↦ q
  | x :: xs' => (p + list_next) ↦ x ∗ nexts x xs' q
  end.

Fixpoint prevs (p : Z) (xs : list Z) (q : Z) : heapProp :=
  match xs with
  | [] => (q + list_prev) ↦ p
  | x :: xs' => (x + list_prev) ↦ p ∗ prevs x xs' q
  end.

Definition dlist (head : Z) (xs : list Z) : heapProp :=
  nexts head xs head ∗ prevs head xs head ∗ ⌜Forall (λ x, x ≠ NULL) (head :: xs)⌝.

(** A node outside every ring: its two cells, whatever they hold. *)
Definition lnode (x : Z) : heapProp :=
  (∃ v, (x + list_next) ↦ v) ∗ (∃ v, (x + list_prev) ↦ v) ∗ ⌜x ≠ NULL⌝.

(** A node after [list_del]. *)
Definition lpoisoned (x : Z) : heapProp :=
  (x + list_next) ↦ LIST_POISON1 ∗ (x + list_prev) ↦ LIST_POISON2 ∗ ⌜x ≠ NULL⌝.

Section chains.
Implicit Types (p q x : Z) (xs ys : list Z).

Lemma nexts_app p xs x ys q : nexts p (xs ++ x :: ys) q ⊣⊢ nexts p xs x ∗ nexts x ys q.
Proof. revert p. induction xs as [|y xs IH]; intros p; simpl; [done|]. by rw IH assoc. Qed.

Lemma prevs_app p xs x ys q : prevs p (xs ++ x :: ys) q ⊣⊢ prevs p xs x ∗ prevs x ys q.
Proof. revert p. induction xs as [|y xs IH]; intros p; simpl; [done|]. by rw IH assoc. Qed.

Lemma last_or_cons p x xs : last_or p (x :: xs) = last_or x xs.
Proof. unfold last_or. rw last_cons. by destruct (last xs). Qed.

Lemma last_or_snoc p xs x : last_or p (xs ++ [x]) = x.
Proof. unfold last_or. by rw last_snoc. Qed.

Lemma nexts_first p xs q :
  nexts p xs q ⊢ (p + list_next) ↦ first_or q xs ∗ ((p + list_next) ↦ first_or q xs -∗ nexts p xs q).
Proof. destruct xs; simpl; iIntros "H"; [iFrame; auto|]. iDestruct "H" as "[$ $]". auto. Qed.

Lemma nexts_last p xs q :
  nexts p xs q ⊢ (last_or p xs + list_next) ↦ q ∗ (∀ q', (last_or p xs + list_next) ↦ q' -∗ nexts p xs q').
Proof.
  revert p. induction xs as [|x xs IH]; intros p; simpl.
  - iIntros "$". auto.
  - rw last_or_cons. iIntros "[$ H]". by iApply IH.
Qed.

Lemma prevs_first p xs q :
  prevs p xs q ⊢ (first_or q xs + list_prev) ↦ p ∗ (∀ p', (first_or q xs + list_prev) ↦ p' -∗ prevs p' xs q).
Proof. destruct xs; simpl; [iIntros "$"|iIntros "[$ $]"]; auto. Qed.

Lemma prevs_last p xs q :
  prevs p xs q ⊢ (q + list_prev) ↦ last_or p xs ∗
    (∀ q', (q' + list_prev) ↦ last_or p xs -∗ prevs p xs q').
Proof.
  revert p. induction xs as [|x xs IH]; intros p; simpl.
  - iIntros "$". auto.
  - rw last_or_cons. iIntros "[$ H]". by iApply IH.
Qed.

(** The place between [xs] and [ys], where a node can be linked in. *)
Lemma nexts_link p xs ys q :
  nexts p (xs ++ ys) q ⊢ (last_or p xs + list_next) ↦ first_or q ys ∗
    (∀ x, (last_or p xs + list_next) ↦ x -∗ (x + list_next) ↦ first_or q ys -∗
       nexts p (xs ++ x :: ys) q).
Proof.
  iIntros "H". destruct ys as [|y ys].
  - rw app_nil_r. iDestruct (nexts_last with "H") as "[$ H]".
    iIntros (x) "H1 H2". rw nexts_app. iFrame. by iApply "H".
  - rw nexts_app. iDestruct "H" as "[H Hy]". iDestruct (nexts_last with "H") as "[$ H]".
    iIntros (x) "H1 H2". rw nexts_app. simpl. iFrame. by iApply "H".
Qed.

Lemma prevs_link p xs ys q :
  prevs p (xs ++ ys) q ⊢ (first_or q ys + list_prev) ↦ last_or p xs ∗
    (∀ x, (first_or q ys + list_prev) ↦ x -∗ (x + list_prev) ↦ last_or p xs -∗
       prevs p (xs ++ x :: ys) q).
Proof.
  iIntros "H". destruct ys as [|y ys].
  - rw app_nil_r. iDestruct (prevs_last with "H") as "[$ H]".
    iIntros (x) "H1 H2". rw prevs_app. iFrame. by iApply "H".
  - rw prevs_app. iDestruct "H" as "[H Hy]". iDestruct (prevs_last with "H") as "[$ H]".
    iIntros (x) "H1 H2". rw prevs_app. simpl. iFrame. by iApply "H".
Qed.

(** A node that can be linked out. *)
Lemma nexts_unlink p xs x ys q :
  nexts p (xs ++ x :: ys) q ⊢
    (last_or p xs + list_next) ↦ x ∗ (x + list_next) ↦ first_or q ys ∗
    ((last_or p xs + list_next) ↦ first_or q ys -∗ nexts p (xs ++ ys) q).
Proof.
  rw nexts_app. iIntros "[H1 H2]". iDestruct (nexts_last with "H1") as "[$ H1]".
  destruct ys as [|y ys]; simpl.
  - iFrame. rw app_nil_r. iApply "H1".
  - iDestruct "H2" as "[$ H2]". iIntros "H". rw nexts_app. iFrame. by iApply "H1".
Qed.

Lemma prevs_unlink p xs x ys q :
  prevs p (xs ++ x :: ys) q ⊢
    (first_or q ys + list_prev) ↦ x ∗ (x + list_prev) ↦ last_or p xs ∗
    ((first_or q ys + list_prev) ↦ last_or p xs -∗ prevs p (xs ++ ys) q).
Proof.
  rw prevs_app. iIntros "[H1 H2]". iDestruct (prevs_last with "H1") as "[$ H1]".
  destruct ys as [|y ys]; simpl.
  - iFrame. rw app_nil_r. iApply "H1".
  - iDestruct "H2" as "[$ H2]". iIntros "H". rw prevs_app. iFrame. by iApply "H1".
Qed.

Lemma nexts_cells p xs q : nexts p xs q ⊢ cells (S (length xs)).
Proof.
  revert p. induction xs as [|x xs IH]; intros p; simpl; [apply pt_cells|].
  rw pt_cells IH. iIntros "[H1 H2]". iApply (cells_add with "H1 H2").
Qed.

(** The sentinel is none of the nodes. *)
Lemma nexts_last_ne p xs x ys q : nexts p (xs ++ x :: ys) q ⊢ ⌜x ≠ p⌝.
Proof.
  rw nexts_app. iIntros "[H1 H2]". iDestruct (nexts_first with "H1") as "[H1 _]".
  iDestruct (nexts_first with "H2") as "[H2 _]".
  iDestruct (pt_ne with "H1 H2") as %Hne. iPureIntro. congruence.
Qed.
End chains.

Lemma dlist_ne head xs x : x ∈ xs → dlist head xs ⊢ ⌜x ≠ head ∧ x ≠ NULL⌝.
Proof.
  intros Hx. iIntros "(H & _ & %Hn)". apply list_elem_of_split in Hx as (l1 & l2 & ->).
  iDestruct (nexts_last_ne with "H") as %?. iPureIntro. split; [done|].
  apply (proj1 (Forall_forall _ _) Hn). set_solver.
Qed.

Lemma dlist_head_ne head xs : dlist head xs ⊢ ⌜head ≠ NULL⌝.
Proof. iIntros "(_ & _ & %Hn)". by apply Forall_inv in Hn. Qed.

(** ** The operations on the sequence *)

Section specs.
Implicit Types (p q x : Z) (xs ys : list Z).

Lemma INIT_LIST_HEAD_wp x Q :
  lnode x -∗ (dlist x [] -∗ Q tt) -∗ wp (INIT_LIST_HEAD x) Q.
Proof.
  iIntros "((%v & Hn) & (%w & Hp) & %Hx) HQ". unfold INIT_LIST_HEAD.
  wp_store. wp_store. iApply "HQ". iFrame. simpl. auto.
Qed.

Lemma list_add_between head xs ys x Q :
  dlist head (xs ++ ys) -∗ lnode x -∗ (dlist head (xs ++ x :: ys) -∗ Q tt) -∗
  wp (__list_add x (last_or head xs) (first_or head ys)) Q.
Proof.
  iIntros "(Hn & Hp & %Hne) ((%v & Hxn) & (%w & Hxp) & %Hx) HQ". unfold __list_add.
  iDestruct (nexts_link with "Hn") as "[Hl Hn]".
  iDestruct (prevs_link with "Hp") as "[Hf Hp]".
  wp_store. wp_store. wp_store. wp_store. iApply "HQ".
  iSplitL "Hn Hl Hxn"; [iApply ("Hn" with "Hl Hxn")|].
  iSplitL; [iApply ("Hp" with "Hf Hxp")|]. iPureIntro.
  by decompose_Forall.
Qed.

(** [list_add_tail] (sic) puts the node first. *)
Lemma list_add_tail_wp head xs x Q :
  dlist head xs -∗ lnode x -∗ (dlist head (x :: xs) -∗ Q tt) -∗ wp (list_add_tail x head) Q.
Proof.
  iIntros "(Hn & Hp & %Hne) Hx HQ". iAssert ⌜x ≠ NULL⌝%I as %Hx; [by iDestruct "Hx" as "(_ & _ & $)"|].
  unfold list_add_tail. rw (proj2 (Z.eqb_neq x NULL)); [|done].
  iDestruct (nexts_first with "Hn") as "[Hf Hn]". wp_load. iDestruct ("Hn" with "Hf") as "Hn".
  iApply (list_add_between head [] xs with "[$Hn $Hp //] Hx HQ").
Qed.

(** [list_add_head] (sic) puts the node last. *)
Lemma list_add_head_wp head xs x Q :
  dlist head xs -∗ lnode x -∗ (dlist head (xs ++ [x]) -∗ Q tt) -∗ wp (list_add_head x head) Q.
Proof.
  iIntros "(Hn & Hp & %Hne) Hx HQ". iAssert ⌜x ≠ NULL⌝%I as %Hx; [by iDestruct "Hx" as "(_ & _ & $)"|].
  unfold list_add_head. rw (proj2 (Z.eqb_neq x NULL)); [|done].
  iDestruct (prevs_last with "Hp") as "[Hl Hp]". wp_load. iDestruct ("Hp" with "Hl") as "Hp".
  iApply (list_add_between head xs [] with "[Hn Hp] Hx HQ").
  rw app_nil_r. iFrame. done.
Qed.

Lemma dlist_unlink head xs x ys Q :
  dlist head (xs ++ x :: ys) -∗ ⌜x ≠ NULL⌝ ∗
    (x + list_next) ↦ first_or head ys ∗ (x + list_prev) ↦ last_or head xs ∗
    ((dlist head (xs ++ ys) -∗ Q tt) -∗
     wp (__list_del (last_or head xs) (first_or head ys)) Q).
Proof.
  iIntros "(Hn & Hp & %Hne)".
  iDestruct (nexts_unlink with "Hn") as "(Hl & $ & Hn)".
  iDestruct (prevs_unlink with "Hp") as "(Hf & $ & Hp)".
  inversion_clear Hne as [|?? Hh Hall].
  apply Forall_app in Hall as [Hxs Hall]. inversion_clear Hall as [|?? Hx Hys].
  iSplit; [done|]. iIntros "HQ". unfold __list_del.
  assert (first_or head ys ≠ NULL) as Hf.
  { destruct ys as [|y ys]; [done|]. by inversion_clear Hys. }
  assert (last_or head xs ≠ NULL) as Hl.
  { unfold last_or. destruct (last xs) as [y|] eqn:Hy; [|done].
    apply last_Some_elem_of in Hy. by apply (proj1 (Forall_forall _ _) Hxs). }
  rw (proj2 (Z.eqb_neq _ _) Hf) (proj2 (Z.eqb_neq _ _) Hl).
  wp_store. wp_store. iApply "HQ".
  iSplitL "Hn Hl"; [by iApply "Hn"|]. iSplitL; [by iApply "Hp"|].
  iPureIntro. constructor; [done|]. by apply Forall_app.
Qed.

Lemma list_del_wp head xs x ys Q :
  dlist head (xs ++ x :: ys) -∗ (dlist head (xs ++ ys) -∗ lpoisoned x -∗ Q tt) -∗
  wp (list_del x) Q.
Proof.
  iIntros "Hd HQ". iDestruct (dlist_unlink with "Hd") as "(%Hx & Hn & Hp & Hd)".
  unfold list_del. wp_load. wp_load. iApply wp_bind. iApply "Hd". iIntros "Hd".
  wp_store. wp_store. iApply ("HQ" with "Hd"). by iFrame.
Qed.

Lemma list_del_init_wp head xs x ys Q :
  dlist head (xs ++ x :: ys) -∗ (dlist head (xs ++ ys) -∗ dlist x [] -∗ Q tt) -∗
  wp (list_del_init x) Q.
Proof.
  iIntros "Hd HQ". iDestruct (dlist_unlink with "Hd") as "(%Hx & Hn & Hp & Hd)".
  unfold list_del_init. wp_load. wp_load. iApply wp_bind. iApply "Hd". iIntros "Hd".
  iApply (INIT_LIST_HEAD_wp with "[Hn Hp]"); [by iFrame|]. by iApply "HQ".
Qed.

Lemma first_or_head head xs : first_or head xs = head → dlist head xs ⊢ ⌜xs = []⌝.
Proof.
  intros Hf. destruct xs as [|x xs]; [auto|]. rw (dlist_ne _ _ x); [|set_solver].
  iIntros ([Hx _]). done.
Qed.

Lemma list_empty_wp head xs Q :
  dlist head xs -∗ (dlist head xs -∗ Q (bool_decide (xs = []))) -∗ wp (list_empty head) Q.
Proof.
  iIntros "Hd HQ". iAssert ⌜first_or head xs = head ∨ last_or head xs = head ↔ xs = []⌝%I as %Hiff.
  { destruct xs as [|x xs]; [iPureIntro; split; auto|].
    iAssert ⌜∀ y, y ∈ x :: xs → y ≠ head⌝%I as %Hne.
    { iIntros (y Hy). iDestruct (dlist_ne with "Hd") as %[? _]; [exact Hy|done]. }
    iPureIntro. split; [|done]. intros [Hf|Hl]; exfalso.
    - apply (Hne x); [set_solver|done].
    - apply (Hne (last_or head (x :: xs))); [|done]. unfold last_or.
      destruct (last (x :: xs)) eqn:E; [by apply last_Some_elem_of in E|].
      by apply last_None in E. }
  iDestruct "Hd" as "(Hn & Hp & %Hne)". unfold list_empty.
  iDestruct (nexts_first with "Hn") as "[Hf Hn]". wp_load. iDestruct ("Hn" with "Hf") as "Hn".
  destruct (Z.eqb_spec (first_or head xs) head) as [He|He].
  - wp_pures. rw bool_decide_true; [|tauto]. iApply "HQ". by iFrame.
  - iDestruct (prevs_last with "Hp") as "[Hl Hp]". wp_load. iDestruct ("Hp" with "Hl") as "Hp".
    replace (last_or head xs =? head) with (bool_decide (xs = [])); [iApply "HQ"; by iFrame|].
    destruct (Z.eqb_spec (last_or head xs) head); case_bool_decide; tauto.
Qed.

Lemma list_get_head_wp head xs e Q :
  dlist head xs -∗
  (dlist head xs -∗ Q (match xs with [] => (-2, Some e) | x :: _ => (0, Some x) end)) -∗
  wp (list_get_head head (Some e)) Q.
Proof.
  iIntros "Hd HQ". iDestruct (dlist_head_ne with "Hd") as %Hh.
  unfold list_get_head. rw (proj2 (Z.eqb_neq _ _) Hh). destruct xs as [|x xs].
  - iDestruct "Hd" as "(Hn & Hp)". simpl. wp_load. wp_pures. iApply "HQ". iFrame.
  - iDestruct (dlist_ne _ _ x with "Hd") as %[Hx _]; [set_solver|].
    iDestruct "Hd" as "([Hn Hr] & Hp)". wp_load. rw (proj2 (Z.eqb_neq _ _) Hx).
    wp_pures. iApply "HQ". iFrame.
Qed.

(** With [list_add] a ring is a queue: [list_get_del] takes the oldest node. *)
Lemma list_get_del_wp head xs e Q :
  dlist head xs -∗
  (match xs with
   | [] => dlist head [] -∗ Q (-2, Some e)
   | x :: xs' => dlist head xs' -∗ lpoisoned x -∗ Q (0, Some x)
   end) -∗
  wp (list_get_del head (Some e)) Q.
Proof.
  iIntros "Hd HQ". unfold list_get_del, list_get_head_del.
  iApply wp_bind. iApply (list_get_head_wp with "Hd"). iIntros "Hd". destruct xs as [|x xs].
  - wp_pures. by iApply "HQ".
  - iDestruct (dlist_ne _ _ x with "Hd") as %[_ Hx]; [set_solver|]. simpl.
    rw (proj2 (Z.eqb_neq _ _) Hx). iApply wp_bind. iApply (list_del_wp _ [] with "Hd").
    iIntros "Hd Hx". wp_pures. iApply ("HQ" with "Hd Hx").
Qed.

(** The [next] cell of the node a walk stands on, the sentinel included. *)
Lemma dlist_next head ds ys :
  dlist head (ds ++ ys) ⊢ ∃ n, (first_or head ys + list_next) ↦ n ∗
    ⌜∀ y ys', ys = y :: ys' → n = first_or head ys'⌝ ∗
    ((first_or head ys + list_next) ↦ n -∗ dlist head (ds ++ ys)).
Proof.
  iIntros "(Hn & Hp)". destruct ys as [|y ys]; simpl.
  - iDestruct (nexts_first with "Hn") as "[Hf Hn]". iFrame. by iSplit.
  - rw nexts_app. iDestruct "Hn" as "[Hn1 Hn2]".
    iDestruct (nexts_first with "Hn2") as "[Hf Hn]". iFrame "Hf".
    iSplit; [by iIntros (??[= -> ->])|]. iIntros "H". iFrame "Hp".
    rw nexts_app. iFrame. by iApply "Hn".
Qed.

(** Walking the ring: [ds] is what is left of the nodes already visited. *)
Lemma list_for_each_safe_wp {A R} head (body : Z → A → M (A + R)) (I : list Z → list Z → A → heapProp)
    (Q : A + R → heapProp) xs a :
  (∀ ds x ys a, dlist head (ds ++ x :: ys) ∗ I ds (x :: ys) a ⊢ wp (body x a) (λ r,
     match r with
     | inl a' => ∃ ds', dlist head (ds' ++ ys) ∗ I ds' ys a'
     | inr r => Q (inr r)
     end)) →
  (∀ ds a, dlist head ds ∗ I ds [] a ⊢ Q (inl a)) →
  dlist head xs ∗ I [] xs a ⊢ wp (list_for_each_safe head body a) Q.
Proof.
  intros Hbody Hend. unfold list_for_each_safe.
  set (J := λ (n : nat) (s : Z * Z * A), (∃ ds ys, ⌜n = length ys⌝ ∗
     ⌜s.1.1 = first_or head ys⌝ ∗ ⌜∀ y ys', ys = y :: ys' → s.1.2 = first_or head ys'⌝ ∗
     dlist head (ds ++ ys) ∗ I ds ys s.2)%I).
  iIntros "[Hd HI]". iDestruct "Hd" as "(Hn & Hp)".
  iDestruct (nexts_first with "Hn") as "[Hf Hn]". wp_load. iDestruct ("Hn" with "Hf") as "Hn".
  iDestruct (dlist_next head [] xs with "[$]") as (n) "(Hf & %Hn & Hd)". wp_load.
  iApply (wp_loop _ J _ (length xs)); last first.
  { iExists [], xs. iFrame. repeat (iSplit; [done|]). iApply ("Hd" with "Hf"). }
  - intros k [[pos m] b]. iDestruct 1 as (ds ys -> Hpos Hm) "[Hd HI]". simpl in *.
    destruct ys as [|y ys].
    + rw Hpos. unfold first_or; simpl. rw Z.eqb_refl. wp_pures. rw app_nil_r.
      iApply Hend. iFrame.
    + iDestruct (dlist_ne _ _ y with "Hd") as %[Hy _]; [set_solver|].
      rw Hpos. unfold first_or; simpl. rw (proj2 (Z.eqb_neq _ _) Hy). iApply wp_bind.
      iApply (wp_wand with "[Hd HI]"); [iApply Hbody; iFrame|].
      iIntros ([a'|r]) "H"; [|by wp_pures].
      iDestruct "H" as (ds') "[Hd HI]". rw (Hm y ys eq_refl).
      iDestruct (dlist_next with "Hd") as (n') "(Hf & %Hn' & Hd)". wp_load.
      iExists (length ys). iSplit; [iPureIntro; simpl; lia|]. iExists ds', ys. iFrame.
      repeat (iSplit; [done|]). iApply ("Hd" with "Hf").
  - unfold J. iDestruct 1 as (ds ys Hlen _ _) "[[Hn _] _]". rw nexts_cells.
    iApply (cells_le with "Hn"). rw length_app. lia.
Qed.

Lemma list_num_wp head xs (Q : Z → heapProp) :
  dlist head xs -∗ (dlist head xs -∗ Q (s32 (length xs))) -∗ wp (list_num head) Q.
Proof.
  iIntros "Hd HQ". unfold list_num. iApply wp_bind.
  iApply (list_for_each_safe_wp head _ (λ ds ys num, ⌜ds ++ ys = xs⌝ ∗ ⌜num = s32 (length ds)⌝ ∗
    (dlist head xs -∗ Q (s32 (length xs))))%I with "[$Hd $HQ]").
  - intros ds x ys num. iIntros "[Hd (%Hxs & %Hnum & HQ)]". wp_pures.
    iExists (ds ++ [x]). rw -assoc_L. simpl. iFrame. iPureIntro. split; [done|].
    rw length_app. subst num. simpl. unfold s32. f_equal.
    replace (Z.of_nat (length ds + 1) + 2 ^ 31) with (Z.of_nat (length ds) + 2 ^ 31 + 1) by lia.
    replace ((Z.of_nat (length ds) + 2 ^ 31) `mod` 2 ^ 32 - 2 ^ 31 + 1 + 2 ^ 31)
      with ((Z.of_nat (length ds) + 2 ^ 31) `mod` 2 ^ 32 + 1) by lia.
    by rw Zplus_mod_idemp_l.
  - intros ds num. iIntros "[Hd (%Hxs & -> & HQ)]". rw app_nil_r in Hxs. subst xs.
    wp_pures. by iApply "HQ".
  - done.
Qed.
End specs.

Lemma list_empty_careful_wp head xs Q :
  dlist head xs -∗ (dlist head xs -∗ Q (bool_decide (xs = []))) -∗ wp (list_empty_careful head) Q.
Proof.
  iIntros "Hd HQ". unfold list_empty_careful. destruct xs as [|x xs].
  - iDestruct "Hd" as "(Hn & Hp & %)". simpl. wp_load. wp_load. iApply "HQ". by iFrame.
  - iDestruct (dlist_ne _ _ x with "Hd") as %[Hx _]; [set_solver|].
    iDestruct "Hd" as "([Hn Hr] & Hp)". wp_load. rw (proj2 (Z.eqb_neq _ _) Hx). wp_pures. iApply "HQ". iFrame.
Qed.

Lemma lpoisoned_lnode x : lpoisoned x ⊢ lnode x.
Proof. iIntros "(H1 & H2 & $)". iFrame. Qed.

(** ** A ring is a queue

    The operations of a queue, as the model sees them and as the code does them. *)

Inductive qop :=
  | Enqueue (x : Z)
  | Dequeue.

Fixpoint queue_model (xs : list Z) (ops : list qop) : list (option Z) * list Z :=
  match ops with
  | [] => ([], xs)
  | Enqueue x :: ops => queue_model (xs ++ [x]) ops
  | Dequeue :: ops =>
      match xs with
      | [] => let '(r, xs') := queue_model [] ops in (None :: r, xs')
      | x :: xs => let '(r, xs') := queue_model xs ops in (Some x :: r, xs')
      end
  end.

Fixpoint queue_run (head : Z) (ops : list qop) : M (list (option Z)) :=
  match ops with
  | [] => mret []
  | Enqueue x :: ops => list_add x head;; queue_run head ops
  | Dequeue :: ops =>
      '(r, e) ← list_get_del head (Some NULL);
      l ← queue_run head ops;
      mret ((if r =? 0 then e else None) :: l)
  end.

(** The operations only put in nodes that are in no queue at that time; a node that was taken out may be put in again. *)
Fixpoint queue_ok (nodes : gset Z) (xs : list Z) (ops : list qop) : bool :=
  match ops with
  | [] => true
  | Enqueue x :: ops => bool_decide (x ∈ nodes ∧ x ∉ xs) && queue_ok nodes (xs ++ [x]) ops
  | Dequeue :: ops => queue_ok nodes (tail xs) ops
  end.

(** Nodes outside a queue: one can be taken for an operation and put into it; one that comes out is outside again. *)
Section outside.
Context (Φ : Z → heapProp).

Definition outside (nodes s : gset Z) : heapProp := [∗ set] y ∈ (nodes ∖ s), Φ y.

Lemma outside_take nodes s x : x ∈ nodes → x ∉ s → outside nodes s ⊢ Φ x ∗ outside nodes ({[x]} ∪ s).
Proof.
  intros Hx Hs. unfold outside. rw (big_sepS_delete _ _ x); [|set_solver].
  by rw (_ : nodes ∖ s ∖ {[x]} = nodes ∖ ({[x]} ∪ s)); [|set_solver].
Qed.

Lemma outside_give nodes s x : x ∈ nodes → x ∉ s → Φ x ∗ outside nodes ({[x]} ∪ s) ⊢ outside nodes s.
Proof.
  intros Hx Hs. unfold outside. rw (big_sepS_delete _ (nodes ∖ s) x); [|set_solver].
  by rw (_ : nodes ∖ s ∖ {[x]} = nodes ∖ ({[x]} ∪ s)); [|set_solver].
Qed.
End outside.

(** The nodes [nodes]: those of [xs] are in the ring, the others in none. *)
Definition ring_nodes (head : Z) (nodes : gset Z) (xs : list Z) : heapProp :=
  ⌜NoDup xs ∧ list_to_set xs ⊆ nodes⌝ ∗ dlist head xs ∗ outside lnode nodes (list_to_set xs).

Lemma queue_run_wp head nodes ops xs Q : queue_ok nodes xs ops = true →
  ring_nodes head nodes xs -∗ (ring_nodes head nodes (queue_model xs ops).2 -∗ Q (queue_model xs ops).1) -∗
  wp (queue_run head ops) Q.
Proof.
  revert xs Q. induction ops as [|[x|] ops IH]; intros xs Q Hok; simpl; iIntros "H HQ".
  - wp_pures. by iApply "HQ".
  - simpl in Hok. apply andb_true_iff in Hok as [[Hx Hxs]%bool_decide_eq_true Hok].
    iDestruct "H" as "((%Hnd & %Hsub) & Hd & Hf)". iDestruct (outside_take _ _ _ x with "Hf") as "[Hx Hf]"; [done|set_solver|].
    iApply wp_bind. iApply (list_add_head_wp with "Hd Hx"). iIntros "Hd". iApply (IH with "[Hd Hf] HQ"); [done|]. iFrame "Hd".
    rw list_to_set_app_L /= right_id_L (comm_L (∪) _ {[x]}). iFrame "Hf". iPureIntro. split; [|set_solver].
    apply NoDup_app. split_and!; [done|set_solver|apply NoDup_singleton].
  - iDestruct "H" as "((%Hnd & %Hsub) & Hd & Hf)". iApply wp_bind. iApply (list_get_del_wp with "Hd").
    destruct xs as [|x xs]; iIntros "Hd"; [|iIntros "Hx"]; iApply wp_bind.
    + iApply (IH [] with "[$Hd $Hf //]"); [done|]. iIntros "H". wp_pures. iSpecialize ("HQ" with "[H]"); destruct (queue_model _ _); done.
    + apply NoDup_cons in Hnd as [Hx Hnd]. iApply (IH xs with "[$Hd Hx Hf]"); [done| |].
      { iSplit; [iPureIntro; split; [done|set_solver]|]. iApply (outside_give _ _ _ x); [set_solver..|]. iFrame "Hf". by iApply lpoisoned_lnode. }
      iIntros "H". wp_pures. iSpecialize ("HQ" with "[H]"); destruct (queue_model _ _); done.
Qed.

(** ** Properties *)

(** C11: refinement.  A ring on which nodes are put with [list_add] and taken with
    [list_get_del] is a first-in first-out queue: for every sequence of the two
    operations in which no node is put in while it is in the ring (it may be put in again
    after it was taken) the code returns the nodes that the queue of mathematical lists
    returns, [-2] exactly when that queue is empty, and ends with the ring of the
    nodes that are left, all others being free. *)
Theorem list_add_get_del_fifo head nodes xs ops :
  {{ ⌜queue_ok nodes xs ops = true⌝ ∗ ring_nodes head nodes xs }}
    queue_run head ops
  {{ r, ⌜r = (queue_model xs ops).1⌝ ∗ ring_nodes head nodes (queue_model xs ops).2 }}.
Proof. apply triple_wp. iIntros "[%Hok H]". iApply (queue_run_wp with "H"); [done|]. auto. Qed.

(** functional.  [list_del] takes exactly the node it is given out of the
    ring it is in, whichever place it has there, and poisons its links. *)
Theorem list_del_removes head xs x ys :
  {{ dlist head (xs ++ x :: ys) }} list_del x {{ _, dlist head (xs ++ ys) ∗ lpoisoned x }}.
Proof.
  apply triple_wp. iIntros "Hd". iApply (list_del_wp with "Hd"). iIntros "$ $".
Qed.

(** functional.  [list_num] walks the whole ring, terminates, leaves it as it
    was and returns the number of its nodes (as an [int]). *)
Theorem list_num_length head xs :
  {{ dlist head xs }} list_num head {{ n, ⌜n = s32 (length xs)⌝ ∗ dlist head xs }}.
Proof. apply triple_wp. iIntros "Hd". iApply (list_num_wp with "Hd"). auto. Qed.

(** error.  [list_get_tail_del] tests the result of [list_get_tail] the wrong
    way round: on a ring that is not empty it reports failure and removes nothing. *)
Theorem list_get_tail_del_keeps head xs x e :
  {{ dlist head (xs ++ [x]) }}
    list_get_tail_del head (Some e)
  {{ r, ⌜r = (-2, Some x)⌝ ∗ dlist head (xs ++ [x]) }}.
Proof.
  apply triple_wp. iIntros "Hd". iDestruct (dlist_head_ne with "Hd") as %Hh.
  iDestruct (dlist_ne _ _ x with "Hd") as %[Hx _]; [set_solver|].
  iDestruct "Hd" as "(Hn & Hp & %Hne)".
  iDestruct (prevs_last with "Hp") as "[Hl Hp]". rw last_or_snoc.
  unfold list_get_tail_del, list_get_tail. rw (proj2 (Z.eqb_neq _ _) Hh).
  wp_load. rw (proj2 (Z.eqb_neq _ _) Hx). wp_pures.
  iDestruct ("Hp" with "Hl") as "Hp". iSplit; [done|]. by iFrame.
Qed.
