(* ===== verification/Rbtree.v ===== *)
(** * Red-black trees: lib/rbtree.c and include/linux/rbtree.h

    The code, on the cell memory: a [struct rb_node] at [p] is the three cells
    [p + rb_parent_color], [p + rb_right] and [p + rb_left]; the address of the
    parent and the colour share the first of them.  The functions are translated
    one by one, loops with [loop] (its bound is the number of cells of memory:
    the loops walk along one path of the tree). *)

From S2P Require Export Mem.

(** struct rb_node, struct rb_root: the offsets of their members. *)
Definition rb_parent_color : Z := 0.
Definition rb_right : Z := 4.
Definition rb_left : Z := 8.
Definition rb_node : Z := 0.

Definition RB_RED : Z := 0.
Definition RB_BLACK : Z := 1.

Definition rb_parent (r : Z) : M Z :=
  c ← load (r + rb_parent_color); mret (Z.land c (Z.lnot 3)).

Definition rb_color (r : Z) : M Z :=
  c ← load (r + rb_parent_color); mret (Z.land c 1).

Definition rb_is_red (r : Z) : M bool :=
  c ← rb_color r; mret (negb (truth c)).

Definition rb_is_black (r : Z) : M bool :=
  c ← rb_color r; mret (truth c).

Definition rb_set_red (r : Z) : M unit :=
  c ← load (r + rb_parent_color); store (r + rb_parent_color) (Z.land c (Z.lnot 1)).

Definition rb_set_black (r : Z) : M unit :=
  c ← load (r + rb_parent_color); store (r + rb_parent_color) (Z.lor c 1).

Definition rb_set_parent (rb p : Z) : M unit :=
  c ← load (rb + rb_parent_color); store (rb + rb_parent_color) (Z.lor (Z.land c 3) p).

Definition rb_set_color (rb color : Z) : M unit :=
  c ← load (rb + rb_parent_color);
  store (rb + rb_parent_color) (Z.lor (Z.land c (Z.lnot 1)) color).

Definition RB_EMPTY_ROOT (root : Z) : M bool :=
  n ← load (root + rb_node); mret (n =? NULL).

Definition RB_EMPTY_NODE (node : Z) : M bool :=
  p ← rb_parent node; mret (p =? node).

Definition RB_CLEAR_NODE (node : Z) : M unit := rb_set_parent node node.

(** [rb_link] is the address of the cell that is to point to the new node. *)
Definition rb_link_node (node parent link : Z) : M unit :=
  store (node + rb_parent_color) parent;;
  store (node + rb_right) NULL;;
  store (node + rb_left) NULL;;
  store link node.

(** [!n || rb_is_black(n)] and [n && rb_is_red(n)], with their short cuts. *)
Definition rb_null_or_black (n : Z) : M bool :=
  if n =? NULL then mret true else rb_is_black n.

Definition rb_nonnull_red (n : Z) : M bool :=
  if n =? NULL then mret false else rb_is_red n.

Definition __rb_rotate_left (node root : Z) : M unit :=
  right ← load (node + rb_right);
  parent ← rb_parent node;
  rl ← load (right + rb_left);
  store (node + rb_right) rl;;
  (if rl =? NULL then mret tt else l ← load (right + rb_left); rb_set_parent l node);;
  store (right + rb_left) node;;
  rb_set_parent right parent;;
  (if negb (parent =? NULL) then
     pl ← load (parent + rb_left);
     if node =? pl then store (parent + rb_left) right
     else store (parent + rb_right) right
   else store (root + rb_node) right);;
  rb_set_parent node right.

Definition __rb_rotate_right (node root : Z) : M unit :=
  left ← load (node + rb_left);
  parent ← rb_parent node;
  lr ← load (left + rb_right);
  store (node + rb_left) lr;;
  (if lr =? NULL then mret tt else r ← load (left + rb_right); rb_set_parent r node);;
  store (left + rb_right) node;;
  rb_set_parent left parent;;
  (if negb (parent =? NULL) then
     pr ← load (parent + rb_right);
     if node =? pr then store (parent + rb_right) left
     else store (parent + rb_left) left
   else store (root + rb_node) left);;
  rb_set_parent node left.

(** One round of the loop of [rb_insert_color] ([inr]: its condition is false). *)
Definition rb_insert_color_step (root node : Z) : M (Z + unit) :=
  parent ← rb_parent node;
  if parent =? NULL then mret (inr tt) else
  red ← rb_is_red parent;
  if negb red then mret (inr tt) else
  gparent ← rb_parent parent;
  gl ← load (gparent + rb_left);
  if parent =? gl then
    uncle ← load (gparent + rb_right);
    u ← rb_nonnull_red uncle;
    if (u : bool) then
      rb_set_black uncle;;
      rb_set_black parent;;
      rb_set_red gparent;;
      mret (inl gparent)
    else
      pr ← load (parent + rb_right);
      '(node, parent) ←
        (if pr =? node then __rb_rotate_left parent root;; mret (parent, node)
         else mret (node, parent));
      rb_set_black parent;;
      rb_set_red gparent;;
      __rb_rotate_right gparent root;;
      mret (inl node)
  else
    uncle ← load (gparent + rb_left);
    u ← rb_nonnull_red uncle;
    if (u : bool) then
      rb_set_black uncle;;
      rb_set_black parent;;
      rb_set_red gparent;;
      mret (inl gparent)
    else
      pl ← load (parent + rb_left);
      '(node, parent) ←
        (if pl =? node then __rb_rotate_right parent root;; mret (parent, node)
         else mret (node, parent));
      rb_set_black parent;;
      rb_set_red gparent;;
      __rb_rotate_left gparent root;;
      mret (inl node).

Definition rb_insert_color (node root : Z) : M unit :=
  loop (rb_insert_color_step root) node;;
  r ← load (root + rb_node);
  rb_set_black r.

(** One round of the loop of [__rb_erase_color]; the loop ends with the value of
    [node]. *)
Definition rb_erase_color_step (root : Z) (s : Z * Z) : M (Z * Z + Z) :=
  let '(node, parent) := s in
  b ← rb_null_or_black node;
  if negb b then mret (inr node) else
  rn ← load (root + rb_node);
  if node =? rn then mret (inr node) else
  pl ← load (parent + rb_left);
  if pl =? node then
    other ← load (parent + rb_right);
    red ← rb_is_red other;
    other ←
      (if (red : bool) then
         rb_set_black other;;
         rb_set_red parent;;
         __rb_rotate_left parent root;;
         load (parent + rb_right)
       else mret other);
    ol ← load (other + rb_left);
    bl ← rb_null_or_black ol;
    br ← (if (bl : bool) then or ← load (other + rb_right); rb_null_or_black or else mret false);
    if (br : bool) then
      rb_set_red other;;
      pp ← rb_parent parent;
      mret (inl (parent, pp))
    else
      or ← load (other + rb_right);
      br ← rb_null_or_black or;
      other ←
        (if (br : bool) then
           ol ← load (other + rb_left);
           rb_set_black ol;;
           rb_set_red other;;
           __rb_rotate_right other root;;
           load (parent + rb_right)
         else mret other);
      c ← rb_color parent;
      rb_set_color other c;;
      rb_set_black parent;;
      or ← load (other + rb_right);
      rb_set_black or;;
      __rb_rotate_left parent root;;
      n ← load (root + rb_node);
      mret (inr n)
  else
    other ← load (parent + rb_left);
    red ← rb_is_red other;
    other ←
      (if (red : bool) then
         rb_set_black other;;
         rb_set_red parent;;
         __rb_rotate_right parent root;;
         load (parent + rb_left)
       else mret other);
    ol ← load (other + rb_left);
    bl ← rb_null_or_black ol;
    br ← (if (bl : bool) then or ← load (other + rb_right); rb_null_or_black or else mret false);
    if (br : bool) then
      rb_set_red other;;
      pp ← rb_parent parent;
      mret (inl (parent, pp))
    else
      ol ← load (other + rb_left);
      bl ← rb_null_or_black ol;
      other ←
        (if (bl : bool) then
           or ← load (other + rb_right);
           rb_set_black or;;
           rb_set_red other;;
           __rb_rotate_left other root;;
           load (parent + rb_left)
         else mret other);
      c ← rb_color parent;
      rb_set_color other c;;
      rb_set_black parent;;
      ol ← load (other + rb_left);
      rb_set_black ol;;
      __rb_rotate_right parent root;;
      n ← load (root + rb_node);
      mret (inr n).

Definition __rb_erase_color (node parent root : Z) : M unit :=
  node ← loop (rb_erase_color_step root) (node, parent);
  if node =? NULL then mret tt else rb_set_black node.

(** [while (n->rb_left) n = n->rb_left]; the same to the right. *)
Definition rb_leftmost (n : Z) : M Z :=
  loop (λ n, l ← load (n + rb_left); mret (if l =? NULL then inr n else inl l)) n.

Definition rb_rightmost (n : Z) : M Z :=
  loop (λ n, r ← load (n + rb_right); mret (if r =? NULL then inr n else inl r)) n.

(** The part of [rb_erase] for a node with at most one child, [child]; it
    returns [child], the parent and the colour the label [color:] works on. *)
Definition rb_erase_simple (node child root : Z) : M (Z * Z * Z) :=
  parent ← rb_parent node;
  color ← rb_color node;
  (if child =? NULL then mret tt else rb_set_parent child parent);;
  (if negb (parent =? NULL) then
     pl ← load (parent + rb_left);
     if pl =? node then store (parent + rb_left) child
     else store (parent + rb_right) child
   else store (root + rb_node) child);;
  mret (child, parent, color).

(** The part of [rb_erase] for a node [old] with two children: its successor
    takes its place. *)
Definition rb_erase_two (old root : Z) : M (Z * Z * Z) :=
  right ← load (old + rb_right);
  node ← rb_leftmost right;
  po ← rb_parent old;
  (if negb (po =? NULL) then
     pl ← load (po + rb_left);
     if pl =? old then store (po + rb_left) node
     else store (po + rb_right) node
   else store (root + rb_node) node);;
  child ← load (node + rb_right);
  parent ← rb_parent node;
  color ← rb_color node;
  parent ←
    (if parent =? old then mret node
     else
       (if child =? NULL then mret tt else rb_set_parent child parent);;
       store (parent + rb_left) child;;
       or ← load (old + rb_right);
       store (node + rb_right) or;;
       or ← load (old + rb_right);
       rb_set_parent or node;;
       mret parent);
  pc ← load (old + rb_parent_color);
  store (node + rb_parent_color) pc;;
  ol ← load (old + rb_left);
  store (node + rb_left) ol;;
  ol ← load (old + rb_left);
  rb_set_parent ol node;;
  mret (child, parent, color).

Definition rb_erase (node root : Z) : M unit :=
  l ← load (node + rb_left);
  '(child, parent, color) ←
    (if l =? NULL then
       child ← load (node + rb_right); rb_erase_simple node child root
     else
       r ← load (node + rb_right);
       if r =? NULL then
         child ← load (node + rb_left); rb_erase_simple node child root
       else rb_erase_two node root);
  if color =? RB_BLACK then __rb_erase_color child parent root else mret tt.

Definition rb_first (root : Z) : M Z :=
  n ← load (root + rb_node);
  if n =? NULL then mret NULL else rb_leftmost n.

Definition rb_last (root : Z) : M Z :=
  n ← load (root + rb_node);
  if n =? NULL then mret NULL else rb_rightmost n.

Definition rb_next (node : Z) : M Z :=
  p ← rb_parent node;
  if p =? node then mret NULL else
  r ← load (node + rb_right);
  if negb (r =? NULL) then rb_leftmost r
  else
    loop (λ node,
      parent ← rb_parent node;
      if parent =? NULL then mret (inr parent) else
      pr ← load (parent + rb_right);
      mret (if node =? pr then inl parent else inr parent)) node.

Definition rb_prev (node : Z) : M Z :=
  p ← rb_parent node;
  if p =? node then mret NULL else
  l ← load (node + rb_left);
  if negb (l =? NULL) then rb_rightmost l
  else
    loop (λ node,
      parent ← rb_parent node;
      if parent =? NULL then mret (inr parent) else
      pl ← load (parent + rb_left);
      mret (if node =? pl then inl parent else inr parent)) node.

Definition rb_replace_node (victim new root : Z) : M unit :=
  parent ← rb_parent victim;
  (if negb (parent =? NULL) then
     pl ← load (parent + rb_left);
     if victim =? pl then store (parent + rb_left) new
     else store (parent + rb_right) new
   else store (root + rb_node) new);;
  vl ← load (victim + rb_left);
  (if vl =? NULL then mret tt else rb_set_parent vl new);;
  vr ← load (victim + rb_right);
  (if vr =? NULL then mret tt else rb_set_parent vr new);;
  pc ← load (victim + rb_parent_color);
  store (new + rb_parent_color) pc;;
  r ← load (victim + rb_right);
  store (new + rb_right) r;;
  l ← load (victim + rb_left);
  store (new + rb_left) l.
