(* ===== verification/RbModel.v ===== *)
(** * Red-black trees as mathematical objects

    What lib/rbtree.c represents: binary trees of node addresses with a colour,
    the order of their nodes, the red-black condition, and contexts (a tree with a
    hole, the path from the hole to the root), which is how the loops of the code
    see the tree.  Everything is stated for a side [d] and its mirror image
    at once. *)

From S2P Require Export Prelude.

Inductive color := Red | Black.

Inductive tree :=
  | Leaf
  | Node (c : color) (l : tree) (x : Z) (r : tree).

Inductive side := SL | SR.

Definition flip (d : side) : side := match d with SL => SR | SR => SL end.

#[global] Instance color_eq_dec : EqDecision color.
Proof. solve_decision. Defined.
#[global] Instance side_eq_dec : EqDecision side.
Proof. solve_decision. Defined.
#[global] Instance tree_eq_dec : EqDecision tree.
Proof. solve_decision. Defined.

(** The node whose child on the side [d] is [a] and whose other child is [b]. *)
Definition mk (d : side) (c : color) (a : tree) (x : Z) (b : tree) : tree :=
  match d with SL => Node c a x b | SR => Node c b x a end.

Definition root_of (t : tree) : Z :=
  match t with Leaf => NULL | Node _ _ x _ => x end.

Definition colour (t : tree) : color :=
  match t with Leaf => Black | Node c _ _ _ => c end.

Definition paint (c : color) (t : tree) : tree :=
  match t with Leaf => Leaf | Node _ l x r => Node c l x r end.

Fixpoint inorder (t : tree) : list Z :=
  match t with Leaf => [] | Node _ l x r => inorder l ++ x :: inorder r end.

(** A frame: a node [fkey] of colour [fcol] with a hole on the side [fside] and the
    tree [fsib] on the other. *)
Record frame := Frame { fside : side; fcol : color; fkey : Z; fsib : tree }.

#[global] Instance frame_eq_dec : EqDecision frame.
Proof. solve_decision. Defined.

(** Innermost frame first. *)
Abbreviation context := (list frame).

Definition plug1 (t : tree) (f : frame) : tree := mk (fside f) (fcol f) t (fkey f) (fsib f).

Definition plug (k : context) (t : tree) : tree := foldl plug1 t k.

(** The address of the parent of the hole. *)
Definition parent_of (k : context) : Z :=
  match k with [] => NULL | f :: _ => fkey f end.

Fixpoint before (k : context) : list Z :=
  match k with
  | [] => []
  | Frame SL _ _ _ :: k => before k
  | Frame SR _ x s :: k => before k ++ inorder s ++ [x]
  end.

Fixpoint after (k : context) : list Z :=
  match k with
  | [] => []
  | Frame SL _ x s :: k => x :: inorder s ++ after k
  | Frame SR _ _ _ :: k => after k
  end.

(** ** The order of the nodes *)

Lemma inorder_plug k t : inorder (plug k t) = before k ++ inorder t ++ after k.
Proof.
  revert t. induction k as [|[[] c x s] k IH]; intros t; simpl.
  - by rewrite app_nil_r.
  - rewrite IH. simpl. by rewrite <-!app_assoc.
  - rewrite IH. simpl. by rewrite <-!app_assoc.
Qed.

Lemma inorder_paint c t : inorder (paint c t) = inorder t.
Proof. by destruct t. Qed.

Lemma inorder_plug_eq k t t' : inorder t = inorder t' → inorder (plug k t) = inorder (plug k t').
Proof. intros H. by rewrite !inorder_plug, H. Qed.

Lemma inorder_mk_eq d c a x b c' a' b' :
  inorder a = inorder a' → inorder b = inorder b' →
  inorder (mk d c a x b) = inorder (mk d c' a' x b').
Proof. intros Ha Hb. destruct d; simpl; by rewrite Ha, Hb. Qed.

(** A rotation keeps the order, whatever happens to the colours. *)
Lemma inorder_rotate d c1 c2 c3 c4 a x b y e :
  inorder (mk d c1 (mk d c2 a x b) y e) = inorder (mk d c3 a x (mk d c4 b y e)).
Proof. destruct d; simpl; by rewrite <-!app_assoc. Qed.

Lemma root_of_paint c t : root_of (paint c t) = root_of t.
Proof. by destruct t. Qed.

Lemma root_of_mk d c a x b : root_of (mk d c a x b) = x.
Proof. by destruct d. Qed.

Lemma paint_mk c d c' a x b : paint c (mk d c' a x b) = mk d c a x b.
Proof. by destruct d. Qed.

Lemma colour_mk d c a x b : colour (mk d c a x b) = c.
Proof. by destruct d. Qed.

Lemma mk_flip d c a x b : mk (flip d) c a x b = mk d c b x a.
Proof. by destruct d. Qed.

Lemma flip_flip d : flip (flip d) = d.
Proof. by destruct d. Qed.

Lemma mk_view d c l x r : ∃ a b, Node c l x r = mk d c a x b.
Proof. destruct d; eauto. Qed.

(** ** The red-black condition

    [rb t c n]: no red node has a red child, [c] is the colour of the root of [t]
    (black for an empty tree) and every path down meets [n] black nodes. *)

Inductive rb : tree → color → nat → Prop :=
  | rb_leaf : rb Leaf Black 0
  | rb_red l x r n : rb l Black n → rb r Black n → rb (Node Red l x r) Red n
  | rb_black l x r c1 c2 n : rb l c1 n → rb r c2 n → rb (Node Black l x r) Black (S n).

(** [rbk k c n]: [k] is the context of a subtree of black height [n] in a red-black
    tree with a black root; [c] is the colour of the node above the hole. *)
Inductive rbk : context → color → nat → Prop :=
  | rbk_nil n : rbk [] Black n
  | rbk_red d x s k n : k ≠ [] → rbk k Black n → rb s Black n →
      rbk (Frame d Red x s :: k) Red n
  | rbk_black d x s k c c' n : rbk k c (S n) → rb s c' n →
      rbk (Frame d Black x s :: k) Black n.

(** A red-black tree. *)
Definition rb_wf (t : tree) : Prop := ∃ n, rb t Black n.

Create HintDb rbdb.
#[export] Hint Constructors rb rbk : rbdb.

Lemma rb_mk_red d a x b n : rb a Black n → rb b Black n → rb (mk d Red a x b) Red n.
Proof. destruct d; simpl; eauto with rbdb. Qed.

Lemma rb_mk_black d a x b c1 c2 n : rb a c1 n → rb b c2 n → rb (mk d Black a x b) Black (S n).
Proof. destruct d; simpl; eauto with rbdb. Qed.

Lemma rb_mk_inv d c a x b c' n : rb (mk d c a x b) c' n →
  c' = c ∧ match c with
           | Red => rb a Black n ∧ rb b Black n
           | Black => ∃ n' c1 c2, n = S n' ∧ rb a c1 n' ∧ rb b c2 n'
           end.
Proof. destruct d; simpl; intros H; inversion H; subst; eauto 10. Qed.

Lemma rb_mk_view d t n : rb t Red n →
  ∃ a x b, t = mk d Red a x b ∧ rb a Black n ∧ rb b Black n.
Proof. inversion 1; subst. destruct d; eauto 10. Qed.

Lemma rb_red_node t n : rb t Red n → t ≠ Leaf.
Proof. by inversion 1. Qed.

Lemma rb_colour t c n : rb t c n → c = colour t.
Proof. by inversion 1. Qed.

Lemma rb_colour_of t c n : rb t c n → rb t (colour t) n.
Proof. intros H. by rewrite <-(rb_colour _ _ _ H). Qed.

Lemma rb_paint_black t n : rb t Black n → paint Black t = t.
Proof. by inversion 1. Qed.

Lemma rb_paint_red t n : rb t Red n → rb (paint Black t) Black (S n).
Proof. inversion 1; subst; simpl; eauto with rbdb. Qed.

Lemma rb_black_node t c n : rb t c (S n) → ∃ c' l x r, t = Node c' l x r.
Proof. inversion 1; eauto. Qed.

#[export] Hint Resolve rb_mk_red rb_mk_black rb_colour_of : rbdb.

(** Filling the hole with a tree that fits. *)
Lemma rbk_plug k c n t c' : rbk k c n → rb t c' n → (c = Red → c' = Black) →
  (k = [] → c' = Black) → rb_wf (plug k t).
Proof.
  intros Hk. revert t c'. induction Hk as [n|d x s k n Hne Hk IH Hs|d x s k c c2 n Hk IH Hs];
    intros t c' Ht Hc Hn; simpl.
  - rewrite (Hn eq_refl) in Ht. by exists n.
  - rewrite (Hc eq_refl) in Ht. eapply IH; [by apply rb_mk_red|done|done].
  - eapply IH; [by eapply rb_mk_black|done|done].
Qed.

(** Taking a tree apart at a subtree. *)
Lemma rb_unplug k t c m : rb (plug k t) c m → c = Black →
  ∃ c1 c2 n, rbk k c1 n ∧ rb t c2 n ∧ (c1 = Red → c2 = Black) ∧ (k = [] → c2 = Black).
Proof.
  revert t. induction k as [|[d [] x s] k IH]; intros t Ht Hc; simpl in *.
  - subst c. exists Black, Black, m. eauto with rbdb.
  - destruct (IH _ Ht Hc) as (c1 & c2 & n & Hk & Hm & Hr & Hn).
    apply rb_mk_inv in Hm as (-> & Ha & Hb).
    exists Red, Black, n. split_and!; try done.
    apply rbk_red; [intros ->; by discriminate Hn| |done].
    destruct c1; [by discriminate Hr|done].
  - destruct (IH _ Ht Hc) as (c1 & c2 & n & Hk & Hm & Hr & Hn).
    apply rb_mk_inv in Hm as (-> & n' & c3 & c4 & -> & Ha & Hb).
    exists Black, c3, n'. split_and!; try done. by econstructor.
Qed.

Lemma plug_node k t : t ≠ Leaf → plug k t ≠ Leaf.
Proof.
  revert t. induction k as [|[[] c x s] k IH]; intros t Ht; [done| |]; simpl; by apply IH.
Qed.

(** Painting the root black repairs a red root. *)
Lemma rbk_paint_root k n t : rbk k Black n → rb t Red n → rb_wf (paint Black (plug k t)).
Proof.
  intros Hk Ht. destruct k as [|f k].
  - exists (S n). by apply rb_paint_red.
  - destruct (rbk_plug _ _ _ _ _ Hk Ht) as [m Hm]; [done|done|].
    rewrite (rb_paint_black _ m Hm). by exists m.
Qed.

(** The frames around a red node under a red node. *)
Lemma rbk_red_inv k n : rbk k Red n →
  ∃ d1 p s d g u k' c cu, k = Frame d1 Red p s :: Frame d Black g u :: k' ∧
    rb s Black n ∧ rb u cu n ∧ rbk k' c (S n).
Proof.
  inversion 1 as [|d1 p s k0 n' Hne Hk Hs|]; subst.
  inversion Hk as [| |d g u k' c cu n' Hk' Hu]; subst; [done|]. eauto 20.
Qed.

Lemma rbk_black_frame d c x s k n : rbk (Frame d c x s :: k) Black n → c = Black.
Proof. by inversion 1. Qed.

(** Rebuilding the node above the hole from two black trees. *)
Lemma rbk_rebuild d c x s k c0 n X z Y :
  rbk (Frame d c x s :: k) c0 n → rb X Black n → rb Y Black n → rb_wf (plug k (mk d c X z Y)).
Proof.
  intros Hk HX HY. change (rb_wf (plug (Frame d c z Y :: k) X)).
  eapply (rbk_plug _ c n); [|done|done|done].
  inversion Hk; subst; eauto with rbdb.
Qed.

Lemma rb_black_view d t n : rb t Black (S n) →
  ∃ a x b ca cb, t = mk d Black a x b ∧ rb a ca n ∧ rb b cb n.
Proof. inversion 1; subst. destruct d; eauto 10. Qed.

Lemma root_of_plug_in k t : k ≠ [] → root_of (plug k t) ∈ before k ++ after k.
Proof.
  revert t. induction k as [|f k IH]; intros t Hk; [done|].
  destruct (decide (k = [])) as [->|Hk'].
  - destruct f as [[] c x s]; simpl; set_solver.
  - specialize (IH (plug1 t f) Hk'). destruct f as [[] c x s]; simpl in *; set_solver.
Qed.

Lemma root_of_in t : t ≠ Leaf → root_of t ∈ inorder t.
Proof. destruct t; [done|]. simpl. set_solver. Qed.

(** The root of a proper subtree is not the root of the tree. *)
Lemma root_of_plug_ne k t : k ≠ [] → NoDup (inorder (plug k t)) → NULL ∉ inorder (plug k t) →
  root_of t ≠ root_of (plug k t).
Proof.
  rewrite inorder_plug. intros Hk Hd Hn Heq. pose proof (root_of_plug_in k t Hk) as Hin.
  rewrite <-Heq in Hin. destruct (decide (t = Leaf)) as [->|Ht].
  - simpl in Hin. set_solver.
  - pose proof (root_of_in t Ht). rewrite !NoDup_app in Hd. set_solver.
Qed.

(** ** Facts used by the deletion *)

Lemma plug_app j k t : plug (j ++ k) t = plug k (plug j t).
Proof. apply foldl_app. Qed.

Lemma before_left_spine j : Forall (λ f, fside f = SL) j → before j = [].
Proof. induction 1 as [|[d c x s] j Hd _ IH]; [done|]. simpl in *. by subst d. Qed.

Lemma after_right_spine j : Forall (λ f, fside f = SR) j → after j = [].
Proof. induction 1 as [|[d c x s] j Hd _ IH]; [done|]. simpl in *. by subst d. Qed.

(** Every node of a tree is the root of a subtree. *)
Lemma inorder_locate t x : x ∈ inorder t → ∃ k c l r, t = plug k (Node c l x r).
Proof.
  induction t as [|c l IHl y r IHr]; simpl; [by intros ?%elem_of_nil|].
  rewrite elem_of_app, elem_of_cons. intros [Hl|[->|Hr]].
  - destruct (IHl Hl) as (k & c' & l' & r' & ->).
    exists (k ++ [Frame SL c y r]), c', l', r'. by rewrite plug_app.
  - by exists [], c, l, r.
  - destruct (IHr Hr) as (k & c' & l' & r' & ->).
    exists (k ++ [Frame SR c y l]), c', l', r'. by rewrite plug_app.
Qed.

Lemma nodup_split {A} (x : A) xs ys xs' ys' :
  NoDup (xs ++ x :: ys) → xs ++ x :: ys = xs' ++ x :: ys' → xs = xs' ∧ ys = ys'.
Proof.
  revert xs'. induction xs as [|z xs IH]; intros [|z' xs']; simpl; rewrite NoDup_cons;
    intros [Hn Hd] [= ]; subst; [done| | |].
  - destruct Hn. set_solver.
  - destruct Hn. set_solver.
  - destruct (IH xs' Hd) as [-> ->]; done.
Qed.

(** The context of a node from its place in the order. *)
Lemma inorder_zipper t xs x ys : NoDup (inorder t) → inorder t = xs ++ x :: ys →
  ∃ k c l r, t = plug k (Node c l x r) ∧ xs = before k ++ inorder l ∧ ys = inorder r ++ after k.
Proof.
  intros Hd Ht. destruct (inorder_locate t x) as (k & c & l & r & ->); [rewrite Ht; set_solver|].
  exists k, c, l, r. split; [done|]. rewrite inorder_plug in Ht, Hd. simpl in Ht, Hd.
  assert (before k ++ (inorder l ++ x :: inorder r) ++ after k =
    (before k ++ inorder l) ++ x :: inorder r ++ after k) as E by (by rewrite <-!app_assoc).
  rewrite E in Ht, Hd. by destruct (nodup_split _ _ _ _ _ Hd Ht) as [-> ->].
Qed.

(** The red-black condition does not look at the addresses. *)
Lemma rbk_rekey j d c x y s k c1 n :
  rbk (j ++ Frame d c x s :: k) c1 n → rbk (j ++ Frame d c y s :: k) c1 n.
Proof.
  revert c1 n. induction j as [|f j IH]; intros c1 n Hk; simpl in *.
  - inversion Hk; subst; eauto with rbdb.
  - inversion Hk; subst; econstructor; eauto. by destruct j.
Qed.

(** Taking a red node with one child out of the tree, or a node that was below one. *)
Lemma rb_wf_hole k c n t : rbk k c n → rb t Black n → rb_wf (plug k t).
Proof. intros Hk Ht. by eapply rbk_plug. Qed.
