(* ===== verification/RbRep.v ===== *)
(** * Red-black trees in memory

    [zip root k t]: the tree [plug k t] is stored under the [struct rb_root] at
    [root], seen from its subtree [t].  The primitive operations of rbtree.h and the
    rotations of rbtree.c are specified on it; moving the focus is the
    equivalence [zip_cons]. *)

From S2P Require Export Rbtree RbModel.

(** ** The word that holds the parent and the colour *)

Definition cbit (c : color) : Z := match c with Red => RB_RED | Black => RB_BLACK end.

Definition pcol (par : Z) (c : color) : Z := par + cbit c.

(** Node addresses are multiples of four ([__attribute__((aligned(sizeof(long))))]). *)
Definition al (p : Z) : Prop := 0 ≤ p ∧ p `mod` 4 = 0.
Definition aligned (p : Z) : Prop := al p ∧ p ≠ NULL.

Lemma al_NULL : al NULL.
Proof. by unfold al, NULL. Qed.

Lemma cbit_range c : 0 ≤ cbit c < 2.
Proof. destruct c; unfold cbit, RB_RED, RB_BLACK; lia. Qed.

Lemma lor_cbit p c : al p → Z.lor p (cbit c) = pcol p c.
Proof.
  intros [Hp Hm]. unfold pcol. rw -Z.add_lor_land.
  replace (Z.land p (cbit c)) with 0; [lia|]. destruct c; simpl; [by rw Z.land_0_r|].
  change RB_BLACK with (Z.ones 1). rw Z.land_ones; [|lia].
  change (2 ^ 1) with 2. dlia.
Qed.

Lemma pcol_land3 p c : al p → Z.land (pcol p c) 3 = cbit c.
Proof.
  intros [Hp Hm]. change 3 with (Z.ones 2). rw Z.land_ones; [|lia]. change (2 ^ 2) with 4.
  pose proof (cbit_range c). unfold pcol. dlia.
Qed.

Lemma pcol_land1 p c : al p → Z.land (pcol p c) 1 = cbit c.
Proof.
  intros [Hp Hm]. change 1 with (Z.ones 1). rw Z.land_ones; [|lia]. change (2 ^ 1) with 2.
  pose proof (cbit_range c). unfold pcol. dlia.
Qed.

Lemma pcol_parent p c : al p → Z.land (pcol p c) (Z.lnot 3) = p.
Proof.
  intros [Hp Hm]. rw -Z.ldiff_land. change 3 with (Z.ones 2). rw Z.ldiff_ones_r; [|lia].
  rw Z.shiftl_mul_pow2 ?Z.shiftr_div_pow2; [|lia|lia]. change (2 ^ 2) with 4.
  pose proof (cbit_range c). unfold pcol. dlia.
Qed.

Lemma pcol_clear p c : al p → Z.land (pcol p c) (Z.lnot 1) = p.
Proof.
  intros [Hp Hm]. rw -Z.ldiff_land. change 1 with (Z.ones 1). rw Z.ldiff_ones_r; [|lia].
  rw Z.shiftl_mul_pow2 ?Z.shiftr_div_pow2; [|lia|lia]. change (2 ^ 1) with 2.
  pose proof (cbit_range c). unfold pcol. dlia.
Qed.

Lemma pcol_set_red p c : al p → Z.land (pcol p c) (Z.lnot 1) = pcol p Red.
Proof. intros H. rw pcol_clear; [|done]. unfold pcol; simpl. unfold RB_RED. lia. Qed.

Lemma pcol_set_black p c : al p → Z.lor (pcol p c) 1 = pcol p Black.
Proof.
  intros H. rw -(lor_cbit p c) -?(lor_cbit p Black); [|done|done].
  rw -Z.lor_assoc. by destruct c.
Qed.

Lemma pcol_set_color p c c' : al p → Z.lor (Z.land (pcol p c) (Z.lnot 1)) (cbit c') = pcol p c'.
Proof. intros H. rw pcol_clear; [|done]. by apply lor_cbit. Qed.

Lemma pcol_set_parent p c q : al p → al q → Z.lor (Z.land (pcol p c) 3) q = pcol q c.
Proof. intros Hp Hq. rw pcol_land3; [|done]. rw Z.lor_comm. by apply lor_cbit. Qed.

(** ** Trees and contexts *)

Definition off (d : side) : Z := match d with SL => rb_left | SR => rb_right end.

(** A node: its children on the side [d] and on the other side are [p] and [q]. *)
Definition hdr (d : side) (x par : Z) (c : color) (p q : Z) : heapProp :=
  ⌜aligned x ∧ al par⌝ ∗ (x + rb_parent_color) ↦ pcol par c ∗
  (x + off d) ↦ p ∗ (x + off (flip d)) ↦ q.

Fixpoint rbt (t : tree) (par : Z) : heapProp :=
  match t with
  | Leaf => emp
  | Node c l x r => hdr SL x par c (root_of l) (root_of r) ∗ rbt l x ∗ rbt r x
  end.

Fixpoint rbc (root : Z) (k : context) (p : Z) : heapProp :=
  match k with
  | [] => (root + rb_node) ↦ p
  | Frame d c x s :: k =>
      hdr d x (parent_of k) c p (root_of s) ∗ rbt s x ∗ rbc root k x
  end.

Definition zip (root : Z) (k : context) (t : tree) : heapProp :=
  rbc root k (root_of t) ∗ rbt t (parent_of k).

(** The tree [t] under [root]. *)
Definition rbtree (root : Z) (t : tree) : heapProp := zip root [] t.

Lemma hdr_flip d x par c p q : hdr (flip d) x par c p q ⊣⊢ hdr d x par c q p.
Proof. unfold hdr. rw flip_flip. iSplit; iIntros "($ & $ & $ & $)". Qed.

Lemma rbt_mk d c a x b par :
  rbt (mk d c a x b) par ⊣⊢ hdr d x par c (root_of a) (root_of b) ∗ rbt a x ∗ rbt b x.
Proof.
  destruct d; simpl; [done|]. rw -(hdr_flip SL). simpl.
  iSplit; iIntros "($ & $ & $)".
Qed.

Lemma zip_cons root f k t : zip root (f :: k) t ⊣⊢ zip root k (plug1 t f).
Proof.
  destruct f as [d c x s]. unfold zip, plug1. simpl. rw rbt_mk root_of_mk.
  iSplit; [iIntros "(($ & $ & $) & $)"|iIntros "($ & $ & $ & $)"].
Qed.

Lemma zip_plug root k t : zip root k t ⊣⊢ rbtree root (plug k t).
Proof. revert t. induction k as [|f k IH]; intros t; [done|]. rw zip_cons. apply IH. Qed.

(** The child of the focus on the side [d], and the other one. *)
Lemma zip_down root k d c a x b : zip root k (mk d c a x b) ⊣⊢ zip root (Frame d c x b :: k) a.
Proof. by rw zip_cons. Qed.

Lemma zip_down' root k d c a x b :
  zip root k (mk d c a x b) ⊣⊢ zip root (Frame (flip d) c x a :: k) b.
Proof. rw zip_cons. unfold plug1. simpl. by rw mk_flip. Qed.

(** The nodes of a tree are at different addresses. *)
Lemma rbt_nodes t par :
  rbt t par ⊢ ⌜Forall aligned (inorder t)⌝ ∗ [∗ list] x ∈ inorder t, ∃ v, (x + rb_parent_color) ↦ v.
Proof.
  revert par. induction t as [|c l IHl x r IHr]; intros par; simpl; [auto|].
  rw IHl IHr big_sepL_app. simpl. iIntros "(((%Ha & _) & Hx & _) & (%Hl & $) & (%Hr & $))".
  iFrame. iPureIntro. by apply Forall_app; split; [|constructor].
Qed.

Lemma cells_nodup xs : ([∗ list] x ∈ xs, ∃ v, (x + rb_parent_color) ↦ v) ⊢ ⌜NoDup xs⌝.
Proof.
  induction xs as [|x xs IH]; simpl; [iIntros "_"; iPureIntro; constructor|].
  iIntros "[(%v & Hx) Hxs]". iAssert ⌜x ∉ xs⌝%I as %Hn.
  { iIntros (Hin). apply list_elem_of_lookup in Hin as [i Hi].
    iDestruct (big_sepL_lookup _ _ _ _ Hi with "Hxs") as (w) "Hw".
    iApply (pt_excl with "Hx Hw"). }
  iDestruct (IH with "Hxs") as %Hd. iPureIntro. by constructor.
Qed.

Lemma zip_nodes root k t :
  zip root k t ⊢ ⌜NoDup (inorder (plug k t)) ∧ Forall aligned (inorder (plug k t))⌝.
Proof.
  rw zip_plug. iIntros "[_ H]". iDestruct (rbt_nodes with "H") as "[%Ha H]".
  iDestruct (cells_nodup with "H") as %Hd. done.
Qed.

Lemma rbc_cells root k p : rbc root k p ⊢ cells (S (length k)).
Proof.
  revert p. induction k as [|[d c x s] k IH]; intros p; simpl; [apply pt_cells|].
  rw IH. iIntros "((_ & Hx & _) & _ & Hk)". rw pt_cells. iApply (cells_add with "Hx Hk").
Qed.

Lemma zip_cells root k t : zip root k t ⊢ cells (S (length k)).
Proof. iIntros "[H _]". by iApply rbc_cells. Qed.

(** ** The primitives of rbtree.h on a node *)

Lemma rb_parent_pt x par c Q : al par →
  (x + rb_parent_color) ↦ pcol par c -∗ ((x + rb_parent_color) ↦ pcol par c -∗ Q par) -∗
  wp (rb_parent x) Q.
Proof. iIntros (Ha) "H HQ". unfold rb_parent. wp_load. rw pcol_parent; [|done]. by iApply "HQ". Qed.

Lemma rb_color_pt x par c Q : al par →
  (x + rb_parent_color) ↦ pcol par c -∗ ((x + rb_parent_color) ↦ pcol par c -∗ Q (cbit c)) -∗
  wp (rb_color x) Q.
Proof. iIntros (Ha) "H HQ". unfold rb_color. wp_load. rw pcol_land1; [|done]. by iApply "HQ". Qed.

(** ** The primitives of rbtree.h on the focus *)

Section prims.
Context (root : Z) (k : context) (d : side) (c : color) (a b : tree) (x : Z).
Abbreviation t := (mk d c a x b).

Lemma zip_mk : zip root k t ⊣⊢
  hdr d x (parent_of k) c (root_of a) (root_of b) ∗ rbc root k x ∗ rbt a x ∗ rbt b x.
Proof. unfold zip. rw root_of_mk rbt_mk. iSplit; iIntros "($ & $ & $ & $)". Qed.

Lemma rb_parent_wp Q : zip root k t -∗ (zip root k t -∗ Q (parent_of k)) -∗ wp (rb_parent x) Q.
Proof.
  rw zip_mk. iIntros "((%Ha & Hpc & Hd) & Hr) HQ". iApply (rb_parent_pt with "Hpc"); [apply Ha|].
  iIntros "Hpc". iApply "HQ". by iFrame.
Qed.

Lemma rb_color_wp Q : zip root k t -∗ (zip root k t -∗ Q (cbit c)) -∗ wp (rb_color x) Q.
Proof.
  rw zip_mk. iIntros "((%Ha & Hpc & Hd) & Hr) HQ". iApply (rb_color_pt with "Hpc"); [apply Ha|].
  iIntros "Hpc". iApply "HQ". by iFrame.
Qed.

Lemma rb_is_red_wp Q :
  zip root k t -∗ (zip root k t -∗ Q (bool_decide (c = Red))) -∗ wp (rb_is_red x) Q.
Proof.
  iIntros "Hz HQ". unfold rb_is_red. iApply wp_bind. iApply (rb_color_wp with "Hz").
  iIntros "Hz". wp_pures. destruct c; by iApply "HQ".
Qed.

Lemma rb_is_black_wp Q :
  zip root k t -∗ (zip root k t -∗ Q (bool_decide (c = Black))) -∗ wp (rb_is_black x) Q.
Proof.
  iIntros "Hz HQ". unfold rb_is_black. iApply wp_bind. iApply (rb_color_wp with "Hz").
  iIntros "Hz". wp_pures. destruct c; by iApply "HQ".
Qed.

Lemma rb_set_black_wp Q :
  zip root k t -∗ (zip root k (mk d Black a x b) -∗ Q tt) -∗ wp (rb_set_black x) Q.
Proof.
  rw zip_mk. iIntros "((%Ha & Hpc & Hd) & Hr) HQ". unfold rb_set_black. wp_load. wp_store.
  rw pcol_set_black; [|apply Ha]. iApply "HQ". unfold zip. rw root_of_mk rbt_mk.
  iDestruct "Hr" as "($ & $ & $)". by iFrame.
Qed.

Lemma rb_set_red_wp Q :
  zip root k t -∗ (zip root k (mk d Red a x b) -∗ Q tt) -∗ wp (rb_set_red x) Q.
Proof.
  rw zip_mk. iIntros "((%Ha & Hpc & Hd) & Hr) HQ". unfold rb_set_red. wp_load. wp_store.
  rw pcol_set_red; [|apply Ha]. iApply "HQ". unfold zip. rw root_of_mk rbt_mk.
  iDestruct "Hr" as "($ & $ & $)". by iFrame.
Qed.

Lemma rb_set_color_wp c' Q :
  zip root k t -∗ (zip root k (mk d c' a x b) -∗ Q tt) -∗ wp (rb_set_color x (cbit c')) Q.
Proof.
  rw zip_mk. iIntros "((%Ha & Hpc & Hd) & Hr) HQ". unfold rb_set_color. wp_load. wp_store.
  rw pcol_set_color; [|apply Ha]. iApply "HQ". unfold zip. rw root_of_mk rbt_mk.
  iDestruct "Hr" as "($ & $ & $)". by iFrame.
Qed.

Lemma load_child_wp Q :
  zip root k t -∗ (zip root k t -∗ Q (root_of a)) -∗ wp (load (x + off d)) Q.
Proof. rw zip_mk. iIntros "((%Ha & Hpc & Hd & Hf) & Hr) HQ". wp_load. iApply "HQ". by iFrame. Qed.

Lemma load_child'_wp Q :
  zip root k t -∗ (zip root k t -∗ Q (root_of b)) -∗ wp (load (x + off (flip d))) Q.
Proof. rw zip_mk. iIntros "((%Ha & Hpc & Hd & Hf) & Hr) HQ". wp_load. iApply "HQ". by iFrame. Qed.
End prims.

Lemma load_root_wp root k t Q :
  zip root k t -∗ (zip root k t -∗ Q (root_of (plug k t))) -∗ wp (load (root + rb_node)) Q.
Proof.
  rw zip_plug. iIntros "[H Ht] HQ". simpl. wp_load. iApply "HQ". iFrame.
Qed.

(** [rb_set_parent] on the root of a detached subtree. *)
Lemma rb_set_parent_wp t par par' Q : t ≠ Leaf → al par' →
  rbt t par -∗ (rbt t par' -∗ Q tt) -∗ wp (rb_set_parent (root_of t) par') Q.
Proof.
  intros Ht Hp. destruct t as [|c l x r]; [done|]. simpl.
  iIntros "((%Ha & Hpc & Hd) & Hr) HQ". unfold rb_set_parent. wp_load. wp_store.
  rw pcol_set_parent; [|apply Ha|done]. iApply "HQ". iFrame. by destruct Ha.
Qed.

Lemma rb_set_parent_null_wp t par par' Q : al par' →
  rbt t par -∗ (rbt t par' -∗ Q tt) -∗
  wp (if root_of t =? NULL then mret tt else rb_set_parent (root_of t) par') Q.
Proof.
  intros Hp. iIntros "Ht HQ". destruct t as [|c l x r]; [simpl; wp_pures; by iApply "HQ"|].
  iAssert ⌜x ≠ NULL⌝%I as %Hx; [iDestruct "Ht" as "((%Ha & _) & _)"; iPureIntro; apply Ha|].
  simpl. rw (proj2 (Z.eqb_neq _ _) Hx). by iApply (rb_set_parent_wp (Node c l x r) with "Ht").
Qed.

(** A subtree and a node outside it have different roots. *)
Lemma rbt_root_ne t par p v : p ≠ NULL → rbt t par -∗ (p + rb_parent_color) ↦ v -∗ ⌜p ≠ root_of t⌝.
Proof.
  intros Hp. destruct t as [|c l x r]; simpl; [auto|].
  iIntros "((_ & Hx & _) & _) Hv". iDestruct (pt_ne with "Hx Hv") as %Hne. iPureIntro. congruence.
Qed.

(** ** Exchanging the child of the context

    The code fragment by which rotations and [rb_erase] let the parent of a node
    point to another one. *)

Definition relink (d : side) (node new parent root : Z) : M unit :=
  if negb (parent =? NULL) then
    p ← load (parent + off d);
    if node =? p then store (parent + off d) new
    else store (parent + off (flip d)) new
  else store (root + rb_node) new.

Lemma relink_wp d root k p q v Q : p ≠ NULL →
  rbc root k p -∗ (p + rb_parent_color) ↦ v -∗
  (rbc root k q -∗ (p + rb_parent_color) ↦ v -∗ Q tt) -∗
  wp (relink d p q (parent_of k) root) Q.
Proof.
  iIntros (Hp) "Hk Hp HQ". unfold relink. destruct k as [|[d' c x s] k]; simpl.
  - wp_store. iApply ("HQ" with "Hk Hp").
  - iDestruct "Hk" as "((%Hx & Hpc & Hd & Hf) & Hs & Hk)".
    rw (proj2 (Z.eqb_neq x NULL)); [|apply Hx]. wp_pures.
    destruct (decide (d' = d)) as [->|Hd].
    + wp_load. wp_store. iApply ("HQ" with "[-Hp] Hp"). by iFrame.
    + assert (d = flip d') as -> by (by destruct d, d'). wp_load.
      iDestruct (rbt_root_ne with "Hs Hp") as %Hne; [done|].
      rw (proj2 (Z.eqb_neq _ _) Hne) flip_flip. wp_store. iApply ("HQ" with "[-Hp] Hp"). by iFrame.
Qed.

(** ** Rotations *)

(** Both rotations at once: [node] goes down on the side [d]. *)
Definition rotate (d : side) (node root : Z) : M unit :=
  up ← load (node + off (flip d));
  parent ← rb_parent node;
  m ← load (up + off d);
  store (node + off (flip d)) m;;
  (if m =? NULL then mret tt else l ← load (up + off d); rb_set_parent l node);;
  store (up + off d) node;;
  rb_set_parent up parent;;
  relink d node up parent root;;
  rb_set_parent node up.

Lemma rotate_left_eq : __rb_rotate_left = rotate SL.
Proof. reflexivity. Qed.

Lemma rotate_right_eq : __rb_rotate_right = rotate SR.
Proof. reflexivity. Qed.

Lemma rotate_wp d root k c1 c2 a x b y e Q :
  zip root k (mk d c1 a x (mk d c2 b y e)) -∗
  (zip root k (mk d c2 (mk d c1 a x b) y e) -∗ Q tt) -∗
  wp (rotate d x root) Q.
Proof.
  rw zip_mk root_of_mk rbt_mk.
  iIntros "((%Hx & Hxp & Hxa & Hxy) & Hk & Ha & (%Hy & Hyp & Hyb & Hye) & Hb & He) HQ".
  unfold rotate. wp_load. unfold rb_parent. wp_load. rw pcol_parent; [|apply Hx].
  wp_load. wp_store. iApply wp_bind.
  iAssert (wp (if root_of b =? NULL then mret tt
    else l ← load (y + off d); rb_set_parent l x) (λ _, ((y + off d) ↦ root_of b ∗ rbt b x)%I))
    with "[Hyb Hb]" as "Hw".
  { destruct b as [|cb lb z rb]; [simpl; wp_pures; iFrame|].
    iAssert ⌜z ≠ NULL⌝%I as %Hz; [iDestruct "Hb" as "((%Hz & _) & _)"; iPureIntro; apply Hz|].
    simpl root_of. rw (proj2 (Z.eqb_neq _ _) Hz). wp_load.
    iApply (rb_set_parent_wp (Node cb lb z rb) with "Hb"); [done|apply Hx|]. iIntros "$". iFrame. }
  iApply (wp_wand with "Hw"). iIntros ([]) "[Hyb Hb]".
  unfold rb_set_parent. wp_store. wp_load. wp_store. rw pcol_set_parent; [|apply Hy|apply Hx].
  iApply wp_bind. iApply (relink_wp with "Hk Hxp"); [apply Hx|]. iIntros "Hk Hxp".
  wp_load. wp_store. rw pcol_set_parent; [|apply Hx|apply Hy]. iApply "HQ".
  rw zip_mk root_of_mk rbt_mk. iFrame. iPureIntro. destruct Hx, Hy as [[]]. done.
Qed.

Lemma rotate_flip_wp d root k c1 c2 a x b y e Q :
  zip root k (mk d c1 (mk d c2 a x b) y e) -∗
  (zip root k (mk d c2 a x (mk d c1 b y e)) -∗ Q tt) -∗
  wp (rotate (flip d) y root) Q.
Proof.
  iIntros "Hz HQ". rw -(mk_flip d c1 e y (mk d c2 a x b)) -(mk_flip d c2 b x a).
  iApply (rotate_wp with "Hz"). rw !mk_flip. done.
Qed.

(** The children of a node are different unless both are missing. *)
Lemma zip_children_ne root k d c a x b : a ≠ Leaf ∨ b ≠ Leaf →
  zip root k (mk d c a x b) ⊢ ⌜root_of a ≠ root_of b⌝.
Proof.
  iIntros (Hne) "Hz". rw zip_mk. iDestruct "Hz" as "(_ & _ & Ha & Hb)".
  destruct a as [|ca al ax ar].
  - destruct b as [|cb bl bx br]; [by destruct Hne|]. iDestruct "Hb" as "((%Hx & _) & _)".
    iPureIntro. simpl. symmetry. apply Hx.
  - iDestruct "Ha" as "((%Hx & Hax & _) & _)".
    iDestruct (rbt_root_ne with "Hb Hax") as %?; [apply Hx|done].
Qed.

Lemma zip_root_ne root k d c a x b : zip root k (mk d c a x b) ⊢ ⌜x ≠ NULL⌝.
Proof. rw zip_mk. iIntros "((%Hx & _) & _)". iPureIntro. apply Hx. Qed.

Lemma rb_parent_root_wp root k t Q : t ≠ Leaf →
  zip root k t -∗ (zip root k t -∗ Q (parent_of k)) -∗ wp (rb_parent (root_of t)) Q.
Proof. intros Ht. destruct t as [|c l x r]; [done|]. apply (rb_parent_wp root k SL). Qed.
