(* ===== verification/RbInsert.v ===== *)
(** * Inserting into a red-black tree: rb_link_node and rb_insert_color *)

From S2P Require Export RbRep.

Lemma rb_nonnull_red_wp root k t Q :
  zip root k t -∗ (zip root k t -∗ Q (bool_decide (colour t = Red))) -∗
  wp (rb_nonnull_red (root_of t)) Q.
Proof.
  iIntros "Hz HQ". unfold rb_nonnull_red. iDestruct (zip_nodes with "Hz") as %[_ Hal].
  destruct t as [|c l x r]; [simpl; wp_pures; by iApply "HQ"|].
  assert (x ≠ NULL) as Hx.
  { rw inorder_plug in Hal. apply Forall_app in Hal as [_ Hal]. simpl in Hal.
    apply Forall_app in Hal as [Hal _]. apply Forall_app in Hal as [_ Hal].
    apply Forall_inv in Hal. apply Hal. }
  simpl. rw (proj2 (Z.eqb_neq _ _) Hx). by iApply (rb_is_red_wp _ _ SL c l r with "Hz").
Qed.

(** The two halves of the loop body of [rb_insert_color] at once: the parent is the
    child of the grandparent on the side [d]. *)
Definition ins_case (d : side) (root node parent gparent : Z) : M (Z + unit) :=
  uncle ← load (gparent + off (flip d));
  u ← rb_nonnull_red uncle;
  if (u : bool) then
    rb_set_black uncle;;
    rb_set_black parent;;
    rb_set_red gparent;;
    mret (inl gparent)
  else
    pr ← load (parent + off (flip d));
    '(node, parent) ←
      (if pr =? node then rotate d parent root;; mret (parent, node)
       else mret (node, parent));
    rb_set_black parent;;
    rb_set_red gparent;;
    rotate (flip d) gparent root;;
    mret (inl node).

Lemma rb_insert_color_step_eq root node :
  rb_insert_color_step root node =
    (parent ← rb_parent node;
     if parent =? NULL then mret (inr tt) else
     red ← rb_is_red parent;
     if negb red then mret (inr tt) else
     gparent ← rb_parent parent;
     gl ← load (gparent + rb_left);
     if parent =? gl then ins_case SL root node parent gparent
     else ins_case SR root node parent gparent).
Proof. reflexivity. Qed.

(** The loop invariant: the focus is a red node, and the only place where the tree may
    break the red-black condition is between it and its parent. *)
Definition ins_ok (xs : list Z) (k : context) (t : tree) : Prop :=
  ∃ c n, rbk k c n ∧ rb t Red n ∧ inorder (plug k t) = xs.

Definition ins_next (root : Z) (xs : list Z) (len : nat) (r : Z + unit) : heapProp :=
  ∃ k t, ⌜r = inl (root_of t)⌝ ∗ ⌜(length k < len)%nat⌝ ∗ ⌜ins_ok xs k t⌝ ∗ zip root k t.

Lemma rb_set_black_red_wp root k t n Q : rb t Red n →
  zip root k t -∗ (zip root k (paint Black t) -∗ Q tt) -∗ wp (rb_set_black (root_of t)) Q.
Proof. inversion 1; subst. by iApply (rb_set_black_wp _ _ SL). Qed.

(** A red uncle: the red moves up two levels. *)
Lemma ins_case_red_uncle d root k c n d1 s p u g t :
  rbk k c (S n) → rb s Black n → rb u Red n → rb t Red n →
  zip root k (mk d Black (mk d1 Red t p s) g u) ⊢
  wp (ins_case d root (root_of t) p g)
     (ins_next root (inorder (plug k (mk d Black (mk d1 Red t p s) g u))) (S (S (length k)))).
Proof.
  iIntros (Hk Hs Hu Ht) "Hz". unfold ins_case.
  iApply wp_bind. iApply (load_child'_wp with "Hz"). iIntros "Hz". rw zip_down'.
  iApply wp_bind. iApply (rb_nonnull_red_wp with "Hz"). iIntros "Hz".
  rw -(rb_colour _ _ _ Hu). rw (bool_decide_true (Red = Red)) //.
  iApply wp_bind. iApply (rb_set_black_red_wp with "Hz"); [done|]. iIntros "Hz".
  rw -zip_down' zip_down. iApply wp_bind. iApply (rb_set_black_wp with "Hz"). iIntros "Hz".
  rw -zip_down. iApply wp_bind. iApply (rb_set_red_wp with "Hz"). iIntros "Hz". wp_pures.
  iExists k, (mk d Red (mk d1 Black t p s) g (paint Black u)). iFrame.
  rw root_of_mk. iSplit; [done|]. iSplit; [iPureIntro; lia|]. iPureIntro.
  exists c, (S n). split_and!; [done|eauto using rb_paint_red with rbdb|].
  apply inorder_plug_eq, inorder_mk_eq; [by apply inorder_mk_eq|apply inorder_paint].
Qed.

(** A black uncle: one rotation if the node is the outer grandchild, two otherwise. *)
Definition ins_rotations (d : side) (root node parent gparent : Z) : M (Z + unit) :=
  pr ← load (parent + off (flip d));
  '(node, parent) ←
    (if pr =? node then rotate d parent root;; mret (parent, node)
     else mret (node, parent));
  rb_set_black parent;;
  rb_set_red gparent;;
  rotate (flip d) gparent root;;
  mret (inl node).

Lemma ins_rotations_outer d root k c n s p u g t :
  rbk k c (S n) → rb s Black n → rb u Black n → rb t Red n →
  zip root k (mk d Black (mk d Red t p s) g u) ⊢
  wp (ins_rotations d root (root_of t) p g)
     (ins_next root (inorder (plug k (mk d Black (mk d Red t p s) g u))) (S (S (length k)))).
Proof.
  iIntros (Hk Hs Hu Ht) "Hz". unfold ins_rotations. rw zip_down.
  iDestruct (zip_children_ne with "Hz") as %Hne; [left; by eapply rb_red_node|].
  iApply wp_bind. iApply (load_child'_wp with "Hz"). iIntros "Hz".
  rw (proj2 (Z.eqb_neq (root_of s) _)) //. wp_pures.
  iApply wp_bind. iApply (rb_set_black_wp with "Hz"). iIntros "Hz".
  rw -zip_down. iApply wp_bind. iApply (rb_set_red_wp with "Hz"). iIntros "Hz".
  iApply wp_bind. iApply (rotate_flip_wp with "Hz"). iIntros "Hz". wp_pures.
  iExists (Frame d Black p (mk d Red s g u) :: k), t. rw zip_down. iFrame. iPureIntro.
  simpl. split_and!; [done|lia|]. exists Black, n. split_and!; [by eauto with rbdb|done|].
  apply (inorder_plug_eq k (mk d Black t p (mk d Red s g u))). symmetry. apply inorder_rotate.
Qed.

Lemma ins_rotations_inner d root k c n s p u g t :
  rbk k c (S n) → rb s Black n → rb u Black n → rb t Red n →
  zip root k (mk d Black (mk d Red s p t) g u) ⊢
  wp (ins_rotations d root (root_of t) p g)
     (ins_next root (inorder (plug k (mk d Black (mk d Red s p t) g u))) (S (S (length k)))).
Proof.
  iIntros (Hk Hs Hu Ht) "Hz". unfold ins_rotations. rw zip_down.
  iApply wp_bind. iApply (load_child'_wp with "Hz"). iIntros "Hz". wp_pures.
  destruct (rb_mk_view d _ _ Ht) as (a & x & b & -> & Ha & Hb).
  iApply wp_bind. iApply (rotate_wp with "Hz"). iIntros "Hz". wp_pures. rw root_of_mk.
  iApply wp_bind. iApply (rb_set_black_wp with "Hz"). iIntros "Hz".
  rw -zip_down. iApply wp_bind. iApply (rb_set_red_wp with "Hz"). iIntros "Hz".
  iApply wp_bind. iApply (rotate_flip_wp with "Hz"). iIntros "Hz". wp_pures.
  iExists (Frame d Black x (mk d Red b g u) :: k), (mk d Red s p a).
  rw root_of_mk zip_down. iFrame. iPureIntro.
  simpl. split_and!; [done|lia|]. exists Black, n. split_and!; [by eauto with rbdb|by eauto with rbdb|].
  apply (inorder_plug_eq k (mk d Black (mk d Red s p a) x (mk d Red b g u))).
  rw -(inorder_rotate d Red Black). apply inorder_mk_eq; [apply inorder_rotate|done].
Qed.

Lemma ins_case_black_uncle d root k c n d1 s p u g t :
  rbk k c (S n) → rb s Black n → rb u Black n → rb t Red n →
  zip root k (mk d Black (mk d1 Red t p s) g u) ⊢
  wp (ins_case d root (root_of t) p g)
     (ins_next root (inorder (plug k (mk d Black (mk d1 Red t p s) g u))) (S (S (length k)))).
Proof.
  iIntros (Hk Hs Hu Ht) "Hz". unfold ins_case.
  iApply wp_bind. iApply (load_child'_wp with "Hz"). iIntros "Hz". rw zip_down'.
  iApply wp_bind. iApply (rb_nonnull_red_wp with "Hz"). iIntros "Hz".
  rw -(rb_colour _ _ _ Hu). rw (bool_decide_false (Black = Red)) //.
  rw -zip_down' zip_down. rw -zip_down.
  destruct (decide (d1 = d)) as [->|Hd]; [by iApply (ins_rotations_outer with "Hz")|].
  assert (d1 = flip d) as -> by (by destruct d, d1). rw mk_flip.
  by iApply (ins_rotations_inner with "Hz").
Qed.

Lemma ins_case_wp d root k c n d1 s p u g t cu :
  rbk k c (S n) → rb s Black n → rb u cu n → rb t Red n →
  zip root k (mk d Black (mk d1 Red t p s) g u) ⊢
  wp (ins_case d root (root_of t) p g)
     (ins_next root (inorder (plug k (mk d Black (mk d1 Red t p s) g u))) (S (S (length k)))).
Proof.
  intros Hk Hs Hu Ht. destruct cu; [by eapply ins_case_red_uncle|by eapply ins_case_black_uncle].
Qed.

(** Under a red parent. *)
Lemma ins_step_red root k c n d1 s p d u g t cu :
  rbk k c (S n) → rb s Black n → rb u cu n → rb t Red n →
  zip root (Frame d1 Red p s :: Frame d Black g u :: k) t ⊢
  wp (rb_insert_color_step root (root_of t))
     (ins_next root (inorder (plug k (mk d Black (mk d1 Red t p s) g u))) (S (S (length k)))).
Proof.
  iIntros (Hk Hs Hu Ht) "Hz". rw rb_insert_color_step_eq.
  iApply wp_bind. iApply (rb_parent_root_wp with "Hz"); [by eapply rb_red_node|].
  iIntros "Hz". rw zip_cons. unfold plug1; simpl.
  iDestruct (zip_root_ne with "Hz") as %Hp. rw (proj2 (Z.eqb_neq _ _) Hp).
  iApply wp_bind. iApply (rb_is_red_wp with "Hz"). iIntros "Hz". simpl.
  iApply wp_bind. iApply (rb_parent_wp with "Hz"). iIntros "Hz". simpl.
  rw zip_cons. unfold plug1; simpl. iApply wp_bind. destruct d.
  - iApply (load_child_wp _ _ SL with "Hz"). iIntros "Hz". rw root_of_mk Z.eqb_refl.
    by iApply (ins_case_wp with "Hz").
  - iDestruct (zip_children_ne with "Hz") as %Hne; [left; by destruct d1|].
    rw root_of_mk in Hne.
    iApply (load_child'_wp _ _ SR with "Hz"). iIntros "Hz". rw (proj2 (Z.eqb_neq _ _) Hne).
    by iApply (ins_case_wp with "Hz").
Qed.

(** Under a black parent, or at the root, the loop stops. *)
Lemma ins_step_black root k n t : rbk k Black n → rb t Red n →
  zip root k t ⊢ wp (rb_insert_color_step root (root_of t)) (λ r, ⌜r = inr tt⌝ ∗ zip root k t).
Proof.
  iIntros (Hk Ht) "Hz". rw rb_insert_color_step_eq.
  iApply wp_bind. iApply (rb_parent_root_wp with "Hz"); [by eapply rb_red_node|].
  iIntros "Hz". destruct k as [|[d c p s] k]; [simpl; wp_pures; by iFrame|].
  pose proof (rbk_black_frame _ _ _ _ _ _ Hk) as ->.
  iEval (rw zip_cons /plug1 /=) in "Hz".
  iDestruct (zip_root_ne with "Hz") as %Hp. rw (proj2 (Z.eqb_neq _ _) Hp).
  iApply wp_bind. iApply (rb_is_red_wp with "Hz"). iIntros "Hz". simpl. wp_pures.
  iSplit; [done|]. by rw zip_cons.
Qed.

Lemma rb_insert_color_wp root xs k t Q : ins_ok xs k t →
  zip root k t -∗
  (∀ t', ⌜inorder t' = xs ∧ rb_wf t'⌝ -∗ rbtree root t' -∗ Q tt) -∗
  wp (rb_insert_color (root_of t) root) Q.
Proof.
  iIntros (Hok) "Hz HQ". unfold rb_insert_color. iApply wp_bind.
  iApply (wp_wand with "[Hz]").
  { iApply (wp_loop _ (λ n node, ∃ k t, ⌜node = root_of t ∧ n = length k ∧ ins_ok xs k t⌝ ∗ zip root k t)%I
      (λ _, ∃ k t n, ⌜rbk k Black n ∧ rb t Red n ∧ inorder (plug k t) = xs⌝ ∗ zip root k t)%I (length k)).
    3: { iExists k, t. by iFrame. }
    - iIntros "H". iDestruct "H" as (k' t' (_ & Hn & _)) "Hz". rw zip_cells.
      iApply (cells_le with "Hz"). lia.
    - clear. intros m node. iIntros "H".
      iDestruct "H" as (k t (-> & -> & c & n & Hk & Ht & Hxs)) "Hz". destruct c.
      + destruct (rbk_red_inv _ _ Hk) as (d1 & p & s & d & g & u & k' & c & cu & -> & Hs & Hu & Hk').
        iApply (wp_wand with "[Hz]"); [by iApply (ins_step_red with "Hz")|].
        iIntros (r) "H". iDestruct "H" as (k2 t2 -> Hlen Hok) "Hz".
        iExists (length k2). iSplit; [done|]. iExists k2, t2. iFrame. iPureIntro. split_and!; try done.
        by rw -Hxs.
      + iApply (wp_wand with "[Hz]"); [by iApply (ins_step_black with "Hz")|].
        iIntros (r) "[-> Hz]". iExists k, t, n. by iFrame. }
  iIntros ([]) "H". iDestruct "H" as (k' t' n (Hk & Ht & Hxs)) "Hz".
  iApply wp_bind. iApply (load_root_wp with "Hz"). iIntros "Hz".
  pose proof (rbk_paint_root _ _ _ Hk Ht) as Hwf.
  pose proof (plug_node k' t' (rb_red_node _ _ Ht)) as Hne.
  rw zip_plug. destruct (plug k' t') as [|c l x r] eqn:E; [done|]. simpl in *.
  iApply (rb_set_black_wp root [] SL with "Hz"). iIntros "Hz". iApply ("HQ" with "[] Hz"). done.
Qed.

(** ** Linking a new leaf *)

(** The cell that points to the hole of a context: what [struct rb_node **] walks
    over. *)
Definition slot (root : Z) (k : context) : Z :=
  match k with [] => root + rb_node | f :: _ => fkey f + off (fside f) end.

(** A node that is in no tree. *)
Definition rb_free (x : Z) : heapProp :=
  ⌜aligned x⌝ ∗ (∃ v, (x + rb_parent_color) ↦ v) ∗ (∃ v, (x + rb_right) ↦ v) ∗
  (∃ v, (x + rb_left) ↦ v).

Lemma rbc_slot root k p :
  rbc root k p ⊢ ⌜al (parent_of k)⌝ ∗ slot root k ↦ p ∗ (∀ q, slot root k ↦ q -∗ rbc root k q).
Proof.
  destruct k as [|[d c x s] k]; simpl; iIntros "H".
  - iFrame. iSplit; [iPureIntro; apply al_NULL|auto].
  - iDestruct "H" as "((%Ha & Hpc & $ & Hf) & Hs & Hk)". iSplit; [iPureIntro; apply Ha|].
    iIntros (q) "Hq". by iFrame.
Qed.

Lemma rb_link_node_wp root k x Q :
  zip root k Leaf -∗ rb_free x -∗ (zip root k (Node Red Leaf x Leaf) -∗ Q tt) -∗
  wp (rb_link_node x (parent_of k) (slot root k)) Q.
Proof.
  iIntros "[Hk _] (%Hx & (%v & Hp) & (%w & Hr) & (%u & Hl)) HQ". unfold rb_link_node.
  iDestruct (rbc_slot with "Hk") as "(%Hal & Hs & Hk)".
  wp_store. wp_store. wp_store. wp_store. iApply "HQ". iSplitL "Hk Hs"; [by iApply "Hk"|].
  simpl. unfold hdr, pcol. simpl. unfold RB_RED. rw Z.add_0_r. by iFrame.
Qed.

Lemma rb_insert_wp root k x Q : rb_wf (plug k Leaf) →
  rbtree root (plug k Leaf) -∗ rb_free x -∗
  (∀ t', ⌜inorder t' = before k ++ x :: after k ∧ rb_wf t'⌝ -∗ rbtree root t' -∗ Q tt) -∗
  wp (rb_link_node x (parent_of k) (slot root k);; rb_insert_color x root) Q.
Proof.
  iIntros ([m Hwf]) "Hz Hx HQ". rw -zip_plug.
  destruct (rb_unplug _ _ _ _ Hwf eq_refl) as (c1 & c2 & n & Hk & Hl & _).
  assert (n = 0%nat) as -> by (by inversion Hl).
  iApply wp_bind. iApply (rb_link_node_wp with "Hz Hx"). iIntros "Hz".
  iApply (rb_insert_color_wp _ _ _ (Node Red Leaf x Leaf) with "Hz HQ").
  exists c1, 0%nat. split_and!; [done|eauto with rbdb|]. by rw inorder_plug.
Qed.
