(* ===== verification/RbErase.v ===== *)
(** * Deleting from a red-black tree: __rb_erase_color and rb_erase *)

From S2P Require Export RbInsert.

(** ** The loop body, for both sides at once

    The hole of the missing black is the child of [parent] on the side [d], and
    [other] its sibling. *)

(** The far child of [other] is red. *)
Definition erase_far (d : side) (root parent other : Z) : M (Z * Z + Z) :=
  c ← rb_color parent;
  rb_set_color other c;;
  rb_set_black parent;;
  far ← load (other + off (flip d));
  rb_set_black far;;
  rotate d parent root;;
  n ← load (root + rb_node);
  mret (inr n).

(** [other] is black. *)
Definition erase_black_sibling (d : side) (root parent other : Z) : M (Z * Z + Z) :=
  ol ← load (other + rb_left);
  bl ← rb_null_or_black ol;
  br ← (if (bl : bool) then or ← load (other + rb_right); rb_null_or_black or else mret false);
  if (br : bool) then
    rb_set_red other;;
    pp ← rb_parent parent;
    mret (inl (parent, pp))
  else
    far ← load (other + off (flip d));
    bf ← rb_null_or_black far;
    other ←
      (if (bf : bool) then
         near ← load (other + off d);
         rb_set_black near;;
         rb_set_red other;;
         rotate (flip d) other root;;
         load (parent + off (flip d))
       else mret other);
    erase_far d root parent other.

Definition erase_case (d : side) (root parent : Z) : M (Z * Z + Z) :=
  other ← load (parent + off (flip d));
  red ← rb_is_red other;
  other ←
    (if (red : bool) then
       rb_set_black other;;
       rb_set_red parent;;
       rotate d parent root;;
       load (parent + off (flip d))
     else mret other);
  erase_black_sibling d root parent other.

Lemma rb_erase_color_step_eq root node parent :
  rb_erase_color_step root (node, parent) =
    (b ← rb_null_or_black node;
     if negb b then mret (inr node) else
     rn ← load (root + rb_node);
     if node =? rn then mret (inr node) else
     pl ← load (parent + rb_left);
     if pl =? node then erase_case SL root parent else erase_case SR root parent).
Proof. reflexivity. Qed.

(** ** Tests on the children of a node *)

Lemma rb_null_or_black_wp root k t Q :
  zip root k t -∗ (zip root k t -∗ Q (bool_decide (colour t = Black))) -∗
  wp (rb_null_or_black (root_of t)) Q.
Proof.
  iIntros "Hz HQ". unfold rb_null_or_black.
  destruct t as [|c l x r]; [simpl; wp_pures; by iApply "HQ"|].
  iDestruct (zip_root_ne root k SL c l x r with "Hz") as %Hx.
  simpl. rw (proj2 (Z.eqb_neq _ _) Hx). by iApply (rb_is_black_wp _ _ SL c l r with "Hz").
Qed.

(** The children of the focus, by the names of the code. *)
Lemma both_black_wp {B} root k d c a x b (K : bool → M B) Q :
  zip root k (mk d c a x b) -∗
  (zip root k (mk d c a x b) -∗ wp (K (bool_decide (colour a = Black ∧ colour b = Black))) Q) -∗
  wp (ol ← load (x + rb_left);
      bl ← rb_null_or_black ol;
      br ← (if (bl : bool) then or ← load (x + rb_right); rb_null_or_black or else mret false);
      K br) Q.
Proof.
  assert (∀ c a b, zip root k (mk SL c a x b) -∗
    (zip root k (mk SL c a x b) -∗ wp (K (bool_decide (colour a = Black ∧ colour b = Black))) Q) -∗
    wp (ol ← load (x + rb_left);
      bl ← rb_null_or_black ol;
      br ← (if (bl : bool) then or ← load (x + rb_right); rb_null_or_black or else mret false);
      K br) Q) as H.
  { clear. iIntros (c a b) "Hz HQ". iApply wp_bind. iApply (load_child_wp _ _ SL with "Hz").
    iIntros "Hz". iEval (rw zip_down) in "Hz". iApply wp_bind.
    iApply (rb_null_or_black_wp with "Hz"). iIntros "Hz". iEval (rw -zip_down) in "Hz".
    destruct (bool_decide (colour a = Black)) eqn:Ha;
      [apply bool_decide_eq_true in Ha|apply bool_decide_eq_false in Ha].
    - wp_pures. iApply wp_bind. iApply (load_child'_wp _ _ SL with "Hz").
      iIntros "Hz". iEval (rw zip_down') in "Hz". iApply wp_bind.
      iApply (rb_null_or_black_wp with "Hz"). iIntros "Hz". iEval (rw -zip_down') in "Hz".
      rw (bool_decide_ext (colour b = Black) (colour a = Black ∧ colour b = Black));
        [by iApply "HQ"|tauto].
    - wp_pures. rw (bool_decide_false (colour a = Black ∧ colour b = Black));
        [by iApply "HQ"|tauto]. }
  destruct d; [apply H|].
  rw (bool_decide_ext (colour a = Black ∧ colour b = Black) (colour b = Black ∧ colour a = Black));
    [apply (H c b a)|tauto].
Qed.

(** ** The loop invariant

    The subtree in focus is one black short, or it is red and painting it black
    repairs the tree. *)

Definition del_ok (xs : list Z) (k : context) (t : tree) : Prop :=
  inorder (plug k t) = xs ∧
  match colour t with
  | Black => ∃ c n, rbk k c (S n) ∧ rb t Black n
  | Red => rb_wf (plug k (paint Black t))
  end.

(** The result of the loop: painting the node it ends with black repairs the tree. *)
Definition del_done (root : Z) (xs : list Z) (node : Z) : heapProp :=
  ∃ k t, ⌜node = root_of t ∧ inorder (plug k t) = xs ∧ rb_wf (plug k (paint Black t))⌝ ∗ zip root k t.

(** The outcome of a round that works on a hole below [k]. *)
Definition del_out (root : Z) (xs : list Z) (k : context) (c : color) (r : Z * Z + Z) : heapProp :=
  match r with
  | inl s => ∃ t, ⌜s = (root_of t, parent_of k) ∧ colour t = c ∧ del_ok xs k t⌝ ∗ zip root k t
  | inr node => del_done root xs node
  end.

Lemma erase_far_wp d root k c c0 n t p s a b cb : rbk (Frame d c p s :: k) c0 (S n) →
  rb t Black n → rb a cb n → rb b Red n → ∀ x cx,
  zip root k (mk d c t p (mk d cx a x b)) ⊢
  wp (erase_far d root p x)
     (del_out root (inorder (plug k (mk d c t p (mk d cx a x b)))) k c).
Proof.
  iIntros (Hk Ht Ha Hb x cx) "Hz". unfold erase_far.
  iApply wp_bind. iApply (rb_color_wp with "Hz"). iIntros "Hz". iEval (rw zip_down') in "Hz".
  iApply wp_bind. iApply (rb_set_color_wp with "Hz"). iIntros "Hz". iEval (rw -zip_down') in "Hz".
  iApply wp_bind. iApply (rb_set_black_wp with "Hz"). iIntros "Hz". iEval (rw zip_down') in "Hz".
  iApply wp_bind. iApply (load_child'_wp with "Hz"). iIntros "Hz". iEval (rw zip_down') in "Hz".
  iApply wp_bind. iApply (rb_set_black_red_wp with "Hz"); [done|]. iIntros "Hz".
  iEval (rw -!zip_down') in "Hz".
  iApply wp_bind. iApply (rotate_wp with "Hz"). iIntros "Hz".
  iApply wp_bind. iApply (load_root_wp with "Hz"). iIntros "Hz". wp_pures.
  iEval (rw zip_plug) in "Hz". iExists [], _. iFrame. iPureIntro.
  assert (rb_wf (plug k (mk d c (mk d Black t p a) x (paint Black b)))) as [m Hm].
  { eapply rbk_rebuild; [done|by eapply rb_mk_black|by apply rb_paint_red]. }
  split_and!; [done| |].
  - apply (inorder_plug_eq k). etrans; [apply (inorder_rotate d c Black c cx)|].
    apply inorder_mk_eq; [done|]. apply inorder_mk_eq; [done|apply inorder_paint].
  - simpl. rw (rb_paint_black _ _ Hm). by exists m.
Qed.

(** Both children of the sibling are black: the missing black moves up. *)
Lemma del_ok_up d c p s0 k c0 n t a s b xs : rbk (Frame d c p s0 :: k) c0 (S n) →
  rb t Black n → rb a Black n → rb b Black n →
  inorder (plug k (mk d c t p (mk d Black a s b))) = xs →
  del_ok xs k (mk d c t p (mk d Red a s b)).
Proof.
  intros Hk Ht Ha Hb <-. split.
  { apply inorder_plug_eq, inorder_mk_eq; [done|]. by apply inorder_mk_eq. }
  rw colour_mk. inversion Hk; subst.
  - rw paint_mk. eapply rbk_plug; [done|by eauto with rbdb|done|done].
  - eauto 10 with rbdb.
Qed.

Lemma erase_black_sibling_wp d root k c c0 n t p s0 a s b ca cb :
  rbk (Frame d c p s0 :: k) c0 (S n) → rb t Black n → rb a ca n → rb b cb n →
  zip root k (mk d c t p (mk d Black a s b)) ⊢
  wp (erase_black_sibling d root p s)
     (del_out root (inorder (plug k (mk d c t p (mk d Black a s b)))) k c).
Proof.
  iIntros (Hk Ht Ha Hb) "Hz". unfold erase_black_sibling. iEval (rw zip_down') in "Hz".
  iApply (both_black_wp with "Hz"). iIntros "Hz".
  case_bool_decide as Hc.
  - destruct Hc as [Hca Hcb].
    assert (ca = Black) as -> by (rw -Hca; by eapply rb_colour).
    assert (cb = Black) as -> by (rw -Hcb; by eapply rb_colour).
    iApply wp_bind. iApply (rb_set_red_wp with "Hz"). iIntros "Hz". iEval (rw -zip_down') in "Hz".
    iApply wp_bind. iApply (rb_parent_wp with "Hz"). iIntros "Hz". wp_pures.
    iExists (mk d c t p (mk d Red a s b)). iFrame. iPureIntro. rw root_of_mk colour_mk.
    split_and!; [done|done|]. by eapply del_ok_up.
  - iApply wp_bind. iApply (load_child'_wp with "Hz"). iIntros "Hz". iEval (rw zip_down') in "Hz".
    iApply wp_bind. iApply (rb_null_or_black_wp with "Hz"). iIntros "Hz".
    iEval (rw -zip_down') in "Hz". iApply wp_bind. case_bool_decide as Hcb.
    + assert (cb = Black) as -> by (rw -Hcb; by eapply rb_colour).
      assert (ca = Red) as ->. { destruct ca; [done|]. destruct Hc. split; [|done]. symmetry. by eapply rb_colour. }
      destruct (rb_mk_view d _ _ Ha) as (a1 & x & a2 & -> & Ha1 & Ha2).
      iApply wp_bind. iApply (load_child_wp with "Hz"). iIntros "Hz". iEval (rw zip_down) in "Hz".
      rw root_of_mk. iApply wp_bind. iApply (rb_set_black_wp with "Hz"). iIntros "Hz".
      iEval (rw -zip_down) in "Hz". iApply wp_bind. iApply (rb_set_red_wp with "Hz"). iIntros "Hz".
      iApply wp_bind. iApply (rotate_flip_wp with "Hz"). iIntros "Hz".
      iEval (rw -zip_down') in "Hz". iApply (load_child'_wp with "Hz"). iIntros "Hz". rw root_of_mk.
      rw (inorder_plug_eq k (mk d c t p (mk d Black (mk d Red a1 x a2) s b))
        (mk d c t p (mk d Black a1 x (mk d Red a2 s b)))).
      2: { apply inorder_mk_eq; [done|apply inorder_rotate]. }
      iApply (erase_far_wp with "Hz"); eauto with rbdb.
    + assert (cb = Red) as ->. { destruct cb; [done|]. destruct Hcb. symmetry. by eapply rb_colour. }
      wp_pures. iEval (rw -zip_down') in "Hz". by iApply (erase_far_wp with "Hz").
Qed.

(** The number of rounds that may follow. *)
Definition del_rounds (k : context) (t : tree) : nat :=
  match colour t with Red => 0 | Black => S (length k) end.

Definition del_next (root : Z) (xs : list Z) (m : nat) (r : Z * Z + Z) : heapProp :=
  match r with
  | inl s => ∃ k t, ⌜s = (root_of t, parent_of k) ∧ (del_rounds k t < m)%nat ∧ del_ok xs k t⌝ ∗ zip root k t
  | inr node => del_done root xs node
  end.

Lemma del_out_next root xs k c m r : c = Red ∧ (0 < m)%nat ∨ (S (length k) < m)%nat →
  del_out root xs k c r ⊢ del_next root xs m r.
Proof.
  intros Hm. destruct r as [s|node]; simpl; [|done].
  iIntros "(%t & (-> & %Hc & %Hok) & Hz)". iExists k, t. iFrame. iPureIntro. split_and!; [done| |done].
  unfold del_rounds. destruct (colour t); [lia|]. destruct Hm as [[-> _]|]; [done|lia].
Qed.

Lemma erase_case_wp d root k c c0 n t p s0 :
  rbk (Frame d c p s0 :: k) c0 (S n) → rb t Black n →
  zip root (Frame d c p s0 :: k) t ⊢
  wp (erase_case d root p)
     (del_next root (inorder (plug (Frame d c p s0 :: k) t)) (S (S (length k)))).
Proof.
  iIntros (Hk Ht) "Hz". unfold erase_case. iEval (rw -zip_down) in "Hz".
  assert (∃ cs, rb s0 cs (S n)) as [cs Hs] by (inversion Hk; eauto).
  iApply wp_bind. iApply (load_child'_wp with "Hz"). iIntros "Hz". iEval (rw zip_down') in "Hz".
  destruct cs.
  - destruct (rb_mk_view d _ _ Hs) as (a & s & b & -> & Ha & Hb).
    assert (c = Black) as ->. { inversion Hk as [|?????? _ Hs'|]; subst; [|done]. by apply rb_mk_inv in Hs' as [? _]. }
    inversion Hk as [| |?????? ? Hk' _]; subst.
    rw root_of_mk. iApply wp_bind. iApply (rb_is_red_wp with "Hz"). iIntros "Hz".
    rw (bool_decide_true (Red = Red)) //. iApply wp_bind. iApply wp_bind. iApply (rb_set_black_wp with "Hz"). iIntros "Hz".
    iEval (rw -zip_down') in "Hz". iApply wp_bind. iApply (rb_set_red_wp with "Hz"). iIntros "Hz".
    iApply wp_bind. iApply (rotate_wp with "Hz"). iIntros "Hz".
    iEval (rw zip_down) in "Hz". iApply (load_child'_wp with "Hz"). iIntros "Hz".
    destruct (rb_black_view d _ _ Ha) as (a1 & x & a2 & ca1 & ca2 & -> & Ha1 & Ha2).
    rw root_of_mk. iApply (wp_wand with "[Hz]").
    { iApply (erase_black_sibling_wp with "Hz"); [|done|done|done].
      apply (rbk_red _ _ (mk d Black a1 x a2)); [done|by eauto with rbdb|by eauto with rbdb]. }
    assert (inorder (plug (Frame d Black s b :: k) (mk d Red t p (mk d Black a1 x a2))) =
      inorder (plug (Frame d Black p (mk d Red (mk d Black a1 x a2) s b) :: k) t)) as <-.
    { apply (inorder_plug_eq k), (inorder_rotate d Black Red). }
    iIntros (r) "H". iApply (del_out_next with "H"). left. split; [done|lia].
  - destruct (rb_black_view d _ _ Hs) as (a & s & b & ca & cb & -> & Ha & Hb).
    rw root_of_mk. iApply wp_bind. iApply (rb_is_red_wp with "Hz"). iIntros "Hz". simpl.
    wp_pures. iEval (rw -zip_down') in "Hz". iApply (wp_wand with "[Hz]").
    { by iApply (erase_black_sibling_wp with "Hz"). }
    iIntros (r) "H". iApply (del_out_next with "H"). right. lia.
Qed.

Lemma zip_plug_ne root k t : k ≠ [] → zip root k t ⊢ ⌜root_of t ≠ root_of (plug k t)⌝.
Proof.
  iIntros (Hk) "Hz". iDestruct (zip_nodes with "Hz") as %[Hd Hal]. iPureIntro.
  apply root_of_plug_ne; [done|done|]. intros Hin.
  by destruct (proj1 (Forall_forall _ _) Hal _ Hin).
Qed.

Lemma rb_erase_color_step_wp root xs k t : del_ok xs k t →
  zip root k t ⊢ wp (rb_erase_color_step root (root_of t, parent_of k)) (del_next root xs (del_rounds k t)).
Proof.
  iIntros ([Hxs Hok]) "Hz". rw rb_erase_color_step_eq.
  iApply wp_bind. iApply (rb_null_or_black_wp with "Hz"). iIntros "Hz". unfold del_rounds.
  destruct (colour t) eqn:Hc; simpl.
  { wp_pures. iExists k, t. by iFrame. }
  destruct Hok as (c0 & n & Hk & Ht).
  iApply wp_bind. iApply (load_root_wp with "Hz"). iIntros "Hz". destruct k as [|[d c p s] k].
  { simpl. wp_pures. iExists [], t. iFrame. iPureIntro. split_and!; [done|done|].
    simpl. rw (rb_paint_black _ _ Ht). by exists n. }
  iDestruct (zip_plug_ne with "Hz") as %Hne; [done|]. rw (proj2 (Z.eqb_neq _ _) Hne).
  assert (s ≠ Leaf) as Hs.
  { inversion Hk as [|?????? _ Hs|?????? ? _ Hs]; subst; by inversion Hs. }
  iEval (rw -zip_down) in "Hz". iDestruct (zip_children_ne with "Hz") as %Hts; [by right|].
  rw -Hxs. iApply wp_bind. destruct d.
  - iApply (load_child_wp _ _ SL with "Hz"). iIntros "Hz". rw Z.eqb_refl.
    iEval (rw zip_down) in "Hz". by iApply (erase_case_wp with "Hz").
  - iApply (load_child'_wp _ _ SR with "Hz"). iIntros "Hz". rw (proj2 (Z.eqb_neq (root_of s) _)) //.
    iEval (rw zip_down) in "Hz". by iApply (erase_case_wp with "Hz").
Qed.

Lemma rb_erase_color_wp root xs k t Q : del_ok xs k t →
  zip root k t -∗
  (∀ t', ⌜inorder t' = xs ∧ rb_wf t'⌝ -∗ rbtree root t' -∗ Q tt) -∗
  wp (__rb_erase_color (root_of t) (parent_of k) root) Q.
Proof.
  iIntros (Hok) "Hz HQ". unfold __rb_erase_color. iApply wp_bind.
  iApply (wp_wand with "[Hz]").
  { iApply (wp_loop _ (λ n s, ∃ k t, ⌜s = (root_of t, parent_of k) ∧ n = del_rounds k t ∧ del_ok xs k t⌝ ∗
      zip root k t)%I (del_done root xs) (del_rounds k t)).
    3: { iExists k, t. by iFrame. }
    - iIntros "H". iDestruct "H" as (k' t' (_ & -> & _)) "Hz". rw zip_cells.
      iApply (cells_le with "Hz"). unfold del_rounds. destruct (colour t'); lia.
    - clear. intros m s. iIntros "H". iDestruct "H" as (k t (-> & -> & Hok)) "Hz".
      iApply (wp_wand with "[Hz]"); [by iApply (rb_erase_color_step_wp with "Hz")|].
      iIntros ([s|node]) "H"; simpl; [|done].
      iDestruct "H" as (k2 t2 (-> & Hlt & Hok2)) "Hz". iExists (del_rounds k2 t2).
      iSplit; [done|]. iExists k2, t2. by iFrame. }
  iIntros (node) "H". iDestruct "H" as (k' t' (-> & Hxs & Hwf)) "Hz".
  rw -(inorder_plug_eq k' (paint Black t')) in Hxs; [|apply inorder_paint].
  destruct t' as [|c l x r]; simpl.
  - wp_pures. rw zip_plug. by iApply ("HQ" with "[] Hz").
  - iDestruct (zip_root_ne root k' SL c l x r with "Hz") as %Hx. rw (proj2 (Z.eqb_neq _ _) Hx).
    iApply (rb_set_black_wp root k' SL with "Hz"). iIntros "Hz". rw zip_plug.
    by iApply ("HQ" with "[] Hz").
Qed.

(** ** rb_erase *)

Lemma del_ok_hole k c n t xs : rbk k c (S n) → rb t (colour t) n → inorder (plug k t) = xs →
  del_ok xs k t.
Proof.
  intros Hk Ht Hxs. split; [done|]. destruct (colour t) eqn:Hc; [|by eauto].
  eapply rb_wf_hole; [done|by apply rb_paint_red].
Qed.

(** The label [color:] of [rb_erase]: a node of colour [c] above [t] has been taken
    out of the tree below [k]. *)
Lemma erase_tail_wp root k c d x t u c1 n Q : rbk k c1 n → rb (mk d c t x u) c n → 
  (c1 = Red → c = Black) →
  zip root k t -∗
  (∀ t', ⌜inorder t' = inorder (plug k t) ∧ rb_wf t'⌝ -∗ rbtree root t' -∗ Q tt) -∗
  wp (if cbit c =? RB_BLACK then __rb_erase_color (root_of t) (parent_of k) root else mret tt) Q.
Proof.
  iIntros (Hk Ht Hc) "Hz HQ". apply rb_mk_inv in Ht as [_ Ht]. destruct c; simpl.
  - destruct Ht as [Ht _]. wp_pures. rw zip_plug. iApply ("HQ" with "[] Hz"). iPureIntro.
    split; [done|]. by eapply rb_wf_hole.
  - destruct Ht as (n' & c2 & c3 & -> & Ht & _).
    iApply (rb_erase_color_wp with "Hz HQ"). eapply del_ok_hole; [done|by eapply rb_colour_of|done].
Qed.

(** [relink], with the test written the other way round. *)
Lemma relink_left_wp root k p q v Q : p ≠ NULL →
  rbc root k p -∗ (p + rb_parent_color) ↦ v -∗
  (rbc root k q -∗ (p + rb_parent_color) ↦ v -∗ Q tt) -∗
  wp (if negb (parent_of k =? NULL) then
        pl ← load (parent_of k + rb_left);
        if pl =? p then store (parent_of k + rb_left) q else store (parent_of k + rb_right) q
      else store (root + rb_node) q) Q.
Proof.
  iIntros (Hp) "Hk Hp HQ". iPoseProof (relink_wp SL with "Hk Hp HQ") as "H"; [done|].
  iApply (wp_ext with "H"). intros m. unfold relink. destruct (parent_of k =? NULL); [done|].
  simpl. unfold mbind, M_bind. destruct (load _ m) as [l m'| | |]; [|done..]. simpl. by rw Z.eqb_sym.
Qed.

Lemma rb_erase_simple_wp root k d c t x Q :
  zip root k (mk d c t x Leaf) -∗
  (zip root k t -∗ rb_free x -∗ Q (root_of t, parent_of k, cbit c)) -∗
  wp (rb_erase_simple x (root_of t) root) Q.
Proof.
  iIntros "Hz HQ". unfold rb_erase_simple.
  iApply wp_bind. iApply (rb_parent_wp with "Hz"). iIntros "Hz".
  iApply wp_bind. iApply (rb_color_wp with "Hz"). iIntros "Hz".
  rw zip_mk. iDestruct "Hz" as "((%Hx & Hpc & Hd & Hf) & Hk & Ht & _)".
  iApply wp_bind. iApply (rb_set_parent_null_wp with "Ht"); [apply Hx|]. iIntros "Ht".
  iApply wp_bind. iApply (relink_left_wp with "Hk Hpc"); [apply Hx|]. iIntros "Hk Hpc". wp_pures.
  iApply ("HQ" with "[$Hk $Ht]"). iSplit; [iPureIntro; apply Hx|].
  destruct d; simpl; iFrame.
Qed.

(** ** The successor *)

Lemma rbt_cells t par : rbt t par ⊢ cells (length (inorder t)).
Proof.
  rw rbt_nodes. iIntros "[_ H]". iInduction (inorder t) as [|x xs] "IH"; simpl; [iApply cells_0|].
  iDestruct "H" as "[(%v & Hx) H]". rw pt_cells.
  iApply (cells_add with "Hx"). by iApply "IH".
Qed.

(** Going down on the side [d] as far as possible. *)
Definition extreme (d : side) (n : Z) : M Z :=
  loop (λ n, l ← load (n + off d); mret (if l =? NULL then inr n else inl l)) n.

Lemma extreme_wp d root k t Q : t ≠ Leaf →
  zip root k t -∗
  (∀ j c x r, ⌜t = plug j (mk d c Leaf x r) ∧ Forall (λ f, fside f = d) j⌝ -∗
     zip root (j ++ k) (mk d c Leaf x r) -∗ Q x) -∗
  wp (extreme d (root_of t)) Q.
Proof.
  iIntros (Ht) "Hz HQ". unfold extreme.
  iApply (wp_loop _ (λ n node, ∃ j s, ⌜node = root_of s ∧ n = length (inorder s) ∧ s ≠ Leaf ∧
      t = plug j s ∧ Forall (λ f, fside f = d) j⌝ ∗ zip root (j ++ k) s ∗
    (∀ j c x r, ⌜t = plug j (mk d c Leaf x r) ∧ Forall (λ f, fside f = d) j⌝ -∗
     zip root (j ++ k) (mk d c Leaf x r) -∗ Q x))%I _ (length (inorder t))).
  3: { iExists [], t. by iFrame. }
  - iIntros "H". iDestruct "H" as (j s (_ & -> & _)) "((_ & Ht) & _)". by iApply rbt_cells.
  - clear. intros n node. iIntros "H".
    iDestruct "H" as (j s (-> & -> & Hs & -> & Hj)) "(Hz & HQ)".
    destruct s as [|c l x r]; [done|]. destruct (mk_view d c l x r) as (a & b & Es). rw !Es.
    rw root_of_mk. iApply wp_bind. iApply (load_child_wp with "Hz"). iIntros "Hz".
    destruct a as [|ca al y ar].
    + simpl. wp_pures. iApply ("HQ" with "[] Hz"). done.
    + iEval (rw zip_down) in "Hz".
      iDestruct (zip_root_ne _ _ SL ca al y ar with "Hz") as %Hy.
      simpl. rw (proj2 (Z.eqb_neq _ _) Hy). wp_pures.
      iExists (length (inorder (Node ca al y ar))). iSplit.
      { iPureIntro. destruct d; simpl; rw !length_app /= ?length_app /=; lia. }
      iExists (Frame d c x b :: j), (Node ca al y ar). iFrame. iPureIntro. split_and!; [done..|].
      by constructor.
Qed.

Lemma rb_leftmost_wp root k t Q : t ≠ Leaf →
  zip root k t -∗
  (∀ j c x r, ⌜t = plug j (Node c Leaf x r) ∧ Forall (λ f, fside f = SL) j⌝ -∗
     zip root (j ++ k) (Node c Leaf x r) -∗ Q x) -∗
  wp (rb_leftmost (root_of t)) Q.
Proof. apply (extreme_wp SL). Qed.

Lemma rb_rightmost_wp root k t Q : t ≠ Leaf →
  zip root k t -∗
  (∀ j c x l, ⌜t = plug j (Node c l x Leaf) ∧ Forall (λ f, fside f = SR) j⌝ -∗
     zip root (j ++ k) (Node c l x Leaf) -∗ Q x) -∗
  wp (rb_rightmost (root_of t)) Q.
Proof. apply (extreme_wp SR). Qed.

(** A segment of frames whose outermost node [q] has the parent [par]. *)
Definition parent_or (par : Z) (j : context) : Z :=
  match j with [] => par | f :: _ => fkey f end.

Fixpoint rbj (j : context) (par p q : Z) : heapProp :=
  match j with
  | [] => ⌜p = q⌝
  | Frame d c x s :: j => hdr d x (parent_or par j) c p (root_of s) ∗ rbt s x ∗ rbj j par x q
  end.

Lemma parent_of_app j f k : parent_of (j ++ f :: k) = parent_or (fkey f) j.
Proof. by destruct j. Qed.

Lemma rbc_app root j d c x s k p :
  rbc root (j ++ Frame d c x s :: k) p ⊣⊢
  ∃ q, rbj j x p q ∗ hdr d x (parent_of k) c q (root_of s) ∗ rbt s x ∗ rbc root k x.
Proof.
  revert p. induction j as [|[d' c' y s'] j IH]; intros p; simpl.
  - iSplit; [iIntros "H"; iExists p; by iFrame|iIntros "(%q & -> & $)"].
  - rw IH parent_of_app. simpl. iSplit.
    + iIntros "($ & $ & (%q & H))". iExists q. by iFrame.
    + iIntros "(%q & ($ & $ & H1) & H2)". iExists q. by iFrame.
Qed.

(** The hole of a segment, and the parent of its outermost node. *)
Lemma rbj_hole f j par p q :
  rbj (f :: j) par p q ⊢ (fkey f + off (fside f)) ↦ p ∗
    (∀ p', (fkey f + off (fside f)) ↦ p' -∗ rbj (f :: j) par p' q).
Proof.
  destruct f as [d c x s]. simpl. iIntros "((%Ha & Hpc & $ & Hf) & Hs & Hj)".
  iIntros (p') "Hd". by iFrame.
Qed.

Lemma rbj_top j par p q : j ≠ [] →
  rbj j par p q ⊢ ∃ c, (q + rb_parent_color) ↦ pcol par c ∗ ⌜al par⌝ ∗
    (∀ par', ⌜al par'⌝ -∗ (q + rb_parent_color) ↦ pcol par' c -∗ rbj j par' p q).
Proof.
  revert p. induction j as [|[d c x s] j IH]; intros p Hj; [done|]. simpl.
  destruct (decide (j = [])) as [->|Hj'].
  - simpl. iIntros "((%Ha & Hpc & Hd & Hf) & Hs & ->)". iExists c. iFrame.
    iSplit; [iPureIntro; apply Ha|]. iIntros (par' Hp) "Hpc". iFrame. iPureIntro. by destruct Ha.
  - iIntros "(Hh & Hs & Hj)". iDestruct (IH with "Hj") as (c') "(Hq & $ & Hj)"; [done|].
    iExists c'. iFrame. iIntros (par' Hp) "Hq". iDestruct ("Hj" with "[//] Hq") as "$".
    by destruct j.
Qed.

(** ** A node with two children *)

(** The last part of [rb_erase_two]: [node] gets the colour, the parent and the left
    subtree of [old]. *)
Definition erase_inherit (old node child parent color : Z) : M (Z * Z * Z) :=
  pc ← load (old + rb_parent_color);
  store (node + rb_parent_color) pc;;
  ol ← load (old + rb_left);
  store (node + rb_left) ol;;
  ol ← load (old + rb_left);
  rb_set_parent ol node;;
  mret (child, parent, color).

Lemma erase_inherit_wp x y l pc v w child parent color Q : l ≠ Leaf → al y →
  (x + rb_parent_color) ↦ pc -∗ (x + rb_left) ↦ root_of l -∗ rbt l x -∗
  (y + rb_parent_color) ↦ v -∗ (y + rb_left) ↦ w -∗
  ((x + rb_parent_color) ↦ pc -∗ (x + rb_left) ↦ root_of l -∗ rbt l y -∗
   (y + rb_parent_color) ↦ pc -∗ (y + rb_left) ↦ root_of l -∗ Q (child, parent, color)) -∗
  wp (erase_inherit x y child parent color) Q.
Proof.
  iIntros (Hl Hy) "Hxp Hxl Hl Hyp Hyl HQ". unfold erase_inherit.
  wp_load. wp_store. wp_load. wp_store. wp_load.
  iApply wp_bind. iApply (rb_set_parent_wp with "Hl"); [done|done|]. iIntros "Hl". wp_pures.
  iApply ("HQ" with "Hxp Hxl Hl Hyp Hyl").
Qed.

(** The middle part, when the successor is not the right child of [old]: the segment
    [j] between them loses the successor below and hangs under it above. *)
Definition erase_unhook (old node child parent : Z) : M Z :=
  (if child =? NULL then mret tt else rb_set_parent child parent);;
  store (parent + rb_left) child;;
  or ← load (old + rb_right);
  store (node + rb_right) or;;
  or ← load (old + rb_right);
  rb_set_parent or node;;
  mret parent.

Lemma erase_unhook_wp f j x y q ry (v : Z) Q : fside f = SL → al y →
  rbj (f :: j) x y q -∗ rbt ry y -∗ (x + rb_right) ↦ q -∗ (y + rb_right) ↦ v -∗
  (rbj (f :: j) y (root_of ry) q -∗ rbt ry (fkey f) -∗ (x + rb_right) ↦ q -∗ (y + rb_right) ↦ q -∗
   Q (fkey f)) -∗
  wp (erase_unhook x y (root_of ry) (fkey f)) Q.
Proof.
  iIntros (Hf Hy) "Hj Hry Hxr Hyr HQ". unfold erase_unhook.
  iAssert ⌜al (fkey f)⌝%I as %Hfk.
  { destruct f. iDestruct "Hj" as "((%Ha & _) & _)". iPureIntro. apply Ha. }
  iApply wp_bind. iApply (rb_set_parent_null_wp with "Hry"); [done|]. iIntros "Hry".
  iDestruct (rbj_hole with "Hj") as "[Hh Hj]". rw Hf. change (off SL) with rb_left.
  wp_store. iDestruct ("Hj" with "Hh") as "Hj".
  wp_load. wp_store. wp_load. iDestruct (rbj_top with "Hj") as (c) "(Hq & %Hx & Hj)"; [done|].
  unfold rb_set_parent. wp_load. wp_store. rw pcol_set_parent; [|done|done].
  iDestruct ("Hj" $! y with "[//] Hq") as "Hj". iApply ("HQ" with "Hj Hry Hxr Hyr").
Qed.

Lemma rb_erase_two_wp root k c l x r Q : l ≠ Leaf → r ≠ Leaf →
  zip root k (Node c l x r) -∗
  (∀ j cy y ry, ⌜r = plug j (Node cy Leaf y ry) ∧ Forall (λ f, fside f = SL) j⌝ -∗
     zip root (j ++ Frame SR c y l :: k) ry -∗ rb_free x -∗
     Q (root_of ry, parent_of (j ++ Frame SR c y l :: k), cbit cy)) -∗
  wp (rb_erase_two x root) Q.
Proof.
  iIntros (Hl Hr) "Hz HQ". unfold rb_erase_two.
  iApply wp_bind. iApply (load_child_wp _ _ SR c r l with "Hz"). iIntros "Hz".
  iEval (rw zip_down) in "Hz". iApply wp_bind. iApply (rb_leftmost_wp with "Hz"); [done|].
  iIntros (j cy y ry [Er Hj]) "[Hk (Hy & _ & Hry)]". rw rbc_app. simpl.
  iDestruct "Hk" as (q) "(Hj & (%Hx & Hxp & Hxr & Hxl) & Hl & Hk)". simpl.
  iDestruct "Hy" as "(%Hy & Hyp & Hyl & Hyr)". simpl. rw parent_of_app in Hy *.
  iApply wp_bind. iApply (rb_parent_pt with "Hxp"); [apply Hx|]. iIntros "Hxp".
  iApply wp_bind. iApply (relink_left_wp with "Hk Hxp"); [apply Hx|]. iIntros "Hk Hxp". wp_load.
  iApply wp_bind. iApply (rb_parent_pt with "Hyp"); [apply Hy|]. iIntros "Hyp".
  iApply wp_bind. iApply (rb_color_pt with "Hyp"); [apply Hy|]. iIntros "Hyp".
  destruct j as [|f j]; simpl.
  - wp_pures. iDestruct "Hj" as %<-.
    iApply (erase_inherit_wp with "Hxp Hxl Hl Hyp Hyl"); [done|apply Hy|].
    iIntros "Hxp Hxl Hl Hyp Hyl". iApply ("HQ" $! [] with "[//] [-Hxp Hxl Hxr]").
    + rw -zip_down /=. iFrame. iPureIntro. destruct Hx, Hy. done.
    + iFrame. iPureIntro. apply Hx.
  - iAssert ⌜fkey f ≠ x⌝%I as %Hfx.
    { destruct f. iDestruct "Hj" as "((_ & Hf & _) & _)".
      iDestruct (pt_ne with "Hf Hxp") as %?. iPureIntro. simpl. congruence. }
    rw (proj2 (Z.eqb_neq _ _) Hfx). iApply wp_bind.
    iApply (erase_unhook_wp with "Hj Hry Hxr Hyr"); [by apply Forall_inv in Hj|apply Hy|].
    iIntros "Hj Hry Hxr Hyr".
    iApply (erase_inherit_wp with "Hxp Hxl Hl Hyp Hyl"); [done|apply Hy|].
    iIntros "Hxp Hxl Hl Hyp Hyl". iApply ("HQ" $! (f :: j) with "[//] [-Hxp Hxl Hxr]").
    + unfold zip. rw rbc_app parent_of_app. iFrame. iPureIntro. destruct Hx, Hy. done.
    + iFrame. iPureIntro. apply Hx.
Qed.

Lemma zip_child_ne root k d c a x b : a ≠ Leaf → zip root k (mk d c a x b) ⊢ ⌜root_of a ≠ NULL⌝.
Proof.
  iIntros (Ha) "Hz". destruct a as [|ca l y r]; [done|]. iEval (rw zip_down) in "Hz".
  iApply (zip_root_ne _ _ SL with "Hz").
Qed.

Lemma erase_order j c l y k cy ry r : r = plug j (Node cy Leaf y ry) → Forall (λ f, fside f = SL) j →
  inorder (plug (j ++ Frame SR c y l :: k) ry) = before k ++ (inorder l ++ inorder r) ++ after k.
Proof.
  intros -> Hj. rw plug_app. simpl. rw !inorder_plug /= !inorder_plug (before_left_spine _ Hj).
  done.
Qed.

Lemma rb_erase_wp root k c l x r Q : rb_wf (plug k (Node c l x r)) →
  zip root k (Node c l x r) -∗
  (∀ t', ⌜inorder t' = before k ++ (inorder l ++ inorder r) ++ after k ∧ rb_wf t'⌝ -∗
     rbtree root t' -∗ rb_free x -∗ Q tt) -∗
  wp (rb_erase x root) Q.
Proof.
  iIntros ([m Hwf]) "Hz HQ". unfold rb_erase.
  destruct (rb_unplug _ _ _ _ Hwf eq_refl) as (c1 & c2 & n & Hk & Ht & Hc & _).
  assert (c2 = c) as -> by apply (rb_colour _ _ _ Ht).
  iApply wp_bind. iApply (load_child_wp _ _ SL c l r with "Hz"). iIntros "Hz".
  destruct (decide (l = Leaf)) as [->|Hl]; [|destruct (decide (r = Leaf)) as [->|Hr]].
  - simpl. wp_pures. iApply wp_bind. iApply (load_child_wp _ _ SR c r Leaf with "Hz"). iIntros "Hz".
    iApply wp_bind. iApply (rb_erase_simple_wp _ _ SR with "Hz"). iIntros "Hz Hx".
    iApply (erase_tail_wp root k c SR x r Leaf with "Hz"); [done|done|done|].
    iIntros (t' [Hin Hw]) "Hz". iApply ("HQ" with "[%] Hz Hx"). by rw Hin inorder_plug.
  - iDestruct (zip_child_ne _ _ SL c l x with "Hz") as %Hln; [done|].
    rw (proj2 (Z.eqb_neq _ _) Hln). wp_pures. iApply wp_bind. iApply (load_child_wp _ _ SR c Leaf l with "Hz"). iIntros "Hz".
    simpl. wp_pures. iApply wp_bind. iApply (load_child_wp _ _ SL c l Leaf with "Hz"). iIntros "Hz".
    iApply wp_bind. iApply (rb_erase_simple_wp _ _ SL with "Hz"). iIntros "Hz Hx".
    iApply (erase_tail_wp root k c SL x l Leaf with "Hz"); [done|done|done|].
    iIntros (t' [Hin Hw]) "Hz". iApply ("HQ" with "[%] Hz Hx"). by rw Hin inorder_plug app_nil_r.
  - iDestruct (zip_child_ne _ _ SL c l x with "Hz") as %Hln; [done|].
    iDestruct (zip_child_ne _ _ SR c r x l with "Hz") as %Hrn; [done|].
    rw (proj2 (Z.eqb_neq _ _) Hln). wp_pures. iApply wp_bind.
    iApply (load_child_wp _ _ SR c r l with "Hz"). iIntros "Hz".
    rw (proj2 (Z.eqb_neq _ _) Hrn). iApply wp_bind.
    iApply (rb_erase_two_wp with "Hz"); [done|done|].
    iIntros (j cy y ry [Er Hj]) "Hz Hx". clear c1 n Hk Ht Hc.
    assert (plug (j ++ Frame SR c x l :: k) (Node cy Leaf y ry) = plug k (Node c l x r)) as Hp.
    { rw plug_app -Er. done. }
    rw -Hp in Hwf. destruct (rb_unplug _ _ _ _ Hwf eq_refl) as (c1 & c2 & n & Hk & Ht & Hc & _).
    assert (c2 = cy) as -> by apply (rb_colour _ _ _ Ht).
    iApply (erase_tail_wp root _ cy SR y ry Leaf with "Hz"); [by eapply rbk_rekey|done|done|].
    iIntros (t' [Hin Hw]) "Hz". iApply ("HQ" with "[%] Hz Hx"). split; [|done].
    rw Hin. by eapply erase_order.
Qed.
