(* ===== verification/RbWalk.v ===== *)
(** * Walking over a red-black tree and exchanging a node: rb_first, rb_last, rb_next,
    rb_prev, rb_replace_node; and the properties of the tree operations *)

From S2P Require Export RbErase.

(** The node next to the hole of a context: after it ([SR]) or before it ([SL]). *)
Definition adjacent (d : side) (k : context) : Z :=
  match d with
  | SR => default NULL (head (after k))
  | SL => default NULL (last (before k))
  end.

Lemma adjacent_cons d c x s k :
  adjacent d (Frame d c x s :: k) = adjacent d k ∧ adjacent (flip d) (Frame d c x s :: k) = x.
Proof. destruct d; simpl; split; try done. by rw !last_app. Qed.

(** Going up while the node is a child on the side [d]. *)
Definition climb (d : side) (node : Z) : M Z :=
  loop (λ node,
    parent ← rb_parent node;
    if parent =? NULL then mret (inr parent) else
    p ← load (parent + off d);
    mret (if node =? p then inl parent else inr parent)) node.

Lemma climb_wp d root k t Q : t ≠ Leaf →
  zip root k t -∗ (rbtree root (plug k t) -∗ Q (adjacent d k)) -∗ wp (climb d (root_of t)) Q.
Proof.
  iIntros (Ht) "Hz HQ". unfold climb.
  set (T := plug k t). set (a := adjacent d k).
  iApply (wp_loop _ (λ n node, ∃ k t, ⌜node = root_of t ∧ n = length k ∧ t ≠ Leaf ∧ plug k t = T ∧
    adjacent d k = a⌝ ∗ zip root k t ∗ (rbtree root T -∗ Q a))%I _ (length k)).
  3: { iExists k, t. by iFrame. }
  - iIntros "H". iDestruct "H" as (k' t' (_ & Hn & _)) "[Hz _]". rw zip_cells.
    iApply (cells_le with "Hz"). lia.
  - clearbody T a. clear k t Ht. intros m node. iIntros "H".
    iDestruct "H" as (k t (-> & -> & Ht & <- & <-)) "[Hz HQ]".
    iApply wp_bind. iApply (rb_parent_root_wp with "Hz"); [done|]. iIntros "Hz".
    destruct k as [|[d' c x s] k].
    { simpl. wp_pures. iSpecialize ("HQ" with "Hz"). by destruct d. }
    iEval (rw zip_cons /plug1 /=) in "Hz". iDestruct (zip_root_ne with "Hz") as %Hx. simpl.
    rw (proj2 (Z.eqb_neq _ _) Hx). iApply wp_bind.
    destruct (decide (d' = d)) as [->|Hd].
    + iApply (load_child_wp with "Hz"). iIntros "Hz". wp_pures.
      iExists (length k). iSplit; [iPureIntro; simpl; lia|].
      iExists k, (mk d c t x s). rw root_of_mk (proj1 (adjacent_cons d c x s k)). iFrame. iPureIntro.
      split_and!; try done. by destruct d.
    + assert (d = flip d') as -> by (by destruct d, d').
      iDestruct (zip_children_ne with "Hz") as %Hne; [by left|].
      iApply (load_child'_wp with "Hz"). iIntros "Hz". rw (proj2 (Z.eqb_neq _ _) Hne). wp_pures.
      rw (proj2 (adjacent_cons d' c x s k)). iApply "HQ". by rw zip_plug.
Qed.

(** ** First and last *)

Lemma rb_first_wp root t Q :
  rbtree root t -∗ (rbtree root t -∗ Q (default NULL (head (inorder t)))) -∗ wp (rb_first root) Q.
Proof.
  iIntros "Hz HQ". unfold rb_first. iApply wp_bind. iApply (load_root_wp with "Hz"). iIntros "Hz".
  destruct (decide (t = Leaf)) as [->|Ht]; [simpl; wp_pures; by iApply "HQ"|]. simpl.
  iAssert ⌜root_of t ≠ NULL⌝%I as %Hn.
  { destruct t; [done|]. iApply (zip_root_ne _ _ SL with "Hz"). }
  rw (proj2 (Z.eqb_neq _ _) Hn). iApply (rb_leftmost_wp with "Hz"); [done|].
  iIntros (j c x r [-> Hj]) "Hz". rw zip_plug plug_app. simpl.
  rw inorder_plug (before_left_spine _ Hj). by iApply "HQ".
Qed.

Lemma rb_last_wp root t Q :
  rbtree root t -∗ (rbtree root t -∗ Q (default NULL (last (inorder t)))) -∗ wp (rb_last root) Q.
Proof.
  iIntros "Hz HQ". unfold rb_last. iApply wp_bind. iApply (load_root_wp with "Hz"). iIntros "Hz".
  destruct (decide (t = Leaf)) as [->|Ht]; [simpl; wp_pures; by iApply "HQ"|]. simpl.
  iAssert ⌜root_of t ≠ NULL⌝%I as %Hn.
  { destruct t; [done|]. iApply (zip_root_ne _ _ SL with "Hz"). }
  rw (proj2 (Z.eqb_neq _ _) Hn). iApply (rb_rightmost_wp with "Hz"); [done|].
  iIntros (j c x l [-> Hj]) "Hz". rw zip_plug plug_app. simpl.
  rw inorder_plug (after_right_spine _ Hj) app_nil_r /= !last_app. by iApply "HQ".
Qed.

(** ** Successor and predecessor *)

Lemma zip_parent_ne root k d c a x b : zip root k (mk d c a x b) ⊢ ⌜parent_of k ≠ x⌝.
Proof.
  rw zip_mk. iIntros "((%Hx & Hp & _) & Hk & _)".
  destruct k as [|[d' c' y s] k]; simpl; [iPureIntro; intros <-; by destruct Hx as [[]]|].
  iDestruct "Hk" as "((_ & Hy & _) & _)". iDestruct (pt_ne with "Hp Hy") as %?.
  iPureIntro. congruence.
Qed.

Lemma rb_next_wp root k c l x r Q :
  zip root k (Node c l x r) -∗
  (rbtree root (plug k (Node c l x r)) -∗ Q (default NULL (head (inorder r ++ after k)))) -∗
  wp (rb_next x) Q.
Proof.
  iIntros "Hz HQ". unfold rb_next. iDestruct (zip_parent_ne root k SL c l x r with "Hz") as %Hp.
  iApply wp_bind. iApply (rb_parent_wp root k SL c l r with "Hz"). iIntros "Hz".
  rw (proj2 (Z.eqb_neq _ _) Hp). iApply wp_bind.
  iApply (load_child_wp _ _ SR c r l with "Hz"). iIntros "Hz".
  destruct (decide (r = Leaf)) as [->|Hr].
  - simpl. wp_pures. iApply (climb_wp SR root k (Node c l x Leaf) with "Hz HQ"). done.
  - iDestruct (zip_child_ne _ _ SR c r x l with "Hz") as %Hrn; [done|].
    rw (proj2 (Z.eqb_neq _ _) Hrn). wp_pures. iEval (rw zip_down) in "Hz".
    iApply (rb_leftmost_wp with "Hz"); [done|]. iIntros (j c' y r' [-> Hj]) "Hz".
    rw zip_plug plug_app. simpl. rw inorder_plug (before_left_spine _ Hj). by iApply "HQ".
Qed.

Lemma rb_prev_wp root k c l x r Q :
  zip root k (Node c l x r) -∗
  (rbtree root (plug k (Node c l x r)) -∗ Q (default NULL (last (before k ++ inorder l)))) -∗
  wp (rb_prev x) Q.
Proof.
  iIntros "Hz HQ". unfold rb_prev. iDestruct (zip_parent_ne root k SL c l x r with "Hz") as %Hp.
  iApply wp_bind. iApply (rb_parent_wp root k SL c l r with "Hz"). iIntros "Hz".
  rw (proj2 (Z.eqb_neq _ _) Hp). iApply wp_bind.
  iApply (load_child_wp _ _ SL c l r with "Hz"). iIntros "Hz".
  destruct (decide (l = Leaf)) as [->|Hl].
  - simpl. wp_pures. rw app_nil_r. iApply (climb_wp SL root k (Node c Leaf x r) with "Hz HQ"). done.
  - iDestruct (zip_child_ne _ _ SL c l x r with "Hz") as %Hrn; [done|].
    rw (proj2 (Z.eqb_neq _ _) Hrn). wp_pures. iEval (rw zip_down) in "Hz".
    iApply (rb_rightmost_wp with "Hz"); [done|]. iIntros (j c' y l' [-> Hj]) "Hz".
    rw zip_plug plug_app. simpl. rw inorder_plug (after_right_spine _ Hj) app_nil_r.
    rw !last_app /=. by iApply "HQ".
Qed.

(** ** Exchanging a node *)

Lemma rb_replace_node_wp root k c l x r y Q :
  zip root k (Node c l x r) -∗ rb_free y -∗
  (zip root k (Node c l y r) -∗ rb_free x -∗ Q tt) -∗
  wp (rb_replace_node x y root) Q.
Proof.
  iIntros "Hz (%Hy & (%v1 & Hyp) & (%v2 & Hyr) & (%v3 & Hyl)) HQ". unfold rb_replace_node.
  rw (zip_mk root k SL). iDestruct "Hz" as "((%Hx & Hxp & Hxl & Hxr) & Hk & Hl & Hr)". simpl.
  iApply wp_bind. iApply (rb_parent_pt with "Hxp"); [apply Hx|]. iIntros "Hxp".
  iApply wp_bind. iApply (relink_wp SL with "Hk Hxp"); [apply Hx|]. iIntros "Hk Hxp". wp_load.
  iApply wp_bind. iApply (rb_set_parent_null_wp with "Hl"); [apply Hy|]. iIntros "Hl". wp_load.
  iApply wp_bind. iApply (rb_set_parent_null_wp with "Hr"); [apply Hy|]. iIntros "Hr".
  wp_load. wp_store. wp_load. wp_store. wp_load. wp_store.
  iApply ("HQ" with "[-Hxp Hxl Hxr]"); [|iFrame; iPureIntro; apply Hx].
  rw (zip_mk root k SL). iFrame. iPureIntro. destruct Hx. done.
Qed.

(** ** Properties *)

Lemma rbtree_zipper root t xs x ys : inorder t = xs ++ x :: ys →
  rbtree root t ⊢ ∃ k c l r, ⌜t = plug k (Node c l x r) ∧ xs = before k ++ inorder l ∧
    ys = inorder r ++ after k⌝ ∗ zip root k (Node c l x r).
Proof.
  iIntros (Ht) "Hz". iDestruct (zip_nodes with "Hz") as %[Hd _]. simpl in Hd.
  destruct (inorder_zipper _ _ _ _ Hd Ht) as (k & c & l & r & -> & -> & ->).
  iExists k, c, l, r. rw zip_plug. by iFrame.
Qed.

(** C1: functional.  Linking a new node at an empty place of a red-black tree and
    rebalancing with [rb_insert_color] terminates and gives a red-black tree that holds the
    new node at that place of the order and the other nodes as before. *)
Theorem rb_insert_correct root k x :
  {{ rbtree root (plug k Leaf) ∗ ⌜rb_wf (plug k Leaf)⌝ ∗ rb_free x }}
    rb_link_node x (parent_of k) (slot root k);; rb_insert_color x root
  {{ _, ∃ t', rbtree root t' ∗ ⌜inorder t' = before k ++ x :: after k ∧ rb_wf t'⌝ }}.
Proof.
  apply triple_wp. iIntros "(Hz & %Hwf & Hx)". iApply (rb_insert_wp with "Hz Hx"); [done|].
  iIntros (t' Ht') "Hz". iExists t'. by iFrame.
Qed.

(** C2: functional.  [rb_erase] takes a node out of a red-black tree, whatever its
    place and its children: it terminates, the other nodes keep their order, the tree is a
    red-black tree again, and the node is free. *)
Theorem rb_erase_correct root t xs x ys :
  {{ rbtree root t ∗ ⌜rb_wf t ∧ inorder t = xs ++ x :: ys⌝ }}
    rb_erase x root
  {{ _, ∃ t', rbtree root t' ∗ ⌜inorder t' = xs ++ ys ∧ rb_wf t'⌝ ∗ rb_free x }}.
Proof.
  apply triple_wp. iIntros "(Hz & %Hwf & %Ht)".
  iDestruct (rbtree_zipper _ _ _ _ _ Ht with "Hz") as (k c l r (-> & -> & ->)) "Hz".
  iApply (rb_erase_wp with "Hz"); [done|]. iIntros (t' [Hin Hwf']) "Hz Hx".
  iExists t'. iFrame. iPureIntro. split; [|done]. rw Hin. by rw -!app_assoc.
Qed.

(** functional.  [rb_next] and [rb_prev] return the neighbours of a node in the order of
    the tree, and NULL at its ends. *)
Theorem rb_next_prev_correct root t xs x ys :
  {{ rbtree root t ∗ ⌜inorder t = xs ++ x :: ys⌝ }}
    n ← rb_next x; p ← rb_prev x; mret (n, p)
  {{ r, rbtree root t ∗ ⌜r = (default NULL (head ys), default NULL (last xs))⌝ }}.
Proof.
  apply triple_wp. iIntros "(Hz & %Ht)".
  iDestruct (rbtree_zipper _ _ _ _ _ Ht with "Hz") as (k c l r (-> & -> & ->)) "Hz".
  iApply wp_bind. iApply (rb_next_wp with "Hz"). iIntros "Hz". iEval (rw -zip_plug) in "Hz".
  iApply wp_bind. iApply (rb_prev_wp with "Hz"). iIntros "Hz". wp_pures. by iFrame.
Qed.

(** functional.  [rb_replace_node] puts a node in the place of another one and keeps
    shape, colours and the other nodes. *)
Theorem rb_replace_node_correct root k c l x r y :
  {{ rbtree root (plug k (Node c l x r)) ∗ rb_free y }}
    rb_replace_node x y root
  {{ _, rbtree root (plug k (Node c l y r)) ∗ rb_free x }}.
Proof.
  apply triple_wp. iIntros "(Hz & Hy)". iEval (rw -zip_plug) in "Hz".
  iApply (rb_replace_node_wp with "Hz Hy"). iIntros "Hz $". by rw zip_plug.
Qed.
