(* ===== verification/SchedFair.v ===== *)
(** * The time line of the fair scheduler: kernel/sched_fair.c

    Schedulable entities are kept in a red-black tree ordered by [vruntime].  The code compares
    two [vruntime]s by the sign of their (wrapping) difference, so the order is that of
    unbounded virtual times as long as any two of them are less than 2^31 apart:
    [timeline root es] holds virtual times in [Z], of which memory stores the low
    32 bits. *)

From stdpp Require Export sorting.
From S2P Require Export RbWalk.

(** struct sched_entity *)
Definition run_node : Z := 0.
Definition vruntime : Z := 12.

Definition se_search (root v : Z) : M Z :=
  node ← load (root + rb_node);
  loop (λ node,
    if node =? NULL then mret (inr NULL) else
    let se := node - run_node in
    w ← load (se + vruntime);
    let result := s32 (v - w) in
    if result <? 0 then l ← load (node + rb_left); mret (inl l)
    else if result >? 0 then r ← load (node + rb_right); mret (inl r)
    else mret (inr se)) node.

Definition ts_earse (root se : Z) : M Z :=
  rb_erase (se + run_node) root;; mret 0.

(** The search loop of [ts_insert]: [inr (inl (new, parent))] is a place for the new node,
    [inr (inr tt)] the [return 0] in the loop. *)
Definition ts_insert_step (se : Z) (s : Z * Z) : M (Z * Z + (Z * Z + unit)) :=
  let '(new, parent) := s in
  n ← load new;
  if n =? NULL then mret (inr (inl (new, parent))) else
  let this := n - run_node in
  if this =? NULL then mret (inr (inl (new, parent))) else
  v ← load (se + vruntime);
  w ← load (this + vruntime);
  let result := s32 (v - w) in
  if result <? 0 then mret (inl (n + rb_left, n))
  else if result >? 0 then mret (inl (n + rb_right, n))
  else mret (inr (inr tt)).

Definition ts_insert (root se : Z) : M Z :=
  r ← loop (ts_insert_step se) (root + rb_node, NULL);
  match r with
  | inl (new, parent) =>
      rb_link_node (se + run_node) parent new;;
      rb_insert_color (se + run_node) root;;
      mret 1
  | inr _ => mret 0
  end.

Definition ts_leftmost (root : Z) : M Z :=
  pnode ← rb_first root; mret (pnode - run_node).

(** ** Comparison of virtual times *)

Definition near (v w : Z) : Prop := - 2 ^ 31 < v - w < 2 ^ 31.

Lemma s32_u32_sub v w : near v w → s32 (u32 v - u32 w) = v - w.
Proof.
  intros H. unfold s32, u32, near in *.
  replace (v `mod` 2 ^ 32 - w `mod` 2 ^ 32 + 2 ^ 31) with
    ((v `mod` 2 ^ 32 + 2 ^ 31) - w `mod` 2 ^ 32) by lia.
  rw Zminus_mod_idemp_r. replace (v `mod` 2 ^ 32 + 2 ^ 31 - w) with (v `mod` 2 ^ 32 + (2 ^ 31 - w)) by lia.
  rw Zplus_mod_idemp_l Z.mod_small; lia.
Qed.

(** ** The time line *)

Abbreviation entity := (Z * Z)%type.

Definition before_in_time (e f : entity) : Prop := e.2 < f.2.

Definition node_of (e : entity) : Z := e.1 + run_node.

(** The entities of [es], each with its virtual time, in the order of their times. *)
Definition timeline (root : Z) (es : list entity) : heapProp :=
  ∃ t, rbtree root t ∗ ⌜rb_wf t ∧ inorder t = node_of <$> es⌝ ∗
    ([∗ list] e ∈ es, (e.1 + vruntime) ↦ u32 e.2) ∗ ⌜StronglySorted before_in_time es⌝.

(** An entity in no time line. *)
Definition se_free (se v : Z) : heapProp :=
  rb_free (se + run_node) ∗ (se + vruntime) ↦ u32 v.

(** ** Inserting *)

Lemma timeline_split_keys es xs x ys : node_of <$> es = xs ++ x :: ys →
  ∃ es1 e es2, es = es1 ++ e :: es2 ∧ xs = node_of <$> es1 ∧ x = node_of e ∧ ys = node_of <$> es2.
Proof.
  intros H. apply fmap_app_inv in H as (es1 & es' & -> & H & ->).
  destruct es' as [|e es2]; [done|]. simplify_eq/=. eauto 10.
Qed.

(** The loop has found the context [k]: the entities [es1] are before it, [es3] after it and
    [es2] in the subtree that is left. *)
Definition ins_search (root v : Z) (es : list entity) (k : context) (s : tree) (es1 es2 es3 : list entity) : Prop :=
  es = es1 ++ es2 ++ es3 ∧ before k = node_of <$> es1 ∧ inorder s = node_of <$> es2 ∧
  after k = node_of <$> es3 ∧ Forall (λ e, e.2 < v) es1 ∧ Forall (λ e, v < e.2) es3.

Lemma sorted_split (es1 es2 : list entity) e : StronglySorted before_in_time (es1 ++ e :: es2) →
  Forall (λ f, f.2 < e.2) es1 ∧ Forall (λ f, e.2 < f.2) es2.
Proof.
  rw StronglySorted_app StronglySorted_cons. intros (H1 & H2 & (H3 & H4)). split; [|done].
  apply Forall_forall. intros f Hf. apply H1; set_solver.
Qed.

Lemma ins_search_left root v es k c l x r es1 es2 es3 : StronglySorted before_in_time es →
  ins_search root v es k (Node c l x r) es1 es2 es3 →
  ∃ esl e esr, es2 = esl ++ e :: esr ∧ x = node_of e ∧
    (v < e.2 → ins_search root v es (Frame SL c x r :: k) l es1 esl (e :: esr ++ es3)) ∧
    (e.2 < v → ins_search root v es (Frame SR c x l :: k) r (es1 ++ esl ++ [e]) esr es3).
Proof.
  intros Hs (-> & Hb & Hin & Ha & H1 & H3).
  destruct (timeline_split_keys es2 (inorder l) x (inorder r)) as (esl & e & esr & -> & Hl & -> & Hr).
  { done. }
  exists esl, e, esr.
  assert (es1 ++ (esl ++ e :: esr) ++ es3 = (es1 ++ esl) ++ e :: (esr ++ es3)) as E
    by (by rw -!app_assoc).
  rw E in Hs *. destruct (sorted_split _ _ _ Hs) as [Hlo Hhi].
  split_and!; [done|done| |]; intros Hv.
  - split_and!; try done.
    + by rw -!app_assoc.
    + simpl. by rw Ha Hr -fmap_app.
    + constructor; [done|]. eapply Forall_impl; [exact Hhi|]. simpl. lia.
  - split_and!; try done.
    + by rw -!app_assoc.
    + simpl. rw Hb Hl. by rw !fmap_app.
    + rw app_assoc. apply Forall_app. split; [|by constructor].
      eapply Forall_impl; [exact Hlo|]. simpl. lia.
Qed.

(** The cell of the virtual time of an entity of the list. *)
Lemma times_acc (es : list entity) es1 e es2 : es = es1 ++ e :: es2 →
  ([∗ list] e ∈ es, (e.1 + vruntime) ↦ u32 e.2) ⊢
  (e.1 + vruntime) ↦ u32 e.2 ∗
  ((e.1 + vruntime) ↦ u32 e.2 -∗ [∗ list] e ∈ es, (e.1 + vruntime) ↦ u32 e.2).
Proof.
  intros ->. rw big_sepL_app /=. iIntros "($ & $ & $)". auto.
Qed.

Lemma zip_slot root k s :
  zip root k s ⊢ slot root k ↦ root_of s ∗ (slot root k ↦ root_of s -∗ zip root k s).
Proof.
  iIntros "[Hk Hs]". iDestruct (rbc_slot with "Hk") as "(_ & $ & Hk)". iIntros "H".
  iFrame. by iApply "Hk".
Qed.

(** The outcome of the search of [ts_insert] in the tree [T]. *)
Definition search_result (root se v : Z) (T : tree) (es : list entity) (r : Z * Z + unit) : heapProp :=
  ([∗ list] e ∈ es, (e.1 + vruntime) ↦ u32 e.2) ∗ (se + vruntime) ↦ u32 v ∗ rbtree root T ∗
  match r with
  | inl s => ⌜∃ k es1 es3, s = (slot root k, parent_of k) ∧ plug k Leaf = T ∧
      ins_search root v es k Leaf es1 [] es3⌝
  | inr _ => ⌜v ∈ es.*2⌝
  end.

Definition search_inv (root se v : Z) (T : tree) (es : list entity) (n : nat) (s : Z * Z) : heapProp :=
  ∃ k u es1 es2 es3, ⌜s = (slot root k, parent_of k) ∧ n = length es2 ∧ plug k u = T ∧
      ins_search root v es k u es1 es2 es3⌝ ∗
    ([∗ list] e ∈ es, (e.1 + vruntime) ↦ u32 e.2) ∗ (se + vruntime) ↦ u32 v ∗ zip root k u.

Lemma ts_insert_step_wp root se v T es n s :
  StronglySorted before_in_time es → Forall (λ e, near v e.2) es →
  search_inv root se v T es n s ⊢ wp (ts_insert_step se s) (λ r,
    match r with
    | inl s' => ∃ n', ⌜(n' < n)%nat⌝ ∗ search_inv root se v T es n' s'
    | inr r => search_result root se v T es r
    end).
Proof.
  iIntros (Hs Hnear). iDestruct 1 as (k u es1 es2 es3 (-> & -> & <- & Hu)) "(Hes & Hv & Hz)".
  unfold ts_insert_step. iDestruct (zip_slot with "Hz") as "[Hsl Hz]". wp_load.
  iDestruct ("Hz" with "Hsl") as "Hz". destruct u as [|c l x r].
  { simpl. wp_pures. iFrame. rw zip_plug. iFrame. iPureIntro. exists k, es1, es3. split_and!; [done|done|].
    assert (es2 = []) as -> by (destruct Hu as (_ & _ & H & _); by destruct es2). done. }
  iDestruct (zip_root_ne root k SL c l x r with "Hz") as %Hx. simpl root_of.
  rw (proj2 (Z.eqb_neq _ _) Hx).
  destruct (ins_search_left _ _ _ _ _ _ _ _ _ _ _ Hs Hu) as (esl & e & esr & -> & -> & Hlt & Hgt).
  assert (es = (es1 ++ esl) ++ e :: (esr ++ es3)) as Ees
    by (destruct Hu as (-> & _); by rw -!app_assoc).
  unfold node_of in *. rw Z.add_simpl_r. rw (proj2 (Z.eqb_neq e.1 NULL)).
  2: { unfold run_node, NULL in *. lia. }
  iDestruct (times_acc _ _ _ _ Ees with "Hes") as "[He Hes]". wp_load. wp_load.
  iDestruct ("Hes" with "He") as "Hes". rw s32_u32_sub.
  2: { apply (proj1 (Forall_forall _ _) Hnear). rw Ees. set_solver. }
  destruct (Z.ltb_spec (v - e.2) 0); [|destruct (Z.gtb_spec (v - e.2) 0)]; wp_pures.
  - iExists (length esl). iSplit; [iPureIntro; rw length_app /=; lia|].
    iExists (Frame SL c (e.1 + run_node) r :: k), l, es1, esl, _. iFrame.
    rw -zip_down. iFrame. iPureIntro. split_and!; [done..|]. apply Hlt. lia.
  - iExists (length esr). iSplit; [iPureIntro; rw length_app /=; lia|].
    iExists (Frame SR c (e.1 + run_node) l :: k), r, _, esr, es3. iFrame.
    rw -zip_down. iFrame. iPureIntro. split_and!; [done..|]. apply Hgt. lia.
  - rw zip_plug. iFrame. iPureIntro. rw Ees. replace v with e.2 by lia.
    apply list_elem_of_fmap. exists e. set_solver.
Qed.

Lemma sorted_insert (es1 es3 : list entity) e : StronglySorted before_in_time (es1 ++ es3) →
  Forall (λ f, f.2 < e.2) es1 → Forall (λ f, e.2 < f.2) es3 →
  StronglySorted before_in_time (es1 ++ e :: es3).
Proof.
  rw !StronglySorted_app StronglySorted_cons. intros (H & H1 & H3) Hlo Hhi. split_and!; try done.
  intros f g Hf. rw elem_of_cons. intros [->|Hg]; [|by apply H].
  apply (proj1 (Forall_forall _ _) Hlo f Hf).
Qed.

(** An entity goes to its place in time, or, if its time is already taken, nowhere. *)
Lemma ts_insert_wp root se v es Q : Forall (λ e, near v e.2) es →
  timeline root es -∗ se_free se v -∗
  ((⌜v ∈ es.*2⌝ -∗ timeline root es -∗ se_free se v -∗ Q 0) ∧
   (∀ es1 es2, ⌜es = es1 ++ es2 ∧ v ∉ es.*2⌝ -∗ timeline root (es1 ++ (se, v) :: es2) -∗ Q 1)) -∗
  wp (ts_insert root se) Q.
Proof.
  iIntros (Hnear) "(%T & Hz & (%Hwf & %HT) & Hes & %Hs) [Hx Hv] HQ". unfold ts_insert.
  iApply wp_bind. iApply (wp_wand with "[Hz Hes Hv]").
  { iApply (wp_loop _ (search_inv root se v T es) (search_result root se v T es) (length es)).
    - iDestruct 1 as (k u es1 es2 es3 (_ & -> & _ & Hu)) "(_ & _ & _ & Hu)". rw rbt_cells.
      destruct Hu as (_ & _ & -> & _). by rw length_fmap.
    - intros n s. by apply ts_insert_step_wp.
    - iExists [], T, [], es, []. iFrame. iPureIntro. split_and!; [done..|].
      split_and!; try done. by rw app_nil_r. }
  iIntros ([[new parent]|[]]) "(Hes & Hv & Hz & %Hr)".
  - destruct Hr as (k & es1 & es3 & [= -> ->] & <- & -> & Hb & _ & Ha & Hlo & Hhi).
    iApply wp_assoc. iApply wp_bind.
    iApply (rb_insert_wp with "Hz Hx"); [done|]. iIntros (t' [Hin Hwf']) "Hz". wp_pures.
    iDestruct "HQ" as "[_ HQ]". simpl in Hs. iApply ("HQ" $! es1 es3 with "[%]").
    { split; [done|]. rw list_elem_of_fmap. intros (e & -> & He). simpl in He.
      apply elem_of_app in He as [He|He].
      - pose proof (proj1 (Forall_forall _ _) Hlo e He) as H. simpl in H. lia.
      - pose proof (proj1 (Forall_forall _ _) Hhi e He) as H. simpl in H. lia. }
    iExists t'. iFrame. simpl. rw !big_sepL_app /=. iDestruct "Hes" as "[$ $]". iFrame.
    iPureIntro. split_and!; [done| |by apply sorted_insert].
    rw Hin Hb Ha fmap_app. done.
  - wp_pures. iDestruct "HQ" as "[HQ _]". iApply ("HQ" with "[//] [Hz Hes]"); [|iFrame].
    iExists T. by iFrame.
Qed.

(** ** Searching *)

Lemma se_search_wp root v es Q : Forall (λ e, near v e.2) es →
  timeline root es -∗
  (∀ r, ⌜(r, v) ∈ es ∨ r = NULL ∧ v ∉ es.*2⌝ -∗ timeline root es -∗ Q r) -∗
  wp (se_search root (u32 v)) Q.
Proof.
  iIntros (Hnear) "(%T & Hz & (%Hwf & %HT) & Hes & %Hs) HQ". unfold se_search.
  iApply wp_bind. iApply (load_root_wp with "Hz"). iIntros "Hz".
  iApply (wp_wand with "[Hz Hes]"); first iApply (wp_loop _ (λ n node,
    ∃ k u es1 es2 es3, ⌜node = root_of u ∧ n = length es2 ∧ plug k u = T ∧
      ins_search root v es k u es1 es2 es3⌝ ∗
      ([∗ list] e ∈ es, (e.1 + vruntime) ↦ u32 e.2) ∗ zip root k u)%I
    (λ r, ⌜(r, v) ∈ es ∨ r = NULL ∧ v ∉ es.*2⌝ ∗ rbtree root T ∗
      ([∗ list] e ∈ es, (e.1 + vruntime) ↦ u32 e.2))%I (length es)).
  - iDestruct 1 as (k u es1 es2 es3 (_ & -> & _ & Hu)) "(_ & _ & Hu)". rw rbt_cells.
    destruct Hu as (_ & _ & -> & _). by rw length_fmap.
  - clear Hwf HT. intros n node. iDestruct 1 as (k u es1 es2 es3 (-> & -> & <- & Hu)) "(Hes & Hz)".
    destruct u as [|c l x r].
    { simpl. wp_pures. rw zip_plug. iFrame. iPureIntro. right. split; [done|].
      destruct Hu as (-> & _ & H & _ & Hlo & Hhi). destruct es2; [|done].
      rw list_elem_of_fmap. intros (e & -> & He). simpl in He. apply elem_of_app in He as [He|He].
      - pose proof (proj1 (Forall_forall _ _) Hlo e He) as H1. simpl in H1. lia.
      - pose proof (proj1 (Forall_forall _ _) Hhi e He) as H1. simpl in H1. lia. }
    iDestruct (zip_root_ne root k SL c l x r with "Hz") as %Hx. simpl root_of.
    rw (proj2 (Z.eqb_neq _ _) Hx).
    destruct (ins_search_left _ _ _ _ _ _ _ _ _ _ _ Hs Hu) as (esl & e & esr & -> & -> & Hlt & Hgt).
    assert (es = (es1 ++ esl) ++ e :: (esr ++ es3)) as Ees
      by (destruct Hu as (-> & _); by rw -!app_assoc).
    unfold node_of in *. rw Z.add_simpl_r.
    iDestruct (times_acc _ _ _ _ Ees with "Hes") as "[He Hes]". wp_load.
    iDestruct ("Hes" with "He") as "Hes". rw s32_u32_sub.
    2: { apply (proj1 (Forall_forall _ _) Hnear). rw Ees. set_solver. }
    destruct (Z.ltb_spec (v - e.2) 0); [|destruct (Z.gtb_spec (v - e.2) 0)].
    + iApply wp_bind. iApply (load_child_wp _ _ SL c l r with "Hz"). iIntros "Hz". wp_pures.
      iExists (length esl). iSplit; [iPureIntro; rw length_app /=; lia|].
      iExists (Frame SL c (e.1 + run_node) r :: k), l, es1, esl, _. iFrame.
      rw -zip_down. iFrame. iPureIntro. split_and!; [done..|]. apply Hlt. lia.
    + iApply wp_bind. iApply (load_child_wp _ _ SR c r l with "Hz"). iIntros "Hz". wp_pures.
      iExists (length esr). iSplit; [iPureIntro; rw length_app /=; lia|].
      iExists (Frame SR c (e.1 + run_node) l :: k), r, _, esr, es3. iFrame.
      rw -zip_down. iFrame. iPureIntro. split_and!; [done..|]. apply Hgt. lia.
    + wp_pures. rw zip_plug. iFrame. iPureIntro. left. rw Ees. replace v with e.2 by lia.
      rw -surjective_pairing. set_solver.
  - iExists [], T, [], es, []. iFrame. iPureIntro. split_and!; [done..|].
    split_and!; try done. by rw app_nil_r.
  - iIntros (r) "(Hr & Hz & Hes)". iApply ("HQ" with "Hr"). iExists T. by iFrame.
Qed.

(** ** The first entity, and removing one *)

Lemma ts_leftmost_wp root es Q :
  timeline root es -∗ (timeline root es -∗ Q (default NULL (head es.*1))) -∗
  wp (ts_leftmost root) Q.
Proof.
  iIntros "(%t & Hz & (%Hwf & %Ht) & Hes & %Hs) HQ". unfold ts_leftmost.
  iApply wp_bind. iApply (rb_first_wp with "Hz"). iIntros "Hz". wp_pures. rw Ht.
  replace (default NULL (head (node_of <$> es)) - run_node) with (default NULL (head es.*1)).
  - iApply "HQ". iExists t. by iFrame.
  - destruct es as [|e es]; simpl; [done|]. unfold node_of. lia.
Qed.

(** The time line while the virtual time of one entity is being changed. *)
Definition timeline_but (root : Z) (es1 : list entity) (se : Z) (es2 : list entity) : heapProp :=
  ∃ t, rbtree root t ∗
    ⌜rb_wf t ∧ inorder t = (node_of <$> es1) ++ (se + run_node)%Z :: (node_of <$> es2)⌝ ∗
    ([∗ list] e ∈ (es1 ++ es2), (e.1 + vruntime) ↦ u32 e.2) ∗
    ⌜StronglySorted before_in_time (es1 ++ es2)⌝.

Lemma timeline_open root es1 se v es2 :
  timeline root (es1 ++ (se, v) :: es2) ⊢ (se + vruntime) ↦ u32 v ∗ timeline_but root es1 se es2.
Proof.
  iIntros "(%t & Hz & (%Hwf & %Ht) & Hes & %Hs)". rw big_sepL_app /=.
  iDestruct "Hes" as "(H1 & $ & H2)". iExists t. rw big_sepL_app. iFrame. iPureIntro.
  split_and!; [done|by rw Ht fmap_app|].
  apply StronglySorted_app in Hs as (H & H1 & H2). apply StronglySorted_cons in H2 as [H2 H3].
  apply StronglySorted_app. set_solver.
Qed.

Lemma ts_earse_wp root es1 se es2 Q :
  timeline_but root es1 se es2 -∗
  (timeline root (es1 ++ es2) -∗ rb_free (se + run_node) -∗ Q 0) -∗
  wp (ts_earse root se) Q.
Proof.
  iIntros "(%t & Hz & (%Hwf & %Ht) & Hes & %Hs) HQ". unfold ts_earse.
  iDestruct (rbtree_zipper _ _ _ _ _ Ht with "Hz") as (k c l r (-> & E1 & E2)) "Hz".
  iApply wp_bind. iApply (rb_erase_wp with "Hz"); [done|]. iIntros (t' [Hin Hwf']) "Hz Hx".
  wp_pures. iApply ("HQ" with "[-Hx] Hx"). iExists t'. iFrame. iPureIntro. split_and!; [done| |done].
  rw Hin fmap_app E1 E2. by rw -!app_assoc.
Qed.

(** ** Properties *)

(** functional.  [ts_insert] with a virtual time within half the range of [int] of those
    in the time line: if the time is new, the entity takes its place and the time line stays
    ordered (and the tree balanced); if it is taken, nothing changes and 0 is returned. *)
Theorem ts_insert_correct root se v es :
  {{ timeline root es ∗ se_free se v ∗ ⌜Forall (λ e, near v e.2) es⌝ }}
    ts_insert root se
  {{ r, if bool_decide (v ∈ es.*2) then ⌜r = 0⌝ ∗ timeline root es ∗ se_free se v
        else ⌜r = 1⌝ ∗ ∃ es1 es2, ⌜es = es1 ++ es2⌝ ∗ timeline root (es1 ++ (se, v) :: es2) }}.
Proof.
  apply triple_wp. iIntros "(Hes & Hx & %Hnear)". iApply (ts_insert_wp with "Hes Hx"); [done|].
  iSplit.
  - iIntros (Hv) "Hes Hx". rw bool_decide_true; [|done]. by iFrame.
  - iIntros (es1 es2 [-> Hv]) "Hes". rw bool_decide_false; [|done]. iSplit; [done|].
    iExists es1, es2. by iFrame.
Qed.

(** functional.  [ts_leftmost] on a time line that is not empty returns an
    entity whose virtual time is the least of all. *)
Theorem ts_leftmost_least root es :
  {{ timeline root es ∗ ⌜es ≠ []⌝ }}
    ts_leftmost root
  {{ r, timeline root es ∗ ⌜∃ v, (r, v) ∈ es ∧ ∀ e, e ∈ es → v ≤ e.2⌝ }}.
Proof.
  apply triple_wp. iIntros "[Hes %Hne]". iApply (ts_leftmost_wp with "Hes"). iIntros "Hes".
  iAssert ⌜StronglySorted before_in_time es⌝%I as %Hs; [by iDestruct "Hes" as (t) "(_ & _ & _ & $)"|].
  iFrame. iPureIntro. destruct es as [|[se v] es]; [done|]. exists v. split; [set_solver|].
  apply StronglySorted_cons in Hs as [Hs _]. intros e [->|He]%elem_of_cons; [done|].
  pose proof (proj1 (Forall_forall _ _) Hs e He) as H. unfold before_in_time in H. simpl in *. lia.
Qed.

(** functional.  [se_search] returns the entity with the given virtual time, and
    NULL exactly when there is none. *)
Theorem se_search_correct root v es :
  {{ timeline root es ∗ ⌜Forall (λ e, near v e.2) es⌝ }}
    se_search root (u32 v)
  {{ r, timeline root es ∗ ⌜(r, v) ∈ es ∨ r = NULL ∧ v ∉ es.*2⌝ }}.
Proof.
  apply triple_wp. iIntros "(Hes & %Hnear)". iApply (se_search_wp with "Hes"); [done|].
  iIntros (r Hr) "Hes". by iFrame.
Qed.
