(* ===== verification/Sched.v ===== *)
(** * The scheduler: kernel/sched.c

    Tasks are [struct task_struct]s in memory; the members the scheduler uses are named by
    their offsets.  [sched_rq] and [current] are the addresses of the global variables of
    that name.  The run queue is a union: the fair queue and the round-robin queue lie over
    each other at the same address. *)

From S2P Require Export CList SchedFair.

(** struct task_struct *)
Definition state : Z := 348.
Definition ticks : Z := 368.
Definition priority : Z := 372.
Definition sched_class : Z := 652.
Definition sched_entity : Z := 656.
Definition task_list : Z := 672.

Definition TASK_RUNNING : Z := 0.
Definition TASK_INTERRUPTIBLE : Z := 1.

(** struct cfs_rq, struct rr_rq *)
Definition cfs_nr_running : Z := 0.
Definition task_timeline : Z := 4.
Definition min_vruntime : Z := 16.
Definition rr_nr_running : Z := 0.
Definition rr_rq_list : Z := 4.

Definition MIN_VRUNTIME : Z := 100.

(** ** The round-robin class *)

(** [assert]: a failure halts the machine. *)
Definition assert (b : bool) : M unit := if b then mret tt else panic.

(** One pass over the list: [p] is the task with the most ticks so far. *)
Definition rr_scan (head : Z) (s : Z * Z) : M (Z * Z) :=
  r ← list_for_each_safe (R := Empty_set) head (λ pos '(p, greatest_ticks),
    let tsk := pos - task_list in
    s ← load (tsk + state);
    assert (s =? TASK_RUNNING);;
    t ← load (tsk + ticks);
    if t >? greatest_ticks then mret (inl (tsk, t))
    else mret (inl (p, greatest_ticks))) s;
  match r with
  | inl s => mret s
  | inr e => match (e : Empty_set) with end
  end.

Definition rr_refill (head : Z) : M unit :=
  r ← list_for_each_safe (R := Empty_set) head (λ pos _,
    let tsk := pos - task_list in
    p ← load (tsk + priority);
    store (tsk + ticks) p;;
    mret (inl tt)) tt;
  match r with
  | inl _ => mret tt
  | inr e => match (e : Empty_set) with end
  end.

Definition rr_next_task (rq : Z) : M Z :=
  loop (λ s : Z * Z,
    let head := rq + rr_rq_list in
    e ← list_empty_careful head;
    (if (e : bool) then panic else mret tt);;
    '(p, greatest_ticks) ← rr_scan head s;
    if greatest_ticks =? 0 then rr_refill head;; mret (inl (p, greatest_ticks))
    else mret (inr p)) (NULL, 0).

Definition rr_enqueue (rq p wakeup head : Z) : M unit :=
  if p =? NULL then mret tt else list_add (p + task_list) (rq + rr_rq_list).

Definition rr_dequeue (rq p sleep : Z) : M unit :=
  if p =? NULL then mret tt else list_del (p + task_list).

(** ** The fair class *)

Definition cfs_enqueue (rq p wakeup head : Z) : M unit :=
  let root := rq + task_timeline in
  (if wakeup =? 0 then
     v ← load (p + sched_entity + vruntime);
     m ← load (rq + min_vruntime);
     store (p + sched_entity + vruntime) (u32 (v + m))
   else mret tt);;
  ts_insert root (p + sched_entity);;
  mret tt.

Definition cfs_dequeue (rq p sleep : Z) : M unit :=
  let root := rq + task_timeline in
  (if sleep =? 1 then
     v ← load (p + sched_entity + vruntime);
     m ← load (rq + min_vruntime);
     store (p + sched_entity + vruntime) (u32 (v - m))
   else mret tt);;
  ts_earse root (p + sched_entity);;
  mret tt.

Section globals.
Context (sched_rq current rr_sched_addr : Z).

Definition cfs_next_task (rq : Z) : M Z :=
  let root := rq + task_timeline in
  cur ← load current;
  v ← load (cur + sched_entity + vruntime);
  m ← load (sched_rq + min_vruntime);
  store (cur + sched_entity + vruntime) (u32 (v - m));;
  cur ← load current;
  cfs_dequeue rq cur 0;;
  se ← ts_leftmost root;
  let tsk := se - sched_entity in
  w ← load (se + vruntime);
  store (rq + min_vruntime) w;;
  cur ← load current;
  s ← load (cur + state);
  (if negb (s =? TASK_RUNNING) then mret tt
   else cur ← load current; cfs_enqueue rq cur 0 0);;
  mret tsk.

(** struct sched_class: the operations of a scheduling class.  [rr_sched], the only class, has
    those of the fair one. *)
Record class := Class {
  enqueue_task : Z → Z → Z → Z → M unit;
  dequeue_task : Z → Z → Z → M unit;
  pick_next_task : Z → M Z;
}.

Definition rr_sched : class := {|
  enqueue_task := cfs_enqueue;
  dequeue_task := cfs_dequeue;
  pick_next_task := cfs_next_task;
|}.

(** The class a pointer points to. *)
Definition class_at (p : Z) : M class :=
  if p =? rr_sched_addr then mret rr_sched else fault.

Definition schedule : M unit :=
  cur ← load current;
  c ← load (cur + sched_class);
  cls ← class_at c;
  p ← pick_next_task cls sched_rq;
  if negb (p =? NULL) then
    cur ← load current;
    if p =? cur then mret tt else store current p
  else mret tt.

Definition unblock (p : Z) : M unit := store (p + state) TASK_RUNNING.

Definition block (p : Z) : M unit :=
  store (p + state) TASK_INTERRUPTIBLE;;
  schedule.

Definition NR_PROCESS : Z := 4.

(** kernel/clock.c; [jiffies], [ticks] and [k_reenter] are global variables. *)
Definition clock_handler (jiffies ticks_var k_reenter : Z) : M unit :=
  j ← load jiffies;
  store jiffies (s32 (j + 1));;
  t ← load ticks_var;
  store ticks_var (s32 (t + 1));;
  cur ← load current;
  ct ← load (cur + ticks);
  store (cur + ticks) (s32 (ct - 1));;
  cur ← load current;
  v ← load (cur + sched_entity + vruntime);
  store (cur + sched_entity + vruntime) (u32 (v + 1));;
  k ← load k_reenter;
  if negb (k =? 0) then mret tt else
  j ← load jiffies;
  if Z.rem j NR_PROCESS =? 0 then schedule else mret tt.

(** [init_pidmap] works on the pid bitmap and is passed as an argument. *)
Definition init_sched (init_pidmap : M unit) : M unit :=
  store (sched_rq + rr_nr_running) 0;;
  INIT_LIST_HEAD (sched_rq + rr_rq_list);;
  store (sched_rq + cfs_nr_running) 0;;
  store (sched_rq + task_timeline + rb_node) NULL;;
  store (sched_rq + min_vruntime) MIN_VRUNTIME;;
  init_pidmap.
End globals.

(** ** The fair queue *)

Lemma u32_add v w : u32 (u32 v + u32 w) = u32 (v + w).
Proof. unfold u32. by rw -Zplus_mod. Qed.

Lemma u32_sub v w : u32 (u32 v - u32 w) = u32 (v - w).
Proof. unfold u32. by rw -Zminus_mod. Qed.

(** What [cfs_enqueue] and [cfs_next_task] leave behind: the entity [se] is at its place in the
    queue [es] or, when its time is taken, in no queue. *)
Definition queued (rq : Z) (es : list entity) (se v : Z) : heapProp :=
  (if bool_decide (v ∈ es.*2) then timeline (rq + task_timeline) es ∗ se_free se v
   else ∃ es1 es2, ⌜es = es1 ++ es2⌝ ∗ timeline (rq + task_timeline) (es1 ++ (se, v) :: es2))%I.

Lemma cfs_enqueue_wp rq p mv v es head Q : Forall (λ e, near (v + mv) e.2) es →
  timeline (rq + task_timeline) es -∗ (rq + min_vruntime) ↦ u32 mv -∗ se_free (p + sched_entity) v -∗
  (queued rq es (p + sched_entity) (v + mv) -∗ (rq + min_vruntime) ↦ u32 mv -∗ Q tt) -∗
  wp (cfs_enqueue rq p 0 head) Q.
Proof.
  iIntros (Hnear) "Ht Hm [Hx Hv] HQ". unfold cfs_enqueue. wp_load. wp_load. wp_store. rw u32_add.
  iApply wp_bind. iApply (ts_insert_wp with "Ht [$Hx $Hv]"); [done|]. iSplit.
  - iIntros (Hin) "Ht Hx". wp_pures. iApply ("HQ" with "[-Hm] Hm"). unfold queued.
    rw bool_decide_true; [|done]. iFrame.
  - iIntros (es1 es2 [-> Hin]) "Ht". wp_pures. iApply ("HQ" with "[-Hm] Hm"). unfold queued.
    rw bool_decide_false; [|done]. iExists es1, es2. by iFrame.
Qed.

Section globals.
Context (sched_rq current rr_sched_addr : Z).

(** The scheduler while [cur] runs: its virtual time [v] has been counted up in place, all
    other entities are in order. *)
Definition running (cur v mv s : Z) (es1 es2 : list entity) : heapProp :=
  current ↦ cur ∗ timeline_but (sched_rq + task_timeline) es1 (cur + sched_entity) es2 ∗
  (cur + sched_entity + vruntime) ↦ u32 v ∗ (sched_rq + min_vruntime) ↦ u32 mv ∗
  (cur + state) ↦ s.

(** After a choice: the old task [cur] is queued again if it can run, with the time it has used
    since it was chosen added to that of the first entity. *)
Definition chosen (cur v mv s : Z) (es : list entity) (v0 : Z) : heapProp :=
  (sched_rq + min_vruntime) ↦ u32 v0 ∗ (cur + state) ↦ s ∗
  (if s =? TASK_RUNNING then queued sched_rq es (cur + sched_entity) (v - mv + v0)
   else timeline (sched_rq + task_timeline) es ∗ se_free (cur + sched_entity) (v - mv))%I.

Lemma cfs_next_task_wp cur v mv s es1 es2 se0 v0 es Q :
  es1 ++ es2 = (se0, v0) :: es → Forall (λ e, near (v - mv + v0) e.2) (es1 ++ es2) →
  running cur v mv s es1 es2 -∗
  (current ↦ cur -∗ chosen cur v mv s (es1 ++ es2) v0 -∗ Q (se0 - sched_entity)) -∗
  wp (cfs_next_task sched_rq current sched_rq) Q.
Proof.
  iIntros (Hes Hnear) "(Hc & Ht & Hv & Hm & Hs) HQ". unfold cfs_next_task.
  wp_load. wp_load. wp_load. wp_store. rw u32_sub. wp_load.
  unfold cfs_dequeue. wp_pures. iApply wp_bind. iApply (ts_earse_wp with "Ht"). iIntros "Ht Hx".
  wp_pures. iApply wp_bind. iApply (ts_leftmost_wp with "Ht"). iIntros "Ht".
  assert (default NULL (head (es1 ++ es2).*1) = se0) as -> by (by rw Hes).
  iAssert ((se0 + vruntime) ↦ u32 v0 ∗ ((se0 + vruntime) ↦ u32 v0 -∗
    timeline (sched_rq + task_timeline) (es1 ++ es2)))%I with "[Ht]" as "[H0 Ht]".
  { iDestruct "Ht" as (t) "(H1 & H2 & H3 & H4)".
    iDestruct (times_acc (es1 ++ es2) [] (se0, v0) es Hes with "H3") as "[$ H3]".
    iIntros "H". iExists t. iFrame. by iApply "H3". }
  wp_load. iDestruct ("Ht" with "H0") as "Ht". wp_store. wp_load. wp_load.
  unfold chosen. destruct (Z.eqb_spec s TASK_RUNNING) as [->|Hne].
  - wp_pures. wp_load. iApply wp_bind. iApply (cfs_enqueue_wp with "Ht Hm [$Hx $Hv]"); [done|].
    iIntros "Hq Hm". wp_pures. iApply ("HQ" with "Hc"). iFrame.
  - wp_pures. iApply ("HQ" with "Hc"). iFrame.
Qed.

Lemma schedule_wp cur v mv s es1 es2 se0 v0 es Q :
  es1 ++ es2 = (se0, v0) :: es → Forall (λ e, near (v - mv + v0) e.2) (es1 ++ es2) →
  se0 ≠ sched_entity →
  running cur v mv s es1 es2 -∗ (cur + sched_class) ↦ rr_sched_addr -∗
  (current ↦ (se0 - sched_entity) -∗ chosen cur v mv s (es1 ++ es2) v0 -∗
   (cur + sched_class) ↦ rr_sched_addr -∗ Q tt) -∗
  wp (schedule sched_rq current rr_sched_addr) Q.
Proof.
  iIntros (Hes Hnear H0) "(Hc & Hr) Hcls HQ". unfold schedule, class_at. wp_load. wp_load.
  iApply wp_bind. iApply (cfs_next_task_wp with "[$Hc $Hr]"); [done|done|]. iIntros "Hc Hch".
  rw (proj2 (Z.eqb_neq (se0 - sched_entity) NULL)); [|unfold NULL; lia]. wp_load.
  destruct (Z.eqb_spec (se0 - sched_entity) cur) as [<-|Hne]; [|wp_store]; wp_pures;
    iApply ("HQ" with "Hc Hch Hcls").
Qed.

(** ** Properties *)

(** C9: functional.  [schedule] makes the task whose virtual time is the least of the other
    tasks' current, puts [min_vruntime] there, and queues the task that ran, if it
    can still run, with the time it used since it was chosen added to that minimum; if this time
    is taken the task is in no queue any more. *)
Theorem schedule_correct cur v mv s es1 es2 se0 v0 es :
  {{ running cur v mv s es1 es2 ∗ (cur + sched_class) ↦ rr_sched_addr ∗
     ⌜es1 ++ es2 = (se0, v0) :: es ∧ Forall (λ e, near (v - mv + v0) e.2) (es1 ++ es2) ∧
      se0 ≠ sched_entity⌝ }}
    schedule sched_rq current rr_sched_addr
  {{ _, current ↦ (se0 - sched_entity) ∗ chosen cur v mv s (es1 ++ es2) v0 ∗
        (cur + sched_class) ↦ rr_sched_addr }}.
Proof.
  apply triple_wp. iIntros "(Hr & Hcls & %Hes & %Hnear & %H0)".
  iApply (schedule_wp with "Hr Hcls"); [done|done|done|]. iIntros "$ $ $".
Qed.

(** error.  A task that calls [schedule] before any virtual time has passed since it
    was chosen ([vruntime = min_vruntime]) gets the time of the first entity, [ts_insert] refuses
    it, and although it is running it is left out of the run queue. *)
Theorem cfs_next_task_drops_current cur v es1 es2 se0 v0 es :
  {{ running cur v v TASK_RUNNING es1 es2 ∗
     ⌜es1 ++ es2 = (se0, v0) :: es ∧ Forall (λ e, near v0 e.2) (es1 ++ es2)⌝ }}
    cfs_next_task sched_rq current sched_rq
  {{ r, ⌜r = se0 - sched_entity⌝ ∗ timeline (sched_rq + task_timeline) (es1 ++ es2) ∗
        se_free (cur + sched_entity) v0 }}.
Proof.
  apply triple_wp. iIntros "(Hr & %Hes & %Hnear)".
  iApply (cfs_next_task_wp with "Hr"); [done|by rw Z.sub_diag|].
  iIntros "_ (_ & _ & H)". rw Z.sub_diag Z.add_0_l Z.eqb_refl. unfold queued.
  rw bool_decide_true; [by iFrame|]. rw Hes. simpl. set_solver.
Qed.

(** invariant.  A clock tick counts the virtual time of the running task up in
    place and otherwise keeps the run queue; on every fourth tick outside of nested interrupts it
    does what [schedule] does. *)
Theorem clock_handler_correct jiffies ticks_var k_reenter cur v mv s es1 es2 se0 v0 es j t ct k :
  {{ running cur v mv s es1 es2 ∗ (cur + sched_class) ↦ rr_sched_addr ∗
     jiffies ↦ j ∗ ticks_var ↦ t ∗ (cur + ticks) ↦ ct ∗ k_reenter ↦ k ∗
     ⌜es1 ++ es2 = (se0, v0) :: es ∧ Forall (λ e, near (v + 1 - mv + v0) e.2) (es1 ++ es2) ∧
      se0 ≠ sched_entity⌝ }}
    clock_handler sched_rq current rr_sched_addr jiffies ticks_var k_reenter
  {{ _, jiffies ↦ s32 (j + 1) ∗ ticks_var ↦ s32 (t + 1) ∗ (cur + ticks) ↦ s32 (ct - 1) ∗
        k_reenter ↦ k ∗ (cur + sched_class) ↦ rr_sched_addr ∗
        if (k =? 0) && (Z.rem (s32 (j + 1)) NR_PROCESS =? 0)
        then current ↦ (se0 - sched_entity) ∗ chosen cur (v + 1) mv s (es1 ++ es2) v0
        else running cur (v + 1) mv s es1 es2 }}.
Proof.
  apply triple_wp.
  iIntros "((Hc & Ht & Hv & Hm & Hs) & Hcls & Hj & Htk & Hct & Hk & %Hes & %Hnear & %H0)".
  unfold clock_handler. wp_load. wp_store. wp_load. wp_store. wp_load. wp_load. wp_store.
  wp_load. wp_load. wp_store. wp_load.
  rw -(u32_small 1); [|lia]. rw u32_add (u32_small 1); [|lia].
  destruct (Z.eqb_spec k 0) as [->|Hk]; wp_pures; [|by iFrame]. wp_load.
  destruct (Z.eqb_spec (Z.rem (s32 (j + 1)) NR_PROCESS) 0) as [Hj|Hj]; wp_pures; [|by iFrame].
  iApply (schedule_wp with "[$Hc $Ht $Hv $Hm $Hs] Hcls"); [done|done|done|].
  iIntros "$ $ $". iFrame.
Qed.
End globals.
