(* ===== verification/SchedRR.v ===== *)
(** * The round-robin queue of kernel/sched.c

    [rr_queue rq ts]: the tasks [ts], each with its remaining ticks and its priority, linked into
    the round-robin list of [rq] in this order. *)

From S2P Require Export Sched.

Record rr_task := RRTask { rt_addr : Z; rt_ticks : Z; rt_priority : Z }.

Definition rr_fields (k : rr_task) : heapProp :=
  (rt_addr k + state) ↦ TASK_RUNNING ∗ (rt_addr k + ticks) ↦ rt_ticks k ∗
  (rt_addr k + priority) ↦ rt_priority k.

Definition rr_link (k : rr_task) : Z := rt_addr k + task_list.

Definition rr_queue (rq : Z) (ts : list rr_task) : heapProp :=
  dlist (rq + rr_rq_list) (rr_link <$> ts) ∗ [∗ list] k ∈ ts, rr_fields k.

(** The choice of one pass, and the ticks after a refill. *)
Definition rr_pick (s : Z * Z) (ts : list rr_task) : Z * Z :=
  foldl (λ s k, if rt_ticks k >? s.2 then (rt_addr k, rt_ticks k) else s) s ts.

Definition rr_renew (k : rr_task) : rr_task := RRTask (rt_addr k) (rt_priority k) (rt_priority k).

(** [rr_pick] finds a task with the most ticks, provided some task has any. *)
Lemma rr_pick_spec ts s : let r := rr_pick s ts in
  (r = s ∨ s.2 < r.2 ∧ ∃ k, k ∈ ts ∧ r = (rt_addr k, rt_ticks k)) ∧
  Forall (λ k, rt_ticks k ≤ r.2) ts.
Proof.
  revert s. induction ts as [|k ts IH]; intros s; simpl; [auto|].
  setoid_rewrite elem_of_cons. destruct (Z.gtb_spec (rt_ticks k) s.2) as [Hk|Hk].
  - destruct (IH (rt_addr k, rt_ticks k)) as ([Hr|(Hlt & k' & Hk' & Hr)] & Hall); simpl in *.
    + rw Hr in Hall *. split; [right; split; [done|by exists k; auto]|by constructor].
    + split; [right; split; [lia|by exists k'; auto]|constructor; [lia|done]].
  - destruct (IH s) as ([Hr|(Hlt & k' & Hk' & Hr)] & Hall).
    + split; [by left|constructor; [rw Hr; lia|done]].
    + split; [right; split; [done|by exists k'; auto]|constructor; [lia|done]].
Qed.

Lemma rr_fields_acc ts1 k ts2 :
  ([∗ list] k ∈ (ts1 ++ k :: ts2), rr_fields k) ⊢ rr_fields k ∗
  (∀ k', rr_fields k' -∗ [∗ list] k ∈ (ts1 ++ k' :: ts2), rr_fields k).
Proof.
  rw big_sepL_app /=. iIntros "(H1 & $ & H2)". iIntros (k') "H". rw big_sepL_app /=. iFrame.
Qed.

(** A place in the list of links is a place in the list of tasks. *)
Lemma rr_links_split ts xs x ys : rr_link <$> ts = xs ++ x :: ys →
  ∃ ts1 k ts2, ts = ts1 ++ k :: ts2 ∧ xs = rr_link <$> ts1 ∧ x = rr_link k ∧ ys = rr_link <$> ts2.
Proof.
  intros H. apply fmap_app_inv in H as (ts1 & ts' & -> & H & ->).
  destruct ts' as [|k ts2]; [done|]. simplify_eq/=. eauto 10.
Qed.

Lemma rr_scan_wp rq ts s Q :
  rr_queue rq ts -∗ (rr_queue rq ts -∗ Q (rr_pick s ts)) -∗ wp (rr_scan (rq + rr_rq_list) s) Q.
Proof.
  iIntros "[Hd Hts] HQ". unfold rr_scan. iApply wp_bind.
  iApply (wp_wand with "[Hd Hts]"); first iApply (list_for_each_safe_wp _ _
    (λ ds ys a, ∃ ts1 ts2, ⌜ts = ts1 ++ ts2 ∧ ds = rr_link <$> ts1 ∧ ys = rr_link <$> ts2 ∧
      a = rr_pick s ts1⌝ ∗ [∗ list] k ∈ ts, rr_fields k)%I
    (λ r, match r with inl a => ⌜a = rr_pick s ts⌝ ∗ rr_queue rq ts | inr _ => False end)%I
    (rr_link <$> ts)).
  - intros ds x ys [p g]. iIntros "[Hd (%ts1 & %ts2 & (-> & -> & %Hys & %Ha) & Hts)]".
    destruct ts2 as [|k ts2]; simplify_eq/=. unfold rr_link at 1. rw Z.add_simpl_r.
    iDestruct (rr_fields_acc with "Hts") as "[(Hs & Ht & Hp) Hts]".
    wp_load. unfold assert. wp_pures. wp_load.
    iDestruct ("Hts" $! k with "[$]") as "Hts".
    assert (rr_pick s (ts1 ++ [k]) = if rt_ticks k >? g then (rt_addr k, rt_ticks k) else (p, g)) as Hpick.
    { unfold rr_pick in *. rw foldl_app -Ha. done. }
    destruct (rt_ticks k >? g); wp_pures; iExists ((rr_link <$> ts1) ++ [rr_link k]);
      rw -assoc_L; iFrame "Hd"; iExists (ts1 ++ [k]), ts2; rw -assoc_L fmap_app Hpick; by iFrame.
  - intros ds a. iIntros "[Hd (%ts1 & %ts2 & (-> & -> & %Hys & ->) & Hts)]".
    destruct ts2; [|done]. rw app_nil_r. by iFrame.
  - iFrame. iExists [], ts. done.
  - iIntros ([a|[]]) "H". iDestruct "H" as "[-> H]". wp_pures. by iApply "HQ".
Qed.

Lemma rr_refill_wp rq ts Q :
  rr_queue rq ts -∗ (rr_queue rq (rr_renew <$> ts) -∗ Q tt) -∗ wp (rr_refill (rq + rr_rq_list)) Q.
Proof.
  iIntros "[Hd Hts] HQ". unfold rr_refill. iApply wp_bind.
  iApply (wp_wand with "[Hd Hts]"); first iApply (list_for_each_safe_wp _ _
    (λ ds ys _, ∃ ts1 ts2, ⌜ts = ts1 ++ ts2 ∧ ds = rr_link <$> ts1 ∧ ys = rr_link <$> ts2⌝ ∗
      [∗ list] k ∈ ((rr_renew <$> ts1) ++ ts2), rr_fields k)%I
    (λ r, match r with inl _ => rr_queue rq (rr_renew <$> ts) | inr _ => False end)%I
    (rr_link <$> ts)).
  - intros ds x ys []. iIntros "[Hd (%ts1 & %ts2 & (-> & -> & %Hys) & Hts)]".
    destruct ts2 as [|k ts2]; simplify_eq/=. unfold rr_link at 1. rw Z.add_simpl_r.
    iDestruct (rr_fields_acc with "Hts") as "[(Hs & Ht & Hp) Hts]".
    wp_load. wp_store. iDestruct ("Hts" $! (rr_renew k) with "[$]") as "Hts".
    iExists ((rr_link <$> ts1) ++ [rr_link k]). rw -assoc_L. iFrame "Hd".
    iExists (ts1 ++ [k]), ts2. rw -assoc_L !fmap_app -assoc_L. by iFrame.
  - intros ds []. iIntros "[Hd (%ts1 & %ts2 & (-> & -> & %Hys) & Hts)]".
    destruct ts2; [|done]. rw !app_nil_r. unfold rr_queue. rw -list_fmap_compose. by iFrame.
  - iFrame "Hd". iExists [], ts. by iFrame.
  - iIntros ([[]|[]]) "H". wp_pures. by iApply "HQ".
Qed.

(** The result: the best task, after a refill if no task had ticks left. *)
Definition rr_result (rq : Z) (ts : list rr_task) (p : Z) : heapProp :=
  ∃ ts', rr_queue rq ts' ∗
    ⌜(ts' = ts ∨ ts' = rr_renew <$> ts ∧ Forall (λ k, rt_ticks k ≤ 0) ts) ∧
     ∃ k, k ∈ ts' ∧ p = rt_addr k ∧ 0 < rt_ticks k ∧ Forall (λ k', rt_ticks k' ≤ rt_ticks k) ts'⌝.

(** One round of [rr_next_task]. *)
Lemma rr_round_wp rq ts Q : ts ≠ [] →
  rr_queue rq ts -∗
  (⌜(rr_pick (NULL, 0) ts).2 = 0⌝ -∗ rr_queue rq (rr_renew <$> ts) -∗ Q (inl (NULL, 0))) ∧
  (⌜(rr_pick (NULL, 0) ts).2 ≠ 0⌝ -∗ rr_queue rq ts -∗ Q (inr (rr_pick (NULL, 0) ts).1)) -∗
  wp (e ← list_empty_careful (rq + rr_rq_list);
      (if (e : bool) then panic else mret tt);;
      '(p, greatest_ticks) ← rr_scan (rq + rr_rq_list) (NULL, 0);
      if greatest_ticks =? 0 then rr_refill (rq + rr_rq_list);; mret (inl (p, greatest_ticks))
      else mret (inr p)) Q.
Proof.
  iIntros (Hts) "[Hd Hf] HQ". destruct ts as [|k0 ts]; [done|].
  iApply wp_bind. iApply (list_empty_careful_wp with "Hd"). iIntros "Hd". rw bool_decide_false //. wp_pures.
  iApply wp_bind. iApply (rr_scan_wp _ (k0 :: ts) with "[$Hd $Hf]"). iIntros "Hq".
  destruct (rr_pick_spec (k0 :: ts) (NULL, 0)) as ([Hr|(Hlt & _)] & _).
  - rw Hr. wp_pures. iApply wp_bind. iApply (rr_refill_wp with "Hq"). iIntros "Hq". wp_pures.
    iDestruct "HQ" as "[HQ _]". by iApply ("HQ" with "[//] Hq").
  - destruct (rr_pick (NULL, 0) (k0 :: ts)) as [p g]. simpl in Hlt. wp_pures.
    destruct (Z.eqb_spec g 0) as [->|Hg]; [lia|]. wp_pures.
    iDestruct "HQ" as "[_ HQ]". by iApply ("HQ" with "[//] Hq").
Qed.

Lemma rr_pick_nonzero ts : (rr_pick (NULL, 0) ts).2 ≠ 0 →
  ∃ k, k ∈ ts ∧ (rr_pick (NULL, 0) ts).1 = rt_addr k ∧ 0 < rt_ticks k ∧
    Forall (λ k', rt_ticks k' ≤ rt_ticks k) ts.
Proof.
  intros Hne. destruct (rr_pick_spec ts (NULL, 0)) as ([Hr|(Hlt & k & Hk & Hr)] & Hall).
  - by rw Hr in Hne.
  - exists k. rw Hr in Hlt Hall *. done.
Qed.

Lemma rr_pick_zero ts : (rr_pick (NULL, 0) ts).2 = 0 → Forall (λ k, rt_ticks k ≤ 0) ts.
Proof. intros H. destruct (rr_pick_spec ts (NULL, 0)) as [_ Hall]. by rw H in Hall. Qed.

Lemma rr_pick_renewed ts : Exists (λ k, 0 < rt_priority k) ts →
  (rr_pick (NULL, 0) (rr_renew <$> ts)).2 ≠ 0.
Proof.
  intros (k & Hk & Hp)%Exists_exists Hz. apply rr_pick_zero in Hz.
  assert (rr_renew k ∈ rr_renew <$> ts) as Hk' by (apply list_elem_of_fmap; eauto).
  pose proof (proj1 (Forall_forall _ _) Hz _ Hk') as H. simpl in H. lia.
Qed.

(** The first round may refill the ticks, the second one finds a task. *)
Definition rr_inv (rq : Z) (ts : list rr_task) (n : nat) (s : Z * Z) : heapProp :=
  ⌜s = (NULL, 0)⌝ ∗ ∃ ts', rr_queue rq ts' ∗ ⌜match n with
    | 0%nat => ts' = rr_renew <$> ts ∧ Forall (λ k, rt_ticks k ≤ 0) ts
    | 1%nat => ts' = ts
    | _ => False
    end⌝.

(** functional.  On a list with some task of positive priority, [rr_next_task] terminates
    and returns a task with the most ticks, more than zero; if no task had ticks left, all
    got their priority as ticks first.  It never panics: all tasks are running. *)
Theorem rr_next_task_correct rq ts :
  {{ rr_queue rq ts ∗ ⌜Exists (λ k, 0 < rt_priority k) ts⌝ }}
    rr_next_task rq
  {{ p, rr_result rq ts p }}.
Proof.
  apply triple_wp. iIntros "[Hq %Hp]".
  assert (ts ≠ []) as Hne by (intros ->; by apply Exists_nil in Hp).
  iApply (wp_loop _ (rr_inv rq ts) (rr_result rq ts) 1).
  - unfold rr_inv. iDestruct 1 as (_ ts') "[[[Hn _] _] _]". rw nexts_cells.
    iApply (cells_le with "Hn"). lia.
  - intros n s. iIntros "(-> & %ts' & Hq & %Hn)". destruct n as [|[|n]]; [| |done].
    + destruct Hn as [-> H0]. iApply (rr_round_wp with "Hq"); [by destruct ts|]. iSplit.
      * iIntros (Hz). by apply rr_pick_renewed in Hp.
      * iIntros (Hnz) "Hq". iExists _. iFrame. iPureIntro. split; [by right|by apply rr_pick_nonzero].
    + subst ts'. iApply (rr_round_wp with "Hq"); [done|]. iSplit.
      * iIntros (Hz) "Hq". iExists 0%nat. iSplit; [iPureIntro; lia|]. iSplit; [done|].
        iExists _. iFrame. iPureIntro. split; [done|by apply rr_pick_zero].
      * iIntros (Hnz) "Hq". iExists _. iFrame. iPureIntro. split; [by left|by apply rr_pick_nonzero].
  - iSplit; [done|]. iExists ts. by iFrame.
Qed.
