(* ===== verification/SchedRun.v ===== *)
(** * The scheduler under the clock: kernel/clock.c with kernel/sched.c

    The clock interrupt calls [schedule] on every fourth tick.  Here the fair queue, driven by the clock alone, is shown to be a round robin: as
    long as the times of the waiting tasks lie less than a slice apart, the task that ran goes to the end of the queue and the next one runs. *)

From S2P Require Export Sched.

(** A task with its virtual time; the queue has its entity. *)
Abbreviation task := (Z * Z)%type.

Definition ent (t : task) : entity := (t.1 + sched_entity, t.2).

(** ** The specification *)

(** What a slice of four ticks does to the tasks, of which the first one runs. *)
Definition slice (ts : list task) : list task :=
  match ts with
  | x :: y :: l => y :: l ++ [(x.1, y.2 + NR_PROCESS)]
  | _ => ts
  end.

Definition in_time (t u : task) : Prop := t.2 < u.2.

(** The times ascend, and those of the tasks that wait lie less than a slice apart. *)
Definition spread (ts : list task) : Prop :=
  StronglySorted in_time ts ∧
  match ts with
  | _ :: y :: l => Forall (λ t, t.2 < y.2 + NR_PROCESS) l
  | _ => False
  end.

Lemma slice_spread ts : spread ts → spread (slice ts).
Proof.
  destruct ts as [|x [|y l]]; [by intros []..|]. intros [Hs Hl]. apply StronglySorted_inv in Hs as [Hs _]. apply StronglySorted_inv in Hs as [Hs Hy]. split.
  - simpl. constructor.
    + apply StronglySorted_app. split_and!; [|done|repeat constructor]. intros a b Ha Hb%list_elem_of_singleton. subst b.
      by apply (proj1 (Forall_forall _ _) Hl).
    + apply Forall_app. split; [done|]. repeat constructor. unfold in_time, NR_PROCESS. simpl. lia.
  - simpl. destruct l as [|z l]; [constructor|]. simpl. apply Forall_cons in Hy as [Hz _]. unfold in_time in Hz. apply Forall_cons in Hl as [_ Hl].
    apply Forall_app. split; [|repeat constructor; simpl; lia]. eapply Forall_impl; [exact Hl|]. simpl. lia.
Qed.

(** The first of a list goes to its end. *)
Definition turn {A} (l : list A) : list A := match l with [] => [] | x :: l => l ++ [x] end.

Lemma slice_turn ts : spread ts → (slice ts).*1 = turn ts.*1.
Proof. destruct ts as [|x [|y l]]; [by intros []..|]. intros _. unfold slice. by rw !fmap_cons fmap_app. Qed.

Lemma slices_spread k ts : spread ts → spread (Nat.iter k slice ts).
Proof. intros H. by apply Nat.iter_invariant; [apply slice_spread|]. Qed.

Lemma slices_turn k ts : spread ts → (Nat.iter k slice ts).*1 = Nat.iter k turn ts.*1.
Proof.
  intros H. induction k as [|k IH]; [done|]. rw !Nat.iter_succ slice_turn; [by rw IH|by apply slices_spread].
Qed.

(** As many turns as there are elements before one bring it to the front. *)
Lemma turns_front {A} (l1 l2 : list A) : Nat.iter (length l1) turn (l1 ++ l2) = l2 ++ l1.
Proof.
  revert l2. induction l1 as [|x l1 IH]; intros l2; [by rw app_nil_r|]. cbn [length]. rw Nat.iter_succ_r /= -assoc_L IH -assoc_L. done.
Qed.

(** ** The counter of ticks *)

Lemma rem_s32 n : (Z.rem (s32 n) NR_PROCESS =? 0) = (n `mod` NR_PROCESS =? 0).
Proof.
  apply Bool.eq_iff_eq_true. rw !Z.eqb_eq. unfold NR_PROCESS. rw Z.rem_mod; [|lia]. unfold s32.
  assert (((n + 2 ^ 31) `mod` 2 ^ 32 - 2 ^ 31) `mod` 4 = n `mod` 4) as E by dlia.
  dlia.
Qed.

Section run.
Context (sched_rq current rr_sched_addr jiffies ticks_var k_reenter : Z).

Local Abbreviation tick := (clock_handler sched_rq current rr_sched_addr jiffies ticks_var k_reenter).

(** [n] interrupts of the clock. *)
Fixpoint run_ticks (n : nat) : M unit :=
  match n with
  | O => mret tt
  | S n => tick;; run_ticks n
  end.

(** What a task has beside its entity. *)
Definition ready (t : task) : heapProp :=
  ⌜t.1 ≠ 0⌝ ∗ (t.1 + state) ↦ TASK_RUNNING ∗ (t.1 + sched_class) ↦ rr_sched_addr ∗ ∃ c, (t.1 + ticks) ↦ c.

Definition clock (n : Z) : heapProp := jiffies ↦ s32 n ∗ (∃ k, ticks_var ↦ k) ∗ k_reenter ↦ 0.

(** The tasks [x :: ts], of which [x] has run for [u] ticks of its slice. *)
Definition cpu (x : task) (u : Z) (ts : list task) : heapProp :=
  current ↦ x.1 ∗ timeline_but (sched_rq + task_timeline) [] (x.1 + sched_entity) (ent <$> ts) ∗ (x.1 + sched_entity + vruntime) ↦ u32 (x.2 + u) ∗
  (sched_rq + min_vruntime) ↦ u32 x.2 ∗ ready x ∗ [∗ list] t ∈ ts, ready t.

(** An entity behind all others. *)
Lemma queued_last es se v : Forall (λ e : entity, e.2 < v) es → queued sched_rq es se v ⊢ timeline (sched_rq + task_timeline) (es ++ [(se, v)]).
Proof.
  iIntros (Hes) "H". unfold queued. rw bool_decide_false.
  2:{ intros (e & -> & He)%list_elem_of_fmap. rw Forall_forall in Hes. specialize (Hes e He). lia. }
  iDestruct "H" as (es1 es2) "[-> H]". destruct es2 as [|e es2]; [by rw app_nil_r|].
  iDestruct "H" as (t) "(_ & _ & _ & %Hs)". exfalso. apply sorted_split in Hs as [_ Hs]. apply Forall_cons in Hs as [Hs _].
  rw Forall_app Forall_cons in Hes. simpl in Hs. lia.
Qed.

Lemma spread_near x y l u : spread (x :: y :: l) → 0 ≤ u ≤ NR_PROCESS → Forall (λ e, near (u + y.2) e.2) (ent <$> y :: l).
Proof.
  intros [Hs Hl] Hu. apply StronglySorted_inv in Hs as [Hs _]. apply StronglySorted_inv in Hs as [_ Hy]. apply Forall_fmap, Forall_cons. unfold near, NR_PROCESS in *. split; [simpl; lia|].
  apply Forall_forall. intros t Ht. pose proof (proj1 (Forall_forall _ _) Hl t Ht) as H1. pose proof (proj1 (Forall_forall _ _) Hy t Ht) as H2. unfold in_time in H2. simpl in *. lia.
Qed.

(** One tick: the time of the running task is counted, and at the end of a slice the next one runs. *)
Lemma tick_wp x u y l n (Q : unit → heapProp) : spread (x :: y :: l) → 0 ≤ u < NR_PROCESS → (n + 1) `mod` NR_PROCESS = (u + 1) `mod` NR_PROCESS →
  cpu x u (y :: l) -∗ clock n -∗
  (clock (n + 1) -∗ (if u + 1 =? NR_PROCESS then cpu y 0 (l ++ [(x.1, y.2 + NR_PROCESS)]) else cpu x (u + 1) (y :: l)) -∗ Q tt) -∗ wp tick Q.
Proof.
  intros Hsp Hu Hn. iIntros "(Hc & Ht & Hv & Hm & (%Hx & Hs & Hcls & (%c & Hct)) & Hr) (Hj & (%k & Hk) & Hre) HQ". iDestruct "Hr" as "[(%Hy & Hy) Hr]".
  iApply (wp_wand with "[Hc Ht Hv Hm Hs Hcls Hct Hj Hk Hre]").
  { iApply (proj1 (triple_wp _ _ _) (clock_handler_correct sched_rq current rr_sched_addr jiffies ticks_var k_reenter x.1 (x.2 + u) x.2 TASK_RUNNING [] (ent <$> y :: l)
      (y.1 + sched_entity) y.2 (ent <$> l) (s32 n) k c 0)). iFrame. iPureIntro. split_and!; [done| |lia].
    rw (_ : x.2 + u + 1 - x.2 + y.2 = (u + 1) + y.2); [|lia]. apply (spread_near x); [done|lia]. }
  rw s32_succ rem_s32 Hn. iIntros ([]) "(Hj & Hk & Hct & Hre & Hcls & H)".
  iApply ("HQ" with "[Hj Hk Hre]"); [iFrame|]. destruct (Z.eqb_spec (u + 1) NR_PROCESS) as [Eu|Eu].
  - rw Eu. change ((0 =? 0) && (NR_PROCESS `mod` NR_PROCESS =? 0)) with true. cbv iota. iDestruct "H" as "(Hc & Hm & Hs & Hq)". change ([] ++ (ent <$> y :: l)) with (ent <$> y :: l).
    rw (_ : y.1 + sched_entity - sched_entity = y.1); [|lia]. rw (_ : x.2 + u + 1 - x.2 + y.2 = y.2 + NR_PROCESS); [|lia]. change (TASK_RUNNING =? TASK_RUNNING) with true. cbv iota.
    rw queued_last.
    2:{ destruct Hsp as [_ Hl]. apply Forall_fmap, Forall_cons. split; [simpl; unfold NR_PROCESS; lia|done]. }
    iDestruct (timeline_open _ [] (y.1 + sched_entity) y.2 with "Hq") as "[Hv Ht]". unfold cpu. rw (_ : y.2 + 0 = y.2); [|lia]. iFrame "Hc Hv Hm".
    rw fmap_app big_sepL_app big_sepL_singleton. iFrame "Ht Hr Hy Hs Hcls". iSplit; [done|]. by iFrame.
  - rw (eqb_false ((u + 1) `mod` NR_PROCESS)); [|rw Z.mod_small; unfold NR_PROCESS in *; lia]. rw andb_false_r. iDestruct "H" as "(Hc & Ht & Hv & Hm & Hs)".
    unfold cpu. rw (_ : x.2 + u + 1 = x.2 + (u + 1)); [|lia]. iFrame "Hc Ht Hv Hm Hr Hy Hs Hcls". iSplit; [|done]. iSplit; [done|]. by iFrame.
Qed.

(** The tasks at the start of a slice. *)
Definition cpus (ts : list task) : heapProp := match ts with [] => False%I | x :: ts => cpu x 0 ts end.

Lemma slice_wp ts n k (Q : unit → heapProp) : spread ts → n `mod` NR_PROCESS = 0 →
  cpus ts -∗ clock n -∗ (cpus (slice ts) -∗ clock (n + NR_PROCESS) -∗ wp (run_ticks k) Q) -∗ wp (run_ticks (4 + k)) Q.
Proof.
  intros Hsp Hn. destruct ts as [|x [|y l]]; [by destruct Hsp..|]. iIntros "Hc Hn HQ". cbn [run_ticks Nat.add cpus].
  iApply wp_bind. iApply (tick_wp x 0 y l n with "Hc Hn"); [done|unfold NR_PROCESS; lia|unfold NR_PROCESS in *; dlia|]. change (0 + 1 =? NR_PROCESS) with false. iIntros "Hn Hc".
  iApply wp_bind. iApply (tick_wp x 1 y l with "Hc Hn"); [done|unfold NR_PROCESS; lia|unfold NR_PROCESS in *; dlia|]. change (1 + 1 =? NR_PROCESS) with false. iIntros "Hn Hc".
  iApply wp_bind. iApply (tick_wp x 2 y l with "Hc Hn"); [done|unfold NR_PROCESS; lia|unfold NR_PROCESS in *; dlia|]. change (2 + 1 =? NR_PROCESS) with false. iIntros "Hn Hc".
  iApply wp_bind. iApply (tick_wp x 3 y l with "Hc Hn"); [done|unfold NR_PROCESS; lia|unfold NR_PROCESS in *; dlia|]. change (3 + 1 =? NR_PROCESS) with true. iIntros "Hn Hc".
  rw (_ : n + 1 + 1 + 1 + 1 = n + NR_PROCESS); [|unfold NR_PROCESS; lia]. iApply ("HQ" with "Hc Hn").
Qed.

Lemma slices_wp k ts n (Q : unit → heapProp) : spread ts → n `mod` NR_PROCESS = 0 →
  cpus ts -∗ clock n -∗ (cpus (Nat.iter k slice ts) -∗ clock (n + NR_PROCESS * k) -∗ Q tt) -∗ wp (run_ticks (4 * k)) Q.
Proof.
  revert ts n. induction k as [|k IH]; intros ts n Hsp Hn; iIntros "Hc Hn HQ".
  - change (4 * 0)%nat with 0%nat. cbn [run_ticks]. iApply wp_ret. rw (_ : n + NR_PROCESS * 0%nat = n); [|lia]. iApply ("HQ" with "Hc Hn").
  - rw (_ : (4 * S k = 4 + 4 * k)%nat); [|lia]. iApply (slice_wp with "Hc Hn"); [done|done|]. iIntros "Hc Hn".
    iApply (IH with "Hc Hn"); [by apply slice_spread|unfold NR_PROCESS in *; dlia|]. rw -Nat.iter_succ_r. rw (_ : n + NR_PROCESS + NR_PROCESS * k = n + NR_PROCESS * S k); [|lia]. done.
Qed.

(** C3: Under the clock the fair queue is a round robin.  When the times of the waiting tasks lie less than a slice apart and all ticks interrupt a task outside the kernel, [k] slices of four ticks do what [k] steps of
    the specification [slice] do: the task that ran goes to the end with a slice added to the least time, and no task is lost; the tasks keep being as close, so that this
    holds for ever, also when the counters wrap around. *)
Theorem clock_round_robin k ts n :
  {{ cpus ts ∗ clock n ∗ ⌜spread ts ∧ n `mod` NR_PROCESS = 0⌝ }}
    run_ticks (4 * k)
  {{ _, cpus (Nat.iter k slice ts) ∗ clock (n + NR_PROCESS * k) ∗ ⌜spread (Nat.iter k slice ts) ∧ (Nat.iter k slice ts).*1 = Nat.iter k turn ts.*1⌝ }}.
Proof.
  apply triple_wp. iIntros "(Hc & Hn & %Hs & %Hn)". iApply (slices_wp with "Hc Hn"); [done|done|]. iIntros "$ $". iPureIntro. split; [by apply slices_spread|by apply slices_turn].
Qed.

(** Every task in the queue gets the processor: the one behind the tasks [l1] is running after as many slices, and the others follow it in their order. *)
Theorem task_gets_processor p l1 l2 ts n :
  {{ cpus ts ∗ clock n ∗ ⌜spread ts ∧ n `mod` NR_PROCESS = 0 ∧ ts.*1 = l1 ++ p :: l2⌝ }}
    run_ticks (4 * length l1)
  {{ _, ∃ v ts', ⌜ts'.*1 = l2 ++ l1 ∧ spread ((p, v) :: ts')⌝ ∗ current ↦ p ∗ (current ↦ p -∗ cpu (p, v) 0 ts') ∗ clock (n + NR_PROCESS * length l1) }}.
Proof.
  apply triple_wp. iIntros "(Hc & Hn & %Hs & %Hn & %Hts)". iApply (slices_wp with "Hc Hn"); [done|done|]. pose proof (slices_turn (length l1) ts Hs) as Ht. rw Hts turns_front in Ht.
  pose proof (slices_spread (length l1) ts Hs) as Hsp. destruct (Nat.iter (length l1) slice ts) as [|[q v] ts']; [done|]. rw fmap_cons in Ht. simpl in Ht. injection Ht as -> Ht.
  iIntros "(Hcur & Hc) Hn". iExists v, ts'. iSplit; [done|]. iFrame "Hcur Hn". iIntros "Hcur". iFrame "Hcur Hc".
Qed.
End run.

(** ** Printing of the time line: the rest of kernel/sched_fair.c

    A call of [printk] is the pair of numbers that it prints, a printing function returns the list of them in order.  [n] bounds the depth of the recursion. *)

Fixpoint rb_print (n : nat) (pnode : Z) : M (list (Z * Z)) :=
  match n with
  | O => timeout
  | S n =>
      if pnode =? NULL then mret [] else
      l ← load (pnode + rb_left);
      out1 ← (if l =? NULL then mret [] else l ← load (pnode + rb_left); rb_print n l);
      v ← load (pnode - run_node + vruntime);
      c ← rb_color pnode;
      r ← load (pnode + rb_right);
      out2 ← (if r =? NULL then mret [] else r ← load (pnode + rb_right); rb_print n r);
      mret (out1 ++ (v, c) :: out2)
  end.

Fixpoint rb_front_print (n : nat) (pnode : Z) : M (list (Z * Z)) :=
  match n with
  | O => timeout
  | S n =>
      if pnode =? NULL then mret [] else
      v ← load (pnode - run_node + vruntime);
      c ← rb_color pnode;
      l ← load (pnode + rb_left);
      out1 ← (if l =? NULL then mret [] else l ← load (pnode + rb_left); rb_front_print n l);
      r ← load (pnode + rb_right);
      out2 ← (if r =? NULL then mret [] else r ← load (pnode + rb_right); rb_front_print n r);
      mret ((v, c) :: out1 ++ out2)
  end.

Definition ts_free (se : Z) : M unit := mret tt.

(** The colours of a tree, in the order of its nodes. *)
Fixpoint colours (t : tree) : list Z := match t with Leaf => [] | Node c l _ r => colours l ++ cbit c :: colours r end.

Definition times (es : list entity) : list Z := (λ e, u32 e.2) <$> es.
Definition time_cells (es : list entity) : heapProp := [∗ list] e ∈ es, (e.1 + vruntime) ↦ u32 e.2.

Lemma colours_length t : length (colours t) = length (inorder t).
Proof. induction t as [|c l IHl x r IHr]; [done|]. simpl. rw !length_app /=. lia. Qed.

(** A child is printed unless it is missing. *)
Lemma print_child_wp (f : Z → M (list (Z * Z))) (R : heapProp) cell t par out (Q : list (Z * Z) → heapProp) : (t = Leaf → out = []) →
  (∀ Q', rbt t par -∗ R -∗ (rbt t par -∗ R -∗ Q' out) -∗ wp (f (root_of t)) Q') →
  cell ↦ root_of t -∗ rbt t par -∗ R -∗ (cell ↦ root_of t -∗ rbt t par -∗ R -∗ Q out) -∗
  wp (if root_of t =? NULL then mret [] else l ← load cell; f l) Q.
Proof.
  iIntros (He Hf) "Hc Ht HR HQ". destruct t as [|c l x r].
  - change (root_of Leaf =? NULL) with true. rw (He eq_refl). wp_pures. by iApply ("HQ" with "Hc Ht").
  - iAssert ⌜x ≠ NULL⌝%I as %Hx. { cbn [rbt]. iDestruct "Ht" as "((%Ha & _) & _)". iPureIntro. apply Ha. }
    cbn [root_of]. rw (eqb_false x NULL Hx). wp_load. iApply (Hf with "Ht HR"). iIntros "Ht HR". by iApply ("HQ" with "Hc Ht HR").
Qed.

Definition lines (es : list entity) (t : tree) : list (Z * Z) := zip_with pair (times es) (colours t).

Lemma lines_node esl e esr c l r : inorder l = node_of <$> esl → lines (esl ++ e :: esr) (Node c l (node_of e) r) = lines esl l ++ (u32 e.2, cbit c) :: lines esr r.
Proof.
  intros Hl. unfold lines, times. rw fmap_app /=. rw zip_with_app; [done|]. by rw length_fmap colours_length Hl length_fmap.
Qed.

(** What [rb_print] prints of a part of the tree. *)
Lemma rb_print_wp n t par es (Q : list (Z * Z) → heapProp) : inorder t = node_of <$> es → (length es < n)%nat →
  rbt t par -∗ time_cells es -∗ (rbt t par -∗ time_cells es -∗ Q (lines es t)) -∗ wp (rb_print n (root_of t)) Q.
Proof.
  revert t par es Q. induction n as [|n IH]; intros t par es Q Hes Hn; [lia|]. iIntros "Ht Hes HQ". cbn [rb_print].
  destruct t as [|c l x r]; cbn [root_of].
  { change (NULL =? NULL) with true. destruct es; [|done]. wp_pures. by iApply ("HQ" with "Ht"). }
  simpl in Hes. destruct (timeline_split_keys es (inorder l) x (inorder r)) as (esl & e & esr & -> & Hl & -> & Hr); [done|].
  rw length_app /= in Hn. unfold time_cells. rw big_sepL_app big_sepL_cons. cbn [rbt]. iDestruct "Ht" as "((%Hx & Hc & Hpl & Hpr) & Htl & Htr)".
  iDestruct "Hes" as "(Hel & He & Her)". rw (eqb_false _ _ (proj2 (proj1 Hx))). cbn [off flip]. wp_load. iApply wp_bind.
  iApply (print_child_wp _ (time_cells esl) _ l _ (lines esl l) with "Hpl Htl Hel"); [intros ->; by destruct esl|intros Q'; apply IH; [done|lia]|].
  iIntros "Hpl Htl Hel". rw (_ : node_of e - run_node + vruntime = e.1 + vruntime); [|unfold node_of; lia]. wp_load. iApply wp_bind.
  iApply (rb_color_pt with "Hc"); [apply Hx|]. iIntros "Hc". wp_load. iApply wp_bind.
  iApply (print_child_wp _ (time_cells esr) _ r _ (lines esr r) with "Hpr Htr Her"); [intros ->; by destruct esr|intros Q'; apply IH; [done|lia]|].
  iIntros "Hpr Htr Her". iApply wp_ret. rw lines_node; [|done]. iApply ("HQ" with "[Hc Hpl Htl Hpr Htr] [$Hel $He $Her]"). by iFrame.
Qed.

(** [rb_print] prints the virtual times of the entities in the order of the time line, and leaves it as it is. *)
Theorem rb_print_times n root es :
  {{ timeline root es ∗ ⌜(length es < n)%nat⌝ }}
    (node ← load (root + rb_node); rb_print n node)
  {{ out, ⌜out.*1 = times es⌝ ∗ timeline root es }}.
Proof.
  apply triple_wp. iIntros "[(%t & [Hroot Ht] & (%Hwf & %Hin) & Hes & %Hs) %Hn]". cbn [rbc]. wp_load. iApply (rb_print_wp with "Ht Hes"); [done|done|].
  iIntros "Ht Hes". iSplit; [|iExists t; by iFrame]. iPureIntro. apply fst_zip. unfold times. by rw length_fmap colours_length Hin length_fmap.
Qed.
