(* ===== verification/Arrays.v ===== *)
(** * Arrays in memory

    [arr p k vs]: the elements [vs] of an array at [p] whose elements are [k] bytes apart. *)

From S2P Require Export Mem.

Definition arr (p k : Z) (vs : list Z) : heapProp :=
  [∗ list] i ↦ v ∈ vs, (p + k * Z.of_nat i) ↦ v.

(** A byte array. *)
Abbreviation bytes p vs := (arr p 1 vs).

Lemma arr_acc p k vs (i : nat) v : vs !! i = Some v →
  arr p k vs ⊢ (p + k * Z.of_nat i) ↦ v ∗
    (∀ w, (p + k * Z.of_nat i) ↦ w -∗ arr p k (<[i := w]> vs)).
Proof. iIntros (Hi) "H". iApply (big_sepL_insert_acc with "H"). done. Qed.

Lemma arr_read p k vs (i : nat) v : vs !! i = Some v →
  arr p k vs ⊢ (p + k * Z.of_nat i) ↦ v ∗ ((p + k * Z.of_nat i) ↦ v -∗ arr p k vs).
Proof. iIntros (Hi) "H". by iApply (big_sepL_lookup_acc with "H"). Qed.

Lemma arr_app p k vs ws : arr p k (vs ++ ws) ⊣⊢ arr p k vs ∗ arr (p + k * length vs) k ws.
Proof.
  unfold arr. rw big_sepL_app. f_equiv. apply big_sepL_proper. intros i v _.
  replace (p + k * Z.of_nat (length vs + i)) with (p + k * Z.of_nat (length vs) + k * Z.of_nat i) by lia.
  done.
Qed.

Lemma arr_nil p k : arr p k [] ⊣⊢ emp.
Proof. done. Qed.

Lemma arr_one p k v : arr p k [v] ⊣⊢ p ↦ v.
Proof. unfold arr; simpl. rw Z.mul_0_r Z.add_0_r. iSplit; [iIntros "[$ _]"|iIntros "$"]. Qed.

Lemma arr_cons p k v vs : arr p k (v :: vs) ⊣⊢ p ↦ v ∗ arr (p + k) k vs.
Proof.
  rw (arr_app p k [v] vs) arr_one /=. by replace (k * 1%nat) with k by lia.
Qed.

Lemma arr_snoc p k vs v : arr p k (vs ++ [v]) ⊣⊢ arr p k vs ∗ (p + k * length vs) ↦ v.
Proof. by rw arr_app arr_one. Qed.

Lemma arr_cells p k vs : arr p k vs ⊢ cells (length vs).
Proof.
  revert p. induction vs as [|v vs IH]; intros p; [iIntros "_"; iApply cells_0|].
  rw arr_cons IH pt_cells. simpl. iIntros "[H1 H2]". iApply (cells_add with "H1 H2").
Qed.

Lemma arr_load p k vs (i : nat) v q Q : vs !! i = Some v → q = p + k * Z.of_nat i →
  arr p k vs -∗ (arr p k vs -∗ Q v) -∗ wp (load q) Q.
Proof.
  iIntros (Hi ->) "H HQ". iDestruct (arr_read with "H") as "[Hv H]"; [done|]. wp_load.
  iApply "HQ". by iApply "H".
Qed.

Lemma arr_store p k vs (i : nat) v w q (Q : unit → heapProp) : vs !! i = Some v → q = p + k * Z.of_nat i →
  arr p k vs -∗ (arr p k (<[i := w]> vs) -∗ Q tt) -∗ wp (store q w) Q.
Proof.
  iIntros (Hi ->) "H HQ". iDestruct (arr_acc with "H") as "[Hv H]"; [done|]. wp_store.
  iApply "HQ". by iApply "H".
Qed.

#[global] Typeclasses Opaque arr.
