(* ===== verification/CString.v ===== *)
(** * Strings: lib/string.c

    A string is a run of character cells that ends with a cell that holds 0; characters are
    signed.  Pointers are not wrapped around: no object of the kernel lies across the end of
    the address space. *)

From S2P Require Export Arrays.

Definition is_alphanumeric (ch : Z) : bool := (32 <=? ch) && (ch <=? 126).

(** [while( *str++ != 0 && ++i)]: the loop also ends if the counter wraps to 0. *)
Definition strlen (str : Z) : M Z :=
  if str =? NULL then mret (-1) else
  loop (λ '(str, i),
    c ← load str;
    if c =? 0 then mret (inr i) else
    let i := s32 (i + 1) in
    if i =? 0 then mret (inr i) else mret (inl (str + 1, i))) (str, 0).

Definition strreverse (ptr : Z) : M Z :=
  if ptr =? NULL then mret (-1) else
  len ← strlen ptr;
  loop (λ '(ptr, p),
    if ptr <? p then
      tmp ← load ptr;
      c ← load p;
      store ptr c;;
      store p tmp;;
      mret (inl (ptr + 1, p - 1))
    else mret (inr 0)) (ptr, ptr + len - 1).

Definition itoa (str value : Z) : M unit :=
  if str =? NULL then mret tt else
  p ← (if value =? 0 then store str 48;; mret (str + 1)
       else
         p ← loop (λ '(p, value),
               if negb (value =? 0) then
                 let bit := u8 (Z.rem value 10) in
                 store p (s8 (48 + bit));;
                 mret (inl (p + 1, Z.quot value 10))
               else mret (inr p)) (str, value);
         strreverse str;;
         mret p);
  store p 0.

(** [for(i = 28; i >= 0; i -= 4)], with the variables [p] and [flag] of the loop. *)
Fixpoint htoa_loop (value : Z) (shifts : list Z) (p : Z) (flag : bool) : M Z :=
  match shifts with
  | [] => mret p
  | i :: shifts =>
      let ch := Z.land (Z.shiftr value i) 15 in
      if flag || (ch >? 0) then
        let ch := ch + 48 in
        let ch := if ch >? 57 then ch + 7 else ch in
        store p (s8 ch);;
        htoa_loop value shifts (p + 1) true
      else htoa_loop value shifts p flag
  end.

Definition htoa (str value : Z) : M unit :=
  if str =? NULL then mret tt else
  p ← (if value =? 0 then store str 48;; mret (str + 1)
       else htoa_loop value [28; 24; 20; 16; 12; 8; 4; 0] str false);
  store p 0.

Definition strncmp (str1 str2 len : Z) : M Z :=
  l1 ← strlen str1;
  l2 ← strlen str2;
  let min_len := if l1 >? l2 then l2 else l1 in
  if (len <=? 0) || (str1 =? NULL) || (str2 =? NULL) then mret (-1) else
  let len := if len >? min_len then min_len else len in
  loop (λ '(i, str1, str2),
    if i <? len then
      a ← load str1;
      b ← load str2;
      if a =? b then mret (inl (i + 1, str1 + 1, str2 + 1)) else mret (inr (-1))
    else mret (inr 0)) (0, str1, str2).

(** The loop condition [str1 && str2] tests the pointers. *)
Definition strcmp (str1 str2 : Z) : M Z :=
  if (str1 =? NULL) || (str2 =? NULL) then mret (-1) else
  loop (λ '(str1, str2),
    if negb (str1 =? NULL) && negb (str2 =? NULL) then
      a ← load str1;
      b ← load str2;
      if negb (a =? b) then mret (inr (-1)) else mret (inl (str1 + 1, str2 + 1))
    else mret (inr 0)) (str1, str2).

Definition strncpy (dst src size : Z) : M Z :=
  if (dst =? NULL) || (src =? NULL) || (size <? 0) then mret (-1) else
  loop (λ '(dst, src, i),
    c ← load src;
    store dst c;;
    if negb (c =? 0) then
      let i := s32 (i + 1) in
      if i <? size then mret (inl (dst + 1, src + 1, i)) else mret (inr 0)
    else mret (inr 0)) (dst, src, 0).

Definition strcpy (dst src : Z) : M Z :=
  if (dst =? NULL) || (src =? NULL) then mret (-1) else
  loop (λ '(dst, src),
    c ← load src;
    store dst c;;
    if negb (c =? 0) then mret (inl (dst + 1, src + 1)) else mret (inr 0)) (dst, src).

Definition memcmp (dst src len : Z) : M Z :=
  if (dst =? NULL) || (src =? NULL) || (len <=? 0) then mret (-1) else
  l1 ← strlen dst;
  l2 ← strlen src;
  if negb (l1 =? l2) then mret (-2) else
  l1 ← strlen dst;
  if len >? l1 then mret (-3) else
  loop (λ '(dst, src, len),
    if negb (dst =? NULL) && negb (src =? NULL) && negb (len =? 0) then
      a ← load dst;
      b ← load src;
      if negb (a =? b) then mret (inr (-4)) else mret (inl (dst + 1, src + 1, len - 1))
    else mret (inr 0)) (dst, src, len).

Definition memset (dst ch size : Z) : M Z :=
  if (dst =? NULL) || (size <=? 0) then mret (-1) else
  loop (λ '(dst, i),
    if negb (dst =? NULL) && (i <? size) then
      store dst ch;;
      mret (inl (dst + 1, i + 1))
    else mret (inr 0)) (dst, 0).

Definition bzero (dst size : Z) : M Z := memset dst 0 (s32 size).

(** lib/klibc.c *)
Definition phys_copy (dst src size : Z) : M Z :=
  if (dst =? NULL) || (src =? NULL) then mret (-1) else
  dst ← loop (λ '(dst, src, size),
          if negb (size =? 0) then
            c ← load src;
            store dst c;;
            mret (inl (dst + 1, src + 1, s32 (size - 1)))
          else mret (inr dst)) (dst, src, size);
  store dst 0;;
  mret 0.

(** ** vsprintf

    The arguments are 32-bit cells four bytes apart; [tmp] is the address of the local buffer
    [char tmp[32]], which is cleared once, at the start. *)
Definition vsprintf_step (tmp : Z) (s : Z * Z * Z) : M (Z * Z * Z + Z) :=
  let '(fmt, p, next_arg) := s in
  f ← load fmt;
  if f =? 0 then mret (inr p) else
  if negb (f =? 37) then store p f;; mret (inl (fmt + 1, p + 1, next_arg)) else
  let fmt := fmt + 1 in
  f ← load fmt;
  if f =? 115 then
    a ← load next_arg;
    strcpy p a;;
    a ← load next_arg;
    l ← strlen a;
    mret (inl (fmt + 1, p + l, next_arg + 4))
  else if f =? 99 then
    a ← load next_arg;
    store p (s8 a);;
    mret (inl (fmt + 1, p + 1, next_arg + 4))
  else if f =? 100 then
    value ← load next_arg;
    p ← (if value <? 0 then
           store p 45;;
           itoa tmp (s32 (- value));;
           mret (p + 1)
         else itoa tmp value;; mret p);
    strcpy p tmp;;
    l ← strlen tmp;
    mret (inl (fmt + 1, p + l, next_arg + 4))
  else if (f =? 112) || (f =? 120) then
    value ← load next_arg;
    htoa tmp value;;
    strcpy p tmp;;
    l ← strlen tmp;
    mret (inl (fmt + 1, p + l, next_arg + 4))
  else mret (inl (fmt + 1, p, next_arg)).

Definition vsprintf (tmp buf fmt args : Z) : M Z :=
  memset tmp 0 32;;
  p ← loop (vsprintf_step tmp) (fmt, buf, args);
  mret (p - buf).
