(* ===== verification/CStringSpec.v ===== *)
(** * What the string functions do *)

From S2P Require Export CString.

(** The string [s] at [p]. *)
Definition cstr (p : Z) (s : list Z) : heapProp :=
  bytes p (s ++ [0]) ∗ ⌜Forall (λ c, c ≠ 0) s ∧ 0 < p ∧ length s < 2 ^ 31⌝.

Lemma lookup_middle' (xs ys : list Z) x : (xs ++ x :: ys) !! length xs = Some x.
Proof. by apply list_lookup_middle. Qed.

Lemma strlen_wp p s Q : cstr p s -∗ (cstr p s -∗ Q (Z.of_nat (length s))) -∗ wp (strlen p) Q.
Proof.
  iIntros "[Hs (%Hnz & %Hp & %Hlen)] HQ". unfold strlen. rw eqb_false; [|unfold NULL; lia].
  iApply (wp_wand with "[Hs]"); first iApply (wp_loop _ (λ (n : nat) '((q, i) : Z * Z), ∃ s1 s2, ⌜s = s1 ++ s2 ∧ n = length s2 ∧
    q = (p + length s1)%Z ∧ i = Z.of_nat (length s1)⌝ ∗ bytes p (s ++ [0]))%I
    (λ r, ⌜r = Z.of_nat (length s)⌝ ∗ bytes p (s ++ [0]))%I (length s)).
  - iIntros "(%s1 & %s2 & (-> & _) & H)". rw arr_cells. iApply (cells_le with "H").
    rw !length_app /=. lia.
  - intros n [q i]. iIntros "(%s1 & %s2 & (-> & -> & -> & ->) & Hs)".
    destruct s2 as [|c s2]; iApply wp_bind; rw -assoc_L;
      (iApply (arr_load _ _ _ (length s1) with "Hs"); [apply lookup_middle'|lia|]); iIntros "Hs".
    + wp_pures. rw app_nil_r. by iFrame.
    + apply Forall_app in Hnz as [_ Hnz]. apply Forall_inv in Hnz. rw eqb_false; [|done].
      rw length_app /= in Hlen. rw s32_small; [|lia]. rw eqb_false; [|lia]. wp_pures.
      iExists (length s2). iSplit; [simpl; iPureIntro; lia|]. iExists (s1 ++ [c]), s2.
      rw -!assoc_L length_app /=. iFrame. iPureIntro. split_and!; [done|done|lia|lia].
  - iExists [], s. iFrame. iPureIntro. split_and!; [done|done|simpl; lia|done].
  - iIntros (r) "[-> Hs]". iApply "HQ". by iFrame.
Qed.

(** ** Reversal *)

Lemma strreverse_wp p s Q : cstr p s -∗ (cstr p (reverse s) -∗ Q 0) -∗ wp (strreverse p) Q.
Proof.
  iIntros "Hs HQ". iAssert ⌜0 < p⌝%I as %Hp; [by iDestruct "Hs" as "[_ (_ & $ & _)]"|].
  unfold strreverse. rw eqb_false; [|unfold NULL; lia].
  iApply wp_bind. iApply (strlen_wp with "Hs"). iIntros "[Hs (%Hnz & _ & %Hlen)]".
  iApply (wp_wand with "[Hs]"); first iApply (wp_loop _ (λ (n : nat) '((a, b) : Z * Z), ∃ l m r, ⌜s = l ++ m ++ r ∧
    n = length m ∧ a = (p + length l)%Z ∧ b = (p + length l + length m - 1)%Z ∧ length l = length r⌝ ∗
    bytes p (reverse r ++ m ++ reverse l ++ [0]))%I
    (λ r, ⌜r = 0⌝ ∗ bytes p (reverse s ++ [0]))%I (length s)).
  - iIntros "(%l & %m & %r & (-> & _ & _ & _ & Hl) & H)". rw arr_cells. iApply (cells_le with "H").
    rw !length_app !length_reverse /=. lia.
  - intros n [a b]. iIntros "(%l & %m & %r & (-> & -> & -> & -> & %Hlr) & H)".
    destruct m as [|x m]; [|destruct m as [|y m _] using rev_ind].
    + rw (proj2 (Z.ltb_ge _ _)); [|simpl; lia]. wp_pures. rw /= reverse_app -assoc_L. by iFrame.
    + rw (proj2 (Z.ltb_ge _ _)); [|simpl; lia]. wp_pures. rw !reverse_app reverse_singleton -!assoc_L. by iFrame.
    + rw (proj2 (Z.ltb_lt _ _)). 2: { rw /= length_app /=. lia. }
      assert (reverse r ++ (x :: m ++ [y]) ++ reverse l ++ [0] =
        reverse r ++ x :: m ++ y :: reverse l ++ [0]) as E by (by rw /= -assoc_L).
      rw E. iApply wp_bind. iApply (arr_load _ _ _ (length (reverse r)) with "H").
      { apply lookup_middle'. } { rw length_reverse. lia. }
      iIntros "H". iApply wp_bind.
      iApply (arr_load _ _ _ (length (reverse r) + S (length m)) y with "H").
      { rw lookup_app_r; [|lia]. replace (_ - _)%nat with (S (length m)) by lia. apply lookup_middle'. }
      { rw length_reverse /= length_app /=. lia. }
      iIntros "H". iApply wp_bind.
      iApply (arr_store _ _ _ (length (reverse r)) with "H").
      { apply lookup_middle'. } { rw length_reverse. lia. }
      iIntros "H". rw insert_app_r_alt; [|lia]. rw Nat.sub_diag /=. iApply wp_bind.
      iApply (arr_store _ _ _ (length (reverse r) + S (length m)) y with "H").
      { rw lookup_app_r; [|lia]. replace (_ - _)%nat with (S (length m)) by lia. apply lookup_middle'. }
      { rw length_reverse /= length_app /=. lia. }
      iIntros "H". rw insert_app_r_alt; [|lia]. replace (_ - _)%nat with (S (length m)) by lia.
      rw /= insert_app_r_alt; [|lia]. rw Nat.sub_diag /=. wp_pures.
      iExists (length m). iSplit; [iPureIntro; rw /= length_app /=; lia|].
      iExists (l ++ [x]), m, (y :: r). rw reverse_cons reverse_app reverse_singleton -!assoc_L /=.
      iFrame. iPureIntro. rw /= !length_app /=. split_and!; [by list_simplifier|lia..].
  - iExists [], s, []. rw app_nil_r. iFrame. iPureIntro. simpl. split_and!; [done|done|lia|lia|done].
  - iIntros (r) "[-> Hs]". iApply "HQ". iFrame. iPureIntro. rw length_reverse.
    split_and!; [by apply Forall_reverse|done|done].
Qed.

(** ** Decimal numbers *)

(** The digits of a number below 10^10, the last one first. *)
Fixpoint digs (fuel : nat) (v : Z) : list Z :=
  match fuel with
  | O => []
  | S f => if v =? 0 then [] else (48 + v `mod` 10) :: digs f (v / 10)
  end.

Definition digits (v : Z) : list Z := digs 10 v.

(** The decimal representation, and the number a string of digits denotes. *)
Definition decimal (v : Z) : list Z := if v =? 0 then [48] else reverse (digits v).

Definition number (s : list Z) : Z := foldl (λ n c, 10 * n + (c - 48)) 0 s.

Lemma digs_stable (f : nat) v : 0 ≤ v < 10 ^ f → digs (S f) v = digs f v.
Proof.
  revert v. induction f as [|f IH]; intros v Hv.
  - simpl in Hv. replace v with 0 by lia. done.
  - change (digs (S (S f)) v) with (if v =? 0 then [] else (48 + v `mod` 10) :: digs (S f) (v / 10)).
    rw IH; [done|]. rw Nat2Z.inj_succ Z.pow_succ_r in Hv; [|lia]. dlia.
Qed.

Lemma digits_eq v : 0 ≤ v < 2 ^ 31 → v ≠ 0 → digits v = (48 + v `mod` 10) :: digits (v / 10).
Proof.
  intros Hv H0. unfold digits. rw (digs_stable 9 (v / 10)); [|simpl; dlia].
  simpl. by rw eqb_false.
Qed.

Lemma digs_chars f v : Forall (λ c, 48 ≤ c ≤ 57) (digs f v).
Proof.
  revert v. induction f as [|f IH]; intros v; simpl; [done|].
  destruct (v =? 0); constructor; [|done]. pose proof (Z.mod_pos_bound v 10). lia.
Qed.

Lemma digs_length f v : (length (digs f v) ≤ f)%nat.
Proof.
  revert v. induction f as [|f IH]; intros v; simpl; [done|].
  destruct (v =? 0); simpl; [lia|]. specialize (IH (v / 10)). lia.
Qed.

Lemma number_digs (f : nat) v : 0 ≤ v < 10 ^ f → number (reverse (digs f v)) = v.
Proof.
  revert v. induction f as [|f IH]; intros v Hv; [simpl in *; cbn; lia|].
  simpl. destruct (Z.eqb_spec v 0) as [->|H0]; [done|].
  unfold number in *. rw reverse_cons foldl_app IH; [simpl; dlia|].
  rw Nat2Z.inj_succ Z.pow_succ_r in Hv; [|lia]. dlia.
Qed.

Lemma number_decimal v : 0 ≤ v < 2 ^ 31 → number (decimal v) = v.
Proof.
  intros Hv. unfold decimal. destruct (Z.eqb_spec v 0) as [->|]; [done|].
  apply number_digs. simpl. lia.
Qed.

(** The digit loop of [itoa] writes the digits backwards over the buffer. *)
Lemma itoa_digits_wp str v buf Q : 0 ≤ v < 2 ^ 31 → (length (digits v) ≤ length buf)%nat →
  bytes str buf -∗
  (bytes str (digits v ++ drop (length (digits v)) buf) -∗ Q (str + length (digits v))) -∗
  wp (loop (λ '(p, value),
        if negb (value =? 0) then
          let bit := u8 (Z.rem value 10) in
          store p (s8 (48 + bit));;
          mret (inl (p + 1, Z.quot value 10))
        else mret (inr p)) (str, v)) Q.
Proof.
  iIntros (Hv Hlen) "Hb HQ".
  iApply (wp_wand with "[Hb]"); first iApply (wp_loop _ (λ (n : nat) '((p, w) : Z * Z), ∃ ds rest,
    ⌜digits v = ds ++ digits w ∧ n = length (digits w) ∧ p = (str + length ds)%Z ∧ 0 ≤ w < 2 ^ 31 ∧
     rest = drop (length ds) buf ∧ (length (digits v) ≤ length buf)%nat⌝ ∗ bytes str (ds ++ rest))%I
    (λ r, ⌜r = (str + length (digits v))%Z⌝ ∗
       bytes str (digits v ++ drop (length (digits v)) buf))%I (length (digits v))).
  - iIntros "(%ds & %rest & (%Hd & _ & _ & _ & -> & %Hl) & H)". rw arr_cells. iApply (cells_le with "H").
    rw length_app length_drop. rw Hd length_app in Hl. lia.
  - intros n [p w]. iIntros "(%ds & %rest & (%Hd & -> & -> & %Hw & -> & _) & H)".
    destruct (Z.eqb_spec w 0) as [->|H0]; wp_pures.
    + rw /= app_nil_r in Hd. rw Hd. by iFrame.
    + rw (digits_eq w) in Hd *; [|done|done].
      rw Hd length_app /= in Hlen. destruct (drop (length ds) buf) as [|c rest] eqn:Hr.
      { apply (f_equal length) in Hr. rw length_drop /= in Hr. lia. }
      iApply wp_bind. iApply (arr_store _ _ _ (length ds) c with "H"); [apply lookup_middle'|lia|].
      iIntros "H". rw insert_app_r_alt; [|lia]. rw Nat.sub_diag /=. wp_pures.
      rw Z.rem_mod_nonneg; [|lia|lia]. rw Z.quot_div_nonneg; [|lia|lia].
      pose proof (Z.mod_pos_bound w 10 ltac:(lia)). rw u8_small; [|lia].
      rw s8_small; [|lia].
      iExists (length (digits (w / 10))). iSplit; [iPureIntro; simpl; lia|].
      iExists (ds ++ [48 + w `mod` 10]), rest. rw -!assoc_L. iFrame. iPureIntro.
      rw length_app /=. split_and!; [done|done|lia|dlia|dlia| |rw Hd length_app /=; lia].
      rw -drop_drop Hr. done.
  - iExists [], buf. iFrame. iPureIntro. split_and!; [done|done|simpl; lia|lia|lia|done|done].
  - iIntros (r) "[-> H]". by iApply "HQ".
Qed.

Lemma digits_nonzero v : Forall (λ c, c ≠ 0) (digits v).
Proof. eapply Forall_impl; [apply digs_chars|]. simpl. lia. Qed.

(** What the buffer holds before [itoa] writes the terminator behind the digits: [stale] is what was there behind the
    place of the digits, up to a terminator, and [strreverse] reverses it together with the digits. *)
Definition itoa_work (v : Z) (stale : list Z) : list Z := if v =? 0 then [48] ++ stale else reverse stale ++ decimal v.

Lemma decimal_length v : (length (decimal v) ≤ 10)%nat.
Proof. unfold decimal. destruct (v =? 0); [simpl; lia|]. rw length_reverse. apply digs_length. Qed.

Lemma itoa_work_length v stale : length (itoa_work v stale) = (length (decimal v) + length stale)%nat.
Proof. unfold itoa_work, decimal. destruct (v =? 0); rw length_app ?length_reverse; simpl; lia. Qed.

Lemma itoa_wp str v buf stale rest Q : 0 < str → 0 ≤ v < 2 ^ 31 → length buf = length (decimal v) →
  Forall (λ c, c ≠ 0) stale → length stale < 2 ^ 30 →
  bytes str (buf ++ stale ++ 0 :: rest) -∗ (bytes str (<[length (decimal v) := 0]> (itoa_work v stale ++ 0 :: rest)) -∗ Q tt) -∗ wp (itoa str v) Q.
Proof.
  iIntros (Hstr Hv Hlen Hst Hsl) "Hb HQ". unfold itoa. rw eqb_false; [|unfold NULL; lia].
  pose proof (decimal_length v) as Hd. unfold itoa_work. unfold decimal in Hlen, Hd |- *. destruct (Z.eqb_spec v 0) as [->|H0].
  - destruct buf as [|c [|]]; [done| |done]. iApply wp_bind.
    iApply wp_bind. iApply (arr_store _ _ _ 0 c with "Hb"); [done|lia|]. iIntros "Hb". wp_pures.
    destruct (lookup_lt_is_Some_2 (48 :: stale ++ 0 :: rest) 1) as [o Ho]; [simpl; rw length_app; simpl; lia|].
    iApply (arr_store _ _ _ 1 o with "Hb"); [done|lia|]. iIntros "Hb". by iApply "HQ".
  - rw length_reverse in Hlen Hd |- *. iApply wp_bind. iApply wp_bind.
    iApply (itoa_digits_wp with "Hb"); [done|rw length_app /=; lia|]. iIntros "Hb".
    rw drop_app_length'; [|done].
    iEval (rw (_ : digits v ++ stale ++ 0 :: rest = ((digits v ++ stale) ++ [0]) ++ rest); [|by rw -!assoc_L]; rw arr_app) in "Hb".
    iDestruct "Hb" as "[Hb Hr]".
    iApply wp_bind. iApply (strreverse_wp str (digits v ++ stale) with "[Hb]").
    { iFrame. iPureIntro. split_and!; [apply Forall_app; split; [apply digits_nonzero|done]|done|]. rw length_app. lia. }
    iIntros "[Hb _]". wp_pures. rw reverse_app. iCombine "Hb Hr" as "Hb".
    rw (_ : str + 1 * length ((digits v ++ stale) ++ [0]) = str + 1 * length ((reverse stale ++ reverse (digits v)) ++ [0]));
      [|rw !length_app !length_reverse; lia].
    rw -arr_app -(assoc_L (++) _ [0]). destruct (lookup_lt_is_Some_2 ((reverse stale ++ reverse (digits v)) ++ [0] ++ rest) (length (digits v))) as [o Ho].
    { rw !length_app !length_reverse /=. lia. }
    iApply (arr_store _ _ _ (length (digits v)) o with "Hb"); [done|lia|]. iIntros "Hb". by iApply "HQ".
Qed.

(** ** Copying and filling *)

Lemma strcpy_wp dst src s old rest Q : length old = S (length s) → 0 < dst →
  cstr src s -∗ bytes dst (old ++ rest) -∗
  (cstr src s -∗ bytes dst (s ++ 0 :: rest) -∗ Q 0) -∗ wp (strcpy dst src) Q.
Proof.
  iIntros (Hold Hdst) "[Hs (%Hnz & %Hp & %Hlen)] Hd HQ". unfold strcpy.
  rw !eqb_false; [|unfold NULL; lia|unfold NULL; lia]. wp_pures.
  iApply (wp_wand with "[Hs Hd]"); first iApply (wp_loop _ (λ (n : nat) '((d, q) : Z * Z), ∃ s1 s2 old2,
    ⌜s = s1 ++ s2 ∧ n = length s2 ∧ d = (dst + length s1)%Z ∧ q = (src + length s1)%Z ∧
     length old2 = S (length s2)⌝ ∗ bytes src (s ++ [0]) ∗ bytes dst (s1 ++ old2 ++ rest))%I
    (λ r, ⌜r = 0⌝ ∗ bytes src (s ++ [0]) ∗ bytes dst (s ++ 0 :: rest))%I (length s)).
  - iIntros "(%s1 & %s2 & %old2 & (-> & _) & H & _)". rw arr_cells. iApply (cells_le with "H").
    rw !length_app /=. lia.
  - intros n [d q]. iIntros "(%s1 & %s2 & %old2 & (-> & -> & -> & -> & %Ho) & Hs & Hd)".
    destruct old2 as [|o old2]; [done|]. simpl in Ho.
    destruct s2 as [|c s2]; iApply wp_bind; rw -assoc_L;
      (iApply (arr_load _ _ _ (length s1) with "Hs"); [apply lookup_middle'|lia|]); iIntros "Hs";
      iApply wp_bind; (iApply (arr_store _ _ _ (length s1) with "Hd"); [apply lookup_middle'|lia|]);
      iIntros "Hd"; (rw insert_app_r_alt; [|lia]); rw Nat.sub_diag /=.
    + wp_pures. rw app_nil_r. destruct old2; [|done]. by iFrame.
    + apply Forall_app in Hnz as [_ Hnz]. apply Forall_inv in Hnz. rw eqb_false; [|done]. wp_pures.
      iExists (length s2). iSplit; [iPureIntro; simpl; lia|]. iExists (s1 ++ [c]), s2, old2.
      rw -!assoc_L length_app /=. iFrame. iPureIntro. simpl in Ho. split_and!; [done|done|lia|lia|lia].
  - iExists [], s, old. iFrame. iPureIntro. simpl. split_and!; [done|done|lia|lia|done].
  - iIntros (r) "(-> & Hs & Hd)". iApply ("HQ" with "[$Hs] Hd"). done.
Qed.

Lemma memset_wp dst ch n old rest Q : Z.of_nat (length old) = n → 0 < n < 2 ^ 31 → 0 < dst →
  bytes dst (old ++ rest) -∗
  (bytes dst (replicate (Z.to_nat n) ch ++ rest) -∗ Q 0) -∗ wp (memset dst ch n) Q.
Proof.
  iIntros (Hold Hn Hdst) "Hd HQ". unfold memset.
  rw eqb_false; [|unfold NULL; lia]. rw (proj2 (Z.leb_gt n 0)); [|lia]. wp_pures.
  iApply (wp_wand with "[Hd]"); first iApply (wp_loop _ (λ (k : nat) '((d, i) : Z * Z), ∃ j old2,
    ⌜k = length old2 ∧ d = (dst + Z.of_nat j)%Z ∧ i = Z.of_nat j ∧ (j + length old2)%nat = length old⌝ ∗
     bytes dst (replicate j ch ++ old2 ++ rest))%I
    (λ r, ⌜r = 0⌝ ∗ bytes dst (replicate (length old) ch ++ rest))%I (length old)).
  - iIntros "(%j & %old2 & (_ & _ & _ & %Hj) & H)". rw arr_cells. iApply (cells_le with "H").
    rw !length_app length_replicate. lia.
  - intros k [d i]. iIntros "(%j & %old2 & (-> & -> & -> & %Hj) & Hd)".
    rw eqb_false; [|unfold NULL; lia]. destruct old2 as [|o old2]; simpl in Hj.
    + rw (proj2 (Z.ltb_ge _ _)); [|lia]. wp_pures. rw -Hj Nat.add_0_r. by iFrame.
    + rw (proj2 (Z.ltb_lt _ _)); [|lia]. wp_pures. iApply wp_bind.
      iApply (arr_store _ _ _ j o with "Hd").
      { rw lookup_app_r; rw length_replicate; [|lia]. by rw Nat.sub_diag. }
      { lia. }
      iIntros "Hd". rw insert_app_r_alt; rw length_replicate; [|lia]. rw Nat.sub_diag /=. wp_pures.
      iExists (length old2). iSplit; [iPureIntro; simpl; lia|]. iExists (S j), old2.
      iSplit; [iPureIntro; split_and!; [done|lia|lia|lia]|]. by rw replicate_S_end -app_assoc.
  - iExists 0%nat, old. iFrame. iPureIntro. split_and!; [done|lia|done|done].
  - iIntros (r) "[-> H]". rw -Hold Nat2Z.id. by iApply "HQ".
Qed.

(** ** Properties *)

(** functional.  [strreverse] reverses a string in place; reversing twice gives
    the string back. *)
Theorem strreverse_involutive p s :
  {{ cstr p s }}
    r1 ← strreverse p; r2 ← strreverse p; mret (r1, r2)
  {{ r, ⌜r = (0, 0)⌝ ∗ cstr p s }}.
Proof.
  apply triple_wp. iIntros "Hs". iApply wp_bind. iApply (strreverse_wp with "Hs"). iIntros "Hs".
  iApply wp_bind. iApply (strreverse_wp with "Hs"). iIntros "Hs". rw reverse_involutive.
  wp_pures. by iFrame.
Qed.

(** C13: roundtrip.  For every [int] that is not negative [itoa] writes as many characters as the number has digits, and a
    terminator.  They are the digits, and denote the number, when the number is 0 or the buffer held a terminator where the digits
    end; otherwise they are the first of the characters that the buffer held there ([stale]), reversed, followed by the digits. *)
Theorem itoa_roundtrip str v buf stale rest :
  {{ bytes str (buf ++ stale ++ 0 :: rest) ∗
     ⌜0 < str ∧ 0 ≤ v < 2 ^ 31 ∧ length buf = length (decimal v) ∧ Forall (λ c, c ≠ 0) stale ∧ length stale < 2 ^ 30⌝ }}
    itoa str v
  {{ _, ∃ s tail, bytes str (s ++ 0 :: tail) ∗
        ⌜s = take (length (decimal v)) (if v =? 0 then [48] else reverse stale ++ decimal v) ∧
         tail = drop (S (length (decimal v))) (itoa_work v stale ++ 0 :: rest) ∧
         (v = 0 ∨ stale = [] → number s = v ∧ Forall (λ c, 48 ≤ c ≤ 57) s)⌝ }}.
Proof.
  apply triple_wp. iIntros "(Hb & %Hstr & %Hv & %Hlen & %Hst & %Hsl)". iApply (itoa_wp with "Hb"); [done..|]. iIntros "Hb".
  rw insert_take_drop; [|rw length_app itoa_work_length /=; lia]. iExists _, _. iFrame "Hb". iPureIntro.
  assert (take (length (decimal v)) (itoa_work v stale ++ 0 :: rest) = take (length (decimal v)) (if v =? 0 then [48] else reverse stale ++ decimal v)) as E.
  { unfold itoa_work. destruct (Z.eqb_spec v 0) as [->|]; [done|]. apply take_app_le. rw length_app. lia. }
  split_and!; [exact E|done|]. rw E. intros H. assert (take (length (decimal v)) (if v =? 0 then [48] else reverse stale ++ decimal v) = decimal v) as ->.
  { destruct H as [->| ->]; [done|]. rw reverse_nil app_nil_l. destruct (Z.eqb_spec v 0) as [->|]; [done|]. apply take_ge. lia. }
  split; [by apply number_decimal|]. unfold decimal. destruct (v =? 0); [by repeat constructor|]. apply Forall_reverse, digs_chars.
Qed.

(** error.  [strcmp] never reports that two strings are equal: it tests its pointers
    instead of the characters, so it runs on until it meets a difference.  Whatever memory
    holds, if it returns it returns -1. *)
Theorem strcmp_never_equal p q m r m' : 0 < p → 0 < q →
  strcmp p q m = Ok r m' → r = -1.
Proof.
  intros Hp Hq. unfold strcmp. rw !eqb_false; [|unfold NULL; lia|unfold NULL; lia]. simpl.
  unfold loop. generalize (S (size m)) as n. intros n. revert p q Hp Hq.
  induction n as [|n IH]; intros p q Hp Hq; [done|]. simpl.
  rw !eqb_false; [|unfold NULL; lia|unfold NULL; lia]. simpl. unfold mbind, M_bind, load.
  destruct (m !! p) as [a|] eqn:Ha; [|done]. destruct (m !! q) as [b|] eqn:Hb; [|done].
  destruct (a =? b); simpl; [apply IH; lia|]. by intros [= <- <-].
Qed.

Lemma strcmp_never_equal_witness :
  strcmp 1 5 (<[1 := 97]> (<[5 := 98]> ∅)) = Ok (-1) (<[1 := 97]> (<[5 := 98]> ∅)) ∧ -1 = -1.
Proof.
  split; [vm_compute; reflexivity|].
  apply (strcmp_never_equal 1 5 (<[1 := 97]> (<[5 := 98]> ∅)) (-1) (<[1 := 97]> (<[5 := 98]> ∅)));
    [lia|lia|vm_compute; reflexivity].
Defined.

(** ** A run of vsprintf *)

Fixpoint place (p k : Z) (vs : list Z) (m : mem) : mem :=
  match vs with
  | [] => m
  | v :: vs => <[p := v]> (place (p + k) k vs m)
  end.

Fixpoint fetch (p : Z) (n : nat) (m : mem) : list (option Z) :=
  match n with
  | O => []
  | S n => m !! p :: fetch (p + 1) n m
  end.

(** The call [vsprintf(buf, "%d %d", args)] with the arguments [v] and [w], and the characters it
    leaves in [buf]. *)
Definition print_two (v w : Z) : option (Z * list (option Z)) :=
  let m := place 1000 1 [37; 100; 32; 37; 100; 0] (place 2000 4 [v; w]
    (place 3000 1 (replicate 32 7) (place 4000 1 (replicate 32 0) ∅))) in
  match vsprintf 3000 4000 1000 2000 m with
  | Ok r m' => Some (r, fetch 4000 (Z.to_nat r) m')
  | _ => None
  end.

(** error.  [vsprintf] formats a number wrongly after a longer one: [itoa] reverses the
    digits before it writes the terminator, so the rest of the number before it is reversed
    with them.  ["%d %d"] of 1234 and 56 gives ["1234 43"]; of 12 and 56 it gives ["12 56"]. *)
Theorem vsprintf_stale_digits :
  print_two 1234 56 = Some (7, Some <$> [49; 50; 51; 52; 32; 52; 51]) ∧
  print_two 12 56 = Some (5, Some <$> [49; 50; 32; 53; 54]).
Proof. split; vm_compute; reflexivity. Qed.
