(* ===== verification/Bits.v ===== *)
(** * Bit maps, powers of two and process ids: lib/bitmap.c, lib/math.c, kernel/pid.c *)

From S2P Require Export CStringSpec.

(** ** Powers of two *)

(** [while(index-- > 0) sum *= 2] *)
Definition power (index : Z) : Z :=
  if index =? 0 then 1
  else if index >? 0 then Nat.iter (Z.to_nat index) (λ sum, s32 (sum * 2)) 1
  else 1.

(** ** Bytes *)

Definition __set_bit (nr ch : Z) : Z := Z.lor ch (Z.land (Z.shiftl 1 nr) 0xFF).

Definition __clear_bit (nr ch : Z) : Z := Z.land ch (Z.land (Z.lnot (Z.shiftl 1 nr)) 0xFF).

(** [bsf]: the index of the lowest 1; the destination register, which holds 0, is left as it is
    if there is none. *)
Fixpoint bsf_pos (p : positive) : Z :=
  match p with
  | xO p => 1 + bsf_pos p
  | _ => 0
  end.

Definition find_first_bit (ch : Z) : Z :=
  match ch with Zpos p => bsf_pos p | _ => 0 end.

Definition find_first_zero (ch : Z) : Z := find_first_bit (Z.land (Z.lnot ch) 0xFF).

(** ** Bit maps in memory *)

Definition get_first_bit (bitmap size : Z) : M Z :=
  loop (λ i,
    if i <? size then
      b ← load (bitmap + i);
      if b =? 0xff then mret (inl (i + 1))
      else
        b ← load (bitmap + i);
        let first := find_first_zero b in
        mret (inr (first + 1 * i))
    else mret (inr (-1))) 0.

(** The index it returns counts bytes, not bits: [first + sizeof(unsigned char) * i]. *)
Definition set_first_bit (bitmap size : Z) : M Z :=
  loop (λ i,
    if i <? size then
      b ← load (bitmap + i);
      if b =? 0xff then mret (inl (i + 1))
      else
        b ← load (bitmap + i);
        let first := find_first_zero b in
        b ← load (bitmap + i);
        store (bitmap + i) (__set_bit first b);;
        mret (inr (first + 1 * i))
    else mret (inr (-1))) 0.

(** ** Process ids *)

Definition MAX_PIDNUM : Z := 1024.

Definition init_pidmap (pidmap : Z) : M unit :=
  bzero pidmap (MAX_PIDNUM / 8);;
  b ← load pidmap;
  store pidmap (Z.lor b 1).

Definition get_pidmap (pidmap : Z) : M Z :=
  first ← set_first_bit pidmap (MAX_PIDNUM / 8);
  mret (u32 first).

(** ** Lemmas *)

Lemma s32_double z : s32 (s32 z * 2) = s32 (z * 2).
Proof.
  unfold s32. f_equal.
  replace (((z + 2 ^ 31) `mod` 2 ^ 32 - 2 ^ 31) * 2 + 2 ^ 31) with
    ((z + 2 ^ 31) `mod` 2 ^ 32 * 2 + (- 2 ^ 31)) by lia.
  rw -Zplus_mod_idemp_l Zmult_mod_idemp_l Zplus_mod_idemp_l.
  replace ((z + 2 ^ 31) * 2 + - 2 ^ 31) with (z * 2 + 2 ^ 31) by lia. done.
Qed.

Lemma iter_double n : Nat.iter n (λ sum, s32 (sum * 2)) 1 = s32 (2 ^ Z.of_nat n).
Proof.
  induction n as [|n IH]; [done|]. rw Nat.iter_succ IH s32_double Nat2Z.inj_succ Z.pow_succ_r; [|lia].
  f_equal. lia.
Qed.

Lemma bsf_pos_spec p : 0 ≤ bsf_pos p ∧ Z.testbit (Zpos p) (bsf_pos p) = true ∧
  ∀ j, 0 ≤ j < bsf_pos p → Z.testbit (Zpos p) j = false.
Proof.
  induction p as [p _|p (Hp & Ht & Hf)|]; simpl bsf_pos.
  - split_and!; [lia|done|lia].
  - split_and!; [lia| |].
    + rw Pos2Z.inj_xO Z.add_1_l Z.double_bits_succ //.
    + intros j Hj. rw Pos2Z.inj_xO. destruct (decide (j = 0)) as [->|]; [by rw Z.testbit_even_0|].
      replace j with (Z.succ (j - 1)) by lia. rw Z.double_bits_succ. apply Hf. lia.
  - split_and!; [lia|done|lia].
Qed.

(** A byte that is not all ones has a lowest zero, among its eight bits. *)
Lemma find_first_zero_spec b : 0 ≤ b < 255 →
  0 ≤ find_first_zero b < 8 ∧ Z.testbit b (find_first_zero b) = false ∧
  ∀ j, 0 ≤ j < find_first_zero b → Z.testbit b j = true.
Proof.
  intros Hb. unfold find_first_zero. set (c := Z.land (Z.lnot b) 255).
  assert (∀ j, 0 ≤ j → Z.testbit c j = negb (Z.testbit b j) && (j <? 8)) as Hc.
  { intros j Hj. unfold c. change 255 with (Z.ones 8). rw Z.land_spec Z.lnot_spec; [|done].
    f_equal. destruct (Z.ltb_spec j 8); [by rw Z.ones_spec_low; [|lia]|by rw Z.ones_spec_high; [|lia]]. }
  assert (c = 255 - b) as E.
  { unfold c. change 255 with (Z.ones 8) at 1. rw Z.land_ones; [|lia].
    change (2 ^ 8) with 256. unfold Z.lnot. dlia. }
  destruct c as [|p|p]; [lia| |lia]. simpl find_first_bit.
  destruct (bsf_pos_spec p) as (H0 & Ht & Hf). rw Hc in Ht; [|done].
  apply andb_true_iff in Ht as [Ht H8]. apply Z.ltb_lt in H8. apply negb_true_iff in Ht.
  split_and!; [lia|lia|done|]. intros j Hj. specialize (Hf j Hj). rw Hc in Hf; [|lia].
  rw (proj2 (Z.ltb_lt j 8)) in Hf; [|lia]. rw andb_true_r in Hf. by apply negb_false_iff in Hf.
Qed.

(** [__set_bit] sets its bit and no other. *)
Lemma __set_bit_spec nr ch j : 0 ≤ nr < 8 → 0 ≤ j →
  Z.testbit (__set_bit nr ch) j = (j =? nr) || Z.testbit ch j.
Proof.
  intros Hnr Hj. unfold __set_bit. rw Z.lor_spec Z.land_spec Z.shiftl_spec; [|done].
  change 255 with (Z.ones 8). rw orb_comm. f_equal. destruct (Z.eqb_spec j nr) as [->|Hne].
  - rw Z.sub_diag Z.ones_spec_low; [|lia]. done.
  - destruct (decide (j < nr)); [by rw Z.testbit_neg_r; [|lia]|].
    assert (Z.testbit 1 (j - nr) = false) as ->; [|done].
    apply (Z.bits_above_log2 1); [lia|]. simpl. lia.
Qed.

Lemma set_first_bit_wp bitmap k b rest size Q : b ≠ 255 →
  Z.of_nat (k + S (length rest)) = size →
  bytes bitmap (replicate k 255 ++ b :: rest) -∗
  (bytes bitmap (replicate k 255 ++ __set_bit (find_first_zero b) b :: rest) -∗
   Q (find_first_zero b + k)) -∗
  wp (set_first_bit bitmap size) Q.
Proof.
  iIntros (Hb Hsize) "H HQ". unfold set_first_bit.
  iApply (wp_wand with "[H]"); first iApply (wp_loop _ (λ (n : nat) (i : Z), ∃ j : nat,
    ⌜i = Z.of_nat j ∧ (j + n = k)%nat⌝ ∗ bytes bitmap (replicate k 255 ++ b :: rest))%I
    (λ r, ⌜r = (find_first_zero b + k)%Z⌝ ∗
      bytes bitmap (replicate k 255 ++ __set_bit (find_first_zero b) b :: rest))%I k).
  - iIntros "(%j & (_ & %Hj) & H)". rw arr_cells. iApply (cells_le with "H").
    rw length_app length_replicate /=. lia.
  - intros n i. iIntros "(%j & (-> & %Hj) & H)". rw (proj2 (Z.ltb_lt _ _)); [|lia].
    destruct n as [|n].
    + rw Nat.add_0_r in Hj. subst j.
      assert ((replicate k 255 ++ b :: rest) !! k = Some b) as Hk.
      { rw lookup_app_r; rw length_replicate; [|lia]. by rw Nat.sub_diag. }
      iApply wp_bind. iApply (arr_load with "H"); [exact Hk|lia|]. iIntros "H". rw eqb_false; [|done].
      iApply wp_bind. iApply (arr_load with "H"); [exact Hk|lia|]. iIntros "H". wp_pures.
      iApply wp_bind. iApply (arr_load with "H"); [exact Hk|lia|]. iIntros "H".
      iApply wp_bind. iApply (arr_store with "H"); [exact Hk|lia|]. iIntros "H". wp_pures.
      rw insert_app_r_alt; rw length_replicate; [|lia]. rw Nat.sub_diag Z.mul_1_l /=. by iFrame.
    + iApply wp_bind. iApply (arr_load _ _ _ j 255 with "H"); [|lia|].
      { rw lookup_app_l; [|rw length_replicate; lia]. apply lookup_replicate_2. lia. }
      iIntros "H". wp_pures. iExists n. iSplit; [iPureIntro; lia|]. iExists (S j). iFrame.
      iPureIntro. lia.
  - iExists 0%nat. iFrame. iPureIntro. lia.
  - iIntros (r) "[-> H]". by iApply "HQ".
Qed.

(** ** Properties *)

(** bounds.  [power] is two to the [index] for every exponent that is not
    negative, wrapped to an [int]: exact up to 30, -2^31 at 31 and 0 from 32 on. *)
Theorem power_correct index : 0 ≤ index → power index = s32 (2 ^ index).
Proof.
  intros Hi. unfold power. destruct (Z.eqb_spec index 0) as [->|]; [done|].
  rw (proj2 (Z.gtb_lt index 0)); [|lia]. rw iter_double Z2Nat.id; [done|lia].
Qed.

Lemma power_correct_witness : power 10 = 1024 ∧ power 10 = s32 (2 ^ 10).
Proof. split; [reflexivity|apply (power_correct 10); lia]. Defined.

(** functional.  [set_first_bit] sets the lowest clear bit of the map, and only this
    bit; the number it returns is the index of the byte plus the index of the bit in it. *)
Theorem set_first_bit_correct bitmap k b rest size :
  {{ bytes bitmap (replicate k 255 ++ b :: rest) ∗
     ⌜0 ≤ b < 255 ∧ Z.of_nat (k + S (length rest)) = size⌝ }}
    set_first_bit bitmap size
  {{ r, ∃ i b' : Z, ⌜r = (i + k)%Z ∧ 0 ≤ i < 8 ∧ Z.testbit b i = false ∧
          (∀ j, 0 ≤ j < i → Z.testbit b j = true) ∧
          (∀ j, 0 ≤ j → Z.testbit b' j = (j =? i) || Z.testbit b j)⌝ ∗
        bytes bitmap (replicate k 255 ++ b' :: rest) }}.
Proof.
  apply triple_wp. iIntros "(H & %Hb & %Hsize)".
  iApply (set_first_bit_wp with "H"); [lia|done|]. iIntros "H".
  destruct (find_first_zero_spec b Hb) as (H8 & H0 & H1).
  iExists (find_first_zero b), _. iFrame. iPureIntro. split_and!; [done|lia|lia|done|done|].
  intros j Hj. by apply __set_bit_spec.
Qed.

(** error.  Process ids are not unique: with the first eight of them in use (the first byte
    of the map is full) [get_pidmap] returns 1, the id of [init], and marks a ninth bit. *)
Theorem get_pidmap_duplicate pidmap :
  {{ bytes pidmap (255 :: replicate 127 0) }}
    get_pidmap pidmap
  {{ r, ⌜r = 1⌝ ∗ bytes pidmap (255 :: 1 :: replicate 126 0) }}.
Proof.
  apply triple_wp. iIntros "H". unfold get_pidmap. iApply wp_bind.
  iApply (set_first_bit_wp _ 1 0 (replicate 126 0) with "H"); [done|done|].
  change (replicate 1 255 ++ __set_bit (find_first_zero 0) 0 :: replicate 126 0)
    with (255 :: 1 :: replicate 126 0).
  change (find_first_zero 0 + 1%nat) with 1. iIntros "H". wp_pures. iSplit; [done|]. iExact "H".
Qed.

(** functional.  [init_pidmap] clears the map and reserves the id 0. *)
Theorem init_pidmap_correct pidmap old :
  {{ bytes pidmap old ∗ ⌜length old = 128%nat ∧ 0 < pidmap⌝ }}
    init_pidmap pidmap
  {{ _, bytes pidmap (1 :: replicate 127 0) }}.
Proof.
  apply triple_wp. iIntros "(H & %Hlen & %Hp)". unfold init_pidmap, bzero. iApply wp_bind.
  iApply (memset_wp pidmap 0 128 old [] with "[H]"); [lia|lia|done|by rw app_nil_r|].
  iIntros "H". rw app_nil_r. iApply wp_bind. iApply (arr_load _ _ _ 0 0 with "H"); [done|lia|].
  iIntros "H". iApply (arr_store _ _ _ 0 0 with "H"); [done|lia|]. iIntros "H". iExact "H".
Qed.
