(* ===== verification/Console.v ===== *)
(** * Virtual consoles: kernel/console.c

    The video memory, the registers of the display controller and the static variables of
    console.c are a record; the operations pass it and the console they work on along.  A loop
    that may not end has fuel and returns [None] when it runs out. *)

From S2P Require Export Prelude.

(** struct s_console *)
Record CONSOLE := Console {
  current_start_addr : Z;
  original_addr : Z;
  current_end_addr : Z;
  v_mem_limit : Z;
  cursor : Z;
}.

Definition set_start (a : Z) (c : CONSOLE) : CONSOLE :=
  Console a (original_addr c) (current_end_addr c) (v_mem_limit c) (cursor c).
Definition set_end (a : Z) (c : CONSOLE) : CONSOLE :=
  Console (current_start_addr c) (original_addr c) a (v_mem_limit c) (cursor c).
Definition set_cur (a : Z) (c : CONSOLE) : CONSOLE :=
  Console (current_start_addr c) (original_addr c) (current_end_addr c) (v_mem_limit c) a.

(** The device and the global variables: video memory, the cursor and start address registers of
    the controller, [disp_pos], [out_char_number], [nr_current_console]. *)
Record screen := Screen {
  vmem : gmap Z Z;
  crtc_cursor : Z;
  crtc_start : Z;
  disp_pos : Z;
  out_char_number : Z;
  nr_current_console : Z;
}.

Definition with_vmem (f : gmap Z Z → gmap Z Z) (s : screen) : screen :=
  Screen (f (vmem s)) (crtc_cursor s) (crtc_start s) (disp_pos s) (out_char_number s)
    (nr_current_console s).
Definition with_chars (f : Z → Z) (s : screen) : screen :=
  Screen (vmem s) (crtc_cursor s) (crtc_start s) (disp_pos s) (f (out_char_number s))
    (nr_current_console s).

Definition SCROLL_SCREEN_UP : Z := 1.
Definition SCROLL_SCREEN_DOWN : Z := -1.
Definition SCREEN_WIDTH : Z := 80.
Definition SCREEN_HIGH : Z := 25.
Definition SCREEN_SIZE : Z := 2000.
Definition DEFAULT_CHAR_COLOR : Z := 7.
Definition NR_CONSOLES : Z := 3.
Definition V_MEM_BASE : Z := 0xB8000.
Definition V_MEM_SIZE : Z := 0x8000.

(** ** The controller: two bytes to each register pair *)

Definition set_cursor (position : Z) (s : screen) : screen :=
  Screen (vmem s)
    (Z.lor (Z.shiftl (Z.land (Z.shiftr position 8) 0xFF) 8) (Z.land position 0xFF))
    (crtc_start s) (disp_pos s) (out_char_number s) (nr_current_console s).

Definition set_video_start_addr (addr : Z) (s : screen) : screen :=
  Screen (vmem s) (crtc_cursor s)
    (Z.lor (Z.shiftl (Z.land (Z.shiftr addr 8) 0xFF) 8) (Z.land addr 0xFF))
    (disp_pos s) (out_char_number s) (nr_current_console s).

Definition flush (p_con : CONSOLE) (s : screen) : screen :=
  set_video_start_addr (current_start_addr p_con) (set_cursor (cursor p_con) s).

(** [rep stosw] of blanks over the memory of the console. *)
Fixpoint blank (addr : Z) (len : nat) (m : gmap Z Z) : gmap Z Z :=
  match len with
  | O => m
  | S len => <[addr := 0x20]> (<[addr + 1 := 0x07]> (blank (addr + 2) len m))
  end.

Definition clean_console_screen (p_con : CONSOLE) (s : screen) : screen :=
  let len := v_mem_limit p_con in
  let original_addr := u32 (Z.shiftl (original_addr p_con) 1) in
  with_vmem (blank (V_MEM_BASE + original_addr) (Z.to_nat len)) s.

(** ** Scrolling *)

Definition scroll_screen (p_con : CONSOLE) (direction : Z) (s : screen) : CONSOLE * screen :=
  let '(p_con, s) :=
    if direction =? SCROLL_SCREEN_UP then
      if current_start_addr p_con >? original_addr p_con then
        (Console (u32 (current_start_addr p_con - SCREEN_WIDTH)) (original_addr p_con)
           (u32 (current_end_addr p_con - SCREEN_WIDTH)) (v_mem_limit p_con)
           (u32 (cursor p_con - SCREEN_WIDTH)), s)
      else (p_con, s)
    else if direction =? SCROLL_SCREEN_DOWN then
      if u32 (current_start_addr p_con + SCREEN_SIZE) <? u32 (original_addr p_con + v_mem_limit p_con) then
        let p_con := set_start (u32 (current_start_addr p_con + SCREEN_WIDTH)) p_con in
        if u32 (current_end_addr p_con + SCREEN_WIDTH) >? u32 (original_addr p_con + v_mem_limit p_con) then
          (set_end (u32 (original_addr p_con + v_mem_limit p_con)) p_con, s)
        else (set_end (u32 (current_end_addr p_con + SCREEN_WIDTH)) p_con, s)
      else
        let s := Screen (vmem s) (crtc_cursor s) (crtc_start s) 0 (out_char_number s)
                   (nr_current_console s) in
        let s := clean_console_screen p_con s in
        let p_con := set_start (original_addr p_con) p_con in
        (set_end (u32 (current_end_addr p_con + u32 (current_start_addr p_con + SCREEN_SIZE))) p_con, s)
    else (p_con, s) in
  (p_con, flush p_con s).

(** [while (cursor >= current_start_addr + SCREEN_SIZE) scroll_screen(p_con, SCROLL_SCREEN_DOWN)] *)
Fixpoint scroll_to_cursor (fuel : nat) (p_con : CONSOLE) (s : screen) : option (CONSOLE * screen) :=
  if cursor p_con <? u32 (current_start_addr p_con + SCREEN_SIZE) then Some (p_con, s)
  else match fuel with
       | O => None
       | S fuel => let '(p_con, s) := scroll_screen p_con SCROLL_SCREEN_DOWN s in
                   scroll_to_cursor fuel p_con s
       end.

(** A console has less than 100 lines of memory. *)
Definition SCROLL_FUEL : nat := 100.

(** ** Output *)

Definition put_char (p_vmem ch : Z) (m : gmap Z Z) : gmap Z Z :=
  <[p_vmem + 1 := DEFAULT_CHAR_COLOR]> (<[p_vmem := ch]> m).

Fixpoint out_str_loop (str : list Z) (p_vmem : Z) (p_con : CONSOLE) (s : screen) : CONSOLE * screen :=
  match str with
  | [] => (p_con, s)
  | ch :: str' =>
      if cursor p_con <? u32 (original_addr p_con + v_mem_limit p_con - 1) then
        out_str_loop str' (p_vmem + 2) (set_cur (u32 (cursor p_con + 1)) p_con)
          (with_vmem (put_char p_vmem ch) s)
      else out_str_loop str' p_vmem p_con s
  end.

(** [str] is the characters the pointer passes over. *)
Definition out_str (p_con : CONSOLE) (str : list Z) (s : screen) : option (CONSOLE * screen) :=
  let p_vmem := V_MEM_BASE + cursor p_con * 2 in
  let '(p_con, s) := out_str_loop str p_vmem p_con s in
  match scroll_to_cursor SCROLL_FUEL p_con s with
  | Some (p_con, s) => Some (p_con, flush p_con s)
  | None => None
  end.

Definition out_char_body (p_con : CONSOLE) (ch : Z) (s : screen) : CONSOLE * screen :=
  let p_vmem := V_MEM_BASE + cursor p_con * 2 in
  if ch =? 10 then
    let '(p_con, s) :=
      if cursor p_con <? u32 (original_addr p_con + v_mem_limit p_con - SCREEN_WIDTH) then
        (set_cur (u32 (original_addr p_con +
           SCREEN_WIDTH * (u32 (cursor p_con - original_addr p_con) / SCREEN_WIDTH + 1))) p_con, s)
      else
        let '(p_con, s) := scroll_screen p_con SCROLL_SCREEN_DOWN s in
        (set_cur (original_addr p_con) p_con, s) in
    (p_con, with_chars (λ _, 0) s)
  else if ch =? 8 then
    if cursor p_con >? original_addr p_con then
      if out_char_number s >? 0 then
        (set_cur (u32 (cursor p_con - 1)) p_con,
         with_chars (λ n, n - 1) (with_vmem (put_char (p_vmem - 2) 32) s))
      else (p_con, s)
    else (p_con, s)
  else if ch =? 9 then
    (set_cur (u32 (cursor p_con + 8)) p_con, with_chars (λ n, s32 (n + 8)) s)
  else
    if cursor p_con <? u32 (original_addr p_con + v_mem_limit p_con - 1) then
      (set_cur (u32 (cursor p_con + 1)) p_con,
       with_chars (λ n, s32 (n + 1)) (with_vmem (put_char p_vmem ch) s))
    else (p_con, s).

Definition out_char (p_con : CONSOLE) (ch : Z) (s : screen) : option (CONSOLE * screen) :=
  let '(p_con, s) := out_char_body p_con ch s in
  match scroll_to_cursor SCROLL_FUEL p_con s with
  | Some (p_con, s) => Some (p_con, flush p_con s)
  | None => None
  end.

(** ** Selection and initialisation; consoles are named by their index in [console_table]. *)

Definition is_current_console (nr_console : Z) (s : screen) : bool := nr_console =? nr_current_console s.

Definition select_console (table : list CONSOLE) (nr_console : Z) (s : screen) : screen :=
  if (nr_console <? 0) || (nr_console >=? NR_CONSOLES) then s
  else
    let s := Screen (vmem s) (crtc_cursor s) (crtc_start s) (disp_pos s) (out_char_number s)
               nr_console in
    match table !! Z.to_nat nr_console with
    | Some p_con => flush p_con s
    | None => s
    end.

Definition init_screen (nr_tty : Z) (s : screen) : CONSOLE * screen :=
  let v_mem_size := Z.shiftr V_MEM_SIZE 1 in
  let con_v_mem_size := v_mem_size / NR_CONSOLES in
  let original_addr := nr_tty * con_v_mem_size in
  let p_con := Console original_addr original_addr (original_addr + SCREEN_SIZE)
                 (con_v_mem_size / SCREEN_WIDTH * SCREEN_WIDTH) original_addr in
  let '(p_con, s) :=
    if nr_tty =? 0 then
      let p_con := set_cur SCREEN_SIZE p_con in
      let s := set_cursor (cursor p_con) s in
      let '(p_con, s) := Nat.iter (Z.to_nat SCREEN_HIGH)
        (λ '(p_con, s), scroll_screen p_con SCROLL_SCREEN_DOWN s) (p_con, s) in
      (set_cur SCREEN_SIZE p_con,
       Screen (vmem s) (crtc_cursor s) (crtc_start s) (SCREEN_SIZE * 2) (out_char_number s)
         (nr_current_console s))
    else (p_con, s) in
  (p_con, set_cursor (cursor p_con) s).

(** ** The invariant of a console *)

(** The window of the screen starts at a line of the memory of the console and lies inside it. *)
Definition win_ok (c : CONSOLE) : Prop :=
  0 ≤ original_addr c ∧ 2000 ≤ v_mem_limit c < 8000 ∧ v_mem_limit c `mod` 80 = 0 ∧
  original_addr c + v_mem_limit c < 2 ^ 16 ∧
  (current_start_addr c - original_addr c) `mod` 80 = 0 ∧
  original_addr c ≤ current_start_addr c ∧
  current_start_addr c + 2000 ≤ original_addr c + v_mem_limit c.

Definition con_ok (c : CONSOLE) : Prop :=
  win_ok c ∧ original_addr c ≤ cursor c < original_addr c + v_mem_limit c.

(** A console keeps its place in video memory. *)
Definition same_place (c c' : CONSOLE) : Prop :=
  original_addr c' = original_addr c ∧ v_mem_limit c' = v_mem_limit c.

(** Nothing outside the memory of the console [c] changes. *)
Definition frame_ok (c : CONSOLE) (m m' : gmap Z Z) : Prop :=
  ∀ a, a < V_MEM_BASE + 2 * original_addr c ∨
       V_MEM_BASE + 2 * (original_addr c + v_mem_limit c) ≤ a → m' !! a = m !! a.

(** Unsigned values of a console do not wrap. *)
Ltac con_unfold :=
  unfold con_ok, win_ok, SCREEN_SIZE, SCREEN_WIDTH, SCROLL_SCREEN_DOWN, SCROLL_SCREEN_UP in *.
Ltac con_u32 := rewrite ?(u32_small _) by (simpl in *; lia).

Lemma blank_other addr (len : nat) m a : a < addr ∨ addr + 2 * Z.of_nat len ≤ a → blank addr len m !! a = m !! a.
Proof.
  revert addr. induction len as [|len IH]; intros addr Ha; [done|]. simpl.
  rewrite !lookup_insert_ne by lia. apply IH. lia.
Qed.

Lemma clean_frame c s : win_ok c → frame_ok c (vmem s) (vmem (clean_console_screen c s)).
Proof.
  intros Hc a Ha. simpl. apply blank_other. rewrite Z.shiftl_mul_pow2 by lia.
  con_unfold. rewrite u32_small by lia. lia.
Qed.

Lemma scroll_down_ok c s : win_ok c →
  let '(c', s') := scroll_screen c SCROLL_SCREEN_DOWN s in
  win_ok c' ∧ same_place c c' ∧ cursor c' = cursor c ∧ frame_ok c (vmem s) (vmem s') ∧
  (current_start_addr c + 2000 < original_addr c + v_mem_limit c →
   current_start_addr c' = current_start_addr c + 80).
Proof.
  intros Hc. pose proof (clean_frame c) as Hclean. unfold scroll_screen. simpl.
  con_unfold. rewrite (u32_small (current_start_addr c + 2000)), (u32_small (original_addr c + _)) by lia.
  destruct (Z.ltb_spec (current_start_addr c + 2000) (original_addr c + v_mem_limit c)).
  - destruct (_ >? _); simpl; rewrite (u32_small (current_start_addr c + 80)) by lia;
      (split_and!; first [done|lia|dlia|by intros a]).
  - simpl. split_and!; first [done|lia|by rewrite Z.sub_diag|idtac].
    apply (Hclean (Screen (vmem s) (crtc_cursor s) (crtc_start s) 0 (out_char_number s)
      (nr_current_console s))). con_unfold. lia.
Qed.

Lemma frame_refl c m : frame_ok c m m.
Proof. by intros a. Qed.

Lemma frame_trans c c' m1 m2 m3 : same_place c c' →
  frame_ok c m1 m2 → frame_ok c' m2 m3 → frame_ok c m1 m3.
Proof. intros [Ho Hl] H1 H2 a Ha. rewrite H2 by (rewrite Ho, Hl; done). by apply H1. Qed.

Lemma same_place_trans c1 c2 c3 : same_place c1 c2 → same_place c2 c3 → same_place c1 c3.
Proof. intros [? ?] [? ?]. split; congruence. Qed.

(** The scroll loop ends: every round moves the window one line down, until the cursor is in
    it. *)
Lemma scroll_to_cursor_ok (fuel : nat) c s : con_ok c → cursor c < current_start_addr c + 80 * Z.of_nat fuel + 2000 →
  ∃ c' s', scroll_to_cursor fuel c s = Some (c', s') ∧ con_ok c' ∧ same_place c c' ∧
    cursor c' = cursor c ∧ cursor c' < current_start_addr c' + 2000 ∧ frame_ok c (vmem s) (vmem s').
Proof.
  revert c s. induction fuel as [|fuel IH]; intros c s Hc Hfuel;
    (assert (u32 (current_start_addr c + SCREEN_SIZE) = current_start_addr c + 2000) as Hu
      by (con_unfold; apply u32_small; lia));
    cbn [scroll_to_cursor]; rewrite Hu; destruct (Z.ltb_spec (cursor c) (current_start_addr c + 2000)).
  - exists c, s. split_and!; done || apply frame_refl.
  - lia.
  - exists c, s. split_and!; done || apply frame_refl.
  - pose proof (scroll_down_ok c s (proj1 Hc)) as Hs.
    destruct (scroll_screen c SCROLL_SCREEN_DOWN s) as [c1 s1].
    destruct Hs as (Hw & Hp & Hcur & Hf & Hst). pose proof Hp as [Ho Hl].
    assert (current_start_addr c1 = current_start_addr c + 80) as Hst' by (apply Hst; destruct Hc; lia).
    destruct (IH c1 s1) as (c2 & s2 & E & Hok & Hp2 & Hcur2 & Hin & Hf2).
    { split; [done|]. rewrite Hcur, Ho, Hl. apply Hc. }
    { rewrite Hcur, Hst'. lia. }
    exists c2, s2. split_and!; try done; [by eapply same_place_trans|congruence|by eapply frame_trans].
Qed.

Lemma put_char_frame c p ch m : V_MEM_BASE + 2 * original_addr c ≤ p →
  p + 2 ≤ V_MEM_BASE + 2 * (original_addr c + v_mem_limit c) → frame_ok c m (put_char p ch m).
Proof. intros H1 H2 a Ha. unfold put_char. rewrite !lookup_insert_ne by lia. done. Qed.

Lemma new_line_ok c : con_ok c → cursor c < original_addr c + v_mem_limit c - 80 →
  let a := u32 (original_addr c + 80 * (u32 (cursor c - original_addr c) / 80 + 1)) in
  original_addr c ≤ a < original_addr c + v_mem_limit c.
Proof.
  intros Hc Hlt. con_unfold. rewrite (u32_small (cursor c - _)) by lia.
  rewrite u32_small by dlia. dlia.
Qed.

(** One character, before the scroll loop.  A tab needs eight free places. *)
Lemma out_char_body_ok c ch s : con_ok c →
  (ch = 9 → cursor c + 8 < original_addr c + v_mem_limit c) →
  let '(c', s') := out_char_body c ch s in
  con_ok c' ∧ same_place c c' ∧ frame_ok c (vmem s) (vmem s').
Proof.
  intros Hc Htab. pose proof (scroll_down_ok c s (proj1 Hc)) as Hs. pose proof (new_line_ok c Hc) as Hnl.
  unfold out_char_body, SCREEN_WIDTH.
  rewrite (u32_small (original_addr c + v_mem_limit c - 80)), (u32_small (original_addr c + v_mem_limit c - 1))
    by (con_unfold; lia).
  destruct (Z.eqb_spec ch 10) as [->|]; [|destruct (Z.eqb_spec ch 8) as [->|];
    [|destruct (Z.eqb_spec ch 9) as [->|]]].
  - destruct (Z.ltb_spec (cursor c) (original_addr c + v_mem_limit c - 80)) as [Hlt|Hge].
    + specialize (Hnl Hlt). split_and!; [|done|apply frame_refl]. split; [apply Hc|exact Hnl].
    + destruct (scroll_screen c SCROLL_SCREEN_DOWN s) as [c1 s1].
      destruct Hs as (Hw & Hp & Hcur & Hf & _). split_and!; [|done|done]. split; [exact Hw|].
      simpl. con_unfold. lia.
  - destruct (Z.gtb_spec (cursor c) (original_addr c)); [destruct (out_char_number s >? 0)|].
    + rewrite u32_small by (con_unfold; lia). split_and!; [|done|].
      * destruct Hc. split; [done|]. simpl. lia.
      * simpl. apply put_char_frame; con_unfold; lia.
    + split_and!; [done|done|apply frame_refl].
    + split_and!; [done|done|apply frame_refl].
  - specialize (Htab eq_refl). rewrite u32_small by (con_unfold; lia).
    split_and!; [|done|apply frame_refl]. destruct Hc. split; [done|]. simpl. lia.
  - destruct (Z.ltb_spec (cursor c) (original_addr c + v_mem_limit c - 1)).
    + rewrite u32_small by (con_unfold; lia). split_and!; [|done|].
      * destruct Hc. split; [done|]. simpl. lia.
      * simpl. apply put_char_frame; con_unfold; lia.
    + split_and!; [done|done|apply frame_refl].
Qed.

(** The loop never ends once the cursor has left the memory of the console. *)
Lemma scroll_to_cursor_diverges fuel c s : win_ok c →
  original_addr c + v_mem_limit c ≤ cursor c → scroll_to_cursor fuel c s = None.
Proof.
  revert c s. induction fuel as [|fuel IH]; intros c s Hc Hcur;
    (assert (u32 (current_start_addr c + SCREEN_SIZE) = current_start_addr c + 2000) as Hu
      by (con_unfold; apply u32_small; lia));
    cbn [scroll_to_cursor]; rewrite Hu, (proj2 (Z.ltb_ge _ _)) by (con_unfold; lia); [done|].
  pose proof (scroll_down_ok c s Hc) as Hs.
  destruct (scroll_screen c SCROLL_SCREEN_DOWN s) as [c1 s1].
  destruct Hs as (Hw & [Ho Hl] & Hcur1 & _). apply IH; [done|]. by rewrite Ho, Hl, Hcur1.
Qed.

(** ** Properties *)


Definition console0 : CONSOLE := Console 0 0 2000 5440 100.
Definition screen0 : screen := Screen ∅ 0 0 0 0 0.


(** error.  A tab within the last eight places of the memory of a console moves the cursor out
    of it, and the scroll loop of [out_char] then never ends, however long it runs. *)
Theorem out_char_tab_hangs c s fuel : con_ok c →
  original_addr c + v_mem_limit c ≤ cursor c + 8 →
  let '(c', s') := out_char_body c 9 s in scroll_to_cursor fuel c' s' = None.
Proof.
  intros Hc Hlim. simpl. apply scroll_to_cursor_diverges; [apply Hc|]. simpl.
  rewrite u32_small by (con_unfold; lia). done.
Qed.

Lemma out_char_tab_hangs_witness :
  let c := Console 3440 0 5440 5440 5435 in
  con_ok c ∧ let '(c', s') := out_char_body c 9 screen0 in scroll_to_cursor 1000 c' s' = None.
Proof.
  assert (con_ok (Console 3440 0 5440 5440 5435)) as H
    by (unfold con_ok, win_ok; simpl; split_and!; done || lia).
  split; [exact H|]. apply (out_char_tab_hangs (Console 3440 0 5440 5440 5435) screen0 1000 H).
  simpl. lia.
Defined.

(** invariant.  [init_screen] sets every console up so that its invariant holds, in
    its own third of video memory. *)
Theorem init_screen_ok nr_tty s : 0 ≤ nr_tty < NR_CONSOLES →
  let '(c, _) := init_screen nr_tty s in
  con_ok c ∧ original_addr c = nr_tty * 5461 ∧ v_mem_limit c = 5440.
Proof.
  unfold NR_CONSOLES. intros Hn. assert (nr_tty = 0 ∨ nr_tty = 1 ∨ nr_tty = 2) as [->|[->| ->]] by lia.
  all: vm_compute; split_and!; congruence || done.
Qed.

Lemma init_screen_ok_witness : 0 ≤ 1 < NR_CONSOLES ∧
  let '(c, _) := init_screen 1 screen0 in
  con_ok c ∧ original_addr c = 1 * 5461 ∧ v_mem_limit c = 5440.
Proof. split; [done|]. apply (init_screen_ok 1 screen0). done. Defined.
