(* ===== verification/Tty.v ===== *)
(** * The keyboard and the terminals: kernel/keyboard.c, kernel/tty.c

    The static variables of keyboard.c are a record, and so is a terminal.  A ring buffer is the
    list of its places with the two indices the code keeps as pointers. *)

From S2P Require Export Console.

(** ** include/asm-i386/keyboard.h *)

Definition KB_IN_BYTES : Z := 32.
Definition MAP_COLS : Z := 3.
Definition NR_SCAN_CODES : Z := 0x80.
Definition FLAG_BREAK : Z := 0x0080.
Definition FLAG_EXT : Z := 0x0100.
Definition FLAG_SHIFT_L : Z := 0x0200.
Definition FLAG_SHIFT_R : Z := 0x0400.
Definition FLAG_CTRL_L : Z := 0x0800.
Definition FLAG_CTRL_R : Z := 0x1000.
Definition FLAG_ALT_L : Z := 0x2000.
Definition FLAG_ALT_R : Z := 0x4000.
Definition FLAG_PAD : Z := 0x8000.
Definition MASK_RAW : Z := 0x01FF.
Definition LED_CODE : Z := 0xED.
Definition KB_ACK : Z := 0xFA.

Definition ESC : Z := 0x01 + FLAG_EXT.
Definition TAB : Z := 0x02 + FLAG_EXT.
Definition ENTER : Z := 0x03 + FLAG_EXT.
Definition BACKSPACE : Z := 0x04 + FLAG_EXT.
Definition GUI_L : Z := 0x05 + FLAG_EXT.
Definition GUI_R : Z := 0x06 + FLAG_EXT.
Definition APPS : Z := 0x07 + FLAG_EXT.
Definition SHIFT_L : Z := 0x08 + FLAG_EXT.
Definition SHIFT_R : Z := 0x09 + FLAG_EXT.
Definition CTRL_L : Z := 0x0A + FLAG_EXT.
Definition CTRL_R : Z := 0x0B + FLAG_EXT.
Definition ALT_L : Z := 0x0C + FLAG_EXT.
Definition ALT_R : Z := 0x0D + FLAG_EXT.
Definition CAPS_LOCK : Z := 0x0E + FLAG_EXT.
Definition NUM_LOCK : Z := 0x0F + FLAG_EXT.
Definition SCROLL_LOCK : Z := 0x10 + FLAG_EXT.
Definition F1 : Z := 0x11 + FLAG_EXT.
Definition F2 : Z := 0x12 + FLAG_EXT.
Definition F3 : Z := 0x13 + FLAG_EXT.
Definition F4 : Z := 0x14 + FLAG_EXT.
Definition F5 : Z := 0x15 + FLAG_EXT.
Definition F6 : Z := 0x16 + FLAG_EXT.
Definition F7 : Z := 0x17 + FLAG_EXT.
Definition F8 : Z := 0x18 + FLAG_EXT.
Definition F9 : Z := 0x19 + FLAG_EXT.
Definition F10 : Z := 0x1A + FLAG_EXT.
Definition F11 : Z := 0x1B + FLAG_EXT.
Definition F12 : Z := 0x1C + FLAG_EXT.
Definition PRINTSCREEN : Z := 0x1D + FLAG_EXT.
Definition PAUSEBREAK : Z := 0x1E + FLAG_EXT.
Definition INSERT : Z := 0x1F + FLAG_EXT.
Definition DELETE : Z := 0x20 + FLAG_EXT.
Definition HOME : Z := 0x21 + FLAG_EXT.
Definition END : Z := 0x22 + FLAG_EXT.
Definition PAGEUP : Z := 0x23 + FLAG_EXT.
Definition PAGEDOWN : Z := 0x24 + FLAG_EXT.
Definition UP : Z := 0x25 + FLAG_EXT.
Definition DOWN : Z := 0x26 + FLAG_EXT.
Definition LEFT : Z := 0x27 + FLAG_EXT.
Definition RIGHT : Z := 0x28 + FLAG_EXT.
Definition POWER : Z := 0x29 + FLAG_EXT.
Definition SLEEP : Z := 0x2A + FLAG_EXT.
Definition WAKE : Z := 0x2B + FLAG_EXT.
Definition PAD_SLASH : Z := 0x2C + FLAG_EXT.
Definition PAD_STAR : Z := 0x2D + FLAG_EXT.
Definition PAD_MINUS : Z := 0x2E + FLAG_EXT.
Definition PAD_PLUS : Z := 0x2F + FLAG_EXT.
Definition PAD_ENTER : Z := 0x30 + FLAG_EXT.
Definition PAD_DOT : Z := 0x31 + FLAG_EXT.
Definition PAD_0 : Z := 0x32 + FLAG_EXT.
Definition PAD_1 : Z := 0x33 + FLAG_EXT.
Definition PAD_2 : Z := 0x34 + FLAG_EXT.
Definition PAD_3 : Z := 0x35 + FLAG_EXT.
Definition PAD_4 : Z := 0x36 + FLAG_EXT.
Definition PAD_5 : Z := 0x37 + FLAG_EXT.
Definition PAD_6 : Z := 0x38 + FLAG_EXT.
Definition PAD_7 : Z := 0x39 + FLAG_EXT.
Definition PAD_8 : Z := 0x3A + FLAG_EXT.
Definition PAD_9 : Z := 0x3B + FLAG_EXT.
Definition PAD_UP : Z := PAD_8.
Definition PAD_DOWN : Z := PAD_2.
Definition PAD_LEFT : Z := PAD_4.
Definition PAD_RIGHT : Z := PAD_6.
Definition PAD_HOME : Z := PAD_7.
Definition PAD_END : Z := PAD_1.
Definition PAD_PAGEUP : Z := PAD_9.
Definition PAD_PAGEDOWN : Z := PAD_3.
Definition PAD_INS : Z := PAD_0.
Definition PAD_MID : Z := PAD_5.
Definition PAD_DEL : Z := PAD_DOT.

(** ** include/asm-i386/keymap.h: three columns for every scan code. *)

Definition keymap : list Z := [
  0; 0; 0;
  ESC; ESC; 0;
  49; 33; 0;
  50; 64; 0;
  51; 35; 0;
  52; 36; 0;
  53; 37; 0;
  54; 94; 0;
  55; 38; 0;
  56; 42; 0;
  57; 40; 0;
  48; 41; 0;
  45; 95; 0;
  61; 43; 0;
  BACKSPACE; BACKSPACE; 0;
  TAB; TAB; 0;
  113; 81; 0;
  119; 87; 0;
  101; 69; 0;
  114; 82; 0;
  116; 84; 0;
  121; 89; 0;
  117; 85; 0;
  105; 73; 0;
  111; 79; 0;
  112; 80; 0;
  91; 123; 0;
  93; 125; 0;
  ENTER; ENTER; PAD_ENTER;
  CTRL_L; CTRL_L; CTRL_R;
  97; 65; 0;
  115; 83; 0;
  100; 68; 0;
  102; 70; 0;
  103; 71; 0;
  104; 72; 0;
  106; 74; 0;
  107; 75; 0;
  108; 76; 0;
  59; 58; 0;
  39; 34; 0;
  96; 126; 0;
  SHIFT_L; SHIFT_L; 0;
  92; 124; 0;
  122; 90; 0;
  120; 88; 0;
  99; 67; 0;
  118; 86; 0;
  98; 66; 0;
  110; 78; 0;
  109; 77; 0;
  44; 60; 0;
  46; 62; 0;
  47; 63; PAD_SLASH;
  SHIFT_R; SHIFT_R; 0;
  42; 42; 0;
  ALT_L; ALT_L; ALT_R;
  32; 32; 0;
  CAPS_LOCK; CAPS_LOCK; 0;
  F1; F1; 0;
  F2; F2; 0;
  F3; F3; 0;
  F4; F4; 0;
  F5; F5; 0;
  F6; F6; 0;
  F7; F7; 0;
  F8; F8; 0;
  F9; F9; 0;
  F10; F10; 0;
  NUM_LOCK; NUM_LOCK; 0;
  SCROLL_LOCK; SCROLL_LOCK; 0;
  PAD_HOME; 55; HOME;
  PAD_UP; 56; UP;
  PAD_PAGEUP; 57; PAGEUP;
  PAD_MINUS; 45; 0;
  PAD_LEFT; 52; LEFT;
  PAD_MID; 53; 0;
  PAD_RIGHT; 54; RIGHT;
  PAD_PLUS; 43; 0;
  PAD_END; 49; END;
  PAD_DOWN; 50; DOWN;
  PAD_PAGEDOWN; 51; PAGEDOWN;
  PAD_INS; 48; INSERT;
  PAD_DOT; 46; DELETE;
  0; 0; 0;
  0; 0; 0;
  0; 0; 0;
  F11; F11; 0;
  F12; F12; 0;
  0; 0; 0;
  0; 0; 0;
  0; 0; GUI_L;
  0; 0; GUI_R;
  0; 0; APPS;
  0; 0; 0;
  0; 0; 0;
  0; 0; 0;
  0; 0; 0;
  0; 0; 0;
  0; 0; 0;
  0; 0; 0;
  0; 0; 0;
  0; 0; 0;
  0; 0; 0;
  0; 0; 0;
  0; 0; 0;
  0; 0; 0;
  0; 0; 0;
  0; 0; 0;
  0; 0; 0;
  0; 0; 0;
  0; 0; 0;
  0; 0; 0;
  0; 0; 0;
  0; 0; 0;
  0; 0; 0;
  0; 0; 0;
  0; 0; 0;
  0; 0; 0;
  0; 0; 0;
  0; 0; 0;
  0; 0; 0;
  0; 0; 0;
  0; 0; 0;
  0; 0; 0;
  0; 0; 0;
  0; 0; 0;
  0; 0; 0
].

(** ** Ring buffers *)

(** A buffer of [N] places; the pointers [p_head] and [p_tail] are indices into it. *)
Record ring := Ring { buf : list Z; p_head : Z; p_tail : Z; count : Z }.

(** [if (++p == buf + N) p = buf] *)
Definition advance (N p : Z) : Z := if p + 1 =? N then 0 else p + 1.

Definition ring_put (N v : Z) (r : ring) : ring :=
  if count r <? N then
    Ring (<[Z.to_nat (p_head r) := v]> (buf r)) (advance N (p_head r)) (p_tail r) (count r + 1)
  else r.

Definition ring_get (N : Z) (r : ring) : Z * ring :=
  (buf r !!! Z.to_nat (p_tail r), Ring (buf r) (p_head r) (advance N (p_tail r)) (count r - 1)).

(** ** The keyboard *)

(** The static variables of keyboard.c, and the bytes the input port will deliver. *)
Record kbd := Kbd {
  kb_in : ring;
  code_with_E0 : bool;
  shift_l : bool;
  shift_r : bool;
  alt_l : bool;
  alt_r : bool;
  ctrl_l : bool;
  ctrl_r : bool;
  caps_lock : bool;
  num_lock : bool;
  scroll_lock : bool;
  column : Z;
  port_in : list Z;
}.

Definition upd_ring (r : ring) (k : kbd) : kbd :=
  Kbd r (code_with_E0 k) (shift_l k) (shift_r k) (alt_l k) (alt_r k) (ctrl_l k) (ctrl_r k)
    (caps_lock k) (num_lock k) (scroll_lock k) (column k) (port_in k).
Definition upd_E0 (b : bool) (k : kbd) : kbd :=
  Kbd (kb_in k) b (shift_l k) (shift_r k) (alt_l k) (alt_r k) (ctrl_l k) (ctrl_r k)
    (caps_lock k) (num_lock k) (scroll_lock k) (column k) (port_in k).
Definition upd_shift (l r : bool) (k : kbd) : kbd :=
  Kbd (kb_in k) (code_with_E0 k) l r (alt_l k) (alt_r k) (ctrl_l k) (ctrl_r k)
    (caps_lock k) (num_lock k) (scroll_lock k) (column k) (port_in k).
Definition upd_alt_ctrl (al cl cr : bool) (k : kbd) : kbd :=
  Kbd (kb_in k) (code_with_E0 k) (shift_l k) (shift_r k) al (alt_r k) cl cr
    (caps_lock k) (num_lock k) (scroll_lock k) (column k) (port_in k).
Definition upd_locks (c n s : bool) (k : kbd) : kbd :=
  Kbd (kb_in k) (code_with_E0 k) (shift_l k) (shift_r k) (alt_l k) (alt_r k) (ctrl_l k) (ctrl_r k)
    c n s (column k) (port_in k).
Definition upd_column (c : Z) (k : kbd) : kbd :=
  Kbd (kb_in k) (code_with_E0 k) (shift_l k) (shift_r k) (alt_l k) (alt_r k) (ctrl_l k) (ctrl_r k)
    (caps_lock k) (num_lock k) (scroll_lock k) c (port_in k).
Definition upd_port (p : list Z) (k : kbd) : kbd :=
  Kbd (kb_in k) (code_with_E0 k) (shift_l k) (shift_r k) (alt_l k) (alt_r k) (ctrl_l k) (ctrl_r k)
    (caps_lock k) (num_lock k) (scroll_lock k) (column k) p.

(** The interrupt handler, with the byte it reads. *)
Definition keyboard_handler (scan_code : Z) (k : kbd) : kbd :=
  upd_ring (ring_put KB_IN_BYTES (s8 scan_code) (kb_in k)) k.

(** [None]: the busy wait for a byte that has not come. *)
Definition get_byte_from_kb_buf (k : kbd) : option (Z * kbd) :=
  if count (kb_in k) <=? 0 then None
  else let '(scan_code, r) := ring_get KB_IN_BYTES (kb_in k) in Some (scan_code, upd_ring r k).

(** [do { kb_stat = in_byte(KB_CMD); } while (kb_stat & 0x02)]; [None] when the port has no more
    bytes: the loop goes on. *)
Fixpoint kb_wait (ins : list Z) : option (list Z) :=
  match ins with
  | [] => None
  | b :: ins => if Z.land (s8 b) 2 =? 0 then Some ins else kb_wait ins
  end.

(** [do { kb_read = in_byte(KB_DATA); } while (kb_read != KB_ACK)], where [kb_read] is a [char]. *)
Fixpoint kb_ack (ins : list Z) : option (list Z) :=
  match ins with
  | [] => None
  | b :: ins => if s8 b =? KB_ACK then Some ins else kb_ack ins
  end.

Definition set_leds (k : kbd) : option kbd :=
  i1 ← kb_wait (port_in k);
  i2 ← kb_ack i1;
  i3 ← kb_wait i2;
  i4 ← kb_ack i3;
  Some (upd_port i4 k).

Definition init_keyboard (k : kbd) : option kbd :=
  let k := upd_ring (Ring (buf (kb_in k)) 0 0 0) k in
  set_leds (upd_locks false true false k).

(** The loop over the pause sequence: is it complete? *)
Fixpoint match_codes (codes : list Z) (k : kbd) : option (bool * kbd) :=
  match codes with
  | [] => Some (true, k)
  | c :: codes =>
      '(b, k) ← get_byte_from_kb_buf k;
      if b =? s8 c then match_codes codes k else Some (false, k)
  end.

(** The first part of [keyboard_read]: the scan code, the key if it is already known, and
    [make] ([make0] is the value of the variable before it is set). *)
Definition read_prefix (make0 : bool) (k : kbd) : option (Z * Z * bool * kbd) :=
  let k := upd_E0 false k in
  '(scan_code, k) ← get_byte_from_kb_buf k;
  if scan_code =? 0xE1 then
    '(is_pausebreak, k) ← match_codes [0x1D; 0x45; 0xE1; 0x9D; 0xC5] k;
    Some (scan_code, if (is_pausebreak : bool) then PAUSEBREAK else 0, make0, k)
  else if scan_code =? 0xE0 then
    let k := upd_E0 true k in
    '(scan_code, k) ← get_byte_from_kb_buf k;
    if scan_code =? 0x2A then
      let k := upd_E0 false k in
      '(scan_code, k) ← get_byte_from_kb_buf k;
      if scan_code =? 0xE0 then
        let k := upd_E0 true k in
        '(scan_code, k) ← get_byte_from_kb_buf k;
        if scan_code =? 0x37 then Some (scan_code, PRINTSCREEN, true, k)
        else Some (scan_code, 0, make0, k)
      else Some (scan_code, 0, make0, k)
    else if scan_code =? 0xB7 then
      let k := upd_E0 false k in
      '(scan_code, k) ← get_byte_from_kb_buf k;
      if scan_code =? 0xE0 then
        let k := upd_E0 true k in
        '(scan_code, k) ← get_byte_from_kb_buf k;
        if scan_code =? 0xAA then Some (scan_code, PRINTSCREEN, false, k)
        else Some (scan_code, 0, make0, k)
      else Some (scan_code, 0, make0, k)
    else Some (scan_code, 0, make0, k)
  else Some (scan_code, 0, make0, k).

Definition key_at (row col : Z) : Z := keymap !!! Z.to_nat (row * MAP_COLS + col).

(** The [switch] over modifier and lock keys. *)
Definition apply_modifier (key : Z) (make : bool) (k : kbd) : option kbd :=
  if key =? SHIFT_L then Some (upd_shift make (shift_r k) k)
  else if key =? SHIFT_R then Some (upd_shift (shift_l k) make k)
  else if key =? CTRL_L then Some (upd_alt_ctrl (alt_l k) make (ctrl_r k) k)
  else if key =? CTRL_R then Some (upd_alt_ctrl (alt_l k) (ctrl_l k) make k)
  else if key =? ALT_L then Some (upd_alt_ctrl make (ctrl_l k) (ctrl_r k) k)
  else if key =? ALT_R then Some (upd_alt_ctrl make (ctrl_l k) (ctrl_r k) k)
  else if key =? CAPS_LOCK then
    if make then set_leds (upd_locks (negb (caps_lock k)) (num_lock k) (scroll_lock k) k) else Some k
  else if key =? NUM_LOCK then
    if make then set_leds (upd_locks (caps_lock k) (negb (num_lock k)) (scroll_lock k) k) else Some k
  else if key =? SCROLL_LOCK then
    if make then set_leds (upd_locks (caps_lock k) (num_lock k) (negb (scroll_lock k)) k) else Some k
  else Some k.

(** The column of the key map: shifted or not, or after 0xE0. *)
Definition key_column (row : Z) (k : kbd) : Z :=
  let caps := shift_l k || shift_r k in
  let caps := if caps_lock k && (97 <=? key_at row 0) && (key_at row 0 <=? 122)
              then negb caps else caps in
  if code_with_E0 k then 2 else if caps then 1 else 0.

(** The keys of the number pad. *)
Definition pad_key (key : Z) (k : kbd) : Z :=
  if key =? PAD_SLASH then 47
  else if key =? PAD_STAR then 42
  else if key =? PAD_MINUS then 45
  else if key =? PAD_PLUS then 43
  else if key =? PAD_ENTER then ENTER
  else if num_lock k then
    if (PAD_0 <=? key) && (key <=? PAD_9) then key - PAD_0 + 48
    else if key =? PAD_DOT then 46 else key
  else
    if key =? PAD_HOME then HOME
    else if key =? PAD_END then END
    else if key =? PAD_PAGEUP then PAGEUP
    else if key =? PAD_PAGEDOWN then PAGEDOWN
    else if key =? PAD_INS then INSERT
    else if key =? PAD_UP then UP
    else if key =? PAD_DOWN then DOWN
    else if key =? PAD_LEFT then LEFT
    else if key =? PAD_RIGHT then RIGHT
    else if key =? PAD_DOT then DELETE
    else key.

Definition flag (b : bool) (f : Z) : Z := if b then f else 0.

Definition add_flags (key : Z) (pad : bool) (k : kbd) : Z :=
  Z.lor (Z.lor (Z.lor (Z.lor (Z.lor (Z.lor (Z.lor key
    (flag (shift_l k) FLAG_SHIFT_L)) (flag (shift_r k) FLAG_SHIFT_R))
    (flag (ctrl_l k) FLAG_CTRL_L)) (flag (ctrl_r k) FLAG_CTRL_R))
    (flag (alt_l k) FLAG_ALT_L)) (flag (alt_r k) FLAG_ALT_R)) (flag pad FLAG_PAD).

(** [keyboard_read]: the key it passes to [in_process], if any. *)
Definition keyboard_read (make0 : bool) (k : kbd) : option (option Z * kbd) :=
  if count (kb_in k) >? 0 then
    '(scan_code, key, make, k) ← read_prefix make0 k;
    '(key, make, k) ←
      (if negb (key =? PAUSEBREAK) && negb (key =? PRINTSCREEN) then
         let make := Z.land scan_code FLAG_BREAK =? 0 in
         let row := Z.land scan_code 0x7F in
         let k := upd_column (key_column row k) k in
         let key := key_at row (column k) in
         k ← apply_modifier key make k;
         Some (key, make, k)
       else Some (key, make, k));
    if (make : bool) then
      let pad := (PAD_SLASH <=? key) && (key <=? PAD_9) in
      let key := if pad then pad_key key k else key in
      Some (Some (add_flags key pad k), k)
    else Some (None, k)
  else Some (None, k).

(** ** Terminals *)

Definition TTY_IN_BYTES : Z := 256.

(** struct s_tty: its buffer of keys; [p_console] is an index into the table of consoles. *)
Record TTY := Tty { in_buf : ring; p_console : nat }.

(** The tables and the screen. *)
Record terminals := Terminals {
  tty_table : list TTY;
  console_table : list CONSOLE;
  scr : screen;
}.

Definition put_key (key : Z) (p_tty : TTY) : TTY :=
  Tty (ring_put TTY_IN_BYTES key (in_buf p_tty)) (p_console p_tty).

(** Applying an operation to a terminal of the table, or to its console. *)
Definition on_tty (n : nat) (f : TTY → TTY) (t : terminals) : terminals :=
  Terminals (alter f n (tty_table t)) (console_table t) (scr t).

Definition on_console (n : nat) (f : CONSOLE → screen → option (CONSOLE * screen)) (t : terminals) :
    option terminals :=
  p_tty ← tty_table t !! n;
  con ← console_table t !! p_console p_tty;
  '(con, s) ← f con (scr t);
  Some (Terminals (tty_table t) (<[p_console p_tty := con]> (console_table t)) s).

Definition has_flag (key f : Z) : bool := negb (Z.land key f =? 0).

Definition in_process (n : nat) (key : Z) (t : terminals) : option terminals :=
  if negb (has_flag key FLAG_EXT) then Some (on_tty n (put_key key) t)
  else
    let raw_code := Z.land key MASK_RAW in
    if raw_code =? ENTER then Some (on_tty n (put_key 10) t)
    else if raw_code =? BACKSPACE then Some (on_tty n (put_key 8) t)
    else if raw_code =? TAB then Some (on_tty n (put_key 9) t)
    else if raw_code =? UP then
      if has_flag key FLAG_SHIFT_L || has_flag key FLAG_SHIFT_R then
        on_console n (λ c s, Some (scroll_screen c SCROLL_SCREEN_UP s)) t
      else Some t
    else if raw_code =? DOWN then
      if has_flag key FLAG_SHIFT_L || has_flag key FLAG_SHIFT_R then
        on_console n (λ c s, Some (scroll_screen c SCROLL_SCREEN_DOWN s)) t
      else Some t
    else if (F1 <=? raw_code) && (raw_code <=? F12) then
      if has_flag key FLAG_ALT_L || has_flag key FLAG_ALT_R then
        Some (Terminals (tty_table t) (console_table t)
                (select_console (console_table t) (raw_code - F1) (scr t)))
      else Some t
    else Some t.

Definition tty_do_read (n : nat) (make0 : bool) (k : kbd) (t : terminals) : option (kbd * terminals) :=
  p_tty ← tty_table t !! n;
  if is_current_console (Z.of_nat (p_console p_tty)) (scr t) then
    '(key, k) ← keyboard_read make0 k;
    match key with
    | Some key => t ← in_process n key t; Some (k, t)
    | None => Some (k, t)
    end
  else Some (k, t).

Definition tty_do_write (n : nat) (t : terminals) : option terminals :=
  p_tty ← tty_table t !! n;
  if negb (count (in_buf p_tty) =? 0) then
    let '(v, r) := ring_get TTY_IN_BYTES (in_buf p_tty) in
    let ch := s8 v in
    on_console n (λ c s, out_char c ch s) (on_tty n (λ p, Tty r (p_console p)) t)
  else Some t.

(** [len] characters from the buffer. *)
Fixpoint tty_write (n : nat) (chars : list Z) (t : terminals) : option terminals :=
  match chars with
  | [] => Some t
  | ch :: chars => t ← on_console n (λ c s, out_char c ch s) t; tty_write n chars t
  end.

(** ** The task of the terminals, and printing *)

Definition MAG_CH_PANIC : Z := 6.
Definition MAG_CH_ASSERT : Z := 7.
Definition RED_COLOR : Z := 0x4.

(** The terminal [n] of the table: an empty buffer, and the console with its number. *)
Definition init_tty_at (n : nat) (t : terminals) : terminals :=
  let '(con, s) := init_screen (Z.of_nat n) (scr t) in
  Terminals (alter (λ p, Tty (Ring (buf (in_buf p)) 0 0 0) n) n (tty_table t)) (<[n := con]> (console_table t)) s.

Definition init_tty (k : kbd) (t : terminals) : option (kbd * terminals) :=
  k ← init_keyboard k;
  Some (k, foldl (λ t n, init_tty_at n t) t (seq 0 (Z.to_nat NR_CONSOLES))).

(** One round over the terminals; [make0] is the value that the variable of [keyboard_read] has before it is set. *)
Definition tty_round (make0 : bool) (s : kbd * terminals) : option (kbd * terminals) :=
  foldl (λ r n,
    '(k, t) ← r;
    '(k, t) ← tty_do_read n make0 k t;
    t ← tty_do_write n t;
    Some (k, t)) (Some s) (seq 0 (Z.to_nat NR_CONSOLES)).

(** [rounds] turns of the endless loop. *)
Definition task_tty (make0 : bool) (rounds : nat) (k : kbd) (t : terminals) : option (kbd * terminals) :=
  '(k, t) ← init_tty k t;
  let t := Terminals (tty_table t) (console_table t) (select_console (console_table t) 0 (scr t)) in
  Nat.iter rounds (λ r, s ← r; tty_round make0 s) (Some (k, t)).

(** What a call of [sys_printx] leads to: the processor stops after a message of [panic] or of a failed assertion. *)
Inductive printed :=
  | Printed (t : terminals)
  | Halted (t : terminals).

(** Characters written straight to the video memory, until it ends. *)
Fixpoint put_red (v : Z) (chars : list Z) (m : gmap Z Z) : gmap Z Z :=
  match chars with
  | [] => m
  | c :: chars => if v <? V_MEM_BASE + V_MEM_SIZE then put_red (v + 2) chars (<[v + 1 := RED_COLOR]> (<[v := c]> m)) else m
  end.

(** [s], [undef] and [reenter_err] are the characters before the end of the strings at the argument, at the uninitialised pointer and of the message. *)
Definition sys_printx (k_reenter : Z) (nr_tty : nat) (s undef reenter_err : list Z) (t : terminals) : option printed :=
  let p := if k_reenter =? 0 then undef else if k_reenter >? 0 then s else reenter_err in
  let ch := hd 0 p in
  if (ch =? MAG_CH_PANIC) || (ch =? MAG_CH_ASSERT) then
    Some (Halted (Terminals (tty_table t) (console_table t) (with_vmem (put_red V_MEM_BASE (tl p)) (scr t))))
  else t ← tty_write nr_tty p t; Some (Printed t).

(** ** What a ring buffer holds *)

Definition ring_ok (N : Z) (r : ring) : Prop :=
  Z.of_nat (length (buf r)) = N ∧ 0 ≤ p_tail r < N ∧ 0 ≤ count r ≤ N ∧
  p_head r = (p_tail r + count r) `mod` N.

(** The elements from the tail on. *)
Definition contents (N : Z) (r : ring) : list Z :=
  (λ i, buf r !!! Z.to_nat ((p_tail r + Z.of_nat i) `mod` N)) <$> seq 0 (Z.to_nat (count r)).

Lemma advance_mod N p : 0 ≤ p < N → advance N p = (p + 1) `mod` N.
Proof.
  intros Hp. unfold advance. destruct (Z.eqb_spec (p + 1) N) as [->|].
  - by rewrite Z.mod_same by lia.
  - rewrite Z.mod_small; lia.
Qed.

Lemma mod_neq_small N a i j : 0 < N → 0 ≤ i < N → 0 ≤ j < N → i ≠ j →
  (a + i) `mod` N ≠ (a + j) `mod` N.
Proof.
  intros HN Hi Hj Hne Heq. apply Hne.
  assert ((i - j) `mod` N = 0) as Hm.
  { replace (i - j) with ((a + i) - (a + j)) by lia. by rewrite Zminus_mod, Heq, Z.sub_diag, Z.mod_0_l by lia. }
  apply Z.mod_divide in Hm as [q Hq]; [|lia]. destruct (decide (q = 0)) as [->|]; [lia|]. nia.
Qed.

Lemma ring_put_ok N v r : 0 < N → ring_ok N r → count r < N →
  ring_ok N (ring_put N v r) ∧ contents N (ring_put N v r) = contents N r ++ [v].
Proof.
  intros HN (Hlen & Ht & Hc & Hh) Hlt. unfold ring_put. rewrite (proj2 (Z.ltb_lt _ _) Hlt).
  pose proof (Z.mod_pos_bound (p_tail r + count r) N HN) as Hb. split.
  - unfold ring_ok. simpl. rewrite length_insert. split_and!; [done|lia|lia|lia|lia|].
    rewrite Hh, advance_mod by lia. rewrite Z.add_assoc, (Z.add_comm _ 1).
    rewrite Zplus_mod_idemp_r. f_equal. lia.
  - unfold contents. simpl. replace (Z.to_nat (count r + 1)) with (S (Z.to_nat (count r))) by lia.
    rewrite seq_S, fmap_app. f_equal.
    + apply list_fmap_ext. intros i j Hj. apply lookup_seq in Hj as [-> Hj].
      rewrite list_lookup_total_insert_ne; [done|]. rewrite Hh.
      intros Heq. apply Z2Nat.inj in Heq; [|lia|apply Z.mod_pos_bound; lia].
      revert Heq. apply mod_neq_small; lia.
    + simpl. f_equal. rewrite Hh. rewrite Z2Nat.id by lia.
      apply list_lookup_total_insert_eq. lia.
Qed.

Lemma ring_get_ok N r : 0 < N → ring_ok N r → 0 < count r →
  let '(v, r') := ring_get N r in ring_ok N r' ∧ contents N r = v :: contents N r'.
Proof.
  intros HN (Hlen & Ht & Hc & Hh) Hlt. simpl. split.
  - unfold ring_ok. simpl. rewrite advance_mod by done.
    pose proof (Z.mod_pos_bound (p_tail r + 1) N HN). split_and!; [done|lia|lia|lia|lia|].
    rewrite Zplus_mod_idemp_l, Hh. f_equal. lia.
  - unfold contents. simpl. replace (Z.to_nat (count r)) with (S (Z.to_nat (count r - 1))) by lia.
    simpl. rewrite Z.add_0_r, Z.mod_small by lia. f_equal. rewrite <-fmap_S_seq, <-list_fmap_compose.
    apply list_fmap_ext. intros i j Hj. simpl. rewrite advance_mod, Zplus_mod_idemp_l by done.
    do 3 f_equal. lia.
Qed.

(** ** A ring buffer is a bounded queue *)

Inductive rop :=
  | RPut (v : Z)
  | RGet.

(** The code: a byte is taken only when there is one ([count > 0] is tested before). *)
Fixpoint ring_run (N : Z) (ops : list rop) (r : ring) : list (option Z) * ring :=
  match ops with
  | [] => ([], r)
  | RPut v :: ops => ring_run N ops (ring_put N v r)
  | RGet :: ops =>
      if count r >? 0 then
        let '(v, r) := ring_get N r in
        let '(out, r) := ring_run N ops r in (Some v :: out, r)
      else let '(out, r) := ring_run N ops r in (None :: out, r)
  end.

(** The model: a list of at most [N] elements. *)
Fixpoint bqueue_run (N : nat) (ops : list rop) (xs : list Z) : list (option Z) * list Z :=
  match ops with
  | [] => ([], xs)
  | RPut v :: ops => bqueue_run N ops (if decide (length xs < N)%nat then xs ++ [v] else xs)
  | RGet :: ops =>
      match xs with
      | x :: xs => let '(out, xs) := bqueue_run N ops xs in (Some x :: out, xs)
      | [] => let '(out, xs) := bqueue_run N ops [] in (None :: out, xs)
      end
  end.

Lemma contents_length N r : 0 ≤ count r → Z.of_nat (length (contents N r)) = count r.
Proof. intros H. unfold contents. rewrite length_fmap, length_seq. lia. Qed.

(** C15: refinement.  The ring buffers of the keyboard and of the terminals implement bounded
    queues: for every sequence of puts and takes the code delivers what a queue of at most [N]
    elements delivers, in the same order, and drops what does not fit. *)
Theorem ring_is_queue N ops r : 0 < N → ring_ok N r →
  let '(out, r') := ring_run N ops r in
  bqueue_run (Z.to_nat N) ops (contents N r) = (out, contents N r') ∧ ring_ok N r'.
Proof.
  intros HN. revert r. induction ops as [|[v|] ops IH]; intros r Hr;
    cbn [ring_run bqueue_run]; [done| |].
  - pose proof (contents_length N r) as Hl. destruct Hr as (H1 & H2 & H3 & H4).
    destruct (decide (count r < N)) as [Hlt|Hge].
    + destruct (ring_put_ok N v r HN) as [Hok Hc]; [done|done|]. specialize (IH _ Hok).
      rewrite decide_True by lia. rewrite <-Hc. exact IH.
    + rewrite decide_False by lia. replace (ring_put N v r) with r; [by apply IH|].
      unfold ring_put. by rewrite (proj2 (Z.ltb_ge _ _)) by lia.
  - pose proof (contents_length N r) as Hl. pose proof Hr as (H1 & H2 & H3 & H4).
    destruct (Z.gtb_spec (count r) 0) as [Hgt|Hle].
    + pose proof (ring_get_ok N r HN Hr Hgt) as Hg. destruct (ring_get N r) as [v r1].
      destruct Hg as [Hok ->]. specialize (IH r1 Hok). destruct (ring_run N ops r1) as [out r2].
      destruct IH as [Hq Hok2]. simpl. by rewrite Hq.
    + specialize (IH r Hr). destruct (contents N r) as [|x xs]; [|simpl in Hl; lia].
      destruct (ring_run N ops r) as [out r2]. destruct IH as [Hq Hok2]. simpl. by rewrite Hq.
Qed.

Lemma ring_is_queue_witness :
  let r := Ring (replicate 3 0) 0 0 0 in
  ring_ok 3 r ∧
  let '(out, r') := ring_run 3 [RPut 5; RPut 6; RGet; RPut 7; RPut 8; RPut 9; RGet; RGet] r in
  bqueue_run (Z.to_nat 3) [RPut 5; RPut 6; RGet; RPut 7; RPut 8; RPut 9; RGet; RGet] (contents 3 r)
    = (out, contents 3 r') ∧ ring_ok 3 r'.
Proof.
  assert (ring_ok 3 (Ring (replicate 3 0) 0 0 0)) as H by (unfold ring_ok; simpl; done).
  split; [exact H|].
  apply (ring_is_queue 3 [RPut 5; RPut 6; RGet; RPut 7; RPut 8; RPut 9; RGet; RGet]
    (Ring (replicate 3 0) 0 0 0)); [lia|exact H].
Defined.

(** ** The keyboard protocol *)

Lemma s8_range z : - 128 ≤ s8 z < 128.
Proof. unfold s8. pose proof (Z.mod_pos_bound (z + 2 ^ 7) (2 ^ 8) ltac:(lia)). lia. Qed.

Lemma kb_ack_None ins : kb_ack ins = None.
Proof.
  induction ins as [|b ins IH]; [done|]. simpl. pose proof (s8_range b).
  rewrite (proj2 (Z.eqb_neq _ _)); [done|]. unfold KB_ACK. lia.
Qed.

Lemma set_leds_None k : set_leds k = None.
Proof. unfold set_leds. destruct (kb_wait (port_in k)) as [i1|]; simpl; [by rewrite kb_ack_None|done]. Qed.

(** error.  [kb_ack] compares a signed [char] with 0xFA and so waits for ever, whatever the
    keyboard sends; [init_keyboard] never returns, and neither does [keyboard_read] once a lock key
    is pressed. *)
Theorem set_leds_hangs k key :
  set_leds k = None ∧ init_keyboard k = None ∧
  (key ∈ [CAPS_LOCK; NUM_LOCK; SCROLL_LOCK] → apply_modifier key true k = None).
Proof.
  split_and!; [apply set_leds_None|apply set_leds_None|]. rewrite !elem_of_cons, elem_of_nil.
  intros [->|[->|[->|[]]]]; apply set_leds_None.
Qed.

(** The task of the terminals does not get to its loop: it waits for the keyboard to acknowledge the lights. *)
Theorem task_tty_hangs make0 rounds k t : task_tty make0 rounds k t = None.
Proof. unfold task_tty, init_tty, init_keyboard. by rewrite set_leds_None. Qed.

(** A message of a system call from a task ([k_reenter] is 0) is not printed: what is printed does not depend on the argument. *)
Theorem sys_printx_ignores nr_tty s s' undef err t : sys_printx 0 nr_tty s undef err t = sys_printx 0 nr_tty s' undef err t.
Proof. done. Qed.

(** The bytes in the buffer are [char]s. *)
Definition kb_bytes (k : kbd) : Prop := Forall (λ b, - 128 ≤ b < 128) (buf (kb_in k)).

Lemma get_byte_char k b k' : kb_bytes k → get_byte_from_kb_buf k = Some (b, k') →
  - 128 ≤ b < 128 ∧ code_with_E0 k' = code_with_E0 k.
Proof.
  intros Hk. unfold get_byte_from_kb_buf. destruct (_ <=? 0); [done|]. simpl. intros [= <- <-].
  split; [|done]. rewrite list_lookup_total_alt.
  destruct (buf (kb_in k) !! Z.to_nat (p_tail (kb_in k))) as [b|] eqn:E; simpl; [|lia].
  exact (Forall_lookup_1 _ _ _ _ Hk E).
Qed.

Lemma apply_modifier_E0 key make k k' :
  apply_modifier key make k = Some k' → code_with_E0 k' = code_with_E0 k.
Proof.
  unfold apply_modifier. repeat case_match; rewrite ?set_leds_None; by intros [= <-].
Qed.

Lemma apply_modifier_column key make k k' :
  apply_modifier key make k = Some k' → column k' = column k.
Proof.
  unfold apply_modifier. repeat case_match; rewrite ?set_leds_None; by intros [= <-].
Qed.

(** error.  [keyboard_read] compares signed [char]s with 0xE0 and 0xE1, so it never sees a
    prefix: when it has read something, [code_with_E0] is off, and the third column of the key map
    (right control, the arrow keys, ...) is never used. *)
Theorem keyboard_read_no_prefix make0 k r k' : kb_bytes k → 0 < count (kb_in k) →
  keyboard_read make0 k = Some (r, k') → code_with_E0 k' = false ∧ column k' ≠ 2.
Proof.
  intros Hk Hc. unfold keyboard_read. rewrite (proj2 (Z.gtb_lt _ _)) by lia. unfold read_prefix.
  destruct (get_byte_from_kb_buf (upd_E0 false k)) as [[b k1]|] eqn:Hb; simpl; [|done].
  apply get_byte_char in Hb as [Hr HE0]; [|done]. simpl in HE0.
  rewrite !(proj2 (Z.eqb_neq b _)) by lia. simpl.
  set (row := Z.land b 127). set (col := key_column row k1).
  assert (col ≠ 2) as Hcol by (unfold col, key_column; rewrite HE0; by case_match).
  destruct (apply_modifier _ _ _) as [k2|] eqn:Hm; simpl; [|done].
  pose proof (apply_modifier_E0 _ _ _ _ Hm) as HE. pose proof (apply_modifier_column _ _ _ _ Hm) as HC.
  simpl in HE, HC. case_match; intros [= <- <-]; by rewrite HE, HC.
Qed.

Definition kbd0 : kbd :=
  Kbd (Ring (29 :: replicate 31 0) 1 0 1) false false false false false false false false true false 0 [].

Lemma keyboard_read_no_prefix_witness : kb_bytes kbd0 ∧ 0 < count (kb_in kbd0) ∧
  match keyboard_read false kbd0 with
  | Some (_, k') => code_with_E0 k' = false ∧ column k' ≠ 2
  | None => False
  end.
Proof.
  assert (kb_bytes kbd0) as H by (unfold kb_bytes; simpl; repeat constructor; lia).
  split_and!; [exact H|done|].
  destruct (keyboard_read false kbd0) as [[r k']|] eqn:E; [|vm_compute in E; discriminate].
  apply (keyboard_read_no_prefix false kbd0 r k' H); [done|exact E].
Defined.

(** error.  Scrolling down leaves the cursor where it is and scrolling up moves it
    with the window: on a console whose cursor is in its first line, Shift+Down followed by Shift+Up
    moves the cursor out of the memory of the console. *)
Theorem scroll_down_up_escapes c s : con_ok c → original_addr c = 5461 →
  current_start_addr c + SCREEN_SIZE < original_addr c + v_mem_limit c →
  cursor c < original_addr c + SCREEN_WIDTH →
  let '(c1, s1) := scroll_screen c SCROLL_SCREEN_DOWN s in
  let '(c2, _) := scroll_screen c1 SCROLL_SCREEN_UP s1 in
  current_start_addr c2 = current_start_addr c ∧ cursor c2 = cursor c - SCREEN_WIDTH ∧
  cursor c2 < original_addr c2.
Proof.
  intros Hc Ho Hroom Hcur. pose proof (scroll_down_ok c s (proj1 Hc)) as Hd.
  destruct (scroll_screen c SCROLL_SCREEN_DOWN s) as [c1 s1].
  destruct Hd as (Hw & [Ho1 Hl1] & Hcur1 & _ & Hst). specialize (Hst Hroom).
  unfold scroll_screen. simpl. rewrite (proj2 (Z.gtb_lt _ _)) by (con_unfold; lia). simpl.
  rewrite !u32_small by (con_unfold; lia). con_unfold. split_and!; lia.
Qed.

Lemma scroll_down_up_escapes_witness :
  let c := Console 5461 5461 7461 5440 5461 in
  con_ok c ∧
  let '(c1, s1) := scroll_screen c SCROLL_SCREEN_DOWN screen0 in
  let '(c2, _) := scroll_screen c1 SCROLL_SCREEN_UP s1 in
  current_start_addr c2 = current_start_addr c ∧ cursor c2 = cursor c - SCREEN_WIDTH ∧
  cursor c2 < original_addr c2.
Proof.
  assert (con_ok (Console 5461 5461 7461 5440 5461)) as H
    by (unfold con_ok, win_ok; simpl; split_and!; done || lia).
  split; [exact H|].
  apply (scroll_down_up_escapes (Console 5461 5461 7461 5440 5461) screen0 H); done.
Defined.
