(* ===== verification/RadixTree.v ===== *)
(** * Radix trees: lib/radix-tree.c

    The tree maps 32-bit indices to pointers, four bits of the index per level.  Nodes come from an
    object cache, [kmem_get_obj]; the class [NodeCache] states what the tree relies on. *)

From S2P Require Export Arrays.

(** struct radix_tree_node, struct radix_tree_root *)
Definition count : Z := 0.
Definition slots : Z := 4.
Definition height : Z := 0.
Definition gfp_mask : Z := 4.
Definition rnode : Z := 8.

Definition RADIX_TREE_SLOT_RESERVED : Z := 2 ^ 32 - 1.
Definition RADIX_TREE_MAP_SHIFT : Z := 4.
Definition RADIX_TREE_MAP_MASK : Z := 15.
Definition RADIX_TREE_INDEX_BITS : Z := 32.

Definition INIT_RADIX_TREE (root mask : Z) : M unit :=
  store (root + height) 0;;
  store (root + gfp_mask) mask;;
  store (root + rnode) NULL.

(** The shift by [RADIX_TREE_INDEX_BITS - tmp - 1] is only used when it is not negative. *)
Definition radix_tree_maxindex (height : Z) : Z :=
  let tmp := u32 (height * RADIX_TREE_MAP_SHIFT) in
  if tmp >=? RADIX_TREE_INDEX_BITS then 2 ^ 32 - 1
  else Z.shiftr (Z.shiftr (2 ^ 32 - 1) (RADIX_TREE_INDEX_BITS - tmp - 1)) 1.

(** [while (index > radix_tree_maxindex(height)) height++]; the height 8 is enough for every
    index. *)
Fixpoint extend_height (fuel : nat) (index height : Z) : Z :=
  match fuel with
  | O => height
  | S fuel => if index >? radix_tree_maxindex height then extend_height fuel index (height + 1) else height
  end.

Section cache.
Context (kmem_get_obj : M Z).

Definition radix_tree_node_alloc : M Z :=
  node ← kmem_get_obj;
  (if negb (node =? NULL) then
     store (node + count) 0;;
     store (node + slots) 0
   else mret tt);;
  mret node.

(** The loop that puts new nodes on top; [inr]: the error code. *)
Definition radix_tree_raise (root h : Z) (_ : unit) : M (unit + Z) :=
  node ← radix_tree_node_alloc;
  if node =? NULL then mret (inr (-2)) else
  r ← load (root + rnode);
  store (node + slots) r;;
  r ← load (root + rnode);
  (if negb (r =? NULL) then store (node + count) 1 else mret tt);;
  store (root + rnode) node;;
  rh ← load (root + height);
  store (root + height) (u32 (rh + 1));;
  rh ← load (root + height);
  mret (if h >? rh then inl tt else inr 0).

Definition radix_tree_extend (root index : Z) : M Z :=
  rh ← load (root + height);
  let h := extend_height 9 index (u32 (rh + 1)) in
  r ← load (root + rnode);
  if negb (r =? NULL) then run 9 (radix_tree_raise root h) tt
  else store (root + height) h;; mret 0.

(** The child at [slot], allocated when there is none. *)
Definition radix_tree_child (node slot : Z) : M Z :=
  v ← load slot;
  if v =? NULL then
    tmp ← radix_tree_node_alloc;
    if tmp =? NULL then mret (-2)
    else
      store slot tmp;;
      (if negb (node =? NULL) then c ← load (node + count); store (node + count) (u32 (c + 1))
       else mret tt);;
      mret 0
  else mret 0.

(** The walk down; [inr (inl error)] is a [return] in the loop, [inr (inr (node, slot))] its end. *)
Definition radix_tree_step (index : Z) (s : Z * Z * Z * Z) : M (Z * Z * Z * Z + (Z + Z * Z)) :=
  let '(h, shift, node, slot) := s in
  if h >? 0 then
    e ← radix_tree_child node slot;
    if negb (e =? 0) then mret (inr (inl e)) else
    node ← load slot;
    mret (inl (h - 1, u32 (shift - RADIX_TREE_MAP_SHIFT), node,
               node + slots + 4 * Z.land (Z.shiftr index shift) RADIX_TREE_MAP_MASK))
  else mret (inr (inr (node, slot))).

Definition radix_tree_take (r : Z + Z * Z) : M (Z * Z) :=
  match r with
  | inl e => mret (e, NULL)
  | inr (node, slot) =>
      v ← load slot;
      if negb (v =? NULL) then mret (-3, NULL) else
      (if negb (node =? NULL) then c ← load (node + count); store (node + count) (u32 (c + 1))
       else mret tt);;
      store slot RADIX_TREE_SLOT_RESERVED;;
      mret (0, slot)
  end.

(** Returns the error code and the slot stored through [pslot]. *)
Definition radix_tree_reserve (root index : Z) : M (Z * Z) :=
  h ← load (root + height);
  error ← (if index >? radix_tree_maxindex h then radix_tree_extend root index else mret 0);
  if negb (error =? 0) then mret (error, NULL) else
  h ← load (root + height);
  let shift := u32 ((h - 1) * RADIX_TREE_MAP_SHIFT) in
  r ← run (S (Z.to_nat h)) (radix_tree_step index) (h, shift, NULL, root + rnode);
  radix_tree_take r.

Definition radix_tree_insert (root index item : Z) : M Z :=
  '(error, slot) ← radix_tree_reserve root index;
  (if error =? 0 then store slot item else mret tt);;
  mret error.
End cache.

Definition radix_tree_lookup_step (index : Z) (s : Z * Z * Z) : M (Z * Z * Z + Z) :=
  let '(h, shift, slot) := s in
  if h >? 0 then
    v ← load slot;
    if v =? NULL then mret (inr NULL) else
    mret (inl (h - 1, u32 (shift - RADIX_TREE_MAP_SHIFT),
               v + slots + 4 * Z.land (Z.shiftr index shift) RADIX_TREE_MAP_MASK))
  else v ← load slot; mret (inr v).

Definition radix_tree_lookup (root index : Z) : M Z :=
  h ← load (root + height);
  if index >? radix_tree_maxindex h then mret NULL else
  let shift := u32 ((h - 1) * RADIX_TREE_MAP_SHIFT) in
  run (S (Z.to_nat h)) (radix_tree_lookup_step index) (h, shift, root + rnode).

(** Its body is disabled by [#if 0]. *)
Definition radix_tree_delete (root index : Z) : M Z := mret 0.

(** ** The cache of nodes

    [cache cs]: the cache will hand out nodes whose sixteen slots hold [cs], in this order, as the memory of the objects happens to be (mm/slab.c clears
    nothing), and then answer NULL. *)
Class NodeCache (kmem_get_obj : M Z) := {
  cache : list (list Z) → heapProp;
  kmem_get_obj_wp cs : cache cs ⊢ wp kmem_get_obj (λ p,
    match cs with
    | [] => ⌜p = NULL⌝ ∗ cache []
    | c :: cs => ⌜p ≠ NULL ∧ length c = 16%nat⌝ ∗ cache cs ∗ ∃ a, (p + count) ↦ a ∗ arr (p + slots) 4 c
    end);
}.

(** [radix_tree_node_alloc] clears the count and the first slot of a node only: it is a good one when the memory of its other slots was clear. *)
Definition clean_node (c : list Z) : Prop := tail c = replicate 15 NULL.

(** The cache has [n] nodes left, all clean. *)
Definition clean_cache `{NodeCache kmem_get_obj} (n : nat) : heapProp := ∃ cs, ⌜length cs = n ∧ Forall clean_node cs⌝ ∗ cache cs.

(** ** Representation

    [rt h p F]: the subtree of height [h] at [p] holds the item [F j] at index [j] below [16 ^ h];
    the count of a node is the number of its slots in use. *)
Definition used (vs : list Z) : Z := Z.of_nat (length (filter (.≠ NULL) vs)).

Fixpoint rt (h : nat) (p : Z) (F : Z → Z) : heapProp :=
  match h with
  | O => ⌜p = F 0⌝
  | S h =>
      (⌜p = NULL ∧ ∀ j, 0 ≤ j < 16 ^ Z.of_nat (S h) → F j = NULL⌝) ∨
      (⌜p ≠ NULL⌝ ∗ ∃ vs, ⌜length vs = 16%nat⌝ ∗ (p + count) ↦ used vs ∗ arr (p + slots) 4 vs ∗
         [∗ list] i ↦ v ∈ vs, rt h v (λ j, F (Z.of_nat i * 16 ^ Z.of_nat h + j)))
  end.

Definition radix_root (root : Z) (F : Z → Z) : heapProp :=
  ∃ (h : nat) p, ⌜(h ≤ 8)%nat ∧ ∀ j, 16 ^ Z.of_nat h ≤ j → F j = NULL⌝ ∗
    (root + height) ↦ Z.of_nat h ∗ (root + rnode) ↦ p ∗ rt h p F.

(** ** Indices *)

Lemma maxindex_spec (h : nat) : (h ≤ 8)%nat → radix_tree_maxindex (Z.of_nat h) = 16 ^ Z.of_nat h - 1.
Proof. intros H. do 9 (destruct h as [|h]; [by vm_compute|]). lia. Qed.

Lemma extend_height_spec index (h : nat) : (h ≤ 8)%nat → 0 ≤ index < 2 ^ 32 →
  ∃ h' : nat, extend_height 9 index (Z.of_nat h) = Z.of_nat h' ∧ (h ≤ h' ≤ 8)%nat ∧ index < 16 ^ Z.of_nat h'.
Proof.
  intros Hh Hi.
  assert (∀ fuel h : nat, (h ≤ 8)%nat → (8 - h < fuel)%nat →
    ∃ h' : nat, extend_height fuel index (Z.of_nat h) = Z.of_nat h' ∧ (h ≤ h' ≤ 8)%nat ∧
      index < 16 ^ Z.of_nat h') as H; [|apply H; lia].
  clear h Hh. induction fuel as [|fuel IH]; intros h Hh Hf; [lia|].
  cbn [extend_height]. rw maxindex_spec //. destruct (Z.gtb_spec index (16 ^ Z.of_nat h - 1)).
  - assert (h ≠ 8%nat) by (intros ->; lia).
    replace (Z.of_nat h + 1) with (Z.of_nat (S h)) by lia.
    destruct (IH (S h)) as (h' & -> & ? & ?); [lia|lia|]. exists h'. split; [done|lia].
  - exists h. split; [done|lia].
Qed.

(** The slot taken at height [S h], and what is left of the index below. *)
Definition digit (h : nat) (index : Z) : nat := Z.to_nat (index / 16 ^ Z.of_nat h mod 16).

Lemma digit_lt h index : (digit h index < 16)%nat.
Proof. unfold digit. pose proof (Z.mod_pos_bound (index / 16 ^ Z.of_nat h) 16). lia. Qed.

Lemma digit_land h index :
  Z.land (Z.shiftr index (4 * Z.of_nat h)) RADIX_TREE_MAP_MASK = Z.of_nat (digit h index).
Proof.
  unfold digit, RADIX_TREE_MAP_MASK. rw Z2Nat.id; [|apply Z.mod_pos_bound; lia].
  change 15 with (Z.ones 4). rw Z.land_ones; [|lia]. rw Z.shiftr_div_pow2; [|lia].
  rw Z.pow_mul_r; [done|lia|lia].
Qed.

Lemma digit_split h index : 0 ≤ index →
  index mod 16 ^ Z.of_nat (S h) = Z.of_nat (digit h index) * 16 ^ Z.of_nat h + index mod 16 ^ Z.of_nat h.
Proof.
  intros Hi. unfold digit. rw Z2Nat.id; [|apply Z.mod_pos_bound; lia].
  rw Nat2Z.inj_succ Z.pow_succ_r; [|lia]. rw (Z.mul_comm 16) Z.rem_mul_r; lia.
Qed.

Lemma pow16_pos h : 0 < 16 ^ Z.of_nat h.
Proof. lia. Qed.

(** ** The representation predicate *)

Lemma rt_ext h p F G : (∀ j, 0 ≤ j < 16 ^ Z.of_nat h → F j = G j) → rt h p F ⊢ rt h p G.
Proof.
  revert p F G. induction h as [|h IH]; intros p F G HFG; simpl.
  - rw (HFG 0) //.
  - apply bi.or_mono.
    + iIntros ([-> HF]). iPureIntro. split; [done|]. intros j Hj. rw -HFG //. by apply HF.
    + iIntros "[$ H]". iDestruct "H" as (vs Hl) "(Hc & Ha & Hv)". iExists vs. iFrame "Hc Ha". iSplit; [done|].
      iApply (big_sepL_impl with "Hv"). iIntros "!>" (i v Hi) "H". iApply (IH with "H").
      intros j Hj. apply HFG. apply lookup_lt_Some in Hi. rw Hl in Hi.
      change (Z.of_nat (S h)) with (Z.of_nat (1 + h)). rw Nat2Z.inj_add Z.pow_add_r; [|lia|lia]. nia.
Qed.

Lemma rt_null h p F : (∀ j, 0 ≤ j < 16 ^ Z.of_nat h → F j = NULL) → p = NULL → ⊢ rt h p F.
Proof.
  intros HF ->. destruct h as [|h]; simpl; [iPureIntro; symmetry; apply HF; done|].
  iLeft. done.
Qed.

Lemma rt_is_null h p F : p = NULL → rt h p F ⊢ ⌜∀ j, 0 ≤ j < 16 ^ Z.of_nat h → F j = NULL⌝.
Proof.
  intros ->. destruct h as [|h]; simpl.
  - iIntros (HF). iPureIntro. intros j Hj. by replace j with 0 by lia.
  - iIntros "[[_ %]|[% _]]"; done.
Qed.

(** ** Lookup *)

Lemma run_S {S R} n (body : S → M (S + R)) s :
  run (Datatypes.S n) body s =
  (r ← body s; match r with inl s' => run n body s' | inr r => mret r end).
Proof. done. Qed.

Lemma lookup_walk (h : nat) shift index slot p F :
  (h ≤ 8)%nat → 0 ≤ index → ((0 < h)%nat → shift = 4 * Z.of_nat (h - 1)) →
  slot ↦ p ∗ rt h p F ⊢ wp (run (S h) (radix_tree_lookup_step index) (Z.of_nat h, shift, slot)) (λ v,
    ⌜v = F (index mod 16 ^ Z.of_nat h)⌝ ∗ slot ↦ p ∗ rt h p F).
Proof.
  revert shift slot p F. induction h as [|h IH]; intros shift slot p F Hh Hi Hs.
  - iIntros "[Hs %HF]". cbn [run radix_tree_lookup_step]. change (Z.of_nat 0 >? 0) with false. wp_load. iFrame.
    rw Z.mod_1_r. done.
  - iIntros "[Hs Ht]". rw run_S. cbn [radix_tree_lookup_step]. rw (proj2 (Z.gtb_lt (Z.of_nat (S h)) 0) ltac:(lia)).
    wp_pures. wp_load. iDestruct "Ht" as "[[-> %HF]|[%Hp Ht]]".
    + wp_pures. iFrame. iSplit.
      * iPureIntro. rw HF //. apply Z.mod_pos_bound. lia.
      * iLeft. done.
    + replace (p =? NULL) with false by (symmetry; unfold NULL in *; lia). wp_pures.
      iDestruct "Ht" as (vs Hl) "(Hc & Ha & Hv)". rw (Hs ltac:(lia)).
      replace (4 * Z.of_nat (S h - 1)) with (4 * Z.of_nat h) by lia. rw digit_land.
      destruct (lookup_lt_is_Some_2 vs (digit h index)) as [v Hv]; [rw Hl; apply digit_lt|].
      iDestruct (arr_read with "Ha") as "[Hd Ha]"; [done|].
      iDestruct (big_sepL_lookup_acc with "Hv") as "[Ht Hv]"; [done|].
      replace (Z.of_nat (S h) - 1) with (Z.of_nat h) by lia.
      iApply (wp_wand with "[Hd Ht]").
      { iApply IH; [lia|done| |by iFrame]. intros. unfold RADIX_TREE_MAP_SHIFT.
        rw u32_small; [|lia]. lia. }
      iIntros (w) "(-> & Hd & Ht)". rw digit_split //. iSplit; [done|]. iFrame "Hs". iRight. iSplit; [done|].
      iExists vs. iFrame "Hc". iSplit; [done|]. iSplitL "Ha Hd"; [by iApply "Ha"|by iApply "Hv"].
Qed.

(** [radix_tree_lookup] returns the item stored at the index, NULL when there is none, for every
    32-bit index, and leaves the tree as it was. *)
Theorem radix_tree_lookup_correct root index F :
  {{ ⌜0 ≤ index < 2 ^ 32⌝ ∗ radix_root root F }}
    radix_tree_lookup root index
  {{ v, ⌜v = F index⌝ ∗ radix_root root F }}.
Proof.
  apply triple_wp. iIntros "[%Hi H]". iDestruct "H" as (h p [Hh HF]) "(Hh & Hr & Ht)".
  unfold radix_tree_lookup. wp_load. rw maxindex_spec //.
  destruct (Z.gtb_spec index (16 ^ Z.of_nat h - 1)).
  - wp_pures. iSplit; [by rw HF; [|lia]|]. iExists h, p. iFrame. done.
  - rw Nat2Z.id. iApply (wp_wand with "[Hr Ht]").
    { iApply (lookup_walk with "[$Hr $Ht]"); [done|lia|]. intros.
      unfold RADIX_TREE_MAP_SHIFT. rw u32_small; lia. }
    iIntros (v) "(-> & Hr & Ht)". rw Z.mod_small; [|lia]. iSplit; [done|]. iExists h, p. iFrame. done.
Qed.

(** ** Insertion *)

Definition upd (F : Z → Z) (i w : Z) : Z → Z := λ j, if j =? i then w else F j.

(** The count of the parent node, if there is one, and its value after a slot went from [v] to [v']. *)
Definition cnt (node c : Z) : heapProp := (if node =? NULL then emp else (node + count) ↦ c)%I.
Definition bump (v v' c : Z) : Z := if (v =? NULL) && negb (v' =? NULL) then u32 (c + 1) else c.

Definition children (h : nat) (vs : list Z) (F : Z → Z) : heapProp :=
  [∗ list] i ↦ v ∈ vs, rt h v (λ j, F (Z.of_nat i * 16 ^ Z.of_nat h + j)).

Lemma rt_node h p vs F : p ≠ NULL → length vs = 16%nat →
  (p + count) ↦ used vs ∗ arr (p + slots) 4 vs ∗ children h vs F ⊢ rt (S h) p F.
Proof. iIntros (Hp Hl) "(Hc & Ha & Hv)". iRight. iSplit; [done|]. iExists vs. by iFrame. Qed.

Lemma used_app vs ws : used (vs ++ ws) = used vs + used ws.
Proof. unfold used. rw filter_app length_app. lia. Qed.

Lemma used_one v : used [v] = if v =? NULL then 0 else 1.
Proof. unfold used. rw filter_cons. destruct (Z.eqb_spec v NULL); case_decide; done. Qed.

Lemma used_le vs : 0 ≤ used vs ≤ Z.of_nat (length vs).
Proof. unfold used. pose proof (length_filter (.≠ NULL) vs). lia. Qed.

Lemma used_insert vs (i : nat) v v' : vs !! i = Some v → (v ≠ NULL → v' ≠ NULL) →
  (length vs ≤ 16)%nat → used (<[i := v']> vs) = bump v v' (used vs).
Proof.
  intros Hi Hv Hl. pose proof (lookup_lt_Some _ _ _ Hi) as Hlt.
  assert (∀ w, used (<[i := w]> vs) = used (take i vs) + used [w] + used (drop (S i) vs)) as Hu.
  { intros w. rw insert_take_drop //. rw (used_app _ (_ :: _)) (used_app [w]). lia. }
  pose proof (Hu v) as Hold. rw list_insert_id // in Hold. rw Hu Hold !used_one.
  pose proof (used_le (take i vs)) as H1. pose proof (used_le (drop (S i) vs)) as H2.
  rw length_take in H1. rw length_drop in H2. unfold bump.
  destruct (Z.eqb_spec v NULL) as [->|]; destruct (Z.eqb_spec v' NULL) as [->|]; cbn [andb negb];
    [lia|rw u32_small; lia|by destruct Hv|lia].
Qed.

Lemma children_acc h vs F (i : nat) v : vs !! i = Some v →
  children h vs F ⊢ rt h v (λ j, F (Z.of_nat i * 16 ^ Z.of_nat h + j)) ∗
    ((∀ v' x y w, ⌜x = (Z.of_nat i * 16 ^ Z.of_nat h + y)%Z ∧ 0 ≤ y < 16 ^ Z.of_nat h⌝ -∗
       rt h v' (upd (λ j, F (Z.of_nat i * 16 ^ Z.of_nat h + j)) y w) -∗
       children h (<[i := v']> vs) (upd F x w)) ∧
    (∀ v', rt h v' (λ j, F (Z.of_nat i * 16 ^ Z.of_nat h + j)) -∗ children h (<[i := v']> vs) F)).
Proof.
  intros Hi. pose proof (lookup_lt_Some _ _ _ Hi) as Hlt. unfold children.
  rw -{1}(take_drop_middle vs i v Hi) big_sepL_app big_sepL_cons.
  rw length_take_le; [|lia]. rw Nat.add_0_r. iIntros "(H1 & $ & H2)".
  iSplit; [|iIntros (v') "H"; rw insert_take_drop // big_sepL_app big_sepL_cons length_take_le; [|lia];
    rw Nat.add_0_r; iFrame].
  iIntros (v' x y w [Hx Hy]) "H". rw insert_take_drop // big_sepL_app big_sepL_cons length_take_le; [|lia].
  rw Nat.add_0_r. pose proof (pow16_pos h).
  assert (∀ k j : Z, k ≠ Z.of_nat i → 0 ≤ j < 16 ^ Z.of_nat h →
    F (k * 16 ^ Z.of_nat h + j) = upd F x w (k * 16 ^ Z.of_nat h + j)) as Hne.
  { intros k j Hk Hj. unfold upd. destruct (Z.eqb_spec (k * 16 ^ Z.of_nat h + j) x); [|done]. nia. }
  iSplitL "H1"; [|iSplitL "H"].
  - iApply (big_sepL_impl with "H1"). iIntros "!>" (k u Hk) "H". iApply (rt_ext with "H").
    intros j Hj. apply Hne; [|done]. apply lookup_lt_Some in Hk. rw length_take in Hk. lia.
  - iApply (rt_ext with "H"). intros j Hj. unfold upd.
    destruct (Z.eqb_spec j y), (Z.eqb_spec (Z.of_nat i * 16 ^ Z.of_nat h + j) x); lia || done.
  - iApply (big_sepL_impl with "H2"). iIntros "!>" (k u Hk) "H". iApply (rt_ext with "H").
    intros j Hj. apply Hne; [|done]. lia.
Qed.

Lemma eqb_NULL p : p ≠ NULL → (p =? NULL) = false.
Proof. apply Z.eqb_neq. Qed.

Section insert.
Context `{!NodeCache get}.

Lemma alloc_wp n : clean_cache n ⊢ wp (radix_tree_node_alloc get) (λ p,
  match n with
  | O => ⌜p = NULL⌝ ∗ clean_cache 0
  | S n => ⌜p ≠ NULL⌝ ∗ clean_cache n ∗ (p + count) ↦ used (replicate 16 NULL) ∗ arr (p + slots) 4 (replicate 16 NULL)
  end).
Proof.
  iIntros "(%cs & (<- & %Hcs) & H)". unfold radix_tree_node_alloc. iApply wp_bind. iApply (wp_wand with "[H]"); [by iApply kmem_get_obj_wp|].
  iIntros (p) "H". destruct cs as [|c cs]; cbn [length].
  - iDestruct "H" as "[-> H]". wp_pures. iSplit; [done|]. iExists []. by iFrame.
  - iDestruct "H" as ([Hp Hl]) "(Hn & %a & Hc & Ha)". apply Forall_cons in Hcs as [Hc Hcs]. destruct c as [|b c]; [done|].
    unfold clean_node in Hc. cbn [tail] in Hc. subst c. rw eqb_NULL //. wp_store.
    rw arr_cons. iDestruct "Ha" as "[Hb Ha]". wp_store. iSplit; [done|]. iSplitL "Hn"; [iExists cs; by iFrame|].
    change (used (replicate 16 NULL)) with 0. iFrame "Hc". change (replicate 16 NULL) with (NULL :: replicate 15 NULL).
    rw arr_cons. iFrame.
Qed.

Lemma cnt_bump_wp node c (Q : unit → heapProp) :
  cnt node c -∗ (cnt node (u32 (c + 1)) -∗ Q tt) -∗
  wp (if negb (node =? NULL) then c ← load (node + count); store (node + count) (u32 (c + 1)) else mret tt) Q.
Proof.
  iIntros "H HQ". unfold cnt. destruct (node =? NULL); cbn [negb].
  - wp_pures. by iApply "HQ".
  - wp_load. wp_store. by iApply "HQ".
Qed.

Lemma child_wp n node slot v c h F :
  clean_cache n ∗ slot ↦ v ∗ cnt node c ∗ rt (S h) v F ⊢ wp (radix_tree_child get node slot) (λ e,
    (⌜e = -2 ∧ v = NULL⌝ ∗ clean_cache 0 ∗ slot ↦ v ∗ cnt node c ∗ rt (S h) v F) ∨
    (⌜e = 0⌝ ∗ ∃ n' q vs, ⌜q ≠ NULL ∧ length vs = 16%nat⌝ ∗ clean_cache n' ∗ slot ↦ q ∗ cnt node (bump v q c) ∗
       (q + count) ↦ used vs ∗ arr (q + slots) 4 vs ∗ children h vs F)).
Proof.
  iIntros "(Hn & Hs & Hc & Ht)". unfold radix_tree_child. wp_load.
  iDestruct "Ht" as "[[-> %HF]|[%Hv Ht]]".
  - wp_pures. iApply wp_bind. iApply (wp_wand with "[Hn]"); [by iApply alloc_wp|].
    iIntros (q) "Hq". destruct n as [|n].
    + iDestruct "Hq" as "[-> Hn]". wp_pures. iLeft. iFrame "Hn Hs Hc". iSplit; [done|]. iLeft. done.
    + iDestruct "Hq" as (Hq) "(Hn & Hqc & Hqa)". rw eqb_NULL //. wp_store. iApply wp_bind.
      iApply (cnt_bump_wp with "Hc"). iIntros "Hc". wp_pures. iRight. iSplit; [done|].
      iExists n, q, (replicate 16 NULL). iSplit; [done|]. iFrame "Hn Hs Hqc Hqa".
      unfold bump. rw (eqb_NULL q) //. iFrame "Hc".
      iApply big_sepL_intro. iIntros "!>" (i x Hi). apply lookup_replicate in Hi as [-> Hi].
      iApply rt_null; [|done]. intros j Hj. apply HF.
      rw Nat2Z.inj_succ Z.pow_succ_r; [|lia]. nia.
  - rw eqb_NULL //. wp_pures. iRight. iSplit; [done|]. iDestruct "Ht" as (vs Hl) "(Hqc & Hqa & Hch)".
    iExists n, v, vs. iSplit; [done|]. unfold bump. rw (eqb_NULL v) //. iFrame.
Qed.

Definition reserved (n : nat) (h : nat) (x node c slot v : Z) (F : Z → Z) (r : Z * Z) : heapProp :=
  let '(e, sl) := r in
  ((⌜e = 0 ∧ F x = NULL⌝ ∗ (∃ n', clean_cache n') ∗ sl ↦ RADIX_TREE_SLOT_RESERVED ∗
     ∀ w, ⌜w ≠ NULL⌝ -∗ sl ↦ w -∗ ∃ v', ⌜v' ≠ NULL⌝ ∗ slot ↦ v' ∗ cnt node (bump v v' c) ∗ rt h v' (upd F x w)) ∨
   ((⌜e = -2⌝ ∗ clean_cache 0 ∨ ⌜e = -3 ∧ F x ≠ NULL⌝ ∗ ∃ n', clean_cache n') ∗
     ∃ v', ⌜v ≠ NULL → v' ≠ NULL⌝ ∗ slot ↦ v' ∗ cnt node (bump v v' c) ∗ rt h v' F))%I.

Lemma reserve_walk (h : nat) shift index node c slot v F n :
  (h ≤ 8)%nat → 0 ≤ index → ((0 < h)%nat → shift = 4 * Z.of_nat (h - 1)) →
  clean_cache n ∗ slot ↦ v ∗ cnt node c ∗ rt h v F ⊢
  wp (run (S h) (radix_tree_step get index) (Z.of_nat h, shift, node, slot) ≫= radix_tree_take)
    (reserved n h (index mod 16 ^ Z.of_nat h) node c slot v F).
Proof.
  revert shift node c slot v F n. induction h as [|h IH]; intros shift node c slot v F n Hh Hi Hs.
  - iIntros "(Hn & Hs & Hc & %HF)". cbn [run radix_tree_step]. change (Z.of_nat 0 >? 0) with false. wp_pures.
    unfold radix_tree_take. wp_load. rw Z.mod_1_r. destruct (Z.eqb_spec v NULL) as [->|Hv].
    + wp_pures. iApply wp_bind. iApply (cnt_bump_wp with "Hc"). iIntros "Hc". wp_store. iLeft.
      iSplit; [done|]. iSplitL "Hn"; [by iExists n|]. iFrame "Hs". iIntros (w Hw) "Hs". iExists w.
      unfold bump. rw (eqb_NULL w) //. by iFrame.
    + wp_pures. iRight. iSplitL "Hn". { iRight. iSplit; [by rw -HF|]. by iExists n. }
      iExists v. unfold bump. rw (eqb_NULL v) //. by iFrame.
  - iIntros "(Hn & Hs & Hc & Ht)". rw run_S. cbn [radix_tree_step]. rw (proj2 (Z.gtb_lt (Z.of_nat (S h)) 0) ltac:(lia)).
    wp_pures. iApply wp_bind. iApply (wp_wand with "[Hn Hs Hc Ht]"); [iApply child_wp; iFrame|].
    iIntros (e) "[([-> ->] & Hn & Hs & Hc & Ht)|[-> H]]".
    { wp_pures. unfold radix_tree_take. wp_pures. iRight. iSplitL "Hn"; [iLeft; by iFrame|]. iExists NULL. by iFrame. }
    iDestruct "H" as (n' q vs [Hq Hl]) "(Hn & Hs & Hc & Hqc & Hqa & Hch)". wp_load.
    rw (Hs ltac:(lia)). replace (4 * Z.of_nat (S h - 1)) with (4 * Z.of_nat h) by lia. rw digit_land.
    destruct (lookup_lt_is_Some_2 vs (digit h index)) as [u Hu]; [rw Hl; apply digit_lt|].
    iDestruct (arr_acc with "Hqa") as "[Hd Ha]"; [done|].
    iDestruct (children_acc with "Hch") as "[Ht Hch]"; [done|].
    replace (Z.of_nat (S h) - 1) with (Z.of_nat h) by lia.
    iApply (wp_wand with "[Hn Hd Ht Hqc]").
    { iApply (IH _ q (used vs)); [lia|done| |].
      - intros. unfold RADIX_TREE_MAP_SHIFT. rw u32_small; [|lia]. lia.
      - iFrame "Hn Hd Ht". unfold cnt. by rw eqb_NULL. }
    iIntros ([e sl]) "[(%He & Hn & Hsl & Hw)|(He & H)]".
    + iLeft. rw digit_split //. iSplit; [done|]. iFrame "Hn Hsl". iIntros (w Hw) "Hsl".
      iDestruct ("Hw" with "[//] Hsl") as (v' Hv') "(Hd & Hqc & Ht)". iExists q. iSplit; [done|]. iFrame "Hs Hc".
      iApply (rt_node _ _ (<[digit h index := v']> vs)); [done|by rw length_insert|].
      rw (used_insert _ _ u) //; [|lia]. unfold cnt. rw eqb_NULL //. iFrame "Hqc".
      iSplitL "Ha Hd"; [by iApply "Ha"|]. iDestruct "Hch" as "[Hch _]". iApply ("Hch" with "[] Ht").
      iPureIntro. split; [done|]. apply Z.mod_pos_bound. lia.
    + iRight. rw digit_split //. iFrame "He". iDestruct "H" as (v' Hv') "(Hd & Hqc & Ht)". iExists q.
      iSplit; [done|]. iFrame "Hs Hc".
      iApply (rt_node _ _ (<[digit h index := v']> vs)); [done|by rw length_insert|].
      rw (used_insert _ _ u) //; [|lia]. unfold cnt. rw eqb_NULL //. iFrame "Hqc".
      iSplitL "Ha Hd"; [by iApply "Ha"|]. iDestruct "Hch" as "[_ Hch]". by iApply "Hch".
Qed.

(** A tree under a new root node. *)
Lemma rt_raise h r q F : r ≠ NULL → q ≠ NULL → (∀ j, 16 ^ Z.of_nat h ≤ j → F j = NULL) →
  (q + count) ↦ 1 ∗ arr (q + slots) 4 (r :: replicate 15 NULL) ∗ rt h r F ⊢ rt (S h) q F.
Proof.
  iIntros (Hr Hq HF) "(Hc & Ha & Ht)". iApply (rt_node _ _ (r :: replicate 15 NULL)); [done|done|].
  iSplitL "Hc".
  { replace (used (r :: replicate 15 NULL)) with 1; [done|].
    rw (used_app [r]) used_one eqb_NULL //. }
  iFrame "Ha". unfold children. rw big_sepL_cons. iFrame "Ht".
  iApply big_sepL_intro. iIntros "!>" (i x Hi). apply lookup_replicate in Hi as [-> Hi].
  iApply rt_null; [|done]. intros j Hj. apply HF. nia.
Qed.

Lemma raise_wp root h F n rh r : (rh < h ≤ 8)%nat → (∀ j, 16 ^ Z.of_nat rh ≤ j → F j = NULL) → r ≠ NULL →
  clean_cache n ∗ (root + height) ↦ Z.of_nat rh ∗ (root + rnode) ↦ r ∗ rt rh r F ⊢
  wp (run 9 (radix_tree_raise get root (Z.of_nat h)) tt) (λ e,
    (⌜e = 0⌝ ∗ (∃ n', clean_cache n') ∗ ∃ r', (root + height) ↦ Z.of_nat h ∗ (root + rnode) ↦ r' ∗ rt h r' F) ∨
    (⌜e = -2⌝ ∗ clean_cache 0 ∗ radix_root root F)).
Proof.
  intros Hh HF Hr.
  etrans; [|apply (wp_run _ (λ (m : nat) (_ : unit), ∃ n (rh : nat) r,
    ⌜(rh < h)%nat ∧ (m = h - rh)%nat ∧ (∀ j, 16 ^ Z.of_nat rh ≤ j → F j = NULL) ∧ r ≠ NULL⌝ ∗
    clean_cache n ∗ (root + height) ↦ Z.of_nat rh ∗ (root + rnode) ↦ r ∗ rt rh r F)%I _ 9) with (n := (h - rh)%nat); [|lia]].
  { iIntros "(Hn & Hh & Hr & Ht)". iExists n, rh, r. iFrame. iPureIntro. split_and!; [lia|done|done|done]. }
  assert (h ≤ 8)%nat as Hle by lia. clear n rh r Hh HF Hr. intros m []. iIntros "(%n & %rh & %r & (%Hh & %Hm & %HF & %Hr) & Hn & Hh & Hr & Ht)".
  unfold radix_tree_raise. iApply wp_bind. iApply (wp_wand with "[Hn]"); [by iApply alloc_wp|].
  iIntros (q) "Hq". destruct n as [|n].
  { iDestruct "Hq" as "[-> Hn]". wp_pures. iRight. iSplit; [done|]. iFrame "Hn".
    iExists rh, r. iFrame. iPureIntro. split; [lia|done]. }
  iDestruct "Hq" as (Hq) "(Hn & Hc & Ha)". rw eqb_NULL //. wp_load.
  change (replicate 16 NULL) with (NULL :: replicate 15 NULL). rw (arr_cons _ _ NULL). iDestruct "Ha" as "[H0 Ha]".
  wp_store. wp_load. rw (eqb_NULL r) //. wp_store. wp_store. wp_load. wp_store. wp_load.
  rw u32_small; [|lia]. replace (Z.of_nat rh + 1) with (Z.of_nat (S rh)) by lia.
  iCombine "H0 Ha" as "Ha". rw -(arr_cons _ _ r).
  iDestruct (rt_raise with "[$Hc $Ha $Ht]") as "Ht"; [done..|].
  destruct (Z.gtb_spec (Z.of_nat h) (Z.of_nat (S rh))).
  - wp_pures. iExists (h - S rh)%nat. iSplit; [iPureIntro; lia|]. iExists n, (S rh), q. iFrame.
    iPureIntro. split_and!; [lia|done| |done]. intros j Hj. apply HF.
    rw Nat2Z.inj_succ Z.pow_succ_r in Hj; lia.
  - wp_pures. iLeft. iSplit; [done|]. iSplitL "Hn"; [by iExists n|]. iExists q.
    replace h with (S rh) by lia. iFrame.
Qed.

Lemma extend_wp root index F n (rh : nat) r : (rh ≤ 8)%nat → 0 ≤ index < 2 ^ 32 → 16 ^ Z.of_nat rh ≤ index →
  (∀ j, 16 ^ Z.of_nat rh ≤ j → F j = NULL) →
  clean_cache n ∗ (root + height) ↦ Z.of_nat rh ∗ (root + rnode) ↦ r ∗ rt rh r F ⊢
  wp (radix_tree_extend get root index) (λ e,
    (⌜e = 0⌝ ∗ (∃ n', clean_cache n') ∗ ∃ (h : nat) r', ⌜(rh ≤ h ≤ 8)%nat ∧ index < 16 ^ Z.of_nat h⌝ ∗
       (root + height) ↦ Z.of_nat h ∗ (root + rnode) ↦ r' ∗ rt h r' F) ∨
    (⌜e = -2⌝ ∗ clean_cache 0 ∗ radix_root root F)).
Proof.
  iIntros (Hh Hi Hmax HF) "(Hn & Hh & Hr & Ht)". unfold radix_tree_extend. wp_load.
  assert (rh ≠ 8%nat) by (intros ->; lia).
  rw u32_small; [|lia]. replace (Z.of_nat rh + 1) with (Z.of_nat (S rh)) by lia.
  destruct (extend_height_spec index (S rh)) as (h & -> & Hle & Hlt); [lia|done|]. wp_load.
  destruct (Z.eqb_spec r NULL) as [->|Hr]; wp_pures.
  - wp_store. iLeft. iSplit; [done|]. iSplitL "Hn"; [by iExists n|]. iExists h, NULL. iFrame "Hh Hr".
    iSplit; [iPureIntro; lia|]. iDestruct (rt_is_null with "Ht") as %HF'; [done|].
    iApply rt_null; [|done]. intros j Hj. destruct (Z.lt_ge_cases j (16 ^ Z.of_nat rh)); auto with lia.
  - iApply (wp_wand with "[Hn Hh Hr Ht]"); [iApply (raise_wp _ h _ n rh r); [lia|done|done|iFrame]|].
    iIntros (e) "[(-> & Hn & %r' & Hh & Hr & Ht)|H]"; [|by iRight].
    iLeft. iSplit; [done|]. iFrame "Hn". iExists h, r'. iFrame. iPureIntro. lia.
Qed.

Lemma radix_tree_insert_wp n root index item F : 0 ≤ index < 2 ^ 32 → item ≠ NULL →
  clean_cache n ∗ radix_root root F ⊢ wp (radix_tree_insert get root index item) (λ e,
    (⌜e = 0 ∧ F index = NULL⌝ ∗ radix_root root (upd F index item) ∗ ∃ n', clean_cache n') ∨
    (⌜e = -3 ∧ F index ≠ NULL⌝ ∗ radix_root root F ∗ ∃ n', clean_cache n') ∨
    (⌜e = -2⌝ ∗ radix_root root F ∗ clean_cache 0)).
Proof.
  intros Hi Hitem. iIntros "[Hn H]". iDestruct "H" as (rh r [Hh HF]) "(Hh & Hr & Ht)".
  unfold radix_tree_insert, radix_tree_reserve. wp_load. rw maxindex_spec //. iApply wp_bind.
  iApply (wp_wand (A:=Z) _ (λ e, (⌜e = 0⌝ ∗ (∃ n', clean_cache n') ∗ ∃ (h : nat) r', ⌜(rh ≤ h ≤ 8)%nat ∧ index < 16 ^ Z.of_nat h⌝ ∗
       (root + height) ↦ Z.of_nat h ∗ (root + rnode) ↦ r' ∗ rt h r' F) ∨
    (⌜e = -2⌝ ∗ clean_cache 0 ∗ radix_root root F))%I with "[Hn Hh Hr Ht]").
  { destruct (Z.gtb_spec index (16 ^ Z.of_nat rh - 1)).
    - iApply extend_wp; [done|lia|lia|done|iFrame].
    - wp_pures. iLeft. iSplit; [done|]. iSplitL "Hn"; [by iExists n|]. iExists rh, r. iFrame. iPureIntro. lia. }
  iIntros (e) "[(-> & (%n' & Hn) & %h & %p & [%Hle %Hlt] & Hh & Hr & Ht)|(-> & Hn & H)]"; wp_pures;
    [|iRight; iRight; by iFrame].
  wp_load. rw Nat2Z.id. iApply wp_assoc. iApply wp_bind. iApply (wp_wand with "[Hn Hr Ht]").
  { iApply (reserve_walk h _ index NULL 0); [lia|lia| |iFrame; done].
    intros. unfold RADIX_TREE_MAP_SHIFT. rw u32_small; lia. }
  assert (∀ j, 16 ^ Z.of_nat h ≤ j → F j = NULL) as HF'.
  { intros j Hj. apply HF. etrans; [|exact Hj]. apply Z.pow_le_mono_r; lia. }
  rw Z.mod_small; [|lia]. iIntros ([e sl]) "[([-> %HFi] & Hn & Hsl & Hw)|(He & %p' & _ & Hr & _ & Ht)]".
  - wp_store. iLeft. iSplit; [done|]. iFrame "Hn".
    iDestruct ("Hw" with "[//] Hsl") as (v' Hv') "(Hr & _ & Ht)". iExists h, v'. iFrame. iPureIntro.
    split; [lia|]. intros j Hj. unfold upd. destruct (Z.eqb_spec j index); [lia|by apply HF'].
  - iAssert (radix_root root F) with "[Hh Hr Ht]" as "H".
    { iExists h, p'. iFrame. iPureIntro. split; [lia|done]. }
    iDestruct "He" as "[[-> Hn]|[[-> %] Hn]]"; wp_pures; [iRight; iRight|iRight; iLeft]; by iFrame.
Qed.

(** C10: As long as the nodes that the cache hands out have NULL in their slots behind the first (the code clears only the count and the first slot), [radix_tree_insert] stores a
    new item at a free index and nothing else, refuses an index that is taken with -3 and fails with -2 only when the cache has no node left; in both error cases the
    contents are unchanged.  The tree grows to the height the index needs, and the counts of its nodes stay the numbers of their slots in use. *)
Theorem radix_tree_insert_correct n root index item F :
  {{ ⌜0 ≤ index < 2 ^ 32 ∧ item ≠ NULL⌝ ∗ clean_cache n ∗ radix_root root F }}
    radix_tree_insert get root index item
  {{ e, (⌜e = 0 ∧ F index = NULL⌝ ∗ radix_root root (upd F index item) ∗ ∃ n', clean_cache n') ∨
        (⌜e = -3 ∧ F index ≠ NULL⌝ ∗ radix_root root F ∗ ∃ n', clean_cache n') ∨
        (⌜e = -2⌝ ∗ radix_root root F ∗ clean_cache 0) }}.
Proof. apply triple_wp. iIntros "([%Hi %Hitem] & H)". by iApply radix_tree_insert_wp. Qed.
End insert.

(** ** A cache

    Free nodes linked through their first word, as the slab allocator links its free objects. *)
Definition pool_get (pool : Z) : M Z :=
  p ← load pool;
  if p =? NULL then mret NULL else
  nx ← load (p + count);
  store pool nx;;
  mret p.

Fixpoint pool_chain (cs : list (list Z)) (p : Z) : heapProp :=
  match cs with
  | [] => ⌜p = NULL⌝
  | c :: cs => ⌜p ≠ NULL ∧ length c = 16%nat⌝ ∗ ∃ nx, (p + count) ↦ nx ∗ arr (p + slots) 4 c ∗ pool_chain cs nx
  end.

#[global] Program Instance pool_cache (pool : Z) : NodeCache (pool_get pool) :=
  {| cache cs := ∃ p, pool ↦ p ∗ pool_chain cs p |}%I.
Next Obligation.
  iIntros (pool cs) "(%p & Hp & Hc)". unfold pool_get. wp_load. destruct cs as [|c cs]; cbn [pool_chain].
  - iDestruct "Hc" as %->. wp_pures. iSplit; [done|]. iExists NULL. by iFrame.
  - iDestruct "Hc" as ([Hp Hl] nx) "(Hc & Ha & Hn)". rw eqb_NULL //. wp_load. wp_store.
    iSplit; [done|]. iSplitL "Hp Hn"; [iExists nx; by iFrame|]. iExists nx. iFrame.
Qed.

(** [n] clean nodes in the pool at 64. *)
Definition pool_free (n : nat) : heapProp := clean_cache (kmem_get_obj := pool_get 64) n.

Lemma radix_tree_insert_correct_witness :
  {{ ⌜0 ≤ 300 < 2 ^ 32 ∧ 55 ≠ NULL⌝ ∗ pool_free 4 ∗ radix_root 4096 (λ _, NULL) }}
    radix_tree_insert (pool_get 64) 4096 300 55
  {{ e, (⌜e = 0 ∧ NULL = NULL⌝ ∗ radix_root 4096 (upd (λ _, NULL) 300 55) ∗ ∃ n', pool_free n') ∨
        (⌜e = -3 ∧ NULL ≠ NULL⌝ ∗ radix_root 4096 (λ _, NULL) ∗ ∃ n', pool_free n') ∨
        (⌜e = -2⌝ ∗ radix_root 4096 (λ _, NULL) ∗ pool_free 0) }}.
Proof. exact (radix_tree_insert_correct 4 4096 300 55 (λ _, NULL)). Defined.

(** A run on a concrete memory: a root at 4096 and a pool of six nodes. *)
Definition radix_memory : mem :=
  list_to_map ([(64, 1024); (4096, 0); (4100, 0); (4104, 0)] ++
    flat_map (λ i, (1024 + 128 * Z.of_nat i, if (i <? 5)%nat then 1024 + 128 * Z.of_nat (S i) else 0) ::
      map (λ k, (1028 + 128 * Z.of_nat i + 4 * Z.of_nat k, 0)) (seq 0 16)) (seq 0 6)).

Example radix_tree_run :
  match (e1 ← radix_tree_insert (pool_get 64) 4096 0 11;
         e2 ← radix_tree_insert (pool_get 64) 4096 300 55;
         e3 ← radix_tree_insert (pool_get 64) 4096 300 66;
         a ← radix_tree_lookup 4096 0; b ← radix_tree_lookup 4096 300; c ← radix_tree_lookup 4096 5000;
         mret [e1; e2; e3; a; b; c]) radix_memory with
  | Ok l _ => l = [0; 0; -3; 11; 55; 0]
  | _ => False
  end.
Proof. vm_compute. reflexivity. Qed.

(** error.  A node from memory that is not clear brings an item with it: after the insertion at index 1 into an empty tree, index 3, where nothing was inserted, holds what the fourth slot
    of the node held before. *)
Theorem radix_tree_stale_item :
  match (e ← radix_tree_insert (pool_get 64) 4096 1 11; a ← radix_tree_lookup 4096 1; b ← radix_tree_lookup 4096 3; mret [e; a; b])
    (<[1028 + 4 * 3 := 77]> radix_memory) with
  | Ok l _ => l = [0; 11; 77]
  | _ => False
  end.
Proof. vm_compute. reflexivity. Qed.
