(* ===== verification/Buddy.v ===== *)
(** * The page allocator: mm/buddy.c and mm/page_alloc.c

    [buddy_list], an array of ten lists of free blocks: a block of order [o] is [2 ^ o] consecutive
    page structs, linked through the first one.  The global variable is a parameter, its address. *)

From S2P Require Export CList Bits CString.

(** struct page: [list] is its first member, so that [list_entry] is the identity. *)
Definition pg_address : Z := 12.
Definition pg_flags : Z := 28.
Definition sizeof_page : Z := 56.

(** struct buddy_list *)
Definition nr_free_pages : Z := 8.
Definition sizeof_buddy_list : Z := 12.
Definition NR_MEM_LISTS : Z := 10.

Definition PAGE_SHIFT : Z := 12.
Definition PAGE_SIZE : Z := 4096.
Definition SYS_RAM : Z := 4.
Definition GFP_ATOMIC : Z := 2.

Section buddy.
Context (buddy_list : Z).

Definition is_pageclosed (prev next order : Z) : M bool :=
  if (prev =? NULL) || (next =? NULL) then mret false else
  let index := power order in
  a ← load (prev + pg_address);
  b ← load (next + pg_address);
  mret ((u32 (a + index * PAGE_SIZE) =? b) || (u32 (a - index * PAGE_SIZE) =? b)).

(** [buddy_list + order] *)
Definition header (order : Z) : Z := buddy_list + sizeof_buddy_list * order.

(** [buddy_list[order].nr_free_pages += d] *)
Definition count_pages (order d : Z) : M unit :=
  n ← load (header order + nr_free_pages);
  store (header order + nr_free_pages) (s32 (n + d)).

(** Returns the status and [*item]. *)
Definition buddy_list_del (head order : Z) (item : option Z) : M (Z * option Z) :=
  if (head =? NULL) || (order >=? NR_MEM_LISTS) || bool_decide (item = None) then mret (-1, item) else
  '(r, item) ← list_get_del head item;
  if negb (r =? 0) then mret (-2, item) else
  count_pages order (-1);;
  mret (0, item).

Definition buddy_list_add (page order : Z) : M Z :=
  if (page =? NULL) || (order >=? NR_MEM_LISTS) then mret (-1) else
  list_add page (header order);;
  count_pages order 1;;
  mret 0.

Definition buddy_list_add_line (page order : Z) : M Z :=
  if (page =? NULL) || (order >=? NR_MEM_LISTS) then mret (-1) else
  let head := header order in
  e ← list_empty_careful head;
  if e : bool then
    list_add page head;;
    count_pages order 1;;
    mret 0
  else
    r ← list_for_each_safe head (λ pos (_ : unit),
      pa ← load (page + pg_address);
      ia ← load (pos + pg_address);
      if pa <? ia then
        p ← load (pos + list_prev);
        __list_add page p pos;;
        count_pages order 1;;
        mret (inr 0)
      else
        n ← load (pos + list_next);
        if n =? head then
          n ← load (pos + list_next);
          __list_add page pos n;;
          count_pages order 1;;
          mret (inr 0)
        else mret (inl tt)) tt;
    match r with inr r => mret r | inl _ => mret (-1) end.

(** [for(i = 0; i < NR_MEM_LISTS; i++)] *)
Fixpoint buddy_list_init_from (i : Z) (n : nat) : M unit :=
  match n with
  | O => mret tt
  | S n =>
      INIT_LIST_HEAD (header i);;
      store (header i + nr_free_pages) 0;;
      buddy_list_init_from (i + 1) n
  end.
Definition buddy_list_init : M unit := buddy_list_init_from 0 (Z.to_nat NR_MEM_LISTS).

(** One turn of the inner loop of [buddy_list_tidy]. *)
Definition tidy_step (i pos : Z) : M (Z + unit) :=
  let head := header i in
  if negb (pos =? NULL) && negb (pos =? head) then
    n ← load (pos + list_next);
    nx ← load (pos + list_next);
    if negb (nx =? head) then
      nx ← load (pos + list_next);
      c ← is_pageclosed pos nx i;
      if c : bool then
        nx ← load (pos + list_next);
        n ← load (nx + list_next);
        nx ← load (pos + list_next);
        list_del nx;;
        list_del pos;;
        count_pages i (-2);;
        list_add pos (header (i + 1));;
        count_pages (i + 1) 1;;
        mret (inl n)
      else mret (inl n)
    else mret (inl n)
  else mret (inr tt).

(** [for(i = 0; i < NR_MEM_LISTS - 1; i++)] *)
Fixpoint tidy_from (i : Z) (n : nat) : M Z :=
  match n with
  | O => mret 0
  | S n =>
      c ← load (header i + nr_free_pages);
      if c <=? 0 then mret 0 else
      pos ← load (header i + list_next);
      loop (tidy_step i) pos;;
      tidy_from (i + 1) n
  end.
Definition buddy_list_tidy : M Z := tidy_from 0 (Z.to_nat (NR_MEM_LISTS - 1)).

(** ** mm/page_alloc.c *)

Definition free_pages_ok (page order : Z) : M Z :=
  if (page =? NULL) || (order >=? NR_MEM_LISTS) then mret (-1) else
  r ← buddy_list_add_line page order;
  if r <? 0 then mret (-2) else mret 0.

Definition free_pages (page order : Z) : M Z :=
  if (page =? NULL) || (order >=? NR_MEM_LISTS) then mret (-1) else
  f ← load (page + pg_flags);
  if negb (Z.land f SYS_RAM =? 0) then
    r ← free_pages_ok page order;
    if r <? 0 then mret (-2) else mret 0
  else mret 0.

(** [while(queue->nr_free_pages == 0) { ++new_order; ++queue; }]; the array has no end mark. *)
Definition find_order (new_order : Z) : M Z :=
  loop (λ new_order,
    c ← load (header new_order + nr_free_pages);
    if c =? 0 then mret (inl (new_order + 1)) else mret (inr new_order)) new_order.

(** The code from [repeat] to [goto repeat]; [inr] is a [return].  [item] is the local variable. *)
Definition get_free_step (order : Z) (item : option Z) : M (option Z + Z) :=
  c ← load (header order + nr_free_pages);
  if c >? 0 then
    '(r, item) ← buddy_list_del (header order) order item;
    if negb (r =? 0) then mret (inr (u32 (-3))) else
    a ← load (default NULL item + pg_address);
    mret (inr a)
  else
    new_order ← find_order order;
    '(r, item) ← buddy_list_del (header new_order) new_order item;
    if negb (r =? 0) then mret (inr (u32 (-2))) else
    let page := default NULL item in
    let new_order := new_order - 1 in
    buddy_list_add page new_order;;
    let page := page + sizeof_page * power new_order in
    buddy_list_add page new_order;;
    mret (inl item).

(** Every [goto repeat] follows a split of a block of a higher order into the next lower one:
    at most nine before the list of [order] has a block. *)
Definition get_free_pages (order : Z) : M Z :=
  if order >=? NR_MEM_LISTS then mret NULL else
  run (Z.to_nat NR_MEM_LISTS) (get_free_step order) (Some NULL).

Definition __get_free_pages (priority order : Z) : M Z :=
  if priority =? GFP_ATOMIC then get_free_pages order else mret 0.

Definition get_free_page (priority : Z) : M Z :=
  address ← __get_free_pages priority 0;
  memset address 0 PAGE_SIZE;;
  mret address.

Definition alloc_mem (size : Z) : M Z :=
  let order := power (Z.shiftr size PAGE_SHIFT) in
  get_free_pages order.
End buddy.
