(* ===== verification/BuddySpec.v ===== *)
(** * The page allocator gives out disjoint blocks

    [buddy L]: the free lists hold the blocks [L], one list of first page numbers per order, and own
    the page structs of these blocks.  [frames L] are the numbers of the free pages. *)

From S2P Require Export Buddy CStringSpec.

Section spec.
Context (buddy_list pages : Z).

(** The page struct of page [k]. *)
Definition pg (k : Z) : Z := pages + sizeof_page * k.

Definition page_info (k : Z) : heapProp :=
  (pg k + pg_address) ↦ (PAGE_SIZE * k) ∗ (∃ f, ⌜Z.land f SYS_RAM ≠ 0⌝ ∗ (pg k + pg_flags) ↦ f).

(** A page struct that is in no list. *)
Definition page_struct (k : Z) : heapProp := lnode (pg k) ∗ page_info k.

Definition blk_pages (o k : Z) : list Z := seqZ k (2 ^ o).

(** The page structs of a block. *)
Definition blk (o k : Z) : heapProp := [∗ list] j ∈ blk_pages o k, page_struct j.

(** The same without the links of the first one. *)
Definition blk_linked (o k : Z) : heapProp :=
  page_info k ∗ [∗ list] j ∈ seqZ (k + 1) (2 ^ o - 1), page_struct j.

Definition free_list (o : Z) (ks : list Z) : heapProp :=
  dlist (header buddy_list o) (pg <$> ks) ∗
  (header buddy_list o + nr_free_pages) ↦ Z.of_nat (length ks) ∗
  [∗ list] k ∈ ks, blk_linked o k.

Fixpoint frames_from (o : Z) (L : list (list Z)) : list Z :=
  match L with
  | [] => []
  | ks :: L => (ks ≫= blk_pages o) ++ frames_from (o + 1) L
  end.
Definition frames (L : list (list Z)) : list Z := frames_from 0 L.

(** There are at most [2 ^ 20] pages: the address space has 32 bits. *)
Definition buddy (L : list (list Z)) : heapProp :=
  ⌜length L = Z.to_nat NR_MEM_LISTS ∧ Z.of_nat (length (frames L)) ≤ 2 ^ 20⌝ ∗
  [∗ list] o ↦ ks ∈ L, free_list (Z.of_nat o) ks.

(** ** Pages of blocks *)

Lemma pow2_pos o : 0 ≤ o → 0 < 2 ^ o.
Proof. intros. apply Z.pow_pos_nonneg; lia. Qed.

Lemma blk_pages_cons o k : 0 ≤ o → blk_pages o k = k :: seqZ (k + 1) (2 ^ o - 1).
Proof.
  intros Ho. unfold blk_pages. pose proof (pow2_pos o Ho). rw seqZ_cons; [|lia].
  by rw Z.add_1_r Z.sub_1_r.
Qed.

(** A block of order [o + 1] is two blocks of order [o]. *)
Lemma blk_pages_split o k : 0 ≤ o → blk_pages (o + 1) k = blk_pages o k ++ blk_pages o (k + 2 ^ o).
Proof.
  intros Ho. unfold blk_pages. pose proof (pow2_pos o Ho). rw Z.pow_add_r; [|lia|lia].
  rw -seqZ_app; [|lia|lia]. f_equal. lia.
Qed.

Lemma blk_pages_length o k : 0 ≤ o → Z.of_nat (length (blk_pages o k)) = 2 ^ o.
Proof. intros Ho. unfold blk_pages. pose proof (pow2_pos o Ho). rw length_seqZ. lia. Qed.

Lemma frames_from_insert o L (i : nat) ks ks' : L !! i = Some ks →
  frames_from o (<[i := ks']> L) ++ (ks ≫= blk_pages (o + Z.of_nat i)) ≡ₚ
  frames_from o L ++ (ks' ≫= blk_pages (o + Z.of_nat i)).
Proof.
  revert o i. induction L as [|ks0 L IH]; intros o i Hi; [done|]. destruct i as [|i]; simpl in *.
  - injection Hi as ->. rw Z.add_0_r. rw -!assoc_L. rw (comm (++) _ (ks ≫= _)).
    rw (comm (++) (frames_from _ _) (ks' ≫= _)). rw !assoc. rw (comm (++) (ks' ≫= _)). done.
  - rw -!assoc_L. replace (o + Z.of_nat (S i)) with (o + 1 + Z.of_nat i) by lia. by rw IH.
Qed.

Lemma frames_insert L (i : nat) ks ks' : L !! i = Some ks →
  frames (<[i := ks']> L) ++ (ks ≫= blk_pages (Z.of_nat i)) ≡ₚ frames L ++ (ks' ≫= blk_pages (Z.of_nat i)).
Proof. apply (frames_from_insert 0). Qed.

(** Taking the first block out of a list, adding blocks at any place of it. *)
Lemma frames_take L (i : nat) k ks : L !! i = Some (k :: ks) →
  frames L ≡ₚ blk_pages (Z.of_nat i) k ++ frames (<[i := ks]> L).
Proof.
  intros Hi. apply (Permutation_app_inv_r (ks ≫= blk_pages (Z.of_nat i))).
  rw -(frames_insert L i (k :: ks) ks) //. simpl. by rw assoc (comm (++) (frames _) (blk_pages _ k)).
Qed.

Lemma frames_put L (i : nat) ks k ks1 ks2 : L !! i = Some ks → ks = ks1 ++ ks2 →
  frames (<[i := ks1 ++ k :: ks2]> L) ≡ₚ blk_pages (Z.of_nat i) k ++ frames L.
Proof.
  intros Hi ->. apply (Permutation_app_inv_r ((ks1 ++ ks2) ≫= blk_pages (Z.of_nat i))).
  rw (frames_insert L i (ks1 ++ ks2)) //. rw !bind_app. simpl.
  rw (comm (++) (blk_pages _ k) (frames L)). rw -!assoc_L. f_equiv.
  by rw !assoc (comm (++) (ks1 ≫= _)).
Qed.

(** ** Lists of the array *)

Lemma header_ne o ks : dlist (header buddy_list o) ks ⊢ ⌜header buddy_list o ≠ NULL⌝.
Proof. apply dlist_head_ne. Qed.

Lemma blk_link o k : 0 ≤ o → blk o k ⊣⊢ lnode (pg k) ∗ blk_linked o k.
Proof. intros Ho. unfold blk, blk_linked, page_struct. by rw blk_pages_cons // big_sepL_cons assoc. Qed.

Lemma blk_split o k : 0 ≤ o → blk (o + 1) k ⊣⊢ blk o k ∗ blk o (k + 2 ^ o).
Proof. intros Ho. unfold blk. by rw blk_pages_split // big_sepL_app. Qed.

Lemma count_pages_wp o n d (Q : unit → heapProp) :
  (header buddy_list o + nr_free_pages) ↦ n -∗ ((header buddy_list o + nr_free_pages) ↦ s32 (n + d) -∗ Q tt) -∗
  wp (count_pages buddy_list o d) Q.
Proof. iIntros "H HQ". unfold count_pages. wp_load. wp_store. by iApply "HQ". Qed.

Lemma s32_count n : 0 ≤ n ≤ 2 ^ 20 → s32 n = n.
Proof. intros. apply s32_small. lia. Qed.

Lemma order_ok o : 0 ≤ o < NR_MEM_LISTS → (o >=? NR_MEM_LISTS) = false.
Proof. intros. rw Z.geb_leb. apply Z.leb_gt. lia. Qed.

(** A block out of a list. *)
Lemma buddy_list_del_wp o k ks e Q : 0 ≤ o < NR_MEM_LISTS → Z.of_nat (length ks) < 2 ^ 20 →
  free_list o (k :: ks) -∗ (free_list o ks -∗ blk o k -∗ Q (0, Some (pg k))) -∗
  wp (buddy_list_del buddy_list (header buddy_list o) o (Some e)) Q.
Proof.
  iIntros (Ho Hn) "(Hd & Hc & Hb & Hbs) HQ". iDestruct (header_ne with "Hd") as %Hh. unfold buddy_list_del.
  rw (proj2 (Z.eqb_neq _ _) Hh). rw order_ok //.
  rw bool_decide_false //. wp_pures. iApply wp_bind. iApply (list_get_del_wp with "Hd"). simpl. iIntros "Hd Hp".
  wp_pures. iApply wp_bind. iApply (count_pages_wp with "Hc"). iIntros "Hc". wp_pures. iApply ("HQ" with "[Hd Hc Hbs]").
  - iFrame. rw s32_count; [|lia]. by replace (Z.of_nat (S (length ks)) + -1) with (Z.of_nat (length ks)) by lia.
  - rw blk_link; [|lia]. iFrame. by iApply lpoisoned_lnode.
Qed.

(** A block at the end of a list. *)
Lemma buddy_list_add_wp o k ks Q : 0 ≤ o < NR_MEM_LISTS → Z.of_nat (length ks) < 2 ^ 20 →
  free_list o ks -∗ blk o k -∗ (free_list o (ks ++ [k]) -∗ Q 0) -∗
  wp (buddy_list_add buddy_list (pg k) o) Q.
Proof.
  iIntros (Ho Hn) "(Hd & Hc & Hbs) Hb HQ". rw blk_link; [|lia]. iDestruct "Hb" as "[Hk Hb]".
  iAssert ⌜pg k ≠ NULL⌝%I as %Hk; [by iDestruct "Hk" as "(_ & _ & $)"|]. unfold buddy_list_add.
  rw (proj2 (Z.eqb_neq _ _) Hk). rw order_ok //.
  wp_pures. iApply wp_bind. iApply (list_add_head_wp with "Hd Hk"). iIntros "Hd". wp_pures.
  iApply wp_bind. iApply (count_pages_wp with "Hc"). iIntros "Hc". wp_pures. iApply "HQ".
  unfold free_list. rw fmap_app length_app big_sepL_app /=. rw s32_count; [|lia].
  replace (Z.of_nat (length ks + 1)) with (Z.of_nat (length ks) + 1) by lia. iFrame.
Qed.

(** ** Looking for a block *)

Lemma free_list_read L (i : nat) ks : L !! i = Some ks →
  ([∗ list] o ↦ ks ∈ L, free_list (Z.of_nat o) ks) ⊢
  (header buddy_list (Z.of_nat i) + nr_free_pages) ↦ Z.of_nat (length ks) ∗
  ((header buddy_list (Z.of_nat i) + nr_free_pages) ↦ Z.of_nat (length ks) -∗
     [∗ list] o ↦ ks ∈ L, free_list (Z.of_nat o) ks).
Proof.
  iIntros (Hi) "H". iDestruct (big_sepL_lookup_acc with "H") as "[(Hd & Hc & Hb) H]"; [done|]. iFrame "Hc".
  iIntros "Hc". iApply "H". iFrame.
Qed.

Lemma free_list_cells L : ([∗ list] o ↦ ks ∈ L, free_list (Z.of_nat o) ks) ⊢ cells (length L).
Proof.
  induction L as [|ks L IH] using rev_ind; [iIntros "_"; iApply cells_0|].
  rw big_sepL_app big_sepL_singleton length_app IH. iIntros "[H1 (_ & Hc & _)]".
  iApply (cells_add with "H1"). by iApply pt_cells.
Qed.

(** [o'] is the first order from [o] on with a free block. *)
Definition first_free (o o' : nat) (L : list (list Z)) : Prop :=
  (o ≤ o')%nat ∧ (∀ j, (o ≤ j < o')%nat → L !! j = Some []) ∧ ∃ k ks, L !! o' = Some (k :: ks).

Lemma first_free_exists (o : nat) L :
  (∃ j : nat, (o ≤ j)%nat ∧ ∃ k ks, L !! j = Some (k :: ks)) → ∃ o', first_free o o' L.
Proof.
  intros (j & Hj & Hks). remember (j - o)%nat as d eqn:Hd. revert o Hj Hd.
  induction d as [|d IH]; intros o Hj Hd.
  - exists j. split; [done|]. split; [intros; lia|done].
  - destruct (L !! o) as [[|k ks]|] eqn:Ho.
    + destruct (IH (S o)) as (o' & Ho' & Hemp & Hne); [lia|lia|]. exists o'. split; [lia|]. split; [|done].
      intros i Hi. destruct (decide (i = o)) as [->|]; [done|]. apply Hemp. lia.
    + exists o. split; [done|]. split; [intros; lia|eauto].
    + destruct Hks as (k & ks & Hks). apply lookup_lt_Some in Hks. apply lookup_ge_None in Ho. lia.
Qed.

Lemma find_order_wp L (o o' : nat) Q : first_free o o' L →
  ([∗ list] o ↦ ks ∈ L, free_list (Z.of_nat o) ks) -∗
  (([∗ list] o ↦ ks ∈ L, free_list (Z.of_nat o) ks) -∗ Q (Z.of_nat o')) -∗
  wp (find_order buddy_list (Z.of_nat o)) Q.
Proof.
  iIntros (Hff) "H HQ". unfold find_order.
  iApply (wp_wand _ (λ r, ⌜r = Z.of_nat o'⌝ ∗ [∗ list] o ↦ ks ∈ L, free_list (Z.of_nat o) ks)%I with "[H]");
    [|iIntros (r) "[-> H]"; by iApply "HQ"].
  iApply (wp_loop _ (λ (n : nat) (s : Z), ∃ j : nat, ⌜s = Z.of_nat j ∧ first_free j o' L ∧ (n = o' - j)%nat⌝ ∗
    [∗ list] o ↦ ks ∈ L, free_list (Z.of_nat o) ks)%I
    (λ r, ⌜r = Z.of_nat o'⌝ ∗ [∗ list] o ↦ ks ∈ L, free_list (Z.of_nat o) ks)%I (o' - o)%nat with "[H]").
  - iIntros "(%j & (_ & (_ & _ & %k & %ks & %Hks) & %Hn) & H)". rw free_list_cells.
    iApply (cells_le with "H"). apply lookup_lt_Some in Hks. lia.
  - intros n s. iIntros "(%j & (-> & (%Hle & %Hemp & %k & %ks & %Hks) & %Hn) & H)".
    destruct (decide (j = o')) as [->|Hne].
    + iDestruct (free_list_read with "H") as "[Hc H]"; [done|]. wp_load. simpl length.
      rw (proj2 (Z.eqb_neq (Z.of_nat (S (length ks))) 0)); [|lia]. wp_pures. iSplit; [done|]. by iApply "H".
    + iDestruct (free_list_read with "H") as "[Hc H]"; [apply (Hemp j); lia|]. wp_load. simpl length.
      change (Z.of_nat 0 =? 0) with true. wp_pures. iExists (o' - S j)%nat. iSplit; [iPureIntro; lia|]. iExists (S j).
      iSplit; [|by iApply "H"]. iPureIntro. split; [lia|]. split; [|done]. split; [lia|].
      split; [intros; apply Hemp; lia|eauto].
  - iExists o. iFrame. done.
Qed.

Lemma power_small o : 0 ≤ o ≤ 30 → power o = 2 ^ o.
Proof.
  intros Ho. unfold power. destruct (Z.eqb_spec o 0) as [->|]; [done|].
  rw (proj2 (Z.gtb_lt o 0)); [|lia]. rw iter_double Z2Nat.id; [|lia]. apply s32_small.
  pose proof (pow2_pos o). split; [lia|]. apply Z.pow_lt_mono_r; lia.
Qed.

Lemma bind_length_le o ks : 0 ≤ o → (length ks ≤ length (ks ≫= blk_pages o))%nat.
Proof.
  intros Ho. induction ks as [|k ks IH]; [done|]. change ((k :: ks) ≫= blk_pages o) with (blk_pages o k ++ (ks ≫= blk_pages o)).
  rw length_app. pose proof (blk_pages_length o k Ho). pose proof (pow2_pos o Ho). cbn [length]. lia.
Qed.

Lemma frames_from_length_le o L (i : nat) ks : L !! i = Some ks → 0 ≤ o →
  (length ks ≤ length (frames_from o L))%nat.
Proof.
  revert o i. induction L as [|ks0 L IH]; intros o i Hi Ho; [done|]. simpl. rw length_app.
  destruct i as [|i]; simpl in Hi.
  - injection Hi as ->. pose proof (bind_length_le o ks Ho). lia.
  - pose proof (IH (o + 1) i Hi). lia.
Qed.

Lemma frames_length_le L (i : nat) ks : L !! i = Some ks → (length ks ≤ length (frames L))%nat.
Proof. intros Hi. by eapply frames_from_length_le. Qed.

(** The block found at order [S o'] is split into two of order [o']. *)
Definition split_at (o' : nat) (k : Z) (ks : list Z) (L : list (list Z)) : list (list Z) :=
  <[o' := [k; k + 2 ^ Z.of_nat o']]> (<[S o' := ks]> L).

Lemma split_at_frames o' k ks L : L !! S o' = Some (k :: ks) → L !! o' = Some [] →
  frames (split_at o' k ks L) ≡ₚ frames L.
Proof.
  intros H1 H2. unfold split_at.
  assert (<[S o' := ks]> L !! o' = Some []) as H3 by (rw list_lookup_insert_ne; [done|lia]).
  assert (<[o' := [k]]> (<[S o' := ks]> L) !! o' = Some [k]) as H4
    by (rw list_lookup_insert_eq; [done|rw length_insert; by eapply lookup_lt_Some]).
  rw -(list_insert_insert_eq (<[S o' := ks]> L) o' _ [k]).
  rw (frames_put _ _ [k] (k + 2 ^ Z.of_nat o') [k] []) //. rw (frames_put _ _ [] k [] []) //.
  rw (frames_take L (S o') k ks) //. rw (_ : Z.of_nat (S o') = Z.of_nat o' + 1); [|lia].
  rw blk_pages_split; [|lia]. rw assoc. f_equiv. apply (comm (++)).
Qed.

Lemma split_at_first_free o o' k ks L : (o ≤ o')%nat → first_free o (S o') L → L !! S o' = Some (k :: ks) →
  first_free o o' (split_at o' k ks L).
Proof.
  intros Ho (_ & Hemp & _) Hk. pose proof (lookup_lt_Some _ _ _ Hk) as Hlt. split; [done|]. split.
  - intros j Hj. unfold split_at. rw list_lookup_insert_ne; [|lia]. rw list_lookup_insert_ne; [|lia]. apply Hemp. lia.
  - exists k, [k + 2 ^ Z.of_nat o']. unfold split_at. apply list_lookup_insert_eq. rw length_insert. lia.
Qed.

(** One turn when the list of the order is empty. *)
Lemma get_free_step_split L (o o' : nat) k ks e : (o ≤ o')%nat → first_free o (S o') L → L !! S o' = Some (k :: ks) →
  buddy L ⊢ wp (get_free_step buddy_list (Z.of_nat o) (Some e)) (λ r,
    ⌜∃ e', r = inl (Some e')⌝ ∗ buddy (split_at o' k ks L)).
Proof.
  intros Ho Hff Hk. pose proof Hff as (_ & Hemp & _). pose proof (lookup_lt_Some _ _ _ Hk) as Hlt.
  iIntros "[[%Hl %Hfr] H]". pose proof (frames_length_le _ _ _ Hk) as Hbk. simpl in Hbk.
  assert (Z.of_nat (S o') < NR_MEM_LISTS) as HN by (rw Hl in Hlt; unfold NR_MEM_LISTS in *; lia).
  unfold get_free_step. iDestruct (free_list_read _ o with "H") as "[Hc H]"; [apply Hemp; lia|].
  wp_load. change (Z.of_nat (length []) >? 0) with false. wp_pures. iDestruct ("H" with "Hc") as "H".
  iApply wp_bind. iApply (find_order_wp with "H"); [done|]. iIntros "H". wp_pures. iApply wp_bind.
  iDestruct (big_sepL_insert_acc with "H") as "[Hk H]"; [exact Hk|].
  iApply (buddy_list_del_wp with "Hk"); [lia|lia|]. iIntros "Hk Hb". wp_pures.
  iDestruct ("H" with "Hk") as "H". replace (Z.of_nat (S o') - 1) with (Z.of_nat o') by lia.
  iDestruct (big_sepL_insert_acc _ _ o' [] with "H") as "[Hk H]".
  { rw list_lookup_insert_ne; [|lia]. apply Hemp. lia. }
  replace (Z.of_nat (S o')) with (Z.of_nat o' + 1) by lia. rw blk_split; [|lia]. iDestruct "Hb" as "[Hb1 Hb2]".
  cbn [default id]. iApply wp_bind. iApply (buddy_list_add_wp with "Hk Hb1"); [lia|done|]. iIntros "Hk". wp_pures.
  rw power_small; [|unfold NR_MEM_LISTS in *; lia].
  replace (pg k + sizeof_page * 2 ^ Z.of_nat o') with (pg (k + 2 ^ Z.of_nat o')) by (unfold pg; lia).
  iApply wp_bind. iApply (buddy_list_add_wp with "Hk Hb2"); [lia|simpl; lia|]. iIntros "Hk". wp_pures.
  iSplit; [by iExists (pg k)|]. iSplit; [|iApply ("H" with "Hk")]. iPureIntro. rw !length_insert. split; [done|].
  rw (Permutation_length (split_at_frames o' k ks L Hk ltac:(apply Hemp; lia))). done.
Qed.

(** The last turn. *)
Lemma get_free_step_take L (o : nat) k ks e : L !! o = Some (k :: ks) →
  buddy L ⊢ wp (get_free_step buddy_list (Z.of_nat o) (Some e)) (λ r,
    ⌜r = inr (PAGE_SIZE * k)%Z⌝ ∗ buddy (<[o := ks]> L) ∗ blk (Z.of_nat o) k).
Proof.
  intros Hk. pose proof (lookup_lt_Some _ _ _ Hk) as Hlt.
  iIntros "[[%Hl %Hfr] H]". pose proof (frames_length_le _ _ _ Hk) as Hbk. simpl in Hbk.
  assert (Z.of_nat o < NR_MEM_LISTS) as HN by (rw Hl in Hlt; unfold NR_MEM_LISTS in *; lia).
  unfold get_free_step. iDestruct (free_list_read _ o with "H") as "[Hc H]"; [done|].
  wp_load. rw (proj2 (Z.gtb_lt (Z.of_nat (length (k :: ks))) 0)); [|simpl; lia]. iDestruct ("H" with "Hc") as "H".
  iDestruct (big_sepL_insert_acc with "H") as "[Hk H]"; [exact Hk|]. wp_pures. iApply wp_bind.
  iApply (buddy_list_del_wp with "Hk"); [lia|lia|]. iIntros "Hk Hb". wp_pures. cbn [default id].
  iEval (rw (blk_link _ _ (Nat2Z.is_nonneg o))) in "Hb". iDestruct "Hb" as "(Hn & (Ha & Hf) & Hb)". wp_load.
  iSplit; [done|]. iSplitR "Hn Ha Hf Hb"; [|rw blk_link; [iFrame|lia]]. iSplit; [|by iApply "H"]. iPureIntro. rw length_insert. split; [done|].
  rw (Permutation_length (frames_take _ _ _ _ Hk)) in Hfr. rw length_app in Hfr. lia.
Qed.

Lemma get_free_run L (o o' : nat) n e : first_free o o' L → (o' - o < n)%nat →
  buddy L ⊢ wp (run n (get_free_step buddy_list (Z.of_nat o)) (Some e)) (λ a, ∃ k L',
    ⌜a = (PAGE_SIZE * k)%Z ∧ frames L ≡ₚ blk_pages (Z.of_nat o) k ++ frames L'⌝ ∗ buddy L' ∗ blk (Z.of_nat o) k).
Proof.
  revert L o' e. induction n as [|n IH]; intros L o' e Hff Hn; [lia|]. iIntros "H". cbn [run]. iApply wp_bind.
  pose proof Hff as (Hle & Hemp & k & ks & Hk). destruct (decide (o' = o)) as [->|Hne].
  - iApply (wp_wand with "[H]"); [by iApply get_free_step_take|]. iIntros (r) "(-> & H & Hb)". wp_pures.
    iExists k, (<[o := ks]> L). iFrame. iPureIntro. split; [done|]. by apply frames_take.
  - destruct o' as [|o']; [lia|].
    iApply (wp_wand with "[H]"); [iApply (get_free_step_split with "H"); [|exact Hff|exact Hk]; lia|].
    iIntros (r) "[[%e' ->] H]". iApply (wp_wand with "[H]").
    { iApply (IH with "H"); [apply split_at_first_free; [|exact Hff|exact Hk]; lia|lia]. }
    iIntros (a) "(%k' & %L' & [-> %Hp] & H & Hb)". iExists k', L'. iFrame. iPureIntro. split; [done|].
    rw -Hp. symmetry. apply split_at_frames; [done|]. apply Hemp. lia.
Qed.

(** C7: [get_free_pages] finds a block whenever one of the order or of a higher one is free: it ends,
    returns the address of the first of [2 ^ order] consecutive free pages and gives up exactly these;
    every other free page stays free.  Blocks are split down to the order asked for. *)
Theorem get_free_pages_correct (o : nat) L :
  {{ buddy L ∗ ⌜∃ j : nat, (o ≤ j)%nat ∧ ∃ k ks, L !! j = Some (k :: ks)⌝ }}
    get_free_pages buddy_list (Z.of_nat o)
  {{ a, ∃ k L', ⌜a = (PAGE_SIZE * k)%Z ∧ frames L ≡ₚ blk_pages (Z.of_nat o) k ++ frames L'⌝ ∗
        buddy L' ∗ blk (Z.of_nat o) k }}.
Proof.
  apply triple_wp. iIntros "[H %Hj]". destruct (first_free_exists _ _ Hj) as [o' Hff].
  iAssert ⌜length L = Z.to_nat NR_MEM_LISTS⌝%I as %Hl; [by iDestruct "H" as "[[$ _] _]"|].
  pose proof Hff as (Hle & _ & k & ks & Hk). apply lookup_lt_Some in Hk. rw Hl in Hk.
  unfold get_free_pages. rw order_ok; [|unfold NR_MEM_LISTS in *; lia].
  iApply (get_free_run with "H"); [done|lia].
Qed.

(** ** Freeing *)

Lemma dlist_prev head ds x ys : dlist head (ds ++ x :: ys) ⊢
  (x + list_prev) ↦ last_or head ds ∗ ((x + list_prev) ↦ last_or head ds -∗ dlist head (ds ++ x :: ys)).
Proof.
  iIntros "(Hn & Hp & %Hne)". rw prevs_app. iDestruct "Hp" as "[Hp1 Hp2]".
  iDestruct (prevs_last with "Hp1") as "[$ Hp1]". iIntros "H". iFrame "Hn". iSplit; [|done].
  rw prevs_app. iFrame. by iApply "Hp1".
Qed.

(** The place of a page in a list: behind the first pages with smaller or equal addresses. *)
Definition place (k : Z) (ks1 ks2 : list Z) : Prop :=
  Forall (λ x, x ≤ k) ks1 ∧ ∀ x, head ks2 = Some x → k < x.

Lemma add_line_done o k ks ks1 ks2 : ks = ks1 ++ ks2 → Z.of_nat (length ks) < 2 ^ 20 →
  dlist (header buddy_list o) (pg <$> ks1 ++ k :: ks2) -∗
  (header buddy_list o + nr_free_pages) ↦ s32 (Z.of_nat (length ks) + 1) -∗
  blk_linked o k -∗ ([∗ list] k ∈ ks, blk_linked o k) -∗ free_list o (ks1 ++ k :: ks2).
Proof.
  iIntros (-> Hlen) "Hd Hc Hb Hbs". iFrame "Hd". rw s32_count; [|lia].
  rw !length_app /=. replace (Z.of_nat (length ks1 + S (length ks2))) with (Z.of_nat (length ks1 + length ks2) + 1) by lia.
  iFrame "Hc". rw !big_sepL_app big_sepL_cons. iDestruct "Hbs" as "[$ $]". iFrame.
Qed.

Lemma add_line_wp o k ks : 0 ≤ o < NR_MEM_LISTS → Z.of_nat (length ks) < 2 ^ 20 →
  free_list o ks ∗ blk o k ⊢ wp (buddy_list_add_line buddy_list (pg k) o) (λ r,
    ⌜r = 0⌝ ∗ ∃ ks1 ks2, ⌜ks = ks1 ++ ks2 ∧ place k ks1 ks2⌝ ∗ free_list o (ks1 ++ k :: ks2)).
Proof.
  intros Ho Hlen. iIntros "[(Hd & Hc & Hbs) Hb]". iEval (rw (blk_link _ _ (proj1 Ho))) in "Hb".
  iDestruct "Hb" as "[Hk Hb]". iAssert ⌜pg k ≠ NULL⌝%I as %Hk; [by iDestruct "Hk" as "(_ & _ & $)"|].
  unfold buddy_list_add_line. rw (proj2 (Z.eqb_neq _ _) Hk) order_ok //. wp_pures.
  iApply wp_bind. iApply (list_empty_careful_wp with "Hd"). iIntros "Hd". destruct ks as [|k0 ks0].
  { wp_pures. iApply wp_bind. iApply (list_add_head_wp with "Hd Hk"). iIntros "Hd". wp_pures.
    iApply wp_bind. iApply (count_pages_wp with "Hc"). iIntros "Hc". wp_pures. iSplit; [done|].
    iExists [], []. iSplit; [done|]. iApply (add_line_done o k [] [] [] with "Hd Hc Hb Hbs"); done. }
  rw bool_decide_false //. remember (k0 :: ks0) as ks eqn:Hks. wp_pures. iApply wp_bind.
  iApply (wp_wand _ (λ r, match r with inr r => ⌜r = 0⌝ ∗ ∃ ks1 ks2, ⌜ks = ks1 ++ ks2 ∧ place k ks1 ks2⌝ ∗
    free_list o (ks1 ++ k :: ks2) | inl _ => False end)%I with "[Hd Hc Hbs Hk Hb]"); last first.
  { iIntros ([[]|r]) "H"; [done|]. by wp_pures. }
  iApply (list_for_each_safe_wp _ _ (λ ds ys _, ∃ ks1 ks2, ⌜ds = pg <$> ks1 ∧ ys = pg <$> ks2 ∧ ks = ks1 ++ ks2 ∧
      Forall (λ x, x ≤ k) ks1 ∧ ks2 ≠ []⌝ ∗ lnode (pg k) ∗ blk_linked o k ∗
      (header buddy_list o + nr_free_pages) ↦ Z.of_nat (length ks) ∗ [∗ list] k ∈ ks, blk_linked o k)%I with "[-]");
    last first.
  { iFrame "Hd". iExists [], ks. iFrame. iPureIntro. subst ks. done. }
  { intros ds []. iIntros "[_ (%ks1 & %ks2 & (_ & %H2 & _ & _ & %H5) & _)]". by destruct ks2. }
  intros ds x ys []. iIntros "[Hd (%ks1 & %ks2 & (-> & %Hys & %Hkk & %Hall & %Hne) & Hk & Hb & Hc & Hbs)]".
  destruct ks2 as [|k2 ks2]; [done|]. injection Hys as -> ->.
  iDestruct "Hb" as "[[Ha Hf] Hb]". wp_load.
  iDestruct (big_sepL_lookup_acc _ _ (length ks1) k2 with "Hbs") as "[[[Ha2 Hf2] Hb2] Hbs]".
  { rw Hkk. by rw list_lookup_middle. }
  wp_load. iDestruct ("Hbs" with "[$Ha2 $Hf2 $Hb2]") as "Hbs".
  iAssert (blk_linked o k) with "[Ha Hf Hb]" as "Hb"; [iFrame|].
  destruct (Z.ltb_spec (PAGE_SIZE * k) (PAGE_SIZE * k2)) as [Hlt|Hge].
  - iDestruct (dlist_prev with "Hd") as "[Hp Hd]". wp_load. iDestruct ("Hd" with "Hp") as "Hd".
    wp_pures. iApply wp_bind. iApply (list_add_between _ _ (_ :: _) with "Hd Hk"). iIntros "Hd". wp_pures.
    iApply wp_bind. iApply (count_pages_wp with "Hc"). iIntros "Hc". wp_pures. iSplit; [done|].
    iExists ks1, (k2 :: ks2). iSplit; [|iApply (add_line_done with "[Hd] Hc Hb Hbs"); [done|done|by rw fmap_app]].
    iPureIntro. split; [done|]. split; [done|]. intros ? [= <-]. unfold PAGE_SIZE in *. lia.
  - iDestruct (dlist_next _ _ (_ :: _) with "Hd") as (n) "(Hn & %Hn & Hd)". rw (Hn _ _ eq_refl). unfold first_or at 1 2; simpl.
    wp_load. iDestruct ("Hd" with "Hn") as "Hd". destruct ks2 as [|k3 ks2].
    + unfold first_or; simpl. rw Z.eqb_refl. wp_pures.
      iDestruct (dlist_next _ _ (_ :: _) with "Hd") as (n') "(Hn & %Hn' & Hd)". rw (Hn' _ _ eq_refl). unfold first_or at 1 2; simpl.
      wp_load. iDestruct ("Hd" with "Hn") as "Hd". wp_pures. iApply wp_bind.
      pose proof (list_add_between (header buddy_list o) ((pg <$> ks1) ++ [pg k2]) [] (pg k)) as Hadd.
      rw last_or_snoc app_nil_r in Hadd. iApply (Hadd with "Hd Hk"). iIntros "Hd". wp_pures.
      iApply wp_bind. iApply (count_pages_wp with "Hc"). iIntros "Hc". wp_pures. iSplit; [done|].
      iExists (ks1 ++ [k2]), []. iSplit; last first.
      { iApply (add_line_done with "[Hd] Hc Hb Hbs"); [by rw app_nil_r|done|]. by rw !fmap_app. }
      iPureIntro. rw app_nil_r. split; [done|]. split; [|done]. apply Forall_app. split; [done|].
      constructor; [|done]. unfold PAGE_SIZE in *. lia.
    + iDestruct (dlist_ne _ _ (pg k3) with "Hd") as %[Hh _]; [simpl; set_solver|]. unfold first_or; simpl.
      rw (proj2 (Z.eqb_neq _ _) Hh). wp_pures. iExists ((pg <$> ks1) ++ [pg k2]). rw -(assoc_L (++)). iFrame "Hd".
      iExists (ks1 ++ [k2]), (k3 :: ks2). iFrame. iPureIntro. rw fmap_app -(assoc_L (++)). split_and!; [done|done|done| |done].
      apply Forall_app. split; [done|]. constructor; [|done]. unfold PAGE_SIZE in *. lia.
Qed.

Lemma free_pages_wp (o : nat) k L : Z.of_nat o < NR_MEM_LISTS → Z.of_nat (length (frames L)) + 2 ^ Z.of_nat o ≤ 2 ^ 20 →
  buddy L ∗ blk (Z.of_nat o) k ⊢ wp (free_pages buddy_list (pg k) (Z.of_nat o)) (λ r,
    ⌜r = 0⌝ ∗ ∃ ks1 ks2, ⌜L !! o = Some (ks1 ++ ks2) ∧ place k ks1 ks2 ∧
          frames (<[o := ks1 ++ k :: ks2]> L) ≡ₚ blk_pages (Z.of_nat o) k ++ frames L⌝ ∗
        buddy (<[o := ks1 ++ k :: ks2]> L)).
Proof.
  intros Ho Hlen. iIntros "[[[%Hl %Hfr] H] Hb]".
  destruct (lookup_lt_is_Some_2 L o) as [ks Hks]; [rw Hl; unfold NR_MEM_LISTS in *; lia|].
  pose proof (frames_length_le _ _ _ Hks) as Hle. pose proof (pow2_pos (Z.of_nat o)).
  iEval (rw (blk_link _ _ (Nat2Z.is_nonneg o))) in "Hb". iDestruct "Hb" as "(Hk & (Ha & %f & %Hf & Hf) & Hb)".
  iAssert ⌜pg k ≠ NULL⌝%I as %Hk; [by iDestruct "Hk" as "(_ & _ & $)"|].
  unfold free_pages, free_pages_ok. rw (proj2 (Z.eqb_neq _ _) Hk) order_ok; [|lia]. wp_load.
  rw (proj2 (Z.eqb_neq _ _) Hf). wp_pures. iApply wp_bind.
  iDestruct (big_sepL_insert_acc with "H") as "[Hks H]"; [exact Hks|].
  iApply (wp_wand with "[Hk Ha Hf Hb Hks]").
  { iApply (add_line_wp _ k ks); [lia|lia|]. iFrame "Hks". rw blk_link; [|lia]. iFrame. done. }
  iIntros (r) "(-> & %ks1 & %ks2 & [-> %Hp] & Hks)". do 2 (change (0 <? 0) with false; wp_pures). iSplit; [done|]. iExists ks1, ks2.
  assert (frames (<[o := ks1 ++ k :: ks2]> L) ≡ₚ blk_pages (Z.of_nat o) k ++ frames L) as Hfr'
    by (by eapply frames_put).
  iSplit; [done|]. iSplit; [|by iApply "H"]. iPureIntro. rw length_insert. split; [done|].
  rw (Permutation_length Hfr') length_app. pose proof (blk_pages_length (Z.of_nat o) k). lia.
Qed.

(** [free_pages] puts a block back: its pages are free again besides those that were, and in the
    list of its order it stands behind the blocks with smaller addresses that come first. *)
Theorem free_pages_correct (o : nat) k L :
  {{ buddy L ∗ blk (Z.of_nat o) k ∗
     ⌜Z.of_nat o < NR_MEM_LISTS ∧ Z.of_nat (length (frames L)) + 2 ^ Z.of_nat o ≤ 2 ^ 20⌝ }}
    free_pages buddy_list (pg k) (Z.of_nat o)
  {{ r, ⌜r = 0⌝ ∗ ∃ ks1 ks2, ⌜L !! o = Some (ks1 ++ ks2) ∧ place k ks1 ks2 ∧
          frames (<[o := ks1 ++ k :: ks2]> L) ≡ₚ blk_pages (Z.of_nat o) k ++ frames L⌝ ∗
        buddy (<[o := ks1 ++ k :: ks2]> L) }}.
Proof. apply triple_wp. iIntros "(H & Hb & [%Ho %Hlen])". iApply free_pages_wp; [done|done|iFrame]. Qed.

(** ** The empty lists *)

Lemma frames_nil o n : frames_from o (replicate n []) = [].
Proof. revert o. induction n as [|n IH]; intros o; [done|]. simpl. apply IH. Qed.

(** A list header that is not set up yet. *)
Definition raw_header (o : Z) : heapProp :=
  lnode (header buddy_list o) ∗ ∃ v, (header buddy_list o + nr_free_pages) ↦ v.

Lemma buddy_list_init_from_wp n i :
  ([∗ list] o ∈ seqZ i (Z.of_nat n), raw_header o) ⊢
  wp (buddy_list_init_from buddy_list i n) (λ _, [∗ list] o ↦ ks ∈ replicate n [], free_list (i + Z.of_nat o) ks).
Proof.
  revert i. induction n as [|n IH]; intros i; [iIntros "_"; simpl; by iApply wp_ret|].
  rw seqZ_cons; [|lia]. rw big_sepL_cons. iIntros "[(Hl & %v & Hc) H]". cbn [buddy_list_init_from].
  iApply wp_bind. iApply (INIT_LIST_HEAD_wp with "Hl"). iIntros "Hd". wp_store.
  rw (_ : Z.pred (Z.of_nat (S n)) = Z.of_nat n); [|lia]. rw -Z.add_1_r IH. iApply (wp_wand with "H"). iIntros ([]) "H".
  cbn [replicate]. rw big_sepL_cons Z.add_0_r. iFrame. iSplit; [done|].
  iApply (big_sepL_impl with "H"). iIntros "!>" (k x _) "H". by rw (_ : i + 1 + Z.of_nat k = i + Z.of_nat (S k)); [|lia].
Qed.

Lemma buddy_list_init_wp :
  ([∗ list] o ∈ seqZ 0 NR_MEM_LISTS, raw_header o) ⊢
  wp (buddy_list_init buddy_list) (λ _, buddy (replicate 10 [])).
Proof.
  iIntros "H". iApply (wp_wand with "[H]"); [by iApply (buddy_list_init_from_wp (Z.to_nat NR_MEM_LISTS))|].
  iIntros ([]) "$". iPureIntro. unfold frames. by rw frames_nil.
Qed.

Lemma get_free_page_null priority m : priority ≠ GFP_ATOMIC → get_free_page buddy_list priority m = Ok NULL m.
Proof. intros Hp. unfold get_free_page, __get_free_pages. by rw (proj2 (Z.eqb_neq _ _) Hp). Qed.

(** A request for memory that is not atomic never gets a page: [get_free_page] returns the null
    address and changes nothing. *)
Theorem get_free_page_not_atomic priority m : priority ≠ GFP_ATOMIC →
  get_free_page buddy_list priority m = Ok NULL m.
Proof. apply get_free_page_null. Qed.

(** [alloc_mem] takes the exponential of the number of pages for the order: between four and
    thirty pages it always answers NULL, and from thirty-two pages on it allocates a single page. *)
Theorem alloc_mem_order size m : 0 ≤ size →
  (4 ≤ Z.shiftr size PAGE_SHIFT ≤ 30 → alloc_mem buddy_list size m = Ok NULL m) ∧
  (32 ≤ Z.shiftr size PAGE_SHIFT → alloc_mem buddy_list size m = get_free_pages buddy_list 0 m).
Proof.
  intros Hs. unfold alloc_mem. set (n := Z.shiftr size PAGE_SHIFT). split; intros Hn.
  - rw power_small; [|lia]. unfold get_free_pages.
    rw (_ : (2 ^ n >=? NR_MEM_LISTS) = true); [done|]. rw Z.geb_leb. apply Z.leb_le.
    pose proof (Z.pow_le_mono_r 2 4 n). unfold NR_MEM_LISTS. lia.
  - assert (power n = 0) as ->; [|done]. unfold power. rw (proj2 (Z.eqb_neq n 0)); [|lia].
    rw (proj2 (Z.gtb_lt n 0)); [|lia]. rw iter_double Z2Nat.id; [|lia].
    replace n with (32 + (n - 32)) by lia. rw Z.pow_add_r; [|lia|lia]. unfold s32.
    rw (Z.mul_comm (2 ^ 32)) Z.add_comm Z_mod_plus_full. done.
Qed.
End spec.

Lemma get_free_page_not_atomic_witness : 3 ≠ GFP_ATOMIC ∧ get_free_page 64 3 ∅ = Ok NULL ∅.
Proof. split; [discriminate|]. apply (get_free_page_not_atomic 64 3 ∅). discriminate. Defined.

Lemma alloc_mem_order_witness : 4 ≤ Z.shiftr 16384 PAGE_SHIFT ≤ 30 ∧ alloc_mem 64 16384 ∅ = Ok NULL ∅.
Proof. split; [vm_compute; split; discriminate|]. apply (alloc_mem_order 64 16384 ∅); vm_compute; [discriminate|split; discriminate]. Defined.
