(* ===== verification/BuddyTidy.v ===== *)
(** * Merging the free blocks: [buddy_list_tidy]

    It runs once, at the end of the boot, when every page of the main memory is in the list of order
    zero and the other lists are empty. *)

From S2P Require Export BuddySpec.

(** ** Merging as a function

    The blocks of order [i] that stay, and those that two neighbours became. *)
Fixpoint merge (i : Z) (ks : list Z) : list Z * list Z :=
  match ks with
  | k :: ((k' :: r) as t) =>
      if k + 2 ^ i =? k' then let '(s, m) := merge i r in (s, k :: m)
      else let '(s, m) := merge i t in (k :: s, m)
  | _ => (ks, [])
  end.

(** In ascending order, without overlap, and below the last page of the address space. *)
Inductive spaced (i : Z) : Z → list Z → Prop :=
  | spaced_nil lo : spaced i lo []
  | spaced_cons lo k ks : lo ≤ k → k + 2 ^ i < 2 ^ 20 → spaced i (k + 2 ^ i) ks → spaced i lo (k :: ks).

Lemma spaced_le i lo lo' ks : lo' ≤ lo → spaced i lo ks → spaced i lo' ks.
Proof. intros Hlo H. destruct H; constructor; try done; lia. Qed.

Lemma list_ind2 {A} (P : list A → Prop) : P [] → (∀ a, P [a]) →
  (∀ a b l, P l → P (b :: l) → P (a :: b :: l)) → ∀ l, P l.
Proof.
  intros H0 H1 H2 l. assert (P l ∧ ∀ a, P (a :: l)) as [H _]; [|done].
  induction l as [|b l [IH1 IH2]]; [done|]. split; [apply IH2|]. intros a. apply H2; [done|]. apply IH2.
Qed.

Lemma merge_cons2 i k k' r : merge i (k :: k' :: r) =
  if k + 2 ^ i =? k' then ((merge i r).1, k :: (merge i r).2)
  else (k :: (merge i (k' :: r)).1, (merge i (k' :: r)).2).
Proof.
  change (merge i (k :: k' :: r)) with (if k + 2 ^ i =? k' then let '(s, m) := merge i r in (s, k :: m)
    else let '(s, m) := merge i (k' :: r) in (k :: s, m)).
  destruct (k + 2 ^ i =? k'); [by destruct (merge i r)|by destruct (merge i (k' :: r))].
Qed.

Lemma merge_frames i ks : 0 ≤ i →
  ks ≫= blk_pages i ≡ₚ ((merge i ks).1 ≫= blk_pages i) ++ ((merge i ks).2 ≫= blk_pages (i + 1)).
Proof.
  intros Hi. induction ks as [|k|k k' r IH1 IH2] using list_ind2; [done|by rw /= !app_nil_r|].
  rw merge_cons2. destruct (Z.eqb_spec (k + 2 ^ i) k') as [<-|].
  - cbn [fst snd]. change ((k :: k + 2 ^ i :: r) ≫= blk_pages i) with (blk_pages i k ++ blk_pages i (k + 2 ^ i) ++ (r ≫= blk_pages i)).
    change ((k :: (merge i r).2) ≫= blk_pages (i + 1)) with (blk_pages (i + 1) k ++ ((merge i r).2 ≫= blk_pages (i + 1))).
    rw blk_pages_split // IH1. rw !assoc. f_equiv. rw -(assoc (++) ((merge i r).1 ≫= _)). apply (comm (++)).
  - cbn [fst snd]. change ((k :: k' :: r) ≫= blk_pages i) with (blk_pages i k ++ ((k' :: r) ≫= blk_pages i)).
    rw IH2. change ((k :: (merge i (k' :: r)).1) ≫= blk_pages i) with (blk_pages i k ++ ((merge i (k' :: r)).1 ≫= blk_pages i)).
    by rw assoc.
Qed.

Lemma merge_spaced i lo ks : 0 ≤ i → spaced i lo ks → spaced (i + 1) lo (merge i ks).2.
Proof.
  intros Hi. assert (2 ^ (i + 1) = 2 * 2 ^ i) as Hpow by (rw Z.pow_add_r; lia).
  revert lo. induction ks as [|k|k k' r IH1 IH2] using list_ind2; intros lo H; [constructor|constructor|].
  inversion H as [|? ? ? Hlo Hk H' ]; subst. inversion H' as [|? ? ? Hlo' Hk' H'']; subst.
  rw merge_cons2. destruct (Z.eqb_spec (k + 2 ^ i) k') as [<-|]; cbn [snd].
  - constructor; [done|lia|]. replace (k + 2 ^ (i + 1)) with (k + 2 ^ i + 2 ^ i) by lia. by apply IH1.
  - apply IH2. eapply spaced_le; [|exact H']. pose proof (pow2_pos i Hi). lia.
Qed.

Lemma merge_length i ks : (length (merge i ks).1 + 2 * length (merge i ks).2 = length ks)%nat.
Proof.
  induction ks as [|k|k k' r IH1 IH2] using list_ind2; [done|done|]. rw merge_cons2.
  destruct (k + 2 ^ i =? k'); cbn [fst snd length] in *; lia.
Qed.

(** ** Nothing is left to merge *)

(** No two of the blocks are neighbours. *)
Definition apart (i : Z) (ks : list Z) : Prop := ∀ x y, x ∈ ks → y ∈ ks → x + 2 ^ i ≠ y.

(** The lists of a tidy memory: below the highest order no two free blocks of a list are neighbours. *)
Definition tidy_from_order (i : Z) (n : nat) (L : list (list Z)) : Prop := ∀ (j : nat) ks, L !! j = Some ks → (j < n)%nat → apart (i + Z.of_nat j) ks.
Definition tidy (L : list (list Z)) : Prop := tidy_from_order 0 9 L.

Lemma spaced_ge i lo ks x : 0 ≤ i → spaced i lo ks → x ∈ ks → lo ≤ x.
Proof.
  intros Hi. pose proof (pow2_pos i Hi). induction 1 as [|lo k ks Hlo Hk Hs IH]; intros Hx; [by apply not_elem_of_nil in Hx|].
  apply elem_of_cons in Hx as [->|Hx]; [done|]. specialize (IH Hx). lia.
Qed.

Lemma merge_sub i ks x : x ∈ (merge i ks).1 → x ∈ ks.
Proof.
  induction ks as [|k|k k' r IH1 IH2] using list_ind2; [done|done|]. rw merge_cons2. destruct (k + 2 ^ i =? k'); cbn [fst].
  - intros Hx. right. right. by apply IH1.
  - intros [->|Hx]%elem_of_cons; [left|]. right. by apply IH2.
Qed.

Lemma merge_apart i lo ks : 0 ≤ i → spaced i lo ks → apart i (merge i ks).1.
Proof.
  intros Hi. pose proof (pow2_pos i Hi) as Hp. revert lo. induction ks as [|k|k k' r IH1 IH2] using list_ind2; intros lo H.
  - intros x y Hx. by apply not_elem_of_nil in Hx.
  - intros x y ->%list_elem_of_singleton ->%list_elem_of_singleton. lia.
  - inversion H as [|? ? ? Hlo Hk H']; subst. inversion H' as [|? ? ? Hlo' Hk' H'']; subst. rw merge_cons2.
    destruct (Z.eqb_spec (k + 2 ^ i) k') as [_|Hne]; cbn [fst]; [by apply (IH1 _ H'')|].
    assert (∀ y, y ∈ (merge i (k' :: r)).1 → k + 2 ^ i < y) as Hy.
    { intros y [->|Hy]%merge_sub%elem_of_cons; [lia|]. pose proof (spaced_ge _ _ _ y Hi H'' Hy). lia. }
    intros x y [->|Hx]%elem_of_cons [->|Hy']%elem_of_cons.
    + lia.
    + specialize (Hy y Hy'). lia.
    + specialize (Hy x Hx). lia.
    + by apply (IH2 _ H').
Qed.

Lemma apart_nil i : apart i [].
Proof. intros x y Hx. by apply not_elem_of_nil in Hx. Qed.

Section tidy.
Context (buddy_list pages : Z).
#[local] Abbreviation pg := (pg pages).
#[local] Abbreviation header := (header buddy_list).
#[local] Abbreviation free_list := (free_list buddy_list pages).

Lemma is_pageclosed_wp (i k k' : Z) (Q : bool → heapProp) : 0 ≤ i ≤ 9 → 0 ≤ k → k + 2 ^ i ≤ k' → k' + 2 ^ i < 2 ^ 20 →
  pg k ≠ NULL → pg k' ≠ NULL →
  page_info pages k -∗ page_info pages k' -∗
  (page_info pages k -∗ page_info pages k' -∗ Q (k + 2 ^ i =? k')) -∗ wp (is_pageclosed (pg k) (pg k') i) Q.
Proof.
  iIntros (Hi Hk Hk' Hend Hn Hn') "[Ha Hf] [Ha' Hf'] HQ". unfold is_pageclosed.
  rw (proj2 (Z.eqb_neq _ _) Hn) (proj2 (Z.eqb_neq _ _) Hn'). wp_load. wp_load.
  rw power_small; [|lia]. pose proof (pow2_pos i ltac:(lia)).
  assert (2 ^ i ≤ 2 ^ 9) by (apply Z.pow_le_mono_r; lia).
  rw (u32_small (_ + _)); [|unfold PAGE_SIZE; lia].
  rw (_ : (u32 (PAGE_SIZE * k - 2 ^ i * PAGE_SIZE) =? PAGE_SIZE * k') = false);
    [|apply Z.eqb_neq; unfold PAGE_SIZE, u32; dlia].
  rw orb_false_r. replace (PAGE_SIZE * k + 2 ^ i * PAGE_SIZE =? PAGE_SIZE * k') with (k + 2 ^ i =? k');
    [iApply ("HQ" with "[$Ha $Hf] [$Ha' $Hf']")|].
  unfold PAGE_SIZE. destruct (Z.eqb_spec (k + 2 ^ i) k'), (Z.eqb_spec (4096 * k + 2 ^ i * 4096) (4096 * k')); lia.
Qed.

Lemma free_list_node i a k b : free_list i (a ++ k :: b) ⊢ ⌜pg k ≠ NULL ∧ pg k ≠ header i⌝.
Proof.
  iIntros "[Hd _]". iDestruct (dlist_ne _ _ (pg k) with "Hd") as %[? ?]; [|done]. rw fmap_app. set_solver.
Qed.

(** The [next] cell of a block in a list. *)
Lemma free_list_next i a k b : free_list i (a ++ k :: b) ⊢
  (pg k + list_next) ↦ first_or (header i) (pg <$> b) ∗
  ((pg k + list_next) ↦ first_or (header i) (pg <$> b) -∗ free_list i (a ++ k :: b)).
Proof.
  iIntros "[Hd H]". rw fmap_app. iDestruct (dlist_next _ _ (_ :: _) with "Hd") as (n) "(Hn & %Hn & Hd)".
  rw (Hn _ _ eq_refl). iFrame "Hn". iIntros "Hn". iFrame "H". rw fmap_app. by iApply "Hd".
Qed.

(** Two neighbours become one block of the next order. *)
Lemma tidy_merge_wp i a k b ms Q : 0 ≤ i ≤ 9 →
  Z.of_nat (length (a ++ k :: k + 2 ^ i :: b)) ≤ 2 ^ 20 → Z.of_nat (length ms) < 2 ^ 20 →
  free_list i (a ++ k :: k + 2 ^ i :: b) -∗ free_list (i + 1) ms -∗
  (free_list i (a ++ b) -∗ free_list (i + 1) (ms ++ [k]) -∗ Q (inl (first_or (header i) (pg <$> b)))) -∗
  wp (nx ← load (pg k + list_next);
      n ← load (nx + list_next);
      nx ← load (pg k + list_next);
      list_del nx;;
      list_del (pg k);;
      count_pages buddy_list i (-2);;
      list_add (pg k) (header (i + 1));;
      count_pages buddy_list (i + 1) 1;;
      mret (inl n : Z + unit)) Q.
Proof.
  iIntros (Hi Hlen Hms) "H Hm HQ".
  iDestruct (free_list_next with "H") as "[Hn H]". wp_load. iDestruct ("H" with "Hn") as "H". unfold first_or at 1; simpl.
  rw (_ : a ++ k :: k + 2 ^ i :: b = (a ++ [k]) ++ k + 2 ^ i :: b); [|by rw -assoc_L].
  iDestruct (free_list_next with "H") as "[Hn H]". wp_load. iDestruct ("H" with "Hn") as "H".
  rw -(assoc_L (++)). iDestruct (free_list_next with "H") as "[Hn H]". wp_load. iDestruct ("H" with "Hn") as "H".
  unfold first_or at 1; simpl. iDestruct "H" as "(Hd & Hc & Hbs)".
  rw big_sepL_app !big_sepL_cons. iDestruct "Hbs" as "(Hba & Hb1 & Hb2 & Hbs)".
  rw (_ : pg <$> a ++ k :: k + 2 ^ i :: b = ((pg <$> a) ++ [pg k]) ++ pg (k + 2 ^ i) :: (pg <$> b));
    [|by rw fmap_app -assoc_L].
  iApply wp_bind. iApply (list_del_wp with "Hd"). iIntros "Hd Hp2". wp_pures. rw -(assoc_L (++)).
  iApply wp_bind. iApply (list_del_wp with "Hd"). iIntros "Hd Hp1". wp_pures.
  iApply wp_bind. iApply (count_pages_wp with "Hc"). iIntros "Hc". wp_pures.
  iDestruct "Hm" as "(Hd' & Hc' & Hbs')". iApply wp_bind.
  iApply (list_add_head_wp with "Hd' [Hp1]"); [by iApply lpoisoned_lnode|]. iIntros "Hd'". wp_pures.
  iApply wp_bind. iApply (count_pages_wp with "Hc'"). iIntros "Hc'". wp_pures.
  iApply ("HQ" with "[Hd Hc Hba Hbs]").
  - unfold BuddySpec.free_list. rw big_sepL_app fmap_app. iFrame. rw length_app /= in Hlen. rw !length_app /=.
    rw s32_count; [|lia]. by replace (Z.of_nat (length a + S (S (length b))) + -2) with (Z.of_nat (length a + length b)) by lia.
  - unfold BuddySpec.free_list. rw big_sepL_app big_sepL_singleton fmap_app length_app. iFrame "Hd' Hbs'".
    rw s32_count; [|lia]. rw (_ : Z.of_nat (length ms + length [k]) = Z.of_nat (length ms) + 1); [|simpl; lia].
    iFrame "Hc'". iDestruct (lpoisoned_lnode with "Hp2") as "Hp2". iCombine "Hp2 Hb2" as "Hb2".
    rw -(blk_link pages i (k + 2 ^ i)); [|lia]. iDestruct "Hb1" as "[$ Hb1]".
    unfold blk. iCombine "Hb1 Hb2" as "Hb". rw -big_sepL_app. unfold blk_pages.
    rw (_ : seqZ (k + 2 ^ i) (2 ^ i) = seqZ (k + 1 + (2 ^ i - 1)) (2 ^ i)); [|f_equal; lia].
    pose proof (pow2_pos i ltac:(lia)). rw -seqZ_app; [|lia|lia].
    rw (_ : 2 ^ (i + 1) - 1 = 2 ^ i - 1 + 2 ^ i); [done|]. rw Z.pow_add_r; lia.
Qed.

(** The walk over one list. *)
Definition tidy_inv (i : Z) (ks : list Z) (n : nat) (pos : Z) : heapProp :=
  ∃ a b ms lo, ⌜n = length b ∧ pos = first_or (header i) (pg <$> b) ∧ 0 ≤ lo ∧ spaced i lo b ∧
      (merge i ks).1 = a ++ (merge i b).1 ∧ (merge i ks).2 = ms ++ (merge i b).2 ∧
      (Z.of_nat (length (a ++ b)) + 2 * Z.of_nat (length ms) ≤ 2 ^ 20)%Z⌝ ∗
    free_list i (a ++ b) ∗ free_list (i + 1) ms.

Lemma tidy_step_wp i ks n pos : 0 ≤ i ≤ 9 → tidy_inv i ks n pos ⊢ wp (tidy_step buddy_list i pos) (λ r,
  match r with
  | inl pos' => ∃ n', ⌜(n' < n)%nat⌝ ∗ tidy_inv i ks n' pos'
  | inr _ => free_list i (merge i ks).1 ∗ free_list (i + 1) (merge i ks).2
  end).
Proof.
  iIntros (Hi) "(%a & %b & %ms & %lo & (-> & -> & %Hlo & %Hsp & %H1 & %H2 & %Hlen) & H & Hm)". unfold tidy_step.
  destruct b as [|k b].
  { change (first_or (header i) (pg <$> [])) with (header i). rw Z.eqb_refl andb_false_r. wp_pures.
    cbn [merge fst snd] in H1, H2. rw app_nil_r in H1. rw app_nil_r in H2. rw app_nil_r H1 H2. iFrame. }
  change (first_or (header i) (pg <$> k :: b)) with (pg k).
  iDestruct (free_list_node with "H") as %[Hk Hh]. rw (proj2 (Z.eqb_neq _ _) Hk) (proj2 (Z.eqb_neq _ _) Hh). cbn [negb andb].
  iDestruct (free_list_next with "H") as "[Hn H]". wp_load. wp_load. iDestruct ("H" with "Hn") as "H".
  inversion Hsp as [|? ? ? Hlok Hend Hsp']; subst. pose proof (pow2_pos i (proj1 Hi)). destruct b as [|k' b].
  { change (first_or (header i) (pg <$> [])) with (header i). wp_pures. iExists 0%nat. iSplit; [iPureIntro; simpl; lia|].
    iExists (a ++ [k]), [], ms, lo. rw app_nil_r. iFrame. iPureIntro. simpl in *. rw !app_nil_r in H2 |- *.
    split_and!; try done; constructor. }
  change (first_or (header i) (pg <$> k' :: b)) with (pg k').
  rw (_ : a ++ k :: k' :: b = (a ++ [k]) ++ k' :: b); [|by rw -assoc_L].
  iDestruct (free_list_node with "H") as %[Hk' Hh']. rw (proj2 (Z.eqb_neq _ _) Hh'). wp_pures. rw -(assoc_L (++)).
  iDestruct (free_list_next with "H") as "[Hn H]".
  change (first_or (header i) (pg <$> k' :: b)) with (pg k'). wp_load. iDestruct ("H" with "Hn") as "H".
  inversion Hsp' as [|? ? ? Hlok' Hend' Hsp'']; subst.
  iDestruct "H" as "(Hd & Hc & Hbs)". rw big_sepL_app !big_sepL_cons. iDestruct "Hbs" as "(Hba & [Hi1 Hb1] & [Hi2 Hb2] & Hbs)".
  iApply wp_bind. iApply (is_pageclosed_wp i k k' with "Hi1 Hi2"); [lia|lia|lia|lia|done|done|]. iIntros "Hi1 Hi2".
  iAssert (free_list i (a ++ k :: k' :: b)) with "[Hd Hc Hba Hi1 Hb1 Hi2 Hb2 Hbs]" as "H".
  { unfold BuddySpec.free_list. rw big_sepL_app !big_sepL_cons. iFrame. }
  rw merge_cons2 in H1. rw merge_cons2 in H2. rw length_app /= in Hlen. destruct (Z.eqb_spec (k + 2 ^ i) k') as [<-|Hne].
  - iApply (tidy_merge_wp with "H Hm"); [lia|rw length_app /=; lia|lia|]. iIntros "H Hm".
    iExists (length b). iSplit; [iPureIntro; simpl; lia|]. iExists a, b, (ms ++ [k]), (k + 2 ^ i + 2 ^ i). iFrame. iPureIntro.
    split_and!; try done; [lia|by rw -assoc_L|]. rw !length_app /=. lia.
  - wp_pures. iExists (S (length b)). iSplit; [iPureIntro; simpl; lia|]. iExists (a ++ [k]), (k' :: b), ms, (k + 2 ^ i).
    iFrame "Hm". iSplitR; [|by rw -(assoc_L (++))].
    iPureIntro. split_and!; try done; [lia|by rw -assoc_L|]. rw !length_app /=. lia.
Qed.

Lemma tidy_list_wp i ks Q : 0 ≤ i ≤ 9 → Z.of_nat (length ks) ≤ 2 ^ 20 → (∃ lo, 0 ≤ lo ∧ spaced i lo ks) →
  free_list i ks -∗ free_list (i + 1) [] -∗
  (free_list i (merge i ks).1 -∗ free_list (i + 1) (merge i ks).2 -∗ Q tt) -∗
  wp (pos ← load (header i + list_next); loop (tidy_step buddy_list i) pos) Q.
Proof.
  iIntros (Hi Hlen (lo & Hlo & Hsp)) "H Hm HQ". iDestruct "H" as "((Hn & Hp & %Hne) & H)".
  iDestruct (nexts_first with "Hn") as "[Hf Hn]". wp_load. iDestruct ("Hn" with "Hf") as "Hn".
  iApply (wp_wand _ (λ _, free_list i (merge i ks).1 ∗ free_list (i + 1) (merge i ks).2)%I with "[-HQ]");
    [|iIntros ([]) "[H1 H2]"; iApply ("HQ" with "H1 H2")].
  iApply (wp_loop _ (tidy_inv i ks) _ (length ks)); last first.
  { iExists [], ks, [], lo. iFrame. iPureIntro. split_and!; try done. simpl. lia. }
  { intros n pos. by apply tidy_step_wp. }
  iIntros "(%a & %b & %ms & %lo' & (%Hb & _) & ((Hn & _) & _) & _)". rw nexts_cells. iApply (cells_le with "Hn").
  rw length_fmap length_app. lia.
Qed.

(** The lists from [i] on: blocks [ks] in the first, none in the [n] after it. *)
Lemma tidy_from_wp n i ks : 0 ≤ i → i + Z.of_nat n = 9 → Z.of_nat (length ks) ≤ 2 ^ 20 →
  (∃ lo, 0 ≤ lo ∧ spaced i lo ks) →
  free_list i ks ∗ ([∗ list] j ∈ seqZ (i + 1) (Z.of_nat n), free_list j []) ⊢
  wp (tidy_from buddy_list i n) (λ r, ⌜r = 0⌝ ∗ ∃ L,
    ⌜length L = S n ∧ frames_from i L ≡ₚ ks ≫= blk_pages i ∧ tidy_from_order i n L⌝ ∗ [∗ list] j ↦ xs ∈ L, free_list (i + Z.of_nat j) xs).
Proof.
  revert i ks. induction n as [|n IH]; intros i ks Hi Hin Hlen Hsp; iIntros "[H Hs]"; cbn [tidy_from].
  { wp_pures. iSplit; [done|]. iExists [ks]. simpl. rw app_nil_r Z.add_0_r. iFrame. iPureIntro. split_and!; [done|done|]. intros j xs _ Hj. lia. }
  rw seqZ_cons; [|lia]. rw big_sepL_cons. iDestruct "Hs" as "[Hm Hs]".
  rw (_ : Z.succ (i + 1) = i + 1 + 1); [|lia]. rw (_ : Z.pred (Z.of_nat (S n)) = Z.of_nat n); [|lia].
  iDestruct "H" as "(Hd & Hc & Hb)". wp_load. iAssert (free_list i ks) with "[$Hd $Hc $Hb]" as "H".
  destruct (Z.leb_spec (Z.of_nat (length ks)) 0).
  - destruct ks; [|simpl in *; lia]. wp_pures. iSplit; [done|]. iExists (replicate (S (S n)) []).
    iSplit. { iPureIntro. rw length_replicate. split_and!; [done| |].
      2:{ intros j xs [-> _]%lookup_replicate _. apply apart_nil. }
      clear. generalize (S (S n)) as m. intros m.
      revert i. induction m as [|m IH]; intros i; [done|]. simpl. apply IH. }
    cbn [replicate]. rw !big_sepL_cons Z.add_0_r (_ : i + Z.of_nat 1 = i + 1); [|lia]. iFrame "H Hm".
    clear. iInduction n as [|n] "IH" forall (i); [done|]. cbn [replicate]. rw big_sepL_cons.
    rw seqZ_cons; [|lia]. rw big_sepL_cons. iDestruct "Hs" as "[H Hs]".
    rw (_ : i + Z.of_nat 2 = i + 1 + 1); [|lia]. iFrame "H".
    rw (_ : Z.succ (i + 1 + 1) = i + 1 + 1 + 1); [|lia]. rw (_ : Z.pred (Z.of_nat (S n)) = Z.of_nat n); [|lia].
    iSpecialize ("IH" with "Hs"). iApply (big_sepL_impl with "IH"). iIntros "!>" (k x Hk) "H".
    by rw (_ : i + 1 + Z.of_nat (S (S k)) = i + Z.of_nat (S (S (S k)))); [|lia].
  - iApply wp_assoc. iApply wp_bind. iApply (tidy_list_wp with "H Hm"); [lia|done|done|]. iIntros "H Hm".
    destruct Hsp as (lo & Hlo & Hsp). pose proof (merge_length i ks).
    iApply (wp_wand with "[Hm Hs]").
    { iApply (IH (i + 1) (merge i ks).2); [lia|lia|lia| |iFrame]. exists lo. split; [done|]. by apply merge_spaced. }
    iIntros (r) "(-> & %L & (%HL & %Hfr & %Hty) & HL)". iSplit; [done|]. iExists ((merge i ks).1 :: L).
    rw big_sepL_cons Z.add_0_r. iFrame "H". iSplit.
    + iPureIntro. split_and!; [simpl; lia|simpl; rw Hfr; symmetry; by apply merge_frames|].
      intros [|j] xs Hj Hjn; simpl in Hj.
      * injection Hj as <-. rw Z.add_0_r. by apply (merge_apart _ lo).
      * rw (_ : i + Z.of_nat (S j) = i + 1 + Z.of_nat j); [|lia]. apply (Hty j xs Hj). lia.
    + iApply (big_sepL_impl with "HL"). iIntros "!>" (k x Hk) "H".
      by rw (_ : i + 1 + Z.of_nat k = i + Z.of_nat (S k)); [|lia].
Qed.

Lemma bind_blk_0 ks : ks ≫= blk_pages 0 = ks.
Proof. induction ks as [|k ks IH]; [done|]. change ((k :: ks) ≫= blk_pages 0) with (k :: (ks ≫= blk_pages 0)). by rw IH. Qed.

Lemma frames_pages ks : frames (ks :: replicate 9 []) = ks.
Proof. unfold frames. cbn [replicate frames_from]. rw bind_blk_0. apply app_nil_r. Qed.

Lemma buddy_list_tidy_wp ks : spaced 0 0 ks →
  buddy buddy_list pages (ks :: replicate 9 []) ⊢
  wp (buddy_list_tidy buddy_list) (λ r, ⌜r = 0⌝ ∗ ∃ L, ⌜frames L ≡ₚ ks ∧ tidy L⌝ ∗ buddy buddy_list pages L).
Proof.
  intros Hsp. iIntros "[[_ %Hfr] H]". rw frames_pages in Hfr. iApply (wp_wand with "[H]").
  { iApply (tidy_from_wp 9 0 ks); [lia|lia|lia| |].
    - exists 0. split; [lia|done].
    - rw big_sepL_cons. iDestruct "H" as "[$ H]".
      change (seqZ (0 + 1) (Z.of_nat 9)) with [1; 2; 3; 4; 5; 6; 7; 8; 9]. iExact "H". }
  iIntros (r) "(-> & %L & (%HL & %HLf & %Hty) & H)". iSplit; [done|]. iExists L. rw bind_blk_0 in HLf. iSplit; [done|].
  iSplit; [|done]. iPureIntro. split; [done|]. unfold frames. by rw (Permutation_length HLf).
Qed.

(** C8: At boot, with the free pages in the list of order zero in ascending order and the other lists
    empty, [buddy_list_tidy] ends and merges all that can be merged: no page is lost, gained or in two blocks, and in the list of each order
    below the highest no two free blocks are neighbours any more. *)
Theorem buddy_list_tidy_correct ks :
  {{ buddy buddy_list pages (ks :: replicate 9 []) ∗ ⌜spaced 0 0 ks⌝ }}
    buddy_list_tidy buddy_list
  {{ r, ⌜r = 0⌝ ∗ ∃ L, ⌜frames L ≡ₚ ks ∧ tidy L⌝ ∗ buddy buddy_list pages L }}.
Proof. apply triple_wp. iIntros "[H %Hsp]". by iApply buddy_list_tidy_wp. Qed.
End tidy.
