(* ===== verification/Slab.v ===== *)
(** * Object caches: mm/slab.c

    A cache keeps slabs in three lists: partial, full and free.  A slab is sixteen pages: its header, an
    array of indices that chains its free objects ([slab_bufctl]), and the objects.  The global
    variables [buddy_list] and [cache_chain] are parameters, their addresses. *)

From S2P Require Export Buddy.

(** struct slab; [list] is its first member. *)
Definition s_mem : Z := 8.
Definition slab_free : Z := 12.
Definition inuse : Z := 16.
Definition sizeof_slab : Z := 20.

(** struct kmem_cache, its member [lists] included *)
Definition kc_flags : Z := 0.
Definition nr_frees : Z := 4.
Definition nr_pages : Z := 12.
Definition obj_size : Z := 16.
Definition obj_num : Z := 20.
Definition kc_name : Z := 28.
Definition kc_next : Z := 44.
Definition partial : Z := 52.
Definition full : Z := 60.
Definition lists_free : Z := 68.
Definition sizeof_kmem_cache : Z := 76.

Definition DEFAULT_SLAB_PAGES : Z := 4.
Definition MAX_SLAB_PAGES : Z := 8.
Definition BUFCTL_END : Z := 2 ^ 32 - 1.

(** [~value + 1], an unsigned long *)
Definition VALUE_MASK (value : Z) : Z := u32 (Z.lnot value + 1).

Definition slab_bufctl (slabp i : Z) : Z := slabp + sizeof_slab + 4 * i.

Definition obj_to_index (cachep slabp objp : Z) : M Z :=
  m ← load (slabp + s_mem);
  s ← load (cachep + obj_size);
  mret (u32 (Z.quot (s32 (objp - m)) s)).

Definition index_to_obj (cachep slabp free : Z) : M Z :=
  m ← load (slabp + s_mem);
  s ← load (cachep + obj_size);
  mret (m + u32 (s * free)).

Definition slab_get_obj (cachep slabp : Z) : M Z :=
  if (cachep =? NULL) || (slabp =? NULL) then mret NULL else
  f ← load (slabp + slab_free);
  if f =? BUFCTL_END then mret NULL else
  f ← load (slabp + slab_free);
  objp ← index_to_obj cachep slabp f;
  f ← load (slabp + slab_free);
  next ← load (slab_bufctl slabp f);
  n ← load (slabp + inuse);
  store (slabp + inuse) (u32 (n + 1));;
  store (slabp + slab_free) next;;
  n ← load (slabp + inuse);
  num ← load (cachep + obj_num);
  (if n =? u32 num then
     list_del slabp;;
     list_add slabp (cachep + full)
   else mret tt);;
  mret objp.

Definition slab_free_obj (cachep slabp objp : Z) : M Z :=
  if (cachep =? NULL) || (slabp =? NULL) || (objp =? NULL) then mret (-1) else
  objnr ← obj_to_index cachep slabp objp;
  num ← load (cachep + obj_num);
  if objnr >? u32 num then mret (-2) else
  f ← load (slabp + slab_free);
  store (slab_bufctl slabp objnr) f;;
  store (slabp + slab_free) objnr;;
  n ← load (slabp + inuse);
  store (slabp + inuse) (u32 (n - 1));;
  n ← load (slabp + inuse);
  (if n =? 0 then
     list_del slabp;;
     list_add slabp (cachep + lists_free)
   else mret tt);;
  mret 0.

Definition slab_estimate (obj_size : Z) : Z :=
  s32 (u32 (power DEFAULT_SLAB_PAGES * PAGE_SIZE - sizeof_slab) / u32 obj_size).

(** [for(i = 0; i < cachep->obj_num; ++i)]; returns the last [i]. *)
Definition bufctl_fill (cachep slabp : Z) : M Z :=
  loop (λ i,
    num ← load (cachep + obj_num);
    if i <? num then store (slab_bufctl slabp i) (i + 1);; mret (inl (i + 1))
    else mret (inr i)) 0.

Definition slab_init (cachep slabp args : Z) : M Z :=
  store (slabp + slab_free) 0;;
  store (slabp + inuse) 0;;
  INIT_LIST_HEAD slabp;;
  num ← load (cachep + obj_num);
  let ptr := args + u32 ((num + 1) * 4) in
  store (slabp + s_mem) ptr;;
  i ← bufctl_fill cachep slabp;
  store (slab_bufctl slabp (i - 1)) BUFCTL_END;;
  mret 0.

Definition kmem_get_slab (cachep : Z) : M Z :=
  if cachep =? NULL then mret NULL else
  e ← list_empty_careful (cachep + partial);
  ok ← (if e : bool then
          e ← list_empty_careful (cachep + lists_free);
          if e : bool then mret false
          else
            '(r, item) ← list_get_del (cachep + lists_free) (Some NULL);
            if negb (r =? 0) then mret false
            else list_add (default NULL item) (cachep + partial);; mret true
        else mret true);
  if negb ok then mret NULL else
  '(r, pos) ← list_get (cachep + partial) (Some NULL);
  if negb (r =? 0) then mret NULL else mret (default NULL pos).

Definition kmem_add_slab (cachep slabp : Z) : M Z :=
  if (cachep =? NULL) || (slabp =? NULL) then mret (-1) else
  f ← load (cachep + nr_frees);
  num ← load (cachep + obj_num);
  store (cachep + nr_frees) (u32 (f + num));;
  list_add_tail slabp (cachep + lists_free);;
  mret 0.

Definition kmem_free_slab (cachep slabp : Z) : M Z :=
  if (cachep =? NULL) || (slabp =? NULL) then mret (-1) else
  list_del slabp;; mret 0.

Definition kmem_list_init (parent : Z) : M Z :=
  INIT_LIST_HEAD parent;;
  INIT_LIST_HEAD (parent + (full - partial));;
  INIT_LIST_HEAD (parent + (lists_free - partial));;
  mret 0.

Section globals.
Context (buddy_list cache_chain : Z).

Definition slab_alloc : M Z := get_free_pages buddy_list DEFAULT_SLAB_PAGES.

Definition cache_grow (cachep : Z) : M Z :=
  bad ← (if cachep =? NULL then mret true else s ← load (cachep + obj_size); mret (s =? 0));
  if bad : bool then mret (-1) else
  slabp ← slab_alloc;
  s ← load (cachep + obj_size);
  store (cachep + obj_num) (slab_estimate s);;
  p ← load (cachep + nr_pages);
  store (cachep + nr_pages) (u32 (p + power DEFAULT_SLAB_PAGES));;
  slab_init cachep slabp (slabp + sizeof_slab);;
  kmem_add_slab cachep slabp;;
  mret 0.

(** Each turn that grows the cache adds sixteen pages, and it does so below 256 pages only: seventeen
    turns are enough. *)
Definition kmem_get_obj (cachep : Z) : M Z :=
  run 17 (λ _ : unit,
    slabp ← kmem_get_slab cachep;
    obj ← slab_get_obj cachep slabp;
    if obj =? NULL then
      p ← load (cachep + nr_pages);
      if p >=? u32 (power MAX_SLAB_PAGES) then mret (inr NULL)
      else cache_grow cachep;; mret (inl tt)
    else mret (inr obj)) tt.

Definition kmem_free_obj (cachep objp : Z) : M Z :=
  if (cachep =? NULL) || (objp =? NULL) then mret (-1) else
  let slabp := Z.land objp (VALUE_MASK (DEFAULT_SLAB_PAGES * PAGE_SIZE)) in
  slab_free_obj cachep slabp objp.

Definition kmem_cache_init : M Z := INIT_LIST_HEAD cache_chain;; mret 0.

Definition kmem_chain_add (cachep : Z) : M Z :=
  if cachep =? NULL then mret (-1) else
  e ← list_empty_careful cache_chain;
  if e : bool then list_add (cachep + kc_next) cache_chain;; mret (-1)
  else
    r ← list_for_each_safe cache_chain (λ pos (_ : unit),
      s ← load (cachep + obj_size);
      s' ← load (pos - kc_next + obj_size);
      if s <? s' then
        p ← load (pos + list_prev);
        __list_add (cachep + kc_next) p pos;;
        mret (inr 0)
      else
        n ← load (pos + list_next);
        if n =? cache_chain then
          n ← load (pos + list_next);
          __list_add (cachep + kc_next) pos n;;
          mret (inr 0)
        else mret (inl tt)) tt;
    match r with inr r => mret r | inl _ => mret (-1) end.

Definition kmem_cache_alloc : M Z :=
  if sizeof_kmem_cache >? PAGE_SIZE then mret NULL else
  get_free_pages buddy_list (Z.shiftr sizeof_kmem_cache PAGE_SHIFT).

Definition kmem_cache_create (name size flags : Z) : M Z :=
  if (name =? NULL) || (size =? 0) then mret NULL else
  cachep ← kmem_cache_alloc;
  if cachep =? NULL then mret NULL else
  strncpy (cachep + kc_name) name 16;;
  store (cachep + obj_size) (s32 size);;
  store (cachep + nr_frees) 0;;
  store (cachep + obj_num) 0;;
  store (cachep + kc_flags) flags;;
  store (cachep + nr_pages) 0;;
  kmem_list_init (cachep + partial);;
  cache_grow cachep;;
  kmem_chain_add cachep;;
  mret cachep.

(** The names are the addresses of the string literals, the sizes those of the structures. *)
Definition init_kmem_cache (tsk_cachep thread_union_cachep vma_cachep inode_cachep file_cachep : Z)
    (s_tsk s_task_union s_vma s_inode s_file : Z) : M Z :=
  c ← kmem_cache_create s_tsk 680 0; store tsk_cachep c;;
  c ← load tsk_cachep;
  if c =? NULL then mret (-1) else
  c ← kmem_cache_create s_task_union 8192 0; store thread_union_cachep c;;
  c ← load thread_union_cachep;
  if c =? NULL then mret (-2) else
  c ← kmem_cache_create s_vma 56 0; store vma_cachep c;;
  c ← load vma_cachep;
  if c =? NULL then mret (-3) else
  c ← kmem_cache_create s_inode 96 0; store inode_cachep c;;
  c ← load inode_cachep;
  if c =? NULL then mret (-4) else
  c ← kmem_cache_create s_file 32 0; store file_cachep c;;
  c ← load file_cachep;
  if c =? NULL then mret (-5) else
  mret 0.
End globals.

Definition kmem_cache_size (cachep : Z) : M Z := v ← load (cachep + obj_size); mret (u32 v).
Definition kmem_cache_num (cachep : Z) : M Z := v ← load (cachep + obj_num); mret (u32 v).
Definition kmem_cache_name (cachep : Z) : M Z := mret (cachep + kc_name).
Definition kmem_cache_frees (cachep : Z) : M Z := load (cachep + nr_frees).
