(* ===== verification/SlabSpec.v ===== *)
(** * Slabs hand out distinct objects

    [slab_at slabp base n fl]: a slab whose free objects are [fl], the next one first. *)

From S2P Require Export Slab BuddySpec.

(** The indices [fl] are chained in [b] from [f] on. *)
Fixpoint chain (b : list Z) (f : Z) (fl : list Z) : Prop :=
  match fl with
  | [] => f = BUFCTL_END
  | i :: fl => f = i ∧ ∃ nx, b !! Z.to_nat i = Some nx ∧ chain b nx fl
  end.

Definition free_ok (n : Z) (fl : list Z) : Prop := NoDup fl ∧ Forall (λ i, 0 ≤ i < n) fl.

Definition slab_at (slabp base n : Z) (fl : list Z) : heapProp :=
  ∃ b f, ⌜chain b f fl ∧ free_ok n fl ∧ (n ≤ Z.of_nat (length b))%Z⌝ ∗
    (slabp + s_mem) ↦ base ∗ (slabp + slab_free) ↦ f ∗ (slabp + inuse) ↦ (n - Z.of_nat (length fl)) ∗
    arr (slabp + sizeof_slab) 4 b.

Definition cache_info (cachep s n : Z) : heapProp :=
  ⌜cachep ≠ NULL ∧ 0 < s ∧ 0 < n ∧ s * n < 2 ^ 31⌝ ∗ (cachep + obj_size) ↦ s ∗ (cachep + obj_num) ↦ n.

Lemma chain_insert b f fl i v : 0 ≤ i → Forall (λ j, 0 ≤ j) fl → i ∉ fl → chain b f fl → chain (<[Z.to_nat i := v]> b) f fl.
Proof.
  revert f. induction fl as [|j fl IH]; intros f Hi Hfl Hni; [done|]. intros (-> & nx & Hnx & Hc).
  inversion_clear Hfl as [|? ? Hj Hfl']. apply not_elem_of_cons in Hni as [Hne Hni].
  split; [done|]. exists nx. split; [|by apply IH]. rw list_lookup_insert_ne; [done|lia].
Qed.

Lemma chain_app b rest f fl : chain b f fl → chain (b ++ rest) f fl.
Proof.
  revert f. induction fl as [|i fl IH]; intros f; [done|]. intros (-> & nx & Hnx & Hch). split; [done|].
  exists nx. split; [by apply lookup_app_l_Some|]. by apply IH.
Qed.

Lemma free_ok_length n fl : 0 ≤ n → free_ok n fl → Z.of_nat (length fl) ≤ n.
Proof.
  intros Hn [Hnd Hr]. assert (length fl ≤ length (seqZ 0 n))%nat as H.
  { apply submseteq_length, NoDup_submseteq; [done|]. intros x Hx. apply elem_of_seqZ.
    pose proof (proj1 (Forall_forall _ _) Hr x Hx) as Hx'. simpl in Hx'. lia. }
  rw length_seqZ in H. lia.
Qed.

Lemma obj_index s i base : 0 < s → 0 ≤ i → s * i < 2 ^ 31 → u32 (Z.quot (s32 (base + s * i - base)) s) = i.
Proof.
  intros Hs Hi Hlt. rw (_ : base + s * i - base = s * i); [|lia]. rw s32_small; [|nia].
  rw Z.mul_comm Z.quot_mul; [|lia]. apply u32_small. nia.
Qed.

(** C12: [slab_get_obj] takes the first free object of the slab: the address it returns is that of this
    object, which is not free any more; with the last free object the slab goes to the full list, and
    otherwise it stays where it was. *)
Theorem slab_get_obj_correct cachep slabp s n base i fl hd xs ys fs :
  {{ cache_info cachep s n ∗ slab_at slabp base n (i :: fl) ∗
     dlist hd (xs ++ slabp :: ys) ∗ dlist (cachep + full) fs }}
    slab_get_obj cachep slabp
  {{ o, ⌜o = (base + s * i)%Z⌝ ∗ cache_info cachep s n ∗ slab_at slabp base n fl ∗
        if bool_decide (fl = []) then dlist hd (xs ++ ys) ∗ dlist (cachep + full) (fs ++ [slabp])
        else dlist hd (xs ++ slabp :: ys) ∗ dlist (cachep + full) fs }}.
Proof.
  apply triple_wp. iIntros "(([%Hc (%Hs & %Hn & %Hsn)] & Hsz & Hnum) & (%b & %f & (%Hch & %Hok & %Hlen) & Hm & Hf & Hu & Ha) & Hd & Hfs)".
  iDestruct (dlist_ne _ _ slabp with "Hd") as %[_ Hp]; [set_solver|]. destruct Hch as (-> & nx & Hnx & Hch).
  pose proof (free_ok_length n _ ltac:(lia) Hok) as Hfl. destruct Hok as [Hnd Hr].
  inversion Hnd as [|? ? Hni Hnd']; subst. inversion Hr as [|? ? Hi Hr']; subst. cbn [length] in *.
  unfold slab_get_obj, index_to_obj. rw (proj2 (Z.eqb_neq _ _) Hc) (proj2 (Z.eqb_neq _ _) Hp). wp_load.
  rw (proj2 (Z.eqb_neq i BUFCTL_END)); [|unfold BUFCTL_END; nia]. wp_load. wp_load. wp_load. wp_load.
  iApply wp_bind. iApply (arr_load with "Ha"); [done|unfold slab_bufctl; lia|]. iIntros "Ha".
  wp_load. wp_store. wp_store. wp_load. wp_load. rw !u32_small; [|nia..].
  rw (_ : n - Z.of_nat (S (length fl)) + 1 = n - Z.of_nat (length fl)); [|lia].
  iAssert (slab_at slabp base n fl) with "[Hm Hf Hu Ha]" as "Hslab".
  { iExists b, nx. iFrame. iPureIntro. split; [done|]. split; [split; done|done]. }
  destruct fl as [|j fl].
  - rw (_ : n - Z.of_nat (length []) = n); [|simpl; lia]. wp_pures. iApply wp_bind.
    iApply (list_del_wp with "Hd"). iIntros "Hd Hp". iApply wp_bind. iApply (list_add_head_wp with "Hfs [Hp]"); [by iApply lpoisoned_lnode|].
    iIntros "Hfs". wp_pures. rw bool_decide_true //. by iFrame.
  - rw (proj2 (Z.eqb_neq _ n)); [|simpl length; lia]. wp_pures. rw bool_decide_false //. by iFrame.
Qed.

(** C16: [slab_free_obj] gives an object back: it becomes the next free object, and the slab goes to the
    free list when no object of it is in use. *)
Theorem slab_free_obj_correct cachep slabp s n base i fl hd xs ys fs :
  {{ cache_info cachep s n ∗ slab_at slabp base n fl ∗ ⌜0 ≤ i < n ∧ i ∉ fl ∧ (base + s * i)%Z ≠ NULL⌝ ∗
     dlist hd (xs ++ slabp :: ys) ∗ dlist (cachep + lists_free) fs }}
    slab_free_obj cachep slabp (base + s * i)
  {{ r, ⌜r = 0⌝ ∗ cache_info cachep s n ∗ slab_at slabp base n (i :: fl) ∗
        if bool_decide (Z.of_nat (length (i :: fl)) = n)
        then dlist hd (xs ++ ys) ∗ dlist (cachep + lists_free) (fs ++ [slabp])
        else dlist hd (xs ++ slabp :: ys) ∗ dlist (cachep + lists_free) fs }}.
Proof.
  apply triple_wp. iIntros "(([%Hc (%Hs & %Hn & %Hsn)] & Hsz & Hnum) & (%b & %f & (%Hch & %Hok & %Hlen) & Hm & Hf & Hu & Ha) & (%Hi & %Hni & %Ho) & Hd & Hfs)".
  iDestruct (dlist_ne _ _ slabp with "Hd") as %[_ Hp]; [set_solver|].
  assert (free_ok n (i :: fl)) as Hok'.
  { destruct Hok as [Hnd Hr]. split; constructor; done. }
  pose proof (free_ok_length n _ ltac:(lia) Hok') as Hfl. cbn [length] in *.
  unfold slab_free_obj, obj_to_index. rw (proj2 (Z.eqb_neq _ _) Hc) (proj2 (Z.eqb_neq _ _) Hp) (proj2 (Z.eqb_neq _ _) Ho).
  wp_load. wp_load. wp_load. rw obj_index; [|lia|lia|nia]. rw (u32_small n); [|nia].
  destruct (Z.gtb_spec i n); [lia|]. wp_load. iApply wp_bind.
  destruct (lookup_lt_is_Some_2 b (Z.to_nat i)) as [w Hw]; [lia|].
  iApply (arr_store with "Ha"); [exact Hw|unfold slab_bufctl; lia|]. iIntros "Ha". wp_store. wp_load. wp_store. wp_load.
  rw u32_small; [|nia]. rw (_ : n - Z.of_nat (length fl) - 1 = n - Z.of_nat (S (length fl))); [|lia].
  iAssert (slab_at slabp base n (i :: fl)) with "[Hm Hf Hu Ha]" as "Hslab".
  { iExists (<[Z.to_nat i := f]> b), i. iFrame. iPureIntro. split; [|split; [done|by rw length_insert]].
    split; [done|]. exists f. split; [apply list_lookup_insert_eq; lia|].
    apply chain_insert; [lia| |done|done]. destruct Hok as [_ Hr]. eapply Forall_impl; [exact Hr|]. simpl. lia. }
  destruct (Z.eqb_spec (n - Z.of_nat (S (length fl))) 0).
  - wp_pures. iApply wp_bind. iApply (list_del_wp with "Hd"). iIntros "Hd Hp".
    iApply wp_bind. iApply (list_add_head_wp with "Hfs [Hp]"); [by iApply lpoisoned_lnode|].
    iIntros "Hfs". wp_pures. rw bool_decide_true; [|lia]. by iFrame.
  - wp_pures. rw bool_decide_false; [|lia]. by iFrame.
Qed.

(** A slab is too small for its objects: for every object size up to 500 bytes the objects that
    [slab_estimate] counts end behind the sixteen pages of the slab, because the array of indices in
    front of them is not counted. *)
Theorem slab_estimate_overruns size : 0 < size ≤ 500 →
  let n := slab_estimate size in
  power DEFAULT_SLAB_PAGES * PAGE_SIZE < sizeof_slab + 4 * (n + 1) + n * size.
Proof.
  intros Hs. unfold slab_estimate. change (u32 (power DEFAULT_SLAB_PAGES * PAGE_SIZE - sizeof_slab)) with 65516.
  rw (u32_small size); [|lia]. cbv zeta. pose proof (Z.div_mod 65516 size ltac:(lia)) as Hd.
  pose proof (Z.mod_pos_bound 65516 size ltac:(lia)). pose proof (Z.div_le_mono 0 65516 size ltac:(lia) ltac:(lia)).
  assert (65516 / 500 ≤ 65516 / size) by (apply Z.div_le_compat_l; lia). change (65516 / 500) with 131 in *.
  pose proof (Z.div_le_upper_bound 65516 size 65516 ltac:(lia)). rw s32_small; [|nia].
  change (power DEFAULT_SLAB_PAGES * PAGE_SIZE) with 65536. unfold sizeof_slab. nia.
Qed.

Lemma slab_estimate_overruns_witness : 0 < 56 ≤ 500 ∧ 65536 < sizeof_slab + 4 * (slab_estimate 56 + 1) + slab_estimate 56 * 56.
Proof. split; [lia|]. apply (slab_estimate_overruns 56). lia. Defined.

(** [kmem_free_obj] looks for the header of the slab at a multiple of 16 KiB although a slab has
    64 KiB: for an object behind the first 16 KiB of an aligned slab it takes another address. *)
Theorem kmem_free_obj_wrong_slab cachep slabp objp m :
  slabp mod 65536 = 0 → slabp + 16384 ≤ objp < slabp + 65536 → 0 < slabp → slabp + 65536 ≤ 2 ^ 32 → cachep ≠ NULL →
  ∃ a, a ≠ slabp ∧ kmem_free_obj cachep objp m = slab_free_obj cachep a objp m.
Proof.
  intros Hal Hr Hp Hle Hc. exists (Z.land objp (VALUE_MASK (DEFAULT_SLAB_PAGES * PAGE_SIZE))). split.
  - change (VALUE_MASK (DEFAULT_SLAB_PAGES * PAGE_SIZE)) with (Z.shiftl (Z.ones 18) 14).
    assert (Z.land objp (Z.shiftl (Z.ones 18) 14) = Z.shiftl (Z.shiftr objp 14) 14) as ->.
    { apply Z.bits_inj'. intros k Hk. rw Z.land_spec (Z.shiftl_spec (Z.ones 18)) // (Z.shiftl_spec (Z.shiftr objp 14)) //. destruct (Z.lt_ge_cases k 14).
      - rw (Z.testbit_neg_r (Z.ones 18)); [|lia]. rw (Z.testbit_neg_r (Z.shiftr objp 14)); [|lia]. by rw andb_false_r.
      - rw Z.shiftr_spec; [|lia]. rw (_ : k - 14 + 14 = k); [|lia]. rw Z.testbit_ones; [|lia].
        destruct (Z.lt_ge_cases (k - 14) 18).
        + rw (_ : (0 <=? k - 14) && (k - 14 <? 18) = true); [by rw andb_true_r|]. apply andb_true_iff. lia.
        + rw (Z.bits_above_log2 objp k); [done|lia|]. apply Z.log2_lt_pow2; [lia|].
          pose proof (Z.pow_le_mono_r 2 32 k). lia. }
    rw Z.shiftl_mul_pow2; [|lia]. rw Z.shiftr_div_pow2; [|lia]. change (2 ^ 14) with 16384. dlia.
  - unfold kmem_free_obj. rw (proj2 (Z.eqb_neq _ _) Hc) (proj2 (Z.eqb_neq objp NULL)); [done|unfold NULL; lia].
Qed.

Lemma kmem_free_obj_wrong_slab_witness :
  ∃ a, a ≠ 0x2000000 ∧ kmem_free_obj 64 0x2005000 ∅ = slab_free_obj 64 a 0x2005000 ∅.
Proof. apply (kmem_free_obj_wrong_slab 64 0x2000000 0x2005000 ∅); vm_compute; try reflexivity; try (split; [|reflexivity]); discriminate. Defined.

(** ** A new slab *)

(** The entries written so far: [i] of them. *)
Definition filled (i : Z) : list Z := (λ j, j + 1) <$> seqZ 0 i.

Lemma filled_length i : 0 ≤ i → Z.of_nat (length (filled i)) = i.
Proof. intros. unfold filled. rw length_fmap length_seqZ. lia. Qed.

Lemma filled_succ i : 0 ≤ i → filled (i + 1) = filled i ++ [i + 1].
Proof. intros. unfold filled. rw (seqZ_app 0 i 1); [|lia|lia]. by rw fmap_app. Qed.

Lemma bufctl_fill_wp cachep slabp n b rest Q : 0 ≤ n → Z.of_nat (length b) = n →
  (cachep + obj_num) ↦ n -∗ arr (slabp + sizeof_slab) 4 (b ++ rest) -∗
  ((cachep + obj_num) ↦ n -∗ arr (slabp + sizeof_slab) 4 (filled n ++ rest) -∗ Q n) -∗
  wp (bufctl_fill cachep slabp) Q.
Proof.
  iIntros (Hn Hb) "Hnum Ha HQ". unfold bufctl_fill.
  iApply (wp_wand _ (λ r, ⌜r = n⌝ ∗ (cachep + obj_num) ↦ n ∗ arr (slabp + sizeof_slab) 4 (filled n ++ rest))%I with "[Hnum Ha]");
    [|iIntros (r) "(-> & Hnum & Ha)"; iApply ("HQ" with "Hnum Ha")].
  iApply (wp_loop _ (λ (k : nat) (i : Z), ∃ c, ⌜i = (n - Z.of_nat k)%Z ∧ 0 ≤ i ∧ length c = k⌝ ∗ (cachep + obj_num) ↦ n ∗
    arr (slabp + sizeof_slab) 4 (filled i ++ c ++ rest))%I _ (length b)); last first.
  { iExists b. iFrame. iPureIntro. split; [lia|done]. }
  - intros k i. iIntros "(%c & (%Hi & %Hi0 & %Hc) & Hnum & Ha)". wp_load. destruct (Z.ltb_spec i n) as [Hlt|Hge].
    + destruct c as [|x c]; [simpl in Hc; lia|]. cbn [app]. iApply wp_bind.
      iApply (arr_store _ _ _ (length (filled i)) x with "Ha").
      { by rw list_lookup_middle. }
      { unfold slab_bufctl. rw filled_length //. }
      iIntros "Ha". wp_pures. iExists (length c). iSplit; [iPureIntro; simpl in Hc; lia|]. iExists c. iFrame "Hnum".
      iSplit; [iPureIntro; simpl in Hc; lia|]. rw insert_app_r_alt // Nat.sub_diag filled_succ //. cbn. by rw -assoc_L.
    + wp_pures. destruct c; [|simpl in *; lia]. rw (_ : n = i); [|lia]. by iFrame.
  - iIntros "(%c & (_ & _ & %Hc) & _ & Ha)". rw arr_cells. iApply (cells_le with "Ha"). rw !length_app. lia.
Qed.

Lemma chain_filled n k : 0 < n → (k < Z.to_nat n)%nat →
  chain (<[Z.to_nat (n - 1) := BUFCTL_END]> (filled n)) (n - 1 - Z.of_nat k) (seqZ (n - 1 - Z.of_nat k) (Z.of_nat k + 1)).
Proof.
  intros Hn. induction k as [|k IH]; intros Hk.
  - rw seqZ_cons; [|lia]. split; [lia|]. exists BUFCTL_END. rw (_ : n - 1 - Z.of_nat 0 = n - 1); [|lia]. split; [|done].
    apply list_lookup_insert_eq. pose proof (filled_length n). lia.
  - rw seqZ_cons; [|lia]. split; [lia|]. exists (n - 1 - Z.of_nat k).
    rw (_ : Z.succ (n - 1 - Z.of_nat (S k)) = n - 1 - Z.of_nat k); [|lia]. rw (_ : Z.pred (Z.of_nat (S k) + 1) = Z.of_nat k + 1); [|lia].
    split; [|apply IH; lia]. rw list_lookup_insert_ne; [|lia]. unfold filled.
    rw list_lookup_fmap lookup_seqZ_lt; [|lia]. simpl. f_equal. lia.
Qed.

(** [slab_init] makes a slab in which every object is free: the indices are chained from the first
    object to the last, no object is in use, and the objects start behind the array of indices. *)
Theorem slab_init_correct cachep slabp s n b rest :
  {{ cache_info cachep s n ∗ lnode slabp ∗ (∃ v, (slabp + s_mem) ↦ v) ∗ (∃ v, (slabp + slab_free) ↦ v) ∗
     (∃ v, (slabp + inuse) ↦ v) ∗ arr (slabp + sizeof_slab) 4 (b ++ rest) ∗ ⌜(Z.of_nat (length b) = n)%Z ∧ 4 * (n + 1) < 2 ^ 32⌝ }}
    slab_init cachep slabp (slabp + sizeof_slab)
  {{ r, ⌜r = 0⌝ ∗ cache_info cachep s n ∗ dlist slabp [] ∗
        slab_at slabp (slabp + sizeof_slab + 4 * (n + 1)) n (seqZ 0 n) }}.
Proof.
  apply triple_wp. iIntros "(([%Hc (%Hs & %Hn & %Hsn)] & Hsz & Hnum) & Hl & (%v1 & Hm) & (%v2 & Hf) & (%v3 & Hu) & Ha & [%Hb %Hov])".
  unfold slab_init. wp_store. wp_store. iApply wp_bind. iApply (INIT_LIST_HEAD_wp with "Hl"). iIntros "Hl".
  wp_load. wp_store. iApply wp_bind. iApply (bufctl_fill_wp with "Hnum Ha"); [lia|done|]. iIntros "Hnum Ha". wp_pures.
  pose proof (filled_length n ltac:(lia)) as Hfl.
  destruct (lookup_lt_is_Some_2 (filled n ++ rest) (Z.to_nat (n - 1))) as [w Hw]; [rw length_app; lia|].
  iApply wp_bind. iApply (arr_store with "Ha"); [exact Hw|unfold slab_bufctl; lia|]. iIntros "Ha". wp_pures.
  iSplit; [done|]. iSplitL "Hsz Hnum"; [by iFrame|]. iFrame "Hl". rw u32_small; [|lia]. rw (_ : (n + 1) * 4 = 4 * (n + 1)); [|lia].
  rw insert_app_l; [|lia]. iExists (<[Z.to_nat (n - 1) := BUFCTL_END]> (filled n) ++ rest), 0. iFrame "Hm Hf Ha".
  rw length_seqZ (_ : n - Z.of_nat (Z.to_nat n) = 0); [|lia]. iFrame "Hu". iPureIntro. split; [|split].
  - pose proof (chain_filled n (Z.to_nat n - 1) Hn ltac:(lia)) as Hch.
    rw (_ : n - 1 - Z.of_nat (Z.to_nat n - 1) = 0) in Hch; [|lia]. rw (_ : Z.of_nat (Z.to_nat n - 1) + 1 = n) in Hch; [|lia].
    by apply chain_app.
  - split; [apply NoDup_seqZ|]. apply Forall_forall. intros x Hx. apply elem_of_seqZ in Hx. lia.
  - rw length_app length_insert. lia.
Qed.
