(* ===== verification/Pgtable.v ===== *)
(** * Page tables: mm/pgtable.c and swap_free of mm/swap.c

    An entry of the page directory or of a page table is a structure with one unsigned long: its value.
    A function that takes an entry by value cannot change it, whatever its name says.  Global variables are parameters, their
    addresses. *)

From S2P Require Export Buddy Sched.

(** The members of the tasks, of their memory and of the swap areas that are used here. *)
Definition tss_cr3 : Z := 628.
Definition task_mm : Z := 632.
Definition mm_rss : Z := 48.
Definition vm_task : Z := 8.
Definition vm_page_prot : Z := 12.
Definition sw_swap_file : Z := 4.
Definition sw_swap_device : Z := 8.
Definition sw_swap_map : Z := 12.
Definition sw_lowest_bit : Z := 20.
Definition sw_highest_bit : Z := 24.
Definition sw_max : Z := 28.
Definition sizeof_swap_info : Z := 32.

Definition PTE_SHIFT : Z := 12.
Definition PMD_SHIFT : Z := 22.
Definition PGD_SHIFT : Z := 22.
Definition PGD_SIZE : Z := 2 ^ 22.
Definition PMD_SIZE : Z := PGD_SIZE.
Definition PGD_MASK : Z := u32 (Z.lnot (PGD_SIZE - 1)).
Definition PMD_MASK : Z := PGD_MASK.
Definition PAGE_MASK : Z := u32 (Z.lnot (PAGE_SIZE - 1)).
Definition PAGE_OFFSET : Z := 0xC0000000.
Definition PTRS_PER_PTE : Z := 1024.
Definition PTRS_PER_PMD : Z := 1.
Definition PTRS_PER_PGD : Z := 1024.
Definition HIGH_MEM_ENTRY : Z := 0x300.
Definition PGD_ENTRYS : Z := 1024.
Definition SAFE_GAP : Z := 4096.

Definition PAGE_PRESENT : Z := 0x001.
Definition PAGE_RW : Z := 0x002.
Definition PAGE_USER : Z := 0x004.
Definition PAGE_ACCESSED : Z := 0x008.
Definition PAGE_DIRTY : Z := 0x010.
Definition PAGE_BAD : Z := 0x800.
Definition PAGE_SHARED : Z := Z.lor (Z.lor PAGE_PRESENT PAGE_RW) PAGE_USER.
Definition PAGE_TABLE : Z := Z.lor (Z.lor (Z.lor PAGE_PRESENT PAGE_RW) PAGE_USER) PAGE_DIRTY.
Definition GFP_KERNEL : Z := 3.

Definition MAP_NR (addr : Z) : Z := Z.shiftr addr PAGE_SHIFT.
Definition __va (x : Z) : Z := u32 (x + PAGE_OFFSET).

Definition oom {A} : M A := panic.

(** ** Swap entries: mm/swap.c *)

Definition MAX_SWAPFILES : Z := 8.
Definition SWAP_MAP_MAX : Z := 16.
Definition SWAP_TYPE (x : Z) : Z := Z.land (Z.shiftr x 1) 0x3f.
Definition SWAP_OFFSET (x : Z) : Z := Z.shiftr x 8.

Section swap.
Context (nr_swapfiles swap_files nr_swap_pages : Z).

Definition swap_free (entry : Z) : M unit :=
  if entry =? 0 then mret tt else
  let type := SWAP_TYPE entry in
  n ← load nr_swapfiles;
  if type >=? u32 n then mret tt else
  let p := swap_files + sizeof_swap_info * type in
  let offset := SWAP_OFFSET entry in
  mx ← load (p + sw_max);
  if offset >=? mx then mret tt else
  map ← load (p + sw_swap_map);
  c ← load (map + offset);
  if c <? SWAP_MAP_MAX then
    lo ← load (p + sw_lowest_bit);
    (if offset <? lo then store (p + sw_lowest_bit) offset else mret tt);;
    hi ← load (p + sw_highest_bit);
    (if offset <? hi then store (p + sw_highest_bit) offset else mret tt);;
    n ← load nr_swap_pages;
    store nr_swap_pages (s32 (n + 1))
  else mret tt.
End swap.

(** ** Entries *)

Definition pmd_none (pmd : Z) : bool := pmd =? 0.
Definition pte_none (pte : Z) : bool := pte =? 0.
Definition pgd_none (pgd : Z) : bool := pgd =? 0.
Definition pgd_bad (pgd : Z) : bool := false.
Definition pte_present (pte : Z) : bool := truth (Z.land pte PAGE_PRESENT).
Definition pte_iswrite (pte : Z) : bool := truth (Z.land pte PAGE_RW).

(** They assign to their parameter. *)
Definition pte_clear (pte : Z) : M Z := mret 0.
Definition pmd_clear (pmd : Z) : M Z := mret 0.
Definition pgd_clear (pgd : Z) : M Z := mret 0.

Definition pte_mkwrite (pte : Z) : Z := Z.lor pte PAGE_RW.
Definition pte_mkyoung (pte : Z) : Z := Z.lor pte PAGE_ACCESSED.
Definition pte_mkdirty (pte : Z) : Z := Z.lor pte PAGE_DIRTY.

Definition mk_pte (addr pgprot : Z) : Z := Z.lor (__va addr) pgprot.
Definition mk_pgd (addr pgprot : Z) : Z := Z.lor (__va addr) pgprot.

Section pgtable.
Context (buddy_list mem_map main_memory_end current swapper_pg_dir : Z).
Context (nr_swapfiles swap_files nr_swap_pages : Z).

Definition free_page (page : Z) : M Z := free_pages buddy_list page 0.

Definition pmd_bad (pmd : Z) : M bool :=
  e ← load main_memory_end;
  mret (negb (Z.land pmd (u32 (Z.lnot PAGE_MASK)) =? PAGE_TABLE) || (pmd >? e)).

(** [mem_map[MAP_NR(v)]] *)
Definition map_page (v : Z) : M Z := mm ← load mem_map; load (mm + 4 * MAP_NR v).
Definition pte_page (pte : Z) : M Z := map_page pte.
Definition pmd_page (pmd : Z) : M Z := map_page pmd.
Definition pgd_page (pgd : Z) : M Z := map_page pgd.

Definition pte_free (pte : Z) : M unit := p ← pte_page pte; free_page p;; mret tt.
Definition pmd_free (pmd : Z) : M unit := p ← pmd_page pmd; free_page p;; mret tt.
Definition pgd_free (pgd : Z) : M unit := p ← pgd_page pgd; free_page p;; mret tt.

(** They take a pointer to an entry. *)
Definition map_inuse (ptr : Z) : M bool :=
  v ← load ptr; p ← map_page v; f ← load (p + pg_flags); mret (truth (Z.land f PAGE_PRESENT)).
Definition pte_inuse (pte : Z) : M bool := map_inuse pte.
Definition pmd_inuse (pmd : Z) : M bool := map_inuse pmd.
Definition pgd_inuse (pgd : Z) : M bool := map_inuse pgd.

(** The source compares, [addr > PTE_SHIFT], where it means to shift; the sum is one of bytes. *)
Definition pte_offset (pmd addr : Z) : M Z :=
  v ← load pmd; p ← pmd_page v; a ← load (p + pg_address);
  mret (u32 (a + Z.land (b2z (addr >? PTE_SHIFT)) (PTRS_PER_PTE - 1))).
Definition pmd_offset (pgd addr : Z) : M Z :=
  v ← load pgd; p ← pgd_page v; a ← load (p + pg_address);
  mret (u32 (a + Z.land (b2z (addr >? PMD_SHIFT)) (PTRS_PER_PMD - 1))).
Definition pgd_offset (tsk addr : Z) : M Z :=
  c ← load (tsk + tss_cr3); mret (u32 (c + Z.shiftr addr PGD_SHIFT)).
Definition pmd_alloc (pgd addr : Z) : M Z := mret pgd.

Definition pte_alloc (pmd addr : Z) : M Z :=
  let addr := Z.land (Z.shiftr addr PTE_SHIFT) (PTRS_PER_PTE - 1) in
  v ← load pmd;
  r ← (if pmd_none v then
         page ← get_free_page buddy_list GFP_KERNEL;
         v ← load pmd;
         if pmd_none v then
           if negb (page =? NULL) then
             store pmd (Z.lor PAGE_TABLE page);; mret (Some (page + 4 * addr))
           else store pmd (Z.lor PAGE_TABLE PAGE_BAD);; mret (Some NULL)
         else
           e ← load page; p ← pte_page e; free_page p;; mret None
       else mret None);
  match r with
  | Some r => mret r
  | None =>
      v ← load pmd;
      b ← pmd_bad v;
      if b : bool then store pmd (Z.lor PAGE_TABLE PAGE_BAD);; mret NULL
      else
        v ← load pmd; p ← pmd_page v;
        mret (p + sizeof_page * addr)
  end.

Definition forget_pte (pte : Z) : M unit :=
  if pte_none pte then mret tt else
  if pte_present pte then
    p ← pte_page pte;
    free_page p;;
    t ← load current; mm ← load (t + task_mm);
    rss ← load (mm + mm_rss);
    if rss <=? 0 then mret tt else
    t ← load current; mm ← load (t + task_mm);
    rss ← load (mm + mm_rss);
    store (mm + mm_rss) (u32 (rss - 1))
  else swap_free nr_swapfiles swap_files nr_swap_pages pte.

Definition free_one_pte (pgtable : Z) : M unit :=
  page ← load pgtable;
  if pte_none page then mret tt else
  v ← load pgtable;
  pte_clear v;;
  if negb (pte_present page) then mret tt else
  p ← pte_page page;
  free_page p;; mret tt.

(** [for(tmp = 0; tmp < n; tmp++) f(p + tmp)] on entries *)
Fixpoint for_entries (f : Z → M unit) (p : Z) (n : nat) : M unit :=
  match n with O => mret tt | S n => f p;; for_entries f (p + 4) n end.

Definition free_one_pmd (pmd : Z) : M unit :=
  v ← load pmd;
  if pmd_none v then mret tt else
  pte ← pte_offset pmd 0;
  v ← load pmd;
  pmd_clear v;;
  u ← pte_inuse pte;
  if u : bool then v ← load pte; pte_free v
  else for_entries free_one_pte pte (Z.to_nat PTRS_PER_PTE).

Definition free_one_pgd (pgd : Z) : M unit :=
  v ← load pgd;
  if pgd_none v then mret tt else
  pmd ← pmd_offset pgd 0;
  v ← load pgd;
  pgd_clear v;;
  u ← pmd_inuse pmd;
  if u : bool then v ← load pmd; pmd_free v
  else for_entries free_one_pmd pmd (Z.to_nat PTRS_PER_PMD).

Definition free_page_tables (tsk : Z) : M unit :=
  pgd ← pgd_offset tsk 0;
  s ← load swapper_pg_dir;
  if (pgd =? NULL) || (pgd =? s) then mret tt else
  u ← pgd_inuse pgd;
  (if u : bool then v ← load pgd; p ← pgd_page v; free_page p;; mret tt else mret tt);;
  for_entries free_one_pgd pgd (Z.to_nat PTRS_PER_PGD);;
  v ← load pgd;
  pgd_free v.

Definition put_page (page_table pte : Z) : M unit :=
  v ← load page_table;
  if negb (pte_none v) then
    p ← pte_page pte; free_page p;; mret tt
  else store page_table pte.

Definition get_empty_page (vma page_table : Z) : M unit :=
  tmp ← get_free_page buddy_list GFP_KERNEL;
  if tmp =? 0 then oom else
  prot ← load (vma + vm_page_prot);
  put_page page_table (pte_mkwrite (mk_pte tmp prot)).

(** The loop of [unmap_pte_range]. *)
Definition unmap_ptes (end_ pte addr : Z) : M unit :=
  loop (λ '(pte, addr),
    page ← load pte;
    pte_clear page;;
    forget_pte page;;
    let addr := u32 (addr + PAGE_SIZE) in
    let pte := pte + 4 in
    if addr <? end_ then mret (inl (pte, addr)) else mret (inr tt)) (pte, addr).

Definition unmap_pte_range (pmd addr size : Z) : M unit :=
  v ← load pmd;
  if pmd_none v then mret tt else
  v ← load pmd;
  b ← pmd_bad v;
  if b : bool then v ← load pmd; pmd_clear v;; mret tt else
  pte ← pte_offset pmd addr;
  let addr := Z.land addr (u32 (Z.lnot PMD_MASK)) in
  let end_ := u32 (addr + size) in
  let end_ := if end_ >=? PMD_SIZE then PMD_SIZE else end_ in
  unmap_ptes end_ pte addr.

Definition unmap_pmd_range (pgd addr size : Z) : M unit :=
  v ← load pgd;
  if pgd_none v then mret tt else
  v ← load pgd;
  if pgd_bad v then v ← load pgd; pgd_clear v;; mret tt else
  pmd ← pmd_offset pgd addr;
  let addr := Z.land addr (u32 (Z.lnot PMD_MASK)) in
  let end_ := u32 (addr + size) in
  let end_ := if end_ >? PGD_SIZE then PGD_SIZE else end_ in
  loop (λ '(pmd, addr),
    unmap_pte_range pmd addr (u32 (end_ - addr));;
    let addr := Z.land (u32 (addr + PMD_SIZE)) PMD_MASK in
    let pmd := pmd + 4 in
    if addr <? end_ then mret (inl (pmd, addr)) else mret (inr tt)) (pmd, addr).

Definition unmap_page_range (addr size : Z) : M Z :=
  let end_ := u32 (addr + size) in
  t ← load current;
  pgd ← pgd_offset t addr;
  v ← load pgd;
  if pgd_none v then mret (-1) else
  loop (λ '(pgd, addr),
    unmap_pmd_range pgd addr (u32 (end_ - addr));;
    let addr := Z.land (u32 (addr + PGD_SIZE)) PGD_MASK in
    let pgd := pgd + 4 in
    if addr <? end_ then mret (inl (pgd, addr)) else mret (inr tt)) (pgd, addr);;
  mret 0.
End pgtable.
