(* ===== verification/Memory.v ===== *)
(** * Page faults and the start of the memory management: mm/memory.c, and paging_init of mm/pgtable.c

    [init_mem] composes the page allocator, the object caches and the low memory; it is in two
    parts here, up to the merging of the free pages and after it. *)

From S2P Require Export Pgtable Slab.

Definition SYS_RESERVED : Z := 0x1.
Definition SYS_ROM : Z := 0x2.
Definition BOOT_PARAM_ADDR : Z := 0x900.
Definition BP_MEM_SIZE : Z := 1.
Definition BP_KERNEL_ADDR : Z := 2.

(** [bp.mem_size] and [bp.kernel_addr] *)
Definition get_boot_params : M (Z * Z) :=
  s ← load (BOOT_PARAM_ADDR + 4 * BP_MEM_SIZE);
  k ← load (BOOT_PARAM_ADDR + 4 * BP_KERNEL_ADDR);
  mret (s, k).

Section memory.
Context (buddy_list cache_chain mem_map page_fns low_mem_start low_mem_end main_memory_end inactive_list : Z).

(** ** Page faults *)

Definition do_no_page (vma addr access_write : Z) : M unit :=
  address ← get_free_page buddy_list GFP_KERNEL; mret tt.

Definition get_empty_pgtable (tsk address : Z) : M Z :=
  pgd ← pgd_offset tsk address;
  pmd ← pmd_alloc pgd address;
  if pmd =? NULL then oom else
  pte ← pte_alloc buddy_list mem_map main_memory_end pmd address;
  if pte =? NULL then oom else mret NULL.

Definition zeromap_page_range (address size prot : Z) : M Z := mret 0.

(** The labels [bad_wp_page] and [end_wp_page] print and return. *)
Definition do_wp_page (vma address write_access : Z) : M unit :=
  new_page ← get_free_page buddy_list GFP_KERNEL;
  t ← load (vma + vm_task);
  pgd ← pgd_offset t address;
  v ← load pgd;
  if pgd_none v then mret tt else
  if pgd_bad v then mret tt else
  pmd ← pmd_offset mem_map pgd address;
  v ← load pmd;
  if pmd_none v then mret tt else
  b ← pmd_bad main_memory_end v;
  if b : bool then mret tt else
  page_table ← pte_offset mem_map pmd address;
  pte ← load page_table;
  if negb (pte_present pte) then mret tt else
  if pte_iswrite pte then mret tt else
  p ← pte_page mem_map pte;
  old_page ← load (p + pg_address);
  e ← load main_memory_end;
  if old_page >=? e then mret tt else
  store page_table (pte_mkdirty (pte_mkwrite pte)).

Definition handle_pte_fault (vma address pte write_access : Z) : M unit :=
  v ← load pte;
  if negb (pte_present v) then do_no_page vma address write_access else
  v ← load pte;
  store pte (pte_mkyoung v);;
  if write_access =? 0 then
    v ← load pte;
    store pte (pte_mkdirty v)
  else do_wp_page vma address write_access.

(** Control always reaches the label [no_memory]. *)
Definition handle_mm_fault (vma address write_access : Z) : M unit :=
  t ← load (vma + vm_task);
  pgd ← pgd_offset t address;
  pmd ← pmd_alloc pgd address;
  (if pmd =? NULL then mret tt else
   pte ← pte_alloc buddy_list mem_map main_memory_end pmd address;
   if pte =? NULL then mret tt else
   handle_pte_fault vma address pte write_access);;
  oom.

(** ** The start *)

Definition alloc_low_mem (memsize : Z) : M Z :=
  s ← load low_mem_start;
  e ← load low_mem_end;
  if u32 (s + memsize) >? e then panic else
  allow_mem ← load low_mem_start;
  s ← load low_mem_start;
  store low_mem_start (u32 (s + (memsize + SAFE_GAP)));;
  mret allow_mem.

(** [memory_size &= 0xfffff000] of an int *)
Definition page_aligned (memory_size : Z) : Z := s32 (Z.land (u32 memory_size) 0xfffff000).

(** The inner loop of [paging_init]; [inr] is its [return 0]. *)
Definition fill_table (memory_size addr pg_table : Z) : M (Z * Z + Z) :=
  run (Z.to_nat PTRS_PER_PTE + 1) (λ '(j, addr, pg_table),
    if j <? PTRS_PER_PTE then
      if addr <? u32 memory_size then
        store pg_table (mk_pte addr PAGE_SHARED);;
        mret (inl (j + 1, u32 (addr + PAGE_SIZE), pg_table + 4))
      else mret (inr (inr 0))
    else mret (inr (inl (addr, pg_table)))) (0, addr, pg_table).

(** One turn of [while(i <= HIGH_MEM_ENTRY)]. *)
Definition paging_step (memory_size pg_dir : Z) (s : Z * Z * Z) : M (Z * Z * Z + Z) :=
  let '(i, addr, pg_table) := s in
  if i <=? HIGH_MEM_ENTRY then
    store pg_dir (mk_pgd pg_table PAGE_SHARED);;
    r ← fill_table memory_size addr pg_table;
    match r with
    | inl (addr, pg_table) => mret (inl (i + 1, addr, pg_table))
    | inr r => mret (inr r)
    end
  else mret (inr 0).

Definition paging_init : M Z :=
  '(memory_size, _) ← get_boot_params;
  let memory_size := page_aligned memory_size in
  pg_dir ← alloc_low_mem (PGD_ENTRYS * 4);
  pg_table ← alloc_low_mem (HIGH_MEM_ENTRY * 4);
  if (pg_dir =? NULL) || (pg_table =? NULL) then mret (u32 (-1)) else
  run (Z.to_nat HIGH_MEM_ENTRY + 2) (paging_step memory_size pg_dir) (0, 0, pg_table).

Definition free_area_init : M unit := INIT_LIST_HEAD inactive_list.

(** One turn of the loop over the pages. *)
Definition init_page (address p k : Z) : M unit :=
  e ← load low_mem_end;
  (if address <? e then
     f ← load (p + pg_flags); store (p + pg_flags) (Z.lor f (Z.lor SYS_RESERVED SYS_ROM))
   else
     f ← load (p + pg_flags); store (p + pg_flags) (Z.lor f SYS_RAM));;
  store (p + pg_address) address;;
  mm ← load mem_map;
  store (mm + 4 * k) p;;
  free_page buddy_list p;; mret tt.

(** [for(k = 0; p != NULL && k < page_fns; ++k)], with at most [n] turns *)
Definition init_pages_step (s : Z * Z * Z) : M (Z * Z * Z + unit) :=
  let '(k, p, address) := s in
  fns ← load page_fns;
  if negb (p =? NULL) && (u32 k <? fns) then
    init_page address p k;;
    mret (inl (k + 1, p + sizeof_page, u32 (address + PAGE_SIZE)))
  else mret (inr tt).
Definition init_pages (n : nat) (p : Z) : M unit := run (S n) init_pages_step (0, p, 0).

(** [init_mem] up to [buddy_list_tidy] *)
Definition init_mem_pages : M unit :=
  buddy_list_init buddy_list;;
  kmem_cache_init cache_chain;;
  '(memory_size, _) ← get_boot_params;
  let memory_size := page_aligned memory_size in
  store page_fns (MAP_NR (u32 memory_size));;
  fns ← load page_fns;
  mm ← alloc_low_mem (s32 (fns * 4));
  store mem_map mm;;
  fns ← load page_fns;
  page_ptr_mem ← alloc_low_mem (s32 (fns * sizeof_page));
  init_pages (Z.to_nat fns) page_ptr_mem;;
  buddy_list_tidy buddy_list;; mret tt.

Definition init_mem (tsk_cachep thread_union_cachep vma_cachep inode_cachep file_cachep : Z)
    (s_tsk s_task_union s_vma s_inode s_file : Z) : M Z :=
  init_mem_pages;;
  init_kmem_cache buddy_list cache_chain tsk_cachep thread_union_cachep vma_cachep inode_cachep file_cachep
    s_tsk s_task_union s_vma s_inode s_file;;
  free_area_init;;
  mret 0.
End memory.
