(* ===== verification/MemorySpec.v ===== *)
(** * What the start of the memory management and the page faults do

    [init_mem_pages] gives every page above the low memory to the allocator, and no other whose flags were clear; the page table that
    [paging_init] fills is larger than what it allocates; a page fault ends in a panic. *)

From S2P Require Export Memory BuddyTidy.

Section start.
Context (buddy_list cache_chain mem_map page_fns low_mem_start low_mem_end main_memory_end inactive_list : Z).
Context (pages : Z).

Abbreviation pg := (pg pages).

(** A page struct before the start, with the flags that its memory happens to hold. *)
Definition raw_page (k f : Z) : heapProp :=
  lnode (pg k) ∗ (∃ v, (pg k + pg_address) ↦ v) ∗ (pg k + pg_flags) ↦ f.

(** A page of the low memory after it. *)
Definition reserved_page (k f : Z) : heapProp :=
  lnode (pg k) ∗ (pg k + pg_address) ↦ (PAGE_SIZE * k) ∗ (pg k + pg_flags) ↦ Z.lor f (Z.lor SYS_RESERVED SYS_ROM).

(** The value that [low_mem_end] starts with and keeps, and the first page above it. *)
Definition low_end : Z := 0x1000000.
Definition first_page : Z := 2 ^ 12.

(** The loop does not clear the flags: the allocator gets the pages above the low memory, and those of the low memory whose
    flags happened to have the bit. *)
Definition is_ram (k f : Z) : bool := (first_page <=? k) || negb (Z.land f SYS_RAM =? 0).

Fixpoint ram_pages (j : Z) (fs : list Z) : list Z :=
  match fs with
  | [] => []
  | f :: fs => (if is_ram j f then [j] else []) ++ ram_pages (j + 1) fs
  end.

Lemma ram_pages_spaced j fs : j + Z.of_nat (length fs) < 2 ^ 20 → spaced 0 j (ram_pages j fs).
Proof.
  revert j. induction fs as [|f fs IH]; intros j Hj; [constructor|]. simpl in *. specialize (IH (j + 1) ltac:(lia)).
  destruct (is_ram j f); simpl; [|by apply (spaced_le _ (j + 1)); [lia|]]. constructor; [lia|simpl; lia|exact IH].
Qed.

Lemma ram_pages_clean j fs : 0 ≤ j → (∀ (i : nat) f, fs !! i = Some f → j + Z.of_nat i < first_page → Z.land f SYS_RAM = 0) →
  ram_pages j fs = filter (λ k, first_page ≤ k) (seqZ j (Z.of_nat (length fs))).
Proof.
  revert j. induction fs as [|f fs IH]; intros j Hj Hf; [done|]. cbn [ram_pages length]. rw seqZ_cons; [|lia].
  rw (_ : Z.pred (Z.of_nat (S (length fs))) = Z.of_nat (length fs)); [|lia]. rw IH; [|lia|intros i g Hg Hi; apply (Hf (S i) g Hg); lia].
  unfold is_ram. rw -Z.add_1_r. destruct (Z.leb_spec first_page j) as [H|H]; [by rw filter_cons_True|].
  rw filter_cons_False; [|lia]. rw (Hf 0%nat f eq_refl); [done|simpl; lia].
Qed.

(** The free pages while the loop runs. *)
Definition freed (ks : list Z) : heapProp := buddy buddy_list pages (ks :: replicate 9 []).

(** What the loop does with the page [k] when it is not one for the allocator, and when it is one. *)
Lemma init_page_low k f ks mm : 0 ≤ k → is_ram k f = false →
  raw_page k f ∗ freed ks ∗ low_mem_end ↦ low_end ∗ mem_map ↦ mm ∗ (∃ v, (mm + 4 * k) ↦ v) ⊢
  wp (init_page buddy_list mem_map low_mem_end (PAGE_SIZE * k) (pg k) k) (λ _,
    reserved_page k f ∗ freed ks ∗ low_mem_end ↦ low_end ∗ mem_map ↦ mm ∗ (mm + 4 * k) ↦ pg k).
Proof.
  intros Hk [Hlow Hf]%orb_false_iff. apply Z.leb_gt in Hlow. apply negb_false_iff, Z.eqb_eq in Hf.
  iIntros "((Hl & (%a & Ha) & Hf) & Hb & He & Hm & (%v & Hv))". iAssert ⌜pg k ≠ NULL⌝%I as %Hne; [by iDestruct "Hl" as "(_ & _ & $)"|].
  unfold init_page. wp_load. rw (proj2 (Z.ltb_lt _ _)); [|unfold PAGE_SIZE, first_page, low_end in *; lia].
  wp_load. wp_store. wp_store. wp_load. wp_store. unfold free_page, free_pages. rw (eqb_false _ _ Hne).
  rw order_ok; [|done]. wp_load.
  rw Z.land_lor_distr_l Hf. change (Z.lor 0 _ =? 0) with true. wp_pures. by iFrame.
Qed.

Lemma land_ram f g : Z.land f SYS_RAM ≠ 0 → Z.land (Z.lor f g) SYS_RAM ≠ 0.
Proof.
  intros Hf H. apply Hf. apply Z.bits_inj'. intros i Hi. assert (Z.testbit (Z.land (Z.lor f g) SYS_RAM) i = false) as E; [by rw H Z.bits_0|].
  rw Z.land_spec Z.lor_spec in E. rw Z.land_spec Z.bits_0. destruct (Z.testbit f i), (Z.testbit SYS_RAM i); done.
Qed.

Lemma init_page_ram k f ks mm : 0 ≤ k < 2 ^ 19 → is_ram k f = true → Forall (λ x, x < k) ks → Z.of_nat (length ks) ≤ k →
  raw_page k f ∗ freed ks ∗ low_mem_end ↦ low_end ∗ mem_map ↦ mm ∗ (∃ v, (mm + 4 * k) ↦ v) ⊢
  wp (init_page buddy_list mem_map low_mem_end (PAGE_SIZE * k) (pg k) k) (λ _,
    freed (ks ++ [k]) ∗ low_mem_end ↦ low_end ∗ mem_map ↦ mm ∗ (mm + 4 * k) ↦ pg k).
Proof.
  intros Hk Hram Hks Hlen. iIntros "((Hl & (%a & Ha) & Hf) & Hb & He & Hm & (%v & Hv))". unfold init_page. wp_load. iApply wp_bind.
  iApply (wp_wand _ (λ _, ∃ f', ⌜Z.land f' SYS_RAM ≠ 0⌝ ∗ (pg k + pg_flags) ↦ f')%I with "[Hf]").
  { destruct (Z.ltb_spec (PAGE_SIZE * k) low_end) as [Hlow|Hhigh]; wp_load; wp_store; iFrame; iPureIntro.
    - apply land_ram. unfold is_ram in Hram. rw (proj2 (Z.leb_gt _ _)) in Hram; [|unfold PAGE_SIZE, first_page, low_end in *; lia].
      by apply negb_true_iff, Z.eqb_neq in Hram.
    - rw Z.lor_comm. by apply land_ram. }
  iIntros (_) "(%f' & %Hf' & Hf)". wp_store. wp_load. wp_store. unfold free_page. iApply wp_bind.
  iApply (wp_wand with "[Hl Ha Hf Hb]").
  { iApply (free_pages_wp buddy_list pages 0 k (ks :: replicate 9 [])); [done| |].
    - rw frames_pages. simpl. lia.
    - iFrame "Hb". rw blk_link; [|done]. unfold blk_linked, page_info. iFrame "Hl Ha Hf". simpl. by iPureIntro. }
  iIntros (r) "(-> & %ks1 & %ks2 & (%Hks1 & [_ %Hp] & _) & Hb)". wp_pures. iFrame "He Hm Hv".
  injection Hks1 as ->. destruct ks2 as [|x ks2]; [rw app_nil_r; iExact "Hb"|].
  exfalso. specialize (Hp x eq_refl). apply Forall_app in Hks as [_ [Hx _]%Forall_cons]. lia.
Qed.

Definition loop_globals (n mm : Z) : heapProp := page_fns ↦ n ∗ low_mem_end ↦ low_end ∗ mem_map ↦ mm.

(** The struct of a page after its turn, unless the allocator has it. *)
Definition kept_page (k f : Z) : heapProp := (if is_ram k f then emp else reserved_page k f)%I.

Lemma init_page_turn j f ks mm : 0 ≤ j < 2 ^ 19 → Forall (λ x, x < j) ks → Z.of_nat (length ks) ≤ j →
  raw_page j f ∗ freed ks ∗ low_mem_end ↦ low_end ∗ mem_map ↦ mm ∗ (∃ v, (mm + 4 * j) ↦ v) ⊢
  wp (init_page buddy_list mem_map low_mem_end (PAGE_SIZE * j) (pg j) j) (λ _,
    kept_page j f ∗ freed (ks ++ if is_ram j f then [j] else []) ∗ low_mem_end ↦ low_end ∗ mem_map ↦ mm ∗ (mm + 4 * j) ↦ pg j).
Proof.
  intros Hj Hks Hlen. unfold kept_page. destruct (is_ram j f) eqn:E.
  - rw init_page_ram; [|done..]. apply wp_mono. iIntros ([]) "$".
  - rw app_nil_r init_page_low; [|lia|done]. done.
Qed.

Lemma init_pages_from fs vs j ks n mm : 0 ≤ j → j + Z.of_nat (length fs) = n → n < 2 ^ 19 → length vs = length fs →
  Forall (λ x, x < j) ks → Z.of_nat (length ks) ≤ j → pg n ≠ NULL →
  ([∗ list] i ↦ f ∈ fs, raw_page (j + Z.of_nat i) f) ∗ arr (mm + 4 * j) 4 vs ∗ freed ks ∗ loop_globals n mm ⊢
  wp (run (S (length fs)) (init_pages_step buddy_list mem_map page_fns low_mem_end) (j, pg j, PAGE_SIZE * j)) (λ _,
    ([∗ list] i ↦ f ∈ fs, kept_page (j + Z.of_nat i) f) ∗
    arr (mm + 4 * j) 4 (pg <$> seqZ j (Z.of_nat (length fs))) ∗ freed (ks ++ ram_pages j fs) ∗ loop_globals n mm).
Proof.
  revert vs j ks. induction fs as [|f fs IH]; intros vs j ks Hj Hn Hlt Hvs Hks Hlen Hne; iIntros "(Hp & Ha & Hb & Hg & He & Hm)".
  - cbn [run length]. unfold init_pages_step at 1. wp_load. simpl in Hn. rw Z.add_0_r in Hn. subst n.
    rw u32_small; [|lia]. rw Z.ltb_irrefl andb_false_r. wp_pures. destruct vs; [|done]. rw seqZ_nil // app_nil_r. iFrame.
  - destruct vs as [|v vs]; [done|]. rw arr_cons big_sepL_cons Z.add_0_r. iDestruct "Hp" as "[Hp Hps]". iDestruct "Ha" as "[Hv Ha]".
    iAssert ⌜pg j ≠ NULL⌝%I as %Hjne; [by iDestruct "Hp" as "((_ & _ & $) & _)"|].
    cbn [run length] in *. iApply wp_bind. unfold init_pages_step at 1. wp_load. rw (eqb_false _ _ Hjne) u32_small; [|lia].
    rw (proj2 (Z.ltb_lt _ _)); [|lia]. wp_pures. iApply wp_bind.
    iApply (wp_wand with "[Hp Hb He Hm Hv]"); [iApply (init_page_turn j f ks mm); [lia|done|done|iFrame]|].
    iIntros ([]) "(Hr & Hb & He & Hm & Hv)". wp_pures.
    rw (_ : pg j + sizeof_page = pg (j + 1)); [|unfold BuddySpec.pg; lia].
    rw (_ : u32 (PAGE_SIZE * j + PAGE_SIZE) = PAGE_SIZE * (j + 1)); [|rw u32_small; unfold PAGE_SIZE; lia].
    iApply (wp_wand with "[Hps Ha Hb He Hm Hg]").
    { iApply (IH vs (j + 1) _ with "[Hps Ha $Hb $He $Hm $Hg]"); [lia|lia|lia|by injection Hvs| | |done|].
      - apply Forall_app. split; [eapply Forall_impl; [exact Hks|simpl; lia]|]. destruct (is_ram j f); [by repeat constructor; lia|done].
      - rw length_app. destruct (is_ram j f); simpl; lia.
      - rw (_ : mm + 4 * (j + 1) = mm + 4 * j + 4); [|lia]. iFrame.
        iApply (big_sepL_impl with "Hps"). iIntros "!>" (i f' _) "H". by rw (_ : j + Z.of_nat (S i) = j + 1 + Z.of_nat i); [|lia]. }
    iIntros ([]) "(Hrs & Ha & Hb & $)". rw (_ : mm + 4 * (j + 1) = mm + 4 * j + 4); [|lia].
    rw (seqZ_cons j); [|lia]. rw fmap_cons arr_cons. rw big_sepL_cons Z.add_0_r. iFrame "Hv Hr".
    rw (_ : Z.pred (Z.of_nat (S (length fs))) = Z.of_nat (length fs)); [|lia]. rw -Z.add_1_r -(assoc_L (++)). iFrame "Ha Hb".
    iApply (big_sepL_impl with "Hrs"). iIntros "!>" (i f' _) "H". by rw (_ : j + 1 + Z.of_nat i = j + Z.of_nat (S i)); [|lia].
Qed.

Lemma alloc_low_mem_wp s size Q : 0 ≤ size → 0 ≤ s → s + size ≤ low_end →
  low_mem_start ↦ s -∗ low_mem_end ↦ low_end -∗
  (low_mem_start ↦ (s + size + SAFE_GAP) -∗ low_mem_end ↦ low_end -∗ Q s) -∗
  wp (alloc_low_mem low_mem_start low_mem_end size) Q.
Proof.
  iIntros (Hsize Hs Hle) "Hs He HQ". unfold low_end in *. unfold alloc_low_mem. wp_load. wp_load.
  rw u32_small; [|lia]. rw Z.gtb_ltb (proj2 (Z.ltb_ge _ _)); [|lia]. wp_load. wp_load. wp_store. wp_pures.
  rw (u32_small (s + (size + SAFE_GAP))); [|unfold SAFE_GAP; lia]. rw Z.add_assoc. iApply ("HQ" with "Hs He").
Qed.

Lemma page_aligned_small x : 0 ≤ x < 2 ^ 31 → page_aligned x = PAGE_SIZE * (x / PAGE_SIZE).
Proof.
  intros Hx. unfold page_aligned. rw u32_small; [|lia].
  rw (_ : Z.land x 0xfffff000 = PAGE_SIZE * (x / PAGE_SIZE)); [apply s32_small; unfold PAGE_SIZE; dlia|].
  change 0xfffff000 with (Z.ldiff (Z.ones 32) (Z.ones 12)).
  rw (_ : Z.land x (Z.ldiff (Z.ones 32) (Z.ones 12)) = Z.ldiff (Z.land x (Z.ones 32)) (Z.ones 12)).
  - rw Z.land_ones; [|lia]. rw Z.mod_small; [|lia]. rw Z.ldiff_ones_r; [|lia].
    rw Z.shiftl_mul_pow2; [|lia]. rw Z.shiftr_div_pow2; [|lia]. apply Z.mul_comm.
  - apply Z.bits_inj'. intros i Hi. by rw Z.land_spec !Z.ldiff_spec Z.land_spec andb_assoc.
Qed.

(** C24: When [init_mem] has set up the pages, before the object caches take some of them, the free pages are exactly those above the low memory
    and those of the low memory whose uninitialised flags have the bit [SYS_RAM], each once, and no two free blocks below the highest order
    are neighbours; every page is in [mem_map] with its address, and the other pages of the low memory are marked as reserved. *)
Theorem init_mem_pages_correct fs vs msz ka s :
  let n := Z.of_nat (length fs) in
  {{ ([∗ list] o ∈ seqZ 0 NR_MEM_LISTS, raw_header buddy_list o) ∗ lnode cache_chain ∗
     (BOOT_PARAM_ADDR + 4 * BP_MEM_SIZE) ↦ msz ∗ (BOOT_PARAM_ADDR + 4 * BP_KERNEL_ADDR) ↦ ka ∗
     (∃ v, page_fns ↦ v) ∗ (∃ v, mem_map ↦ v) ∗ low_mem_start ↦ s ∗ low_mem_end ↦ low_end ∗
     arr s 4 vs ∗ ([∗ list] i ↦ f ∈ fs, raw_page (Z.of_nat i) f) ∗
     ⌜0 < s ∧ 0 ≤ msz ∧ msz / PAGE_SIZE = n ∧ length vs = length fs ∧ pages = (s + 4 * n + SAFE_GAP)%Z ∧
      (pages + sizeof_page * n)%Z ≤ low_end⌝ }}
    init_mem_pages buddy_list cache_chain mem_map page_fns low_mem_start low_mem_end
  {{ _, ∃ L, ⌜frames L ≡ₚ ram_pages 0 fs ∧ tidy L⌝ ∗ buddy buddy_list pages L ∗ dlist cache_chain [] ∗
     ([∗ list] i ↦ f ∈ fs, kept_page (Z.of_nat i) f) ∗
     arr s 4 (pg <$> seqZ 0 n) ∗ page_fns ↦ n ∗ mem_map ↦ s ∗
     (BOOT_PARAM_ADDR + 4 * BP_MEM_SIZE) ↦ msz ∗ (BOOT_PARAM_ADDR + 4 * BP_KERNEL_ADDR) ↦ ka ∗
     low_mem_start ↦ (pages + sizeof_page * n + SAFE_GAP) ∗ low_mem_end ↦ low_end }}.
Proof.
  intros n. apply triple_wp.
  iIntros "(Hh & Hc & Hms & Hka & [%v1 Hf] & [%v2 Hm] & Hs & He & Ha & Hp & (%Hs & %Hm0 & %Hmsz & %Hvs & %Hpages & %Hend))".
  assert (0 ≤ n) as Hn0 by lia. unfold low_end, SAFE_GAP, sizeof_page, PAGE_SIZE in *.
  unfold init_mem_pages. iApply wp_bind. iApply (wp_wand with "[Hh]"); [by iApply (buddy_list_init_wp buddy_list pages)|].
  iIntros ([]) "Hb". iApply wp_bind. unfold kmem_cache_init. iApply wp_bind. iApply (INIT_LIST_HEAD_wp with "Hc"). iIntros "Hc".
  wp_pures. unfold get_boot_params. iApply wp_bind. wp_load. wp_load. wp_pures.
  rw page_aligned_small; [|dlia]. unfold PAGE_SIZE in *. rw Hmsz.
  rw (u32_small (4096 * n)); [|lia]. unfold MAP_NR, PAGE_SHIFT. rw Z.shiftr_div_pow2; [|lia].
  rw (_ : 4096 * n / 2 ^ 12 = n); [|dlia]. wp_store. wp_load. rw (s32_small (n * 4)); [|lia].
  iApply wp_bind. iApply (alloc_low_mem_wp s (n * 4) with "Hs He"); [lia|lia|unfold low_end; lia|]. iIntros "Hs He".
  wp_store. wp_load. unfold SAFE_GAP, sizeof_page. rw (s32_small (n * 56)); [|lia]. rw (_ : s + n * 4 + 4096 = pages); [|lia].
  iApply wp_bind. iApply (alloc_low_mem_wp pages (n * 56) with "Hs He"); [lia|lia|unfold low_end; lia|]. iIntros "Hs He".
  iApply wp_bind. unfold init_pages. iApply (wp_wand with "[Hp Ha Hb Hf Hm He]").
  { rw (_ : Z.to_nat n = length fs); [|lia].
    pose proof (init_pages_from fs vs 0 [] n s) as H. rw !Z.mul_0_r Z.add_0_r in H.
    rw (_ : pg 0 = pages) in H; [|unfold BuddySpec.pg; lia]. iApply H; [lia|lia|lia|done|done|done| |].
    - unfold BuddySpec.pg, sizeof_page, NULL. lia.
    - iFrame. }
  iIntros ([]) "(Hr & Ha & Hb & Hf & He & Hm)". iApply wp_bind. iApply (wp_wand with "[Hb]").
  { iApply buddy_list_tidy_wp; [|iExact "Hb"]. apply ram_pages_spaced. lia. }
  iIntros (r) "(-> & %L & %HL & Hb)". wp_pures. iExists L. iFrame "Hb Hc Hf Hm Hms Hka He".
  iSplit; [done|]. unfold SAFE_GAP. iFrame "Hr Ha".
  by rw (_ : pages + n * 56 + 4096 = pages + 56 * n + 4096); [|lia].
Qed.
End start.

(** ** The page table of [paging_init] *)

Section paging.
Context (low_mem_start low_mem_end : Z).

(** The entries of the pages from [k] on. *)
Definition entries (k n : Z) : list Z := (λ i, mk_pte (PAGE_SIZE * i) PAGE_SHARED) <$> seqZ k n.

Lemma entries_app k n1 n2 : 0 ≤ n1 → 0 ≤ n2 → entries k (n1 + n2) = entries k n1 ++ entries (k + n1) n2.
Proof. intros. unfold entries. by rw seqZ_app // fmap_app. Qed.

Lemma entries_cons k n : 0 < n → entries k n = mk_pte (PAGE_SIZE * k) PAGE_SHARED :: entries (k + 1) (n - 1).
Proof. intros. unfold entries. rw seqZ_cons; [|lia]. by rw fmap_cons Z.add_1_r Z.sub_1_r. Qed.

Definition fill_step (memory_size : Z) : Z * Z * Z → M (Z * Z * Z + (Z * Z + Z)) := λ '(j, addr, pg_table),
  if j <? PTRS_PER_PTE then
    if addr <? u32 memory_size then
      store pg_table (mk_pte addr PAGE_SHARED);;
      mret (inl (j + 1, u32 (addr + PAGE_SIZE), pg_table + 4))
    else mret (inr (inr 0))
  else mret (inr (inl (addr, pg_table))).

(** The rest of one table, when [vs] are the entries that are still to be set. *)
Lemma fill_run c vs j k t n : 0 ≤ k → k + Z.of_nat (length vs) = n → n < 2 ^ 19 → j + Z.of_nat c = PTRS_PER_PTE →
  arr (t + 4 * k) 4 vs ⊢ wp (run (S c) (fill_step (PAGE_SIZE * n)) (j, PAGE_SIZE * k, t + 4 * k)) (λ r,
    if decide (c ≤ length vs)%nat then
      ⌜r = inl (PAGE_SIZE * (k + Z.of_nat c), t + 4 * (k + Z.of_nat c))%Z⌝ ∗
      arr (t + 4 * k) 4 (entries k (Z.of_nat c)) ∗ arr (t + 4 * (k + Z.of_nat c)) 4 (drop c vs)
    else ⌜r = inr 0⌝ ∗ arr (t + 4 * k) 4 (entries k (Z.of_nat (length vs)))).
Proof.
  revert vs j k. induction c as [|c IH]; intros vs j k Hk Hn Hlt Hj; iIntros "Ha"; cbn [run]; iApply wp_bind; unfold fill_step at 1.
  - rw (_ : (j <? PTRS_PER_PTE) = false); [|apply Z.ltb_ge; lia]. destruct (decide (0 ≤ length vs)%nat) as [_|?]; [|lia].
    wp_pures. rw Z.add_0_r drop_0. iSplit; [done|]. iFrame. change (entries k 0%nat) with (@nil Z). by rw arr_nil.
  - rw (_ : (j <? PTRS_PER_PTE) = true); [|apply Z.ltb_lt; lia]. rw u32_small; [|unfold PAGE_SIZE; lia].
    destruct vs as [|v vs]; cbn [length] in *.
    + rw (_ : (PAGE_SIZE * k <? PAGE_SIZE * n) = false); [|apply Z.ltb_ge; unfold PAGE_SIZE; lia].
      destruct (decide (S c ≤ 0)%nat) as [?|_]; [lia|]. wp_pures. iSplit; [done|]. change (entries k 0%nat) with (@nil Z). by rw !arr_nil.
    + rw (_ : (PAGE_SIZE * k <? PAGE_SIZE * n) = true); [|apply Z.ltb_lt; unfold PAGE_SIZE; lia].
      rw arr_cons. iDestruct "Ha" as "[Hv Ha]". wp_store. wp_pures.
      rw (_ : u32 (PAGE_SIZE * k + PAGE_SIZE) = PAGE_SIZE * (k + 1)); [|rw u32_small; unfold PAGE_SIZE; lia].
      rw (_ : t + 4 * k + 4 = t + 4 * (k + 1)); [|lia].
      iApply (wp_wand with "[Ha]"); [iApply (IH vs (j + 1) (k + 1)); [lia|lia|lia|lia|iFrame]|].
      iIntros (r) "H". destruct (decide (c ≤ length vs)%nat), (decide (S c ≤ S (length vs))%nat); [|lia|lia|].
      * iDestruct "H" as "(-> & Ha & Hr)". rw (_ : k + 1 + Z.of_nat c = k + Z.of_nat (S c)); [|lia]. iFrame "Hr".
        iSplit; [done|]. rw (entries_cons k); [|lia]. rw arr_cons (_ : Z.of_nat (S c) - 1 = Z.of_nat c); [|lia].
        rw (_ : t + 4 * k + 4 = t + 4 * (k + 1)); [|lia]. iFrame.
      * iDestruct "H" as "(-> & Ha)". iSplit; [done|]. rw (entries_cons k); [|lia].
        rw arr_cons (_ : Z.of_nat (S (length vs)) - 1 = Z.of_nat (length vs)); [|lia].
        rw (_ : t + 4 * k + 4 = t + 4 * (k + 1)); [|lia]. iFrame.
Qed.

Lemma paging_run c vs i t d n : 0 ≤ i → PTRS_PER_PTE * i + Z.of_nat (length vs) = n → n < 2 ^ 19 →
  n < PTRS_PER_PTE * (i + Z.of_nat c) →
  (∃ v, d ↦ v) ∗ arr (t + 4 * (PTRS_PER_PTE * i)) 4 vs ⊢
  wp (run c (paging_step (PAGE_SIZE * n) d) (i, PAGE_SIZE * (PTRS_PER_PTE * i), t + 4 * (PTRS_PER_PTE * i))) (λ r,
    ⌜r = 0⌝ ∗ d ↦ mk_pgd (t + 4 * (PTRS_PER_PTE * (n / PTRS_PER_PTE))) PAGE_SHARED ∗
    arr (t + 4 * (PTRS_PER_PTE * i)) 4 (entries (PTRS_PER_PTE * i) (Z.of_nat (length vs)))).
Proof.
  revert vs i. induction c as [|c IH]; intros vs i Hi Hn Hlt Hc; [unfold PTRS_PER_PTE in *; lia|].
  iIntros "[[%v Hd] Ha]". cbn [run]. iApply wp_bind. unfold paging_step at 1.
  rw (proj2 (Z.leb_le _ _)); [|unfold PTRS_PER_PTE, HIGH_MEM_ENTRY in *; lia]. wp_store. iApply wp_bind. unfold fill_table.
  rw (_ : (Z.to_nat PTRS_PER_PTE + 1 = S (Z.to_nat PTRS_PER_PTE))%nat); [|lia].
  iApply (wp_wand with "[Ha]"); [iApply (fill_run _ vs 0 (PTRS_PER_PTE * i) t n); [unfold PTRS_PER_PTE in *; lia|done|done|done|iFrame]|].
  iIntros (r) "H". unfold PTRS_PER_PTE in *. case_decide as Hdec.
  - iDestruct "H" as "(-> & Ha & Hr)". wp_pures. rw (_ : Z.of_nat (Z.to_nat 1024) = 1024); [|lia].
    rw (_ : 1024 * i + 1024 = 1024 * (i + 1)); [|lia].
    assert (Z.of_nat (length (drop (Z.to_nat 1024) vs)) = Z.of_nat (length vs) - 1024) as Hdrop; [rw length_drop; lia|].
    iApply (wp_wand with "[Hd Hr]"); [iApply (IH (drop (Z.to_nat 1024) vs) (i + 1)); [lia|lia|lia|lia|iFrame]|].
    iIntros (r) "(-> & Hd & Hr)". iSplit; [done|]. iFrame "Hd".
    rw (_ : Z.of_nat (length vs) = 1024 + Z.of_nat (length (drop (Z.to_nat 1024) vs))); [|lia]. rw entries_app; [|lia|lia].
    rw arr_app (_ : 1024 * i + 1024 = 1024 * (i + 1)); [|lia]. iFrame "Ha".
    unfold entries at 2. rw length_fmap length_seqZ. by rw (_ : t + 4 * (1024 * i) + 4 * Z.of_nat (Z.to_nat 1024) = t + 4 * (1024 * (i + 1))); [|lia].
  - iDestruct "H" as "(-> & Ha)". wp_pures. iSplit; [done|]. iFrame "Ha".
    by rw (_ : n / 1024 = i); [|dlia].
Qed.

(** The boot parameters and the bounds of the low memory. *)
Definition boot_state (msz ka s : Z) : heapProp :=
  (BOOT_PARAM_ADDR + 4 * BP_MEM_SIZE) ↦ msz ∗ (BOOT_PARAM_ADDR + 4 * BP_KERNEL_ADDR) ↦ ka ∗
  low_mem_start ↦ s ∗ low_mem_end ↦ low_end.

(** What [paging_init] takes of the low memory: the directory, a table of [HIGH_MEM_ENTRY] entries and two gaps. *)
Definition table_at (s : Z) : Z := s + PGD_ENTRYS * 4 + SAFE_GAP.
Definition low_after (s : Z) : Z := table_at s + HIGH_MEM_ENTRY * 4 + SAFE_GAP.

Lemma paging_init_wp vs msz ka s : 0 < s → low_after s ≤ low_end → 0 ≤ msz < 2 ^ 31 → msz / PAGE_SIZE = Z.of_nat (length vs) →
  boot_state msz ka s ∗ (∃ v, s ↦ v) ∗ arr (table_at s) 4 vs ⊢
  wp (paging_init low_mem_start low_mem_end) (λ r, ⌜r = 0⌝ ∗ boot_state msz ka (low_after s) ∗
    s ↦ mk_pgd (table_at s + PAGE_SIZE * (Z.of_nat (length vs) / PTRS_PER_PTE)) PAGE_SHARED ∗
    arr (table_at s) 4 (entries 0 (Z.of_nat (length vs)))).
Proof.
  intros Hs Hlow Hm Hn. iIntros "((Hms & Hka & Hs & He) & Hd & Ha)". unfold paging_init, get_boot_params. iApply wp_bind.
  wp_load. wp_load. wp_pures. rw page_aligned_small // Hn. unfold low_after in *.
  unfold table_at, low_end, PGD_ENTRYS, SAFE_GAP, HIGH_MEM_ENTRY, PTRS_PER_PTE in *.
  iApply wp_bind. iApply (alloc_low_mem_wp with "Hs He"); [lia|lia|unfold low_end; lia|]. iIntros "Hs He".
  iApply wp_bind. iApply (alloc_low_mem_wp with "Hs He"); [unfold SAFE_GAP; lia|unfold SAFE_GAP; lia|unfold SAFE_GAP, low_end; lia|].
  iIntros "Hs He". unfold SAFE_GAP. rw !eqb_false; [|unfold NULL; lia|unfold NULL; lia]. wp_pures.
  iApply (wp_wand with "[Hd Ha]").
  { set (n := Z.of_nat (length vs)) in *. assert (n < 2 ^ 19) as Hlt; [unfold PAGE_SIZE in *; dlia|].
    pose proof (paging_run 770 vs 0 (s + 1024 * 4 + 4096) s n) as H. rw !Z.mul_0_r Z.add_0_r in H.
    change (Z.to_nat 768 + 2)%nat with 770%nat. iApply H; [lia|done|lia|unfold PTRS_PER_PTE; lia|iFrame]. }
  iIntros (r) "(-> & Hd & Ha)". iSplit; [done|]. iFrame. unfold PTRS_PER_PTE.
  by rw (_ : PAGE_SIZE * (Z.of_nat (length vs) / 1024) = 4 * (1024 * (Z.of_nat (length vs) / 1024))); [|unfold PAGE_SIZE; lia].
Qed.
(** [paging_init] ends and maps every page of the memory, in order, with one entry each, in a table behind the directory; of the
    directory it sets the first entry only, again for every 1024 entries, so that it refers to the last part of the table. *)
Theorem paging_init_correct vs msz ka s :
  {{ boot_state msz ka s ∗ (∃ v, s ↦ v) ∗ arr (table_at s) 4 vs ∗
     ⌜0 < s ∧ low_after s ≤ low_end ∧ 0 ≤ msz < 2 ^ 31 ∧ msz / PAGE_SIZE = Z.of_nat (length vs)⌝ }}
    paging_init low_mem_start low_mem_end
  {{ r, ⌜r = 0⌝ ∗ boot_state msz ka (low_after s) ∗
     s ↦ mk_pgd (table_at s + PAGE_SIZE * (Z.of_nat (length vs) / PTRS_PER_PTE)) PAGE_SHARED ∗
     arr (table_at s) 4 (entries 0 (Z.of_nat (length vs))) }}.
Proof. apply triple_wp. iIntros "(Hb & Hd & Ha & (%H1 & %H2 & %H3 & %H4))". iApply paging_init_wp; [done..|iFrame]. Qed.

(** With more than 7 MB of memory the low memory that is handed out after [paging_init] begins inside the page table that it
    has filled: [init_mem] puts [mem_map] over its entries. *)
Theorem paging_init_overlap vs msz ka s size :
  {{ boot_state msz ka s ∗ (∃ v, s ↦ v) ∗ arr (table_at s) 4 vs ∗
     ⌜0 < s ∧ low_after s + size ≤ low_end ∧ 0 ≤ size ∧ 0x700000 < msz < 2 ^ 31 ∧ msz mod PAGE_SIZE = 0 ∧
      msz / PAGE_SIZE = Z.of_nat (length vs)⌝ }}
    (paging_init low_mem_start low_mem_end;; alloc_low_mem low_mem_start low_mem_end size)
  {{ a, ∃ i, ⌜0 ≤ i < Z.of_nat (length vs) ∧ a = (table_at s + 4 * i)%Z⌝ ∗
     boot_state msz ka (a + size + SAFE_GAP) ∗ (∃ v, s ↦ v) ∗ arr (table_at s) 4 (entries 0 (Z.of_nat (length vs))) }}.
Proof.
  apply triple_wp. iIntros "(Hb & Hd & Ha & (%H1 & %H2 & %H3 & %H4 & %H5 & %H6))". iApply wp_bind.
  iApply (wp_wand with "[Hb Hd Ha]"); [iApply (paging_init_wp vs msz ka s); [done|lia|lia|done|iFrame]|].
  iIntros (r) "(-> & (Hms & Hka & Hs & He) & Hd & Ha)". wp_pures. unfold low_after, table_at, PGD_ENTRYS, SAFE_GAP, HIGH_MEM_ENTRY, PAGE_SIZE in *.
  iApply (alloc_low_mem_wp with "Hs He"); [lia|lia|done|]. iIntros "Hs He". iExists 1792. iFrame. iPureIntro.
  split; [dlia|lia].
Qed.
End paging.

(** ** Entries and page faults *)

(** An entry refers to a page by the virtual address of the kernel instead of the physical one: the number in it is never that
    of the page it was made for. *)
Theorem mk_pte_wrong_page k prot : 0 ≤ k < 2 ^ 20 → 0 ≤ prot < PAGE_SIZE →
  MAP_NR (mk_pte (PAGE_SIZE * k) prot) = (k + 0xC0000) mod 2 ^ 20 ∧ MAP_NR (mk_pte (PAGE_SIZE * k) prot) ≠ k.
Proof.
  intros Hk Hp. assert (MAP_NR (mk_pte (PAGE_SIZE * k) prot) = (k + 0xC0000) mod 2 ^ 20) as ->; [|split; [done|dlia]].
  unfold MAP_NR, mk_pte, PAGE_SHIFT. rw Z.shiftr_lor !Z.shiftr_div_pow2; [|lia|lia]. change (2 ^ 12) with PAGE_SIZE.
  rw (Z.div_small prot) // Z.lor_0_r. unfold __va, u32, PAGE_OFFSET, PAGE_SIZE in *. dlia.
Qed.

Section faults.
Context (buddy_list mem_map main_memory_end : Z).

Lemma get_free_page_kernel_wp (Q : Z → heapProp) : Q NULL ⊢ wp (get_free_page buddy_list GFP_KERNEL) Q.
Proof. iIntros "H". iApply (wp_ext (mret NULL)); [|by iApply wp_ret]. intros m. by rw get_free_page_null. Qed.

(** A page fault never returns: [handle_mm_fault] runs into the panic at its end also after it has handled the fault. *)
Theorem handle_mm_fault_never_returns vma address write_access m r m' :
  handle_mm_fault buddy_list mem_map main_memory_end vma address write_access m ≠ Ok r m'.
Proof.
  unfold handle_mm_fault, mbind, M_bind. destruct (load (vma + vm_task) m) as [t m1| | |]; try done.
  destruct (pgd_offset t address m1) as [p m2| | |]; try done. cbn.
  destruct (p =? NULL); [done|]. destruct (pte_alloc _ _ _ _ _ m2) as [pte m3| | |]; try done.
  destruct (pte =? NULL); [done|]. by destruct (handle_pte_fault _ _ _ _ _ _ _ m3).
Qed.

(** A fault on a page that is present, without a write: the entry is marked as accessed and as dirty. *)
Theorem handle_pte_fault_read vma address pte v :
  {{ pte ↦ v ∗ ⌜pte_present v = true⌝ }}
    handle_pte_fault buddy_list mem_map main_memory_end vma address pte 0
  {{ _, pte ↦ Z.lor (Z.lor v PAGE_ACCESSED) PAGE_DIRTY }}.
Proof.
  apply triple_wp. iIntros "[H %Hv]". unfold handle_pte_fault. wp_load. rw Hv. wp_pures. wp_load. wp_store. wp_load. by wp_store.
Qed.

(** A fault on a page that is not present: nothing happens, the page stays missing. *)
Theorem handle_pte_fault_missing vma address pte v write_access :
  {{ pte ↦ v ∗ ⌜pte_present v = false⌝ }}
    handle_pte_fault buddy_list mem_map main_memory_end vma address pte write_access
  {{ _, pte ↦ v }}.
Proof.
  apply triple_wp. iIntros "[H %Hv]". unfold handle_pte_fault, do_no_page. wp_load. rw Hv. wp_pures.
  iApply wp_bind. iApply get_free_page_kernel_wp. by wp_pures.
Qed.

(** The way from the directory of a task to an entry, as the code takes it: the page struct of each table is found through
    [mem_map], and the entry of an address above 12 is one byte behind the start of its table. *)
Definition walk (vma t cr3 mm address g p1 a1 d p2 a2 e : Z) : heapProp :=
  (vma + vm_task) ↦ t ∗ (t + tss_cr3) ↦ cr3 ∗ u32 (cr3 + Z.shiftr address PGD_SHIFT) ↦ g ∗ mem_map ↦ mm ∗
  (mm + 4 * MAP_NR g) ↦ p1 ∗ (p1 + pg_address) ↦ a1 ∗ u32 a1 ↦ d ∗
  (mm + 4 * MAP_NR d) ↦ p2 ∗ (p2 + pg_address) ↦ a2 ∗ main_memory_end ↦ e ∗
  ⌜pgd_none g = false ∧ pmd_none d = false ∧ Z.land d (PAGE_SIZE - 1) = PAGE_TABLE ∧ d ≤ e⌝.

(** A write to a shared page that is only readable makes the page writable for everybody: the entry gets the flags for writing and dirty
    and keeps its page, nothing is copied. *)
Theorem do_wp_page_no_copy vma address write_access t cr3 mm g p1 a1 d p2 a2 e v p3 old :
  let entry := u32 (a2 + b2z (address >? PTE_SHIFT)) in
  {{ walk vma t cr3 mm address g p1 a1 d p2 a2 e ∗ entry ↦ v ∗ (mm + 4 * MAP_NR v) ↦ p3 ∗ (p3 + pg_address) ↦ old ∗
     ⌜pte_present v = true ∧ pte_iswrite v = false ∧ old < e⌝ }}
    do_wp_page buddy_list mem_map main_memory_end vma address write_access
  {{ _, walk vma t cr3 mm address g p1 a1 d p2 a2 e ∗ entry ↦ Z.lor (Z.lor v PAGE_RW) PAGE_DIRTY ∗
     (mm + 4 * MAP_NR v) ↦ p3 ∗ (p3 + pg_address) ↦ old }}.
Proof.
  intros entry. apply triple_wp.
  iIntros "((H1 & H2 & H3 & H4 & H5 & H6 & H7 & H8 & H9 & H10 & (%Hg & %Hd & %Hd' & %He)) & Hv & H11 & H12 & (%Hp & %Hw & %Hold))".
  unfold do_wp_page. iApply wp_bind. iApply get_free_page_kernel_wp. wp_load. unfold pgd_offset. iApply wp_bind. wp_load. wp_pures.
  wp_load. rw Hg. wp_pures. unfold pgd_bad, pmd_offset, pgd_page, map_page. iApply wp_bind. wp_load. iApply wp_bind. wp_load. wp_load. wp_load.
  rw (_ : Z.land (b2z (address >? PMD_SHIFT)) (PTRS_PER_PMD - 1) = 0); [|apply Z.land_0_r]. rw Z.add_0_r. wp_pures.
  wp_load. rw Hd. wp_pures. unfold pmd_bad. iApply wp_bind. wp_load. wp_pures.
  change (u32 (Z.lnot PAGE_MASK)) with (PAGE_SIZE - 1). rw Hd' Z.eqb_refl Z.gtb_ltb (proj2 (Z.ltb_ge _ _) He). wp_pures.
  unfold pte_offset, pmd_page, map_page. iApply wp_bind. wp_load. iApply wp_bind. wp_load. wp_load. wp_load.
  rw (_ : Z.land (b2z (address >? PTE_SHIFT)) (PTRS_PER_PTE - 1) = b2z (address >? PTE_SHIFT)); [|by destruct (address >? PTE_SHIFT)].
  wp_pures. unfold entry. wp_load. rw Hp Hw. wp_pures. unfold pte_page, map_page. iApply wp_bind. wp_load. wp_load. wp_load. wp_load.
  rw (geb_false _ _ Hold). wp_store. iFrame. done.
Qed.
End faults.

(** ** Unmapping *)

Section unmap.
Context (buddy_list mem_map current nr_swapfiles swap_files nr_swap_pages pages : Z).

Abbreviation buddy := (buddy buddy_list pages).
Abbreviation pg := (pg pages).

(** [mem_map] of [n] pages. *)
Definition page_map (mm n : Z) : heapProp := mem_map ↦ mm ∗ arr mm 4 (pg <$> seqZ 0 n).

Lemma map_page_wp mm n v Q : 0 ≤ MAP_NR v < n →
  page_map mm n -∗ (page_map mm n -∗ Q (pg (MAP_NR v))) -∗ wp (map_page mem_map v) Q.
Proof.
  iIntros (Hv) "[Hm Ha] HQ". unfold map_page. wp_load.
  iApply (arr_load _ _ _ (Z.to_nat (MAP_NR v)) with "Ha"); [|lia|iIntros "Ha"; iApply "HQ"; iFrame].
  rw list_lookup_fmap lookup_seqZ_lt; [|lia]. simpl. do 2 f_equal. lia.
Qed.

(** The free pages together with one page that becomes free. *)
Lemma free_page_wp k L Q : Z.of_nat (length (frames L)) < 2 ^ 20 →
  buddy L -∗ blk pages 0 k -∗ (∀ L', ⌜frames L' ≡ₚ k :: frames L⌝ -∗ buddy L' -∗ Q 0) -∗ wp (free_page buddy_list (pg k)) Q.
Proof.
  iIntros (HL) "Hb Hk HQ". iApply (wp_wand with "[Hb Hk]").
  - iApply (free_pages_wp buddy_list pages 0 k L); [done|simpl; lia|iFrame].
  - iIntros (r) "(-> & %ks1 & %ks2 & (_ & _ & %Hfr) & Hb)". by iApply ("HQ" with "[] Hb").
Qed.

(** [free_one_pte] frees the page of a present entry and leaves the entry as it is: the page is in the free lists and still
    mapped. *)
Theorem free_one_pte_dangling p v mm n L :
  {{ p ↦ v ∗ page_map mm n ∗ buddy L ∗ blk pages 0 (MAP_NR v) ∗
     ⌜pte_present v = true ∧ 0 ≤ MAP_NR v < n ∧ Z.of_nat (length (frames L)) < 2 ^ 20⌝ }}
    free_one_pte buddy_list mem_map p
  {{ _, p ↦ v ∗ page_map mm n ∗ ∃ L', ⌜frames L' ≡ₚ MAP_NR v :: frames L⌝ ∗ buddy L' }}.
Proof.
  apply triple_wp. iIntros "(Hp & Hm & Hb & Hk & (%Hv & %Hn & %HL))". unfold free_one_pte, pte_none. wp_load.
  rw (eqb_false v 0); [|by intros ->]. wp_load. unfold pte_clear. wp_pures. rw Hv. wp_pures. iApply wp_bind.
  iApply (map_page_wp with "Hm"); [done|]. iIntros "Hm". iApply wp_bind. iApply (free_page_wp with "Hb Hk"); [done|].
  iIntros (L') "%HL' Hb". wp_pures. iFrame. done.
Qed.

(** The pages that the entries of a table map. *)
Definition page_of (v : Z) : list Z := if pte_none v then [] else [MAP_NR v].
Definition pages_of (vs : list Z) : list Z := vs ≫= page_of.

(** An entry is empty or maps one of the [n] pages. *)
Definition entry_ok (n v : Z) : Prop := v = 0 ∨ (pte_present v = true ∧ 0 ≤ MAP_NR v < n).

(** The number of resident pages of the running task, which stops at zero. *)
Definition rss_at (t mm' r : Z) : heapProp := current ↦ t ∗ (t + task_mm) ↦ mm' ∗ (mm' + mm_rss) ↦ r.

Lemma forget_pte_wp v mm n L t mm' r Q : entry_ok n v → Z.of_nat (length (frames L)) < 2 ^ 20 → 0 ≤ r < 2 ^ 32 →
  page_map mm n -∗ buddy L -∗ ([∗ list] k ∈ page_of v, blk pages 0 k) -∗ rss_at t mm' r -∗
  (∀ L', ⌜frames L' ≡ₚ page_of v ++ frames L⌝ -∗ page_map mm n -∗ buddy L' -∗
     rss_at t mm' (Z.max 0 (r - Z.of_nat (length (page_of v)))) -∗ Q tt) -∗
  wp (forget_pte buddy_list mem_map current nr_swapfiles swap_files nr_swap_pages v) Q.
Proof.
  iIntros (Hv HL Hr) "Hm Hb Hk (Ht & Hmm & Hr) HQ". unfold forget_pte, page_of, pte_none. destruct Hv as [->|[Hv Hn]].
  - rw Z.eqb_refl. wp_pures. simpl. rw Z.sub_0_r Z.max_r; [|lia]. iApply ("HQ" with "[//] Hm Hb [Ht Hmm Hr]"). iFrame.
  - rw (eqb_false v 0); [|by intros ->]. rw Hv big_sepL_singleton. iApply wp_bind. iApply (map_page_wp with "Hm"); [done|].
    iIntros "Hm". iApply wp_bind. iApply (free_page_wp with "Hb Hk"); [done|]. iIntros (L') "%HL' Hb".
    wp_load. wp_load. wp_load. cbn [length]. destruct (Z.leb_spec r 0).
    + wp_pures. rw (_ : Z.max 0 (r - Z.of_nat 1) = r); [|lia]. iApply ("HQ" with "[//] Hm Hb [Ht Hmm Hr]"). iFrame.
    + wp_load. wp_load. wp_load. rw u32_small; [|lia]. wp_store. rw (_ : Z.max 0 (r - Z.of_nat 1) = r - 1); [|lia].
      iApply ("HQ" with "[//] Hm Hb [Ht Hmm Hr]"). iFrame.
Qed.

Lemma pages_of_take_S vs i v : vs !! i = Some v → pages_of (take (S i) vs) = pages_of (take i vs) ++ page_of v.
Proof. intros Hi. rw (take_S_r _ _ _ Hi). unfold pages_of. by rw bind_app /= app_nil_r. Qed.

Lemma pages_of_length vs : (length (pages_of vs) ≤ length vs)%nat.
Proof.
  induction vs as [|v vs IH]; [done|]. change (pages_of (v :: vs)) with (page_of v ++ pages_of vs).
  rw length_app. unfold page_of at 1. destruct (pte_none v); simpl; lia.
Qed.

(** Unmapping a range of entries frees exactly the pages they map and counts them as no longer resident, and the entries stay
    in the table: they still map the freed pages. *)
Theorem unmap_ptes_dangling p vs addr end_ mm n L t mm' r :
  {{ arr p 4 vs ∗ page_map mm n ∗ buddy L ∗ ([∗ list] k ∈ pages_of vs, blk pages 0 k) ∗ rss_at t mm' r ∗
     ⌜vs ≠ [] ∧ Forall (entry_ok n) vs ∧ 0 ≤ addr ∧ end_ ≤ PMD_SIZE ∧
      end_ = (addr + PAGE_SIZE * Z.of_nat (length vs))%Z ∧ 0 ≤ r < 2 ^ 32 ∧
      Z.of_nat (length (frames L)) + Z.of_nat (length vs) ≤ 2 ^ 20⌝ }}
    unmap_ptes buddy_list mem_map current nr_swapfiles swap_files nr_swap_pages end_ p addr
  {{ _, arr p 4 vs ∗ page_map mm n ∗ rss_at t mm' (Z.max 0 (r - Z.of_nat (length (pages_of vs)))) ∗
     ∃ L', ⌜frames L' ≡ₚ pages_of vs ++ frames L⌝ ∗ buddy L' }}.
Proof.
  apply triple_wp. iIntros "(Ha & Hm & Hb & Hk & Hr & (%Hne & %Hok & %Haddr & %Hend & %Hlen & %Hr & %HL))".
  assert (0 < length vs)%nat as Hpos by (destruct vs; [done|simpl; lia]). unfold unmap_ptes.
  iApply (wp_loop _ (λ c s, ∃ i, ⌜s = (p + 4 * Z.of_nat i, addr + PAGE_SIZE * Z.of_nat i)%Z ∧ (c + i = length vs)%nat ∧ (0 < c)%nat⌝ ∗
      arr p 4 vs ∗ page_map mm n ∗ (∃ L', ⌜frames L' ≡ₚ pages_of (take i vs) ++ frames L⌝ ∗ buddy L') ∗
      ([∗ list] k ∈ pages_of (drop i vs), blk pages 0 k) ∗
      rss_at t mm' (Z.max 0 (r - Z.of_nat (length (pages_of (take i vs))))))%I _ (length vs)).
  - iIntros "(%i & (_ & %Hi & _) & Ha & _)". by iApply arr_cells.
  - clear Hne. intros c s. iIntros "(%i & (-> & %Hi & %Hc) & Ha & Hm & (%L' & %HL' & Hb) & Hk & Hr)".
    destruct (lookup_lt_is_Some_2 vs i) as [v Hv]; [lia|].
    wp_focus. iApply (arr_load _ _ _ i with "Ha"); [done|done|]. iIntros "Ha". unfold pte_clear. wp_pures. iApply wp_bind.
    rw (drop_S _ _ _ Hv). change (pages_of (v :: ?l)) with (page_of v ++ pages_of l). rw big_sepL_app. iDestruct "Hk" as "[Hv Hk]".
    pose proof (Permutation_length HL') as HlL. rw length_app in HlL. pose proof (pages_of_length (take i vs)) as Hpl.
    rw length_take in Hpl. iApply (forget_pte_wp with "Hm Hb Hv Hr").
    { by eapply Forall_lookup_1. } { lia. } { lia. }
    iIntros (L'') "%HL'' Hm Hb Hr". wp_pures. unfold PMD_SIZE, PGD_SIZE, PAGE_SIZE in *. rw u32_small; [|lia].
    iAssert (∃ L', ⌜frames L' ≡ₚ pages_of (take (S i) vs) ++ frames L⌝ ∗ buddy L')%I with "[Hb]" as "Hb".
    { iExists L''. iFrame "Hb". iPureIntro. by rw (pages_of_take_S _ _ _ Hv) HL'' HL' !assoc (comm (++) (page_of v)). }
    rw (_ : Z.max 0 (Z.max 0 (r - Z.of_nat (length (pages_of (take i vs)))) - Z.of_nat (length (page_of v))) =
      Z.max 0 (r - Z.of_nat (length (pages_of (take (S i) vs))))); [|rw (pages_of_take_S _ _ _ Hv) length_app; lia].
    destruct (Z.ltb_spec (addr + 4096 * Z.of_nat i + 4096) end_).
    + wp_pures. iExists (c - 1)%nat. iSplit; [iPureIntro; lia|]. iExists (S i). iFrame. iPureIntro.
      split; [f_equal; lia|]. lia.
    + wp_pures. rw (_ : S i = length vs); [|lia]. rw firstn_all. iFrame.
  - iExists 0%nat. rw take_0 drop_0. simpl. rw Z.sub_0_r Z.max_r; [|lia]. iFrame.
    iSplit; [iPureIntro; split; [f_equal; lia|lia]|]. done.
Qed.
End unmap.
