(* ===== verification/Timer.v ===== *)
(** * Timers: kernel/timer.c

    The timers are a ring in ascending order of their expiry times; the expiry time of the sentinel
    [timer_header] is the largest number.  A timer keeps [prev] before [next], so that read as a
    [struct list_head] the ring is traversed backwards: [dlist] holds the timers in descending order. *)

From Stdlib Require Import Sorting.Sorted.
From S2P Require Export CList.

(** struct timer_list *)
Definition t_prev : Z := 0.
Definition t_next : Z := 4.
Definition expires : Z := 8.

(** struct timeval *)
Definition do_gettimeofday (tv : Z) : M unit := store tv 0;; store (tv + 4) 0.

Definition init_timer (timer : Z) : M Z :=
  store (timer + t_prev) NULL;;
  store (timer + t_next) NULL;;
  mret 0.

Section timers.
(** The addresses of the two variables. *)
Context (timer_header jiffies : Z).

(** [do { q = p; p = p->next; } while(p->expires < timer->expires)]; returns [p] and [q]. *)
Definition find_timer (timer : Z) : M (Z * Z) :=
  loop (λ p,
    let q := p in
    p ← load (p + t_next);
    pe ← load (p + expires);
    te ← load (timer + expires);
    if pe <? te then mret (inl p) else mret (inr (p, q))) timer_header.

Definition add_timer (timer : Z) : M Z :=
  e ← load (timer + expires);
  j ← load jiffies;
  store (timer + expires) (u32 (e + j));;
  '(p, q) ← find_timer timer;
  (if negb (p =? NULL) then
     store (timer + t_next) p;;
     pp ← load (p + t_prev);
     store (timer + t_prev) pp;;
     store (p + t_prev) timer;;
     tp ← load (timer + t_prev);
     store (tp + t_next) timer
   else
     store (q + t_next) timer;;
     store (timer + t_prev) q;;
     store (timer + t_next) NULL);;
  mret 0.

(** [while((p = p->next))]; the answer is the value of a [return] in it, none at its end. *)
Definition del_timer_step (timer p : Z) : M (Z + option Z) :=
  p ← load (p + t_next);
  if negb (p =? NULL) then
    if p =? timer then
      pp ← load (p + t_prev);
      pn ← load (p + t_next);
      store (pp + t_next) pn;;
      pn ← load (p + t_next);
      pp ← load (p + t_prev);
      store (pn + t_prev) pp;;
      store (timer + t_next) NULL;;
      store (timer + t_prev) NULL;;
      e ← load (timer + expires);
      j ← load jiffies;
      store (timer + expires) (u32 (e - j));;
      mret (inr (Some 0))
    else mret (inl p)
  else mret (inr None).

Definition del_timer (timer : Z) : M Z :=
  r ← loop (del_timer_step timer) timer_header;
  match r with
  | Some r => mret r
  | None =>
      p ← load (timer + t_prev);
      (if negb (p =? NULL) then mret tt else n ← load (timer + t_next); mret tt);;
      mret (-1)
  end.
End timers.

(** ** Specification *)

Section spec.
Context (timer_header jiffies : Z).

(** The timers [ts] in the order of the ring, each with its expiry time. *)
Definition timers (ts : list (Z * Z)) : heapProp :=
  dlist timer_header (reverse ts.*1) ∗ (timer_header + expires) ↦ (2 ^ 32 - 1) ∗
  [∗ list] t ∈ ts, (t.1 + expires) ↦ t.2.

(** [a] are the timers before the place for expiry time [e], [b] those after it. *)
Definition timer_place (e : Z) (a b : list (Z * Z)) : Prop :=
  Forall (λ t, t.2 < e) a ∧ ∀ t, head b = Some t → e ≤ t.2.

Definition ascending (ts : list (Z * Z)) : Prop := StronglySorted Z.le ts.*2.

Lemma timer_place_ascending t e a b : timer_place e a b → ascending (a ++ b) → ascending (a ++ (t, e) :: b).
Proof.
  unfold ascending. intros [Ha Hb]. rw !fmap_app fmap_cons. simpl.
  induction a as [|x a IH]; simpl; intros Hs.
  - constructor; [done|]. destruct b as [|y b]; [constructor|]. simpl in *. inversion Hs as [|? ? Hs' Hall]; subst.
    specialize (Hb y eq_refl). constructor; [done|]. eapply Forall_impl; [exact Hall|]. simpl. intros. lia.
  - inversion Ha as [|? ? Hx Ha']; subst. inversion Hs as [|? ? Hs' Hall]; subst. constructor; [by apply IH|].
    apply Forall_app in Hall as [H1 H2]. apply Forall_app. split; [done|]. constructor; [simpl in *; lia|done].
Qed.

(** The ring between [a] and [b]. *)
Lemma rev_parts (a b : list (Z * Z)) : reverse (a ++ b).*1 = reverse b.*1 ++ reverse a.*1.
Proof. by rw fmap_app reverse_app. Qed.

Definition nxt (b : list (Z * Z)) : Z := last_or timer_header (reverse b.*1).
Definition prv (a : list (Z * Z)) : Z := first_or timer_header (reverse a.*1).

Lemma nxt_cons t b : nxt (t :: b) = t.1.
Proof. unfold nxt. rw fmap_cons reverse_cons. apply last_or_snoc. Qed.

Lemma prv_snoc a t : prv (a ++ [t]) = t.1.
Proof. unfold prv. by rw fmap_app reverse_app. Qed.

Lemma prevs_mid p xs ys q : prevs p (xs ++ ys) q ⊢
  (first_or q ys + list_prev) ↦ last_or p xs ∗ ((first_or q ys + list_prev) ↦ last_or p xs -∗ prevs p (xs ++ ys) q).
Proof.
  iIntros "H". destruct ys as [|y ys].
  - rw app_nil_r. iDestruct (prevs_last with "H") as "[$ H]". iIntros "H1". by iApply "H".
  - rw prevs_app. iDestruct "H" as "[H Hy]". iDestruct (prevs_last with "H") as "[$ H]". iIntros "H1".
    iFrame. by iApply "H".
Qed.

Lemma timers_next a b : timers (a ++ b) ⊢ (prv a + t_next) ↦ nxt b ∗ ((prv a + t_next) ↦ nxt b -∗ timers (a ++ b)).
Proof.
  iIntros "((Hn & Hp & %Hne) & H)". iEval (rw rev_parts) in "Hp". iDestruct (prevs_mid with "Hp") as "[$ Hp]".
  iIntros "Hc". iFrame "H Hn". rw rev_parts. iSplit; [|by rw -rev_parts]. by iApply "Hp".
Qed.

(** The expiry time of the timer after [a], or of the sentinel. *)
Lemma timers_expires a b : timers (a ++ b) ⊢ (nxt b + expires) ↦ (from_option snd (2 ^ 32 - 1) (head b)) ∗
  ((nxt b + expires) ↦ (from_option snd (2 ^ 32 - 1) (head b)) -∗ timers (a ++ b)).
Proof.
  iIntros "(Hd & He & Hs)". destruct b as [|t b].
  - iFrame "He". iIntros "He". iFrame.
  - rw nxt_cons. rw big_sepL_app big_sepL_cons. iDestruct "Hs" as "(Ha & Ht & Hb)". iFrame "Ht". iIntros "Ht". iFrame "Hd He".
    rw big_sepL_app big_sepL_cons. iFrame.
Qed.

Lemma timers_cells ts : timers ts ⊢ cells (S (length ts)).
Proof. iIntros "((Hn & _) & _)". rw nexts_cells. by rw length_reverse length_fmap. Qed.

Lemma find_timer_wp timer e ts : 0 ≤ e < 2 ^ 32 →
  timers ts ∗ (timer + expires) ↦ e ⊢ wp (find_timer timer_header timer) (λ r,
    ∃ a b, ⌜ts = a ++ b ∧ timer_place e a b ∧ r = (nxt b, prv a)⌝ ∗ timers ts ∗ (timer + expires) ↦ e).
Proof.
  intros He. iIntros "[H Ht]". unfold find_timer.
  iApply (wp_loop _ (λ (n : nat) (p : Z), ∃ a b, ⌜ts = a ++ b ∧ Forall (λ t, t.2 < e) a ∧ p = prv a ∧ n = length b⌝ ∗
    timers ts ∗ (timer + expires) ↦ e)%I _ (length ts)); last first.
  { iExists [], ts. iFrame. done. }
  - intros n p. iIntros "(%a & %b & (-> & %Ha & -> & ->) & H & Ht)".
    iDestruct (timers_next with "H") as "[Hn H]". wp_load. iDestruct ("H" with "Hn") as "H".
    iDestruct (timers_expires with "H") as "[Hx H]". wp_load. iDestruct ("H" with "Hx") as "H". wp_load.
    destruct (Z.ltb_spec (from_option snd (2 ^ 32 - 1) (head b)) e) as [Hlt|Hge].
    + destruct b as [|t b]; [simpl in Hlt; lia|]. wp_pures. iExists (length b). iSplit; [iPureIntro; simpl; lia|].
      iExists (a ++ [t]), b. iFrame. iPureIntro. rw -assoc_L prv_snoc nxt_cons. split_and!; try done.
      apply Forall_app. split; [done|]. by constructor.
    + wp_pures. iExists a, b. iFrame. iPureIntro. split_and!; try done. split; [done|]. intros t Hb. by rw Hb in Hge.
  - iIntros "(%a & %b & (-> & _ & _ & %Hn) & H & _)". rw timers_cells. iApply (cells_le with "H"). rw length_app. lia.
Qed.

(** The place where the timer is linked. *)
Lemma add_timer_ring timer e j ts :
  {{ timers ts ∗ lnode timer ∗ (timer + expires) ↦ e ∗ jiffies ↦ j }}
    add_timer timer_header jiffies timer
  {{ r, ⌜r = 0⌝ ∗ jiffies ↦ j ∗ ∃ ts', timers ts' ∗
        ⌜ts' ≡ₚ (timer, u32 (e + j)) :: ts ∧ (ascending ts → ascending ts')⌝ }}.
Proof.
  apply triple_wp. iIntros "(H & Hl & He & Hj)". unfold add_timer. wp_load. wp_load. wp_store.
  iApply wp_bind. iApply (wp_wand with "[H He]"); [iApply (find_timer_wp timer (u32 (e + j)) ts); [apply u32_range|iFrame]|].
  iIntros ([p q]) "(%a & %b & (-> & %Hp & %Hpq) & H & He)". injection Hpq as -> ->. cbn beta iota.
  iDestruct "H" as "((Hn & Hps & %Hne) & Hx & Hs)". rw rev_parts in Hne. iEval (rw rev_parts) in "Hn". iEval (rw rev_parts) in "Hps".
  iDestruct (nexts_link with "Hn") as "[Hl1 Hn]". iDestruct (prevs_link with "Hps") as "[Hl2 Hps]".
  assert (nxt b ≠ NULL) as Hb.
  { unfold nxt, last_or. inversion_clear Hne as [|? ? Hh Hall]. apply Forall_app in Hall as [Hall _].
    destruct (last (reverse b.*1)) as [y|] eqn:Hy; [|done]. apply last_Some_elem_of in Hy.
    by apply (proj1 (Forall_forall _ _) Hall). }
  iDestruct "Hl" as "((%v1 & H1) & (%v2 & H2) & %Ht)". fold (nxt b) (prv a).
  rw (proj2 (Z.eqb_neq _ _) Hb). change list_next with t_prev. change list_prev with t_next.
  wp_store. wp_load. wp_store. wp_store. wp_load. wp_store.
  iSplit; [done|]. iFrame "Hj". iExists (a ++ (timer, u32 (e + j)) :: b). iSplit; last first.
  { iPureIntro. split; [by rw -Permutation_middle|]. by apply timer_place_ascending. }
  iFrame "Hx". rw !big_sepL_app big_sepL_cons. iDestruct "Hs" as "[$ $]". iFrame "He".
  rw rev_parts fmap_cons reverse_cons -assoc_L /=. iSplitL "Hn Hl1 H1"; [iApply ("Hn" with "Hl1 H1")|].
  iSplitL; [iApply ("Hps" with "Hl2 H2")|]. iPureIntro. inversion_clear Hne as [|? ? Hh Hall].
  constructor; [done|]. apply Forall_app in Hall as [? ?]. apply Forall_app. split; [done|]. by constructor.
Qed.

(** [add_timer] ends and links a timer behind all that expire before it: the ring has exactly one
    timer more, with the expiry time made absolute, and stays in ascending order. *)
Theorem add_timer_correct timer e j ts :
  {{ timers ts ∗ lnode timer ∗ (timer + expires) ↦ e ∗ jiffies ↦ j }}
    add_timer timer_header jiffies timer
  {{ r, ⌜r = 0⌝ ∗ jiffies ↦ j ∗ ∃ ts', timers ts' ∗
        ⌜ts' ≡ₚ (timer, u32 (e + j)) :: ts ∧ (ascending ts → ascending ts')⌝ }}.
Proof. apply add_timer_ring. Qed.
End spec.

(** On a ring without timers [del_timer] never ends: the ring has no null pointer, so that the
    message about a timer that is not in the list is never reached. *)
Theorem del_timer_absent_hangs timer_header jiffies timer m n :
  timer ≠ timer_header → timer_header ≠ NULL → m !! (timer_header + t_next) = Some timer_header →
  run n (del_timer_step jiffies timer) timer_header m = Timeout.
Proof.
  intros Ht Hh Hm. induction n as [|n IH]; [done|]. cbn [run]. unfold mbind at 1, M_bind at 1.
  unfold del_timer_step, load. unfold mbind at 1, M_bind at 1. rw Hm.
  rw (proj2 (Z.eqb_neq _ _) Hh) (proj2 (Z.eqb_neq timer_header timer)); [|done]. exact IH.
Qed.

Lemma del_timer_absent_hangs_witness :
  run 1000 (del_timer_step 16 64) 32 {[36 := 32]} = Timeout.
Proof. apply (del_timer_absent_hangs 32 16 64 {[36 := 32]} 1000); [lia|discriminate|reflexivity]. Defined.

(** ** The interface of the timers

    What the network code relies on: a set of timers is armed; [add_timer] and [del_timer] change it.  The ring implements it. *)

(** A timer that is not armed. *)
Definition idle_timer (t : Z) : heapProp := lnode t ∗ ∃ e, (t + expires) ↦ e.

Class TimerQueue (jiffies : Z) (del_timer add_timer : Z → M Z) := {
  armed : Z → gset Z → heapProp;
  armed_now now s : armed now s ⊢ jiffies ↦ now ∗ (jiffies ↦ now -∗ armed now s);
  armed_new now s t : armed now s -∗ idle_timer t -∗ ⌜t ∉ s⌝;
  del_timer_wp t now s Q : t ∈ s →
    armed now s -∗ (∀ r, armed now (s ∖ {[t]}) -∗ idle_timer t -∗ Q r) -∗ wp (del_timer t) Q;
  add_timer_wp t now s Q :
    armed now s -∗ idle_timer t -∗ (∀ r, armed now ({[t]} ∪ s) -∗ Q r) -∗ wp (add_timer t) Q;
}.

Section ring.
Context (timer_header jiffies : Z).
Local Abbreviation timers := (timers timer_header).

Lemma timers_unlink a t e b : timers (a ++ (t, e) :: b) ⊢ ⌜t ≠ NULL⌝ ∗
  (t + t_prev) ↦ prv timer_header a ∗ (t + t_next) ↦ nxt timer_header b ∗ (t + expires) ↦ e ∗
  (prv timer_header a + t_next) ↦ t ∗ (nxt timer_header b + t_prev) ↦ t ∗
  ((prv timer_header a + t_next) ↦ nxt timer_header b -∗ (nxt timer_header b + t_prev) ↦ prv timer_header a -∗ timers (a ++ b)).
Proof.
  iIntros "((Hn & Hp & %Hne) & Hx & Hs)". rw rev_parts fmap_cons reverse_cons -assoc_L /= in Hne.
  iEval (rw rev_parts fmap_cons reverse_cons -assoc_L /=) in "Hn". iEval (rw rev_parts fmap_cons reverse_cons -assoc_L /=) in "Hp".
  iDestruct (nexts_unlink with "Hn") as "(H1 & H2 & Hn)". iDestruct (prevs_unlink with "Hp") as "(H3 & H4 & Hp)".
  iDestruct "Hs" as "(Ha & Ht & Hb)". fold (nxt timer_header b) (prv timer_header a). rw Forall_forall in Hne. iFrame "H1 H2 H3 H4 Ht".
  iSplit; [iPureIntro; apply Hne; right; apply elem_of_app; right; left|]. iIntros "H3 H1". iFrame. rw rev_parts. iDestruct ("Hn" with "H1") as "$".
  iDestruct ("Hp" with "H3") as "$". iPureIntro. apply Forall_forall. intros x Hx. apply Hne.
  rw elem_of_cons elem_of_app in Hx. rw elem_of_cons elem_of_app elem_of_cons. tauto.
Qed.

Lemma del_ring_wp t e a b j Q : t ∉ a.*1 →
  timers (a ++ (t, e) :: b) -∗ jiffies ↦ j -∗ (timers (a ++ b) -∗ jiffies ↦ j -∗ idle_timer t -∗ Q 0) -∗
  wp (del_timer timer_header jiffies t) Q.
Proof.
  intros Ht. iIntros "H Hj HQ". unfold del_timer. iApply wp_bind.
  iApply (wp_wand with "[H Hj]"); first iApply (wp_loop _ (λ (n : nat) p, ∃ a1 a2, ⌜a = a1 ++ a2 ∧ n = length a2 ∧ p = prv timer_header a1⌝ ∗
      timers (a ++ (t, e) :: b) ∗ jiffies ↦ j)%I
    (λ r, ⌜r = Some 0⌝ ∗ timers (a ++ b) ∗ jiffies ↦ j ∗ idle_timer t)%I (length a)).
  - iIntros "(%a1 & %a2 & (-> & %E & _) & H & _)". rw timers_cells. iApply (cells_le with "H"). rw !length_app /= . lia.
  - intros n p. iIntros "(%a1 & %a2 & (-> & -> & ->) & H & Hj)". unfold del_timer_step. destruct a2 as [|[u eu] a2].
    + rw app_nil_r. iDestruct (timers_unlink with "H") as "(%Hn & H1 & H2 & He & H3 & H4 & H)". wp_load.
      rw (eqb_false t NULL Hn). wp_load. wp_load. wp_store. wp_load. wp_load. wp_store. wp_store. wp_store. wp_load. wp_load. wp_store.
      iDestruct ("H" with "H3 H4") as "$". iFrame. iSplit; [done|]. iFrame. done.
    + rw -assoc_L /=. iDestruct (timers_next _ a1 with "H") as "[Hp H]". rw nxt_cons /=. wp_load. iDestruct ("H" with "Hp") as "H".
      iAssert ⌜u ≠ NULL⌝%I as %Hn; [by iDestruct (timers_unlink with "H") as "[$ _]"|]. rw (eqb_false u NULL Hn) (eqb_false u t); [|intros ->; apply Ht; rw fmap_app fmap_cons; apply elem_of_app; right; left]. wp_pures.
      iExists (length a2). iSplit; [iPureIntro; simpl; lia|]. iExists (a1 ++ [(u, eu)]), a2. rw prv_snoc -!assoc_L /=. by iFrame.
  - iExists [], a. by iFrame.
  - iIntros (r) "(-> & H & Hj & Ht)". wp_pures. iApply ("HQ" with "H Hj Ht").
Qed.

(** The ring in ascending order is the queue. *)
Definition armed_ring (now : Z) (s : gset Z) : heapProp :=
  (∃ ts, ⌜list_to_set ts.*1 = s ∧ NoDup ts.*1⌝ ∗ timers ts ∗ jiffies ↦ now)%I.

Lemma timers_expires_in ts t : t ∈ ts.*1 → timers ts ⊢ ∃ e, (t + expires) ↦ e.
Proof.
  intros ((t' & e) & -> & Ht)%list_elem_of_fmap. iIntros "(_ & _ & Hs)".
  rw (big_sepL_elem_of _ _ _ Ht) /=. by iExists e.
Qed.

#[global, program] Instance timer_ring : TimerQueue jiffies (del_timer timer_header jiffies) (add_timer timer_header jiffies) := {|
  armed := armed_ring;
|}.
Next Obligation. iIntros (now s) "(%ts & %Hs & Ht & $)". iIntros "Hj". iExists ts. by iFrame. Qed.
Next Obligation.
  iIntros (now s t) "(%ts & (<- & _) & Ht & _) (_ & %e & He)". iIntros (Hin). rw elem_of_list_to_set in Hin.
  iDestruct (timers_expires_in with "Ht") as (e') "He'"; [done|]. iApply (pt_excl with "He He'").
Qed.
Next Obligation.
  iIntros (t now s Q Ht) "(%ts & (<- & %Hnd) & Hts & Hj) HQ". rw elem_of_list_to_set in Ht.
  apply list_elem_of_fmap in Ht as ((t' & e) & -> & Ht). apply list_elem_of_split in Ht as (a & b & ->). simpl in *.
  rw fmap_app fmap_cons in Hnd. apply NoDup_app in Hnd as (Ha & Hab & Hb). apply NoDup_cons in Hb as [Hbt Hb]. simpl in *.
  assert (t' ∉ a.*1) as Hat by (intros H; apply (Hab _ H); left).
  iApply (del_ring_wp with "Hts Hj"); [done|]. iIntros "Hts Hj Ht". iApply ("HQ" with "[Hts Hj] Ht"). iExists (a ++ b). iFrame. iPureIntro.
  rw !fmap_app fmap_cons !list_to_set_app_L. simpl. split; [|apply NoDup_app; split_and!; [done| |done]; intros x Hx Hx'; apply (Hab x Hx); by right].
  apply set_eq. intros x. rw !elem_of_difference !elem_of_union !elem_of_list_to_set elem_of_singleton.
  split; [intros [?|?]; split; try tauto; intros ->; done|tauto].
Qed.
Next Obligation.
  iIntros (t now s Q) "(%ts & (<- & %Hnd) & Hts & Hj) (Hl & %e & He) HQ".
  iAssert ⌜t ∉ ts.*1⌝%I as %Ht.
  { iIntros (Hin). iDestruct (timers_expires_in with "Hts") as (e') "He'"; [done|]. iApply (pt_excl with "He He'"). }
  iApply (wp_wand with "[Hts Hj Hl He]"); [iApply (proj1 (triple_wp _ _ _) (add_timer_ring timer_header jiffies t e now ts)); iFrame|].
  iIntros (r) "(_ & Hj & %ts' & Hts & %Hp & _)". iApply "HQ". iExists ts'. iFrame. iPureIntro. split.
  - apply set_eq. intros x. rw elem_of_list_to_set Hp /= elem_of_union elem_of_singleton elem_of_cons elem_of_list_to_set. done.
  - rw Hp /=. by constructor.
Qed.
End ring.
