(* ===== verification/Wait.v ===== *)
(** * Wait queues and semaphores: kernel/wait.c

    A wait queue is a variable that points to the first of a chain of [struct wait_queue]. The scheduler
    is a parameter of the operations that give up the processor, and the address of the local variable
    [wait] is an argument. *)

From S2P Require Export Sched.

(** struct wait_queue *)
Definition wq_task : Z := 0.
Definition wq_next : Z := 4.
(** struct semaphore *)
Definition sem_count : Z := 0.
Definition sem_wait : Z := 4.

Definition TASK_UNINTERRUPTIBLE : Z := 2.

Definition add_wait_queue (wq wait : Z) : M unit :=
  q ← load wq;
  if negb (q =? NULL) then
    store (wait + wq_next) NULL;;
    store wq wait
  else
    q ← load wq;
    n ← load (q + wq_next);
    store (wait + wq_next) n;;
    q ← load wq;
    store (q + wq_next) wait.

Definition remove_wait_queue (wq wait : Z) : M unit :=
  q ← load wq;
  last ← (if q =? wait then
            n ← load (wait + wq_next);
            store wq n;;
            mret (n =? wait)
          else mret false);
  (if last : bool then store wq NULL
   else
     tmp ← loop (λ tmp,
       n ← load (tmp + wq_next);
       if negb (n =? wait) then n ← load (tmp + wq_next); mret (inl n) else mret (inr tmp)) wait;
     n ← load (wait + wq_next);
     store (tmp + wq_next) n);;
  store (wait + wq_next) NULL.

(** The body of the loop of [wake_up]; [wakes] is its test of the state. *)
Definition wake_step (wakes : Z → bool) (wq tmp : Z) : M (Z + unit) :=
  task ← load (tmp + wq_task);
  (if negb (task =? NULL) then
     s ← load (task + state);
     if wakes s then store (task + state) TASK_RUNNING else mret tt
   else mret tt);;
  n ← load (tmp + wq_next);
  if n =? NULL then mret (inr tt)
  else
    tmp ← load (tmp + wq_next);
    q ← load wq;
    if negb (tmp =? q) then mret (inl tmp) else mret (inr tt).

Definition wake (wakes : Z → bool) (wq : Z) : M unit :=
  if wq =? NULL then mret tt else
  tmp ← load wq;
  if tmp =? NULL then mret tt else
  loop (wake_step wakes wq) tmp.

Definition sleeping (s : Z) : bool := (s =? TASK_INTERRUPTIBLE) || (s =? TASK_UNINTERRUPTIBLE).

Definition wake_up (wq : Z) : M unit := wake sleeping wq.
Definition wake_up_interruptible (wq : Z) : M unit := wake (λ s, s =? TASK_INTERRUPTIBLE) wq.

Definition __up (sem : Z) : M unit :=
  c ← load (sem + sem_count);
  store (sem + sem_count) (s32 (c + 1));;
  wake_up (sem + sem_wait).

Definition up (sem : Z) : M unit := __up sem.

Section sleep.
(** [schedule] and the variable [current]. *)
Context (schedule : M unit) (current : Z).

Definition __sleep_on (wait wq st : Z) : M unit :=
  cur ← load current;
  store (wait + wq_task) cur;;
  store (wait + wq_next) NULL;;
  if wq =? NULL then mret tt else
  cur ← load current;
  store (cur + state) st;;
  add_wait_queue wq wait;;
  schedule;;
  remove_wait_queue wq wait.

Definition interruptible_sleep_on (wait wq : Z) : M unit := __sleep_on wait wq TASK_INTERRUPTIBLE.
Definition sleep_on (wait wq : Z) : M unit := __sleep_on wait wq TASK_UNINTERRUPTIBLE.

(** [turns]: how often the task is scheduled before the count is positive. *)
Definition __down (turns : nat) (wait sem : Z) : M unit :=
  cur ← load current;
  store (wait + wq_task) cur;;
  store (wait + wq_next) NULL;;
  add_wait_queue (sem + sem_wait) wait;;
  cur ← load current;
  store (cur + state) TASK_UNINTERRUPTIBLE;;
  run (S turns) (λ _ : unit,
    c ← load (sem + sem_count);
    if c <=? 0 then
      schedule;;
      cur ← load current;
      store (cur + state) TASK_UNINTERRUPTIBLE;;
      mret (inl tt)
    else mret (inr tt)) tt;;
  cur ← load current;
  store (cur + state) TASK_RUNNING;;
  remove_wait_queue (sem + sem_wait) wait.

Definition down (turns : nat) (wait sem : Z) : M unit :=
  c ← load (sem + sem_count);
  (if c <=? 0 then __down turns wait sem else mret tt);;
  c ← load (sem + sem_count);
  store (sem + sem_count) (s32 (c - 1)).
End sleep.

(** ** Waking *)

(** A chain of waiters [(w, t, s)] from [q] to [e]: the entry [w] of the task [t], which has the
    state [s]. *)
Fixpoint wseg (q : Z) (ws : list (Z * Z * Z)) (e : Z) : heapProp :=
  match ws with
  | [] => ⌜q = e⌝
  | (w, t, s) :: ws =>
      ⌜q = w ∧ w ≠ NULL ∧ t ≠ NULL⌝ ∗ (w + wq_task) ↦ t ∗ (t + state) ↦ s ∗
      ∃ n, (w + wq_next) ↦ n ∗ wseg n ws e
  end.

Definition waiters (q : Z) (ws : list (Z * Z * Z)) : heapProp := wseg q ws NULL.

Definition woken (wakes : Z → bool) (x : Z * Z * Z) : Z * Z * Z :=
  let '(w, t, s) := x in (w, t, if wakes s then TASK_RUNNING else s).

Lemma wseg_cons q w t s ws e : wseg q ((w, t, s) :: ws) e ⊣⊢
  ⌜q = w ∧ w ≠ NULL ∧ t ≠ NULL⌝ ∗ (w + wq_task) ↦ t ∗ (t + state) ↦ s ∗ ∃ n, (w + wq_next) ↦ n ∗ wseg n ws e.
Proof. done. Qed.

Lemma wseg_app q ws ws' e : wseg q (ws ++ ws') e ⊣⊢ ∃ m, wseg q ws m ∗ wseg m ws' e.
Proof.
  revert q. induction ws as [|[[w t] s] ws IH]; intros q; simpl.
  - iSplit; [iIntros "H"; by iExists q; iFrame|]. by iIntros "(%m & -> & H)".
  - iSplit.
    + iIntros "($ & $ & $ & %n & Hn & H)". rw IH. iDestruct "H" as (m) "[H1 H2]". iExists m. by iFrame.
    + iIntros "(%m & ($ & $ & $ & %n & Hn & H1) & H2)". iExists n. iFrame "Hn". rw IH. iExists m. iFrame.
Qed.

Lemma wseg_null q ws : q = NULL → wseg q ws NULL ⊢ ⌜ws = []⌝.
Proof. intros ->. destruct ws as [|[[w t] s] ws]; simpl; [by iIntros|]. iIntros "((<- & % & _) & _)". done. Qed.

Lemma wseg_cells q ws e : wseg q ws e ⊢ cells (length ws).
Proof.
  revert q. induction ws as [|[[w t] s] ws IH]; intros q; simpl; [iIntros "_"; iApply cells_0|].
  iIntros "(_ & H1 & _ & %n & _ & H2)". rw IH pt_cells. iApply (cells_add with "H1 H2").
Qed.

(** Entries of two chains are at different addresses. *)
Lemma wseg_ne q x ws e q' ws' : q' ≠ NULL → wseg q (x :: ws) e -∗ wseg q' ws' NULL -∗ ⌜q' ≠ q⌝.
Proof.
  intros Hq. destruct x as [[w t] s], ws' as [|[[w' t'] s'] ws']; simpl; [by iIntros "_ ->"|].
  iIntros "((-> & _) & H1 & _) ((-> & _) & H2 & _)". iDestruct (pt_ne with "H1 H2") as %Hne.
  iPureIntro. intros ->. done.
Qed.

Lemma wake_step_wp wakes wq q x ds ts tmp : q ≠ NULL →
  wq ↦ q ∗ wseg q (woken wakes <$> ds) tmp ∗ wseg tmp (x :: ts) NULL ⊢ wp (wake_step wakes wq tmp) (λ r,
    match r with
    | inl tmp' => ⌜ts ≠ []⌝ ∗ wq ↦ q ∗ wseg q (woken wakes <$> ds ++ [x]) tmp' ∗ wseg tmp' ts NULL
    | inr _ => wq ↦ q ∗ waiters q (woken wakes <$> ds ++ x :: ts)
    end).
Proof.
  destruct x as [[w t] s]. rw (wseg_cons tmp). iIntros (Hq) "(Hwq & Hds & ((-> & %Hw & %Ht) & Htask & Hst & %n & Hn & Hts))".
  unfold wake_step. wp_load. rw (proj2 (Z.eqb_neq _ _) Ht). wp_load. iApply wp_bind.
  iApply (wp_wand _ (λ _, (t + state) ↦ (if wakes s then TASK_RUNNING else s))%I with "[Hst]").
  { destruct (wakes s); [by wp_store|by wp_pures]. }
  iIntros ([]) "Hst". wp_load.
  iAssert (wseg q (woken wakes <$> ds ++ [(w, t, s)]) n) with "[Hds Htask Hst Hn]" as "Hds".
  { rw fmap_app wseg_app. iExists w. iFrame "Hds". simpl. iFrame. done. }
  destruct (Z.eqb_spec n NULL) as [->|Hne].
  - iDestruct (wseg_null with "Hts") as %->; [done|]. wp_pures. iFrame. 
  - wp_pures. rw fmap_app. change (woken wakes <$> [(w, t, s)]) with [(w, t, if wakes s then TASK_RUNNING else s)]. destruct ts as [|y ts]; [by iDestruct "Hts" as %->|].
    iAssert ⌜n ≠ q⌝%I as %Hnq.
    { destruct ds as [|y' ds]; iApply (wseg_ne with "Hds Hts"); done. }
    rw wseg_app. iDestruct "Hds" as (m) "[Hds H]". rw wseg_cons. iDestruct "H" as "((-> & _ & _) & Htask & Hst & %n' & Hn & ->)".
    wp_load. wp_load. rw (proj2 (Z.eqb_neq _ _) Hnq). wp_pures. iSplit; [done|]. iFrame "Hwq Hts".
    rw wseg_app. iExists w. iFrame "Hds". iSplit; [done|]. iFrame. done.
Qed.

Lemma wake_wp wakes wq q ws (Q : unit → heapProp) : wq ≠ NULL →
  wq ↦ q -∗ waiters q ws -∗ (wq ↦ q -∗ waiters q (woken wakes <$> ws) -∗ Q tt) -∗ wp (wake wakes wq) Q.
Proof.
  iIntros (Hwq) "Hwq H HQ". unfold wake. rw (proj2 (Z.eqb_neq _ _) Hwq). wp_load.
  destruct (Z.eqb_spec q NULL) as [->|Hq].
  { iDestruct (wseg_null with "H") as %->; [done|]. wp_pures. iApply ("HQ" with "Hwq H"). }
  destruct ws as [|x ws]; [by iDestruct "H" as %->|].
  iApply (wp_wand _ (λ _, wq ↦ q ∗ waiters q (woken wakes <$> x :: ws))%I with "[Hwq H]");
    [|iIntros ([]) "[H1 H2]"; iApply ("HQ" with "H1 H2")].
  iApply (wp_loop _ (λ (n : nat) (tmp : Z), ∃ ds y ts, ⌜x :: ws = ds ++ y :: ts ∧ n = length ts⌝ ∗ wq ↦ q ∗
    wseg q (woken wakes <$> ds) tmp ∗ wseg tmp (y :: ts) NULL)%I _ (length ws)); last first.
  { iExists [], x, ws. iFrame. iSplit; done. }
  - intros n tmp. iIntros "(%ds & %y & %ts & (%Heq & ->) & H)". iApply (wp_wand with "[H]"); [by iApply wake_step_wp|].
    iIntros ([tmp'|[]]) "H"; [|by rw Heq]. iDestruct "H" as (Hts) "H". destruct ts as [|z ts]; [done|].
    iExists (length ts). iSplit; [iPureIntro; simpl; lia|]. iExists (ds ++ [y]), z, ts. iFrame "H".
    iPureIntro. by rw -assoc_L.
  - iIntros "(%ds & %y & %ts & (_ & %Hn) & _ & _ & H)". rw wseg_cells. iApply (cells_le with "H"). simpl. lia.
Qed.

(** [up] adds one to the semaphore and ends with every task that sleeps on it runnable; the tasks in
    another state and the queue stay as they were. *)
Theorem up_correct sem c q ws :
  {{ ⌜(sem + sem_wait)%Z ≠ NULL⌝ ∗ (sem + sem_count) ↦ c ∗ (sem + sem_wait) ↦ q ∗ waiters q ws }}
    up sem
  {{ _, (sem + sem_count) ↦ s32 (c + 1) ∗ (sem + sem_wait) ↦ q ∗ waiters q (woken sleeping <$> ws) }}.
Proof.
  apply triple_wp. iIntros "(%Hw & Hc & Hq & H)". unfold up, __up, wake_up. wp_load. wp_store.
  iApply (wake_wp with "Hq H"); [done|]. iIntros "Hq H". iFrame.
Qed.

(** [add_wait_queue] tests the queue the wrong way round.  On an empty queue it reads through the null
    pointer, so that no task can be the first to sleep; on a queue with waiters it makes the new entry
    the only one, and [wake_up] never reaches the waiters that were there before. *)
Theorem add_wait_queue_loses_waiters wq wait q t s ws v :
  (∀ m, m !! wq = Some NULL → m !! wq_next = None → add_wait_queue wq wait m = Fault) ∧
  {{ ⌜wq ≠ NULL ∧ wait ≠ NULL ∧ t ≠ NULL ∧ q ≠ NULL⌝ ∗ wq ↦ q ∗ waiters q ws ∗
     (wait + wq_task) ↦ t ∗ (t + state) ↦ s ∗ (wait + wq_next) ↦ v }}
    (add_wait_queue wq wait;; wake_up wq)
  {{ _, wq ↦ wait ∗ waiters wait [woken sleeping (wait, t, s)] ∗ waiters q ws }}.
Proof.
  split.
  - intros m Hm Hn. unfold add_wait_queue, load, mbind, M_bind. rw Hm. cbn [negb Z.eqb NULL]. rw Hm.
    by rw Z.add_0_l Hn.
  - apply triple_wp. iIntros "((%Hwq & %Hwait & %Ht & %Hq) & Hq & Hws & Htask & Hst & Hn)". unfold add_wait_queue.
    wp_load. rw (proj2 (Z.eqb_neq _ _) Hq). wp_store. wp_store. unfold wake_up.
    iApply (wake_wp _ _ _ [(wait, t, s)] with "Hq [Htask Hst Hn]"); [done| |iIntros "Hq H"; iFrame].
    iSplit; [done|]. iFrame. done.
Qed.
