(* ===== verification/Avl.v ===== *)
(** * The tree of memory areas: mm/mmap.c

    The areas of a process are in a list and in an AVL tree ordered by their ends.  A place is the
    address of a pointer to a node: the root pointer, or a child pointer of another node.  The descents
    keep the places they passed on a stack of [avl_maxheight] entries; the stack is a list here, the
    last place first, and a push on a full stack is a fault. *)

From S2P Require Export Mem.

(** struct vm_area_struct *)
Definition vm_start : Z := 0.
Definition vm_end : Z := 4.
Definition vm_avl_height : Z := 16.
Definition vm_avl_left : Z := 20.
Definition vm_avl_right : Z := 24.
Definition vm_next : Z := 28.
Definition vm_next_share : Z := 32.
Definition vm_prev_share : Z := 36.
Definition vm_inode : Z := 48.

Definition avl_empty : Z := NULL.
Definition avl_maxheight : Z := 41.
Definition vm_avl_key : Z := vm_end.

Definition heightof (tree : Z) : M Z :=
  if tree =? avl_empty then mret 0 else load (tree + vm_avl_height).

(** One turn of the loop of [avl_rebalance]: false when it leaves the loop. *)
Definition rebalance_node (nodeplace : Z) : M bool :=
  node ← load nodeplace;
  nodeleft ← load (node + vm_avl_left);
  noderight ← load (node + vm_avl_right);
  heightleft ← heightof nodeleft;
  heightright ← heightof noderight;
  if heightright + 1 <? heightleft then
    nodeleftleft ← load (nodeleft + vm_avl_left);
    nodeleftright ← load (nodeleft + vm_avl_right);
    heightleftright ← heightof nodeleftright;
    h ← heightof nodeleftleft;
    (if h >=? heightleftright then
       store (node + vm_avl_left) nodeleftright;;
       store (nodeleft + vm_avl_right) node;;
       store (node + vm_avl_height) (s16 (1 + heightleftright));;
       store (nodeleft + vm_avl_height) (s16 (1 + s16 (1 + heightleftright)));;
       store nodeplace nodeleft
     else
       v ← load (nodeleftright + vm_avl_left);
       store (nodeleft + vm_avl_right) v;;
       v ← load (nodeleftright + vm_avl_right);
       store (node + vm_avl_left) v;;
       store (nodeleftright + vm_avl_left) nodeleft;;
       store (nodeleftright + vm_avl_right) node;;
       store (node + vm_avl_height) (s16 heightleftright);;
       store (nodeleft + vm_avl_height) (s16 heightleftright);;
       store (nodeleftright + vm_avl_height) (s16 heightleft);;
       store nodeplace nodeleftright);;
    mret true
  else if heightleft + 1 <? heightright then
    noderightright ← load (noderight + vm_avl_right);
    noderightleft ← load (noderight + vm_avl_left);
    heightrightleft ← heightof noderightleft;
    h ← heightof noderightright;
    (if h >=? heightrightleft then
       store (node + vm_avl_right) noderightleft;;
       store (noderight + vm_avl_left) node;;
       store (node + vm_avl_height) (s16 (1 + heightrightleft));;
       store (noderight + vm_avl_height) (s16 (1 + s16 (1 + heightrightleft)));;
       store nodeplace noderight
     else
       v ← load (noderightleft + vm_avl_right);
       store (noderight + vm_avl_left) v;;
       v ← load (noderightleft + vm_avl_left);
       store (node + vm_avl_right) v;;
       store (noderightleft + vm_avl_right) noderight;;
       store (noderightleft + vm_avl_left) node;;
       store (node + vm_avl_height) (s16 heightrightleft);;
       store (noderight + vm_avl_height) (s16 heightrightleft);;
       store (noderightleft + vm_avl_height) (s16 heightright);;
       store nodeplace noderightleft);;
    mret true
  else
    let height := (if heightleft <? heightright then heightright else heightleft) + 1 in
    h ← load (node + vm_avl_height);
    if height =? h then mret false
    else store (node + vm_avl_height) (s16 height);; mret true.

Fixpoint avl_rebalance (stack : list Z) : M unit :=
  match stack with
  | [] => mret tt
  | nodeplace :: stack =>
      go ← rebalance_node nodeplace;
      if go : bool then avl_rebalance stack else mret tt
  end.

(** [*stack_ptr++ = nodeplace; stack_count++] *)
Definition push (nodeplace : Z) (stack : list Z) : M (list Z) :=
  if Z.of_nat (length stack) <? avl_maxheight then mret (nodeplace :: stack) else fault.

(** The descent of [avl_insert_neighbours] with the neighbours on the way. *)
Definition insert_descent (key ptree : Z) : M (Z * list Z * Z * Z) :=
  loop (λ '(nodeplace, stack, to_the_left, to_the_right),
    node ← load nodeplace;
    if node =? avl_empty then mret (inr (nodeplace, stack, to_the_left, to_the_right)) else
    stack ← push nodeplace stack;
    k ← load (node + vm_avl_key);
    if key <? k then mret (inl (node + vm_avl_left, stack, to_the_left, node))
    else mret (inl (node + vm_avl_right, stack, node, to_the_right)))
  (ptree, [], NULL, NULL).

(** Returns [*to_the_left] and [*to_the_right]. *)
Definition avl_insert_neighbours (new_node ptree : Z) : M (Z * Z) :=
  key ← load (new_node + vm_avl_key);
  '(nodeplace, stack, to_the_left, to_the_right) ← insert_descent key ptree;
  store (new_node + vm_avl_left) avl_empty;;
  store (new_node + vm_avl_right) avl_empty;;
  store (new_node + vm_avl_height) 1;;
  store nodeplace new_node;;
  avl_rebalance stack;;
  mret (to_the_left, to_the_right).

(** The same without the neighbours. *)
Definition avl_insert (new_node ptree : Z) : M unit :=
  key ← load (new_node + vm_avl_key);
  '(nodeplace, stack) ← loop (λ '(nodeplace, stack),
    node ← load nodeplace;
    if node =? avl_empty then mret (inr (nodeplace, stack)) else
    stack ← push nodeplace stack;
    k ← load (node + vm_avl_key);
    if key <? k then mret (inl (node + vm_avl_left, stack))
    else mret (inl (node + vm_avl_right, stack))) (ptree, []);
  store (new_node + vm_avl_left) avl_empty;;
  store (new_node + vm_avl_right) avl_empty;;
  store (new_node + vm_avl_height) 1;;
  store nodeplace new_node;;
  avl_rebalance stack.

(** The descent to the node with the key; none when there is no such node. *)
Definition remove_descent (key ptree : Z) : M (option (Z * list Z)) :=
  loop (λ '(nodeplace, stack),
    node ← load nodeplace;
    if node =? avl_empty then mret (inr None) else
    stack ← push nodeplace stack;
    k ← load (node + vm_avl_key);
    if key =? k then mret (inr (Some (nodeplace, stack)))
    else if key <? k then mret (inl (node + vm_avl_left, stack))
    else mret (inl (node + vm_avl_right, stack))) (ptree, []).

(** To the rightmost node below a place; the places passed come on top of [stack]. *)
Definition rightmost_descent (nodeplace : Z) : M (Z * list Z * Z) :=
  loop (λ '(nodeplace, passed),
    node ← load nodeplace;
    r ← load (node + vm_avl_right);
    if r =? avl_empty then mret (inr (nodeplace, passed, node))
    else mret (inl (node + vm_avl_right, nodeplace :: passed))) (nodeplace, []).

(** The first place passed on the way, [&node_to_delete->vm_avl_left], is replaced on the stack; the
    entry is written also when there is no such place. *)
Definition replace_first (passed : list Z) (place : Z) : list Z :=
  match reverse passed with
  | [] => []
  | _ :: ps => reverse (place :: ps)
  end.

Definition avl_remove (node_to_delete ptree : Z) : M unit :=
  key ← load (node_to_delete + vm_avl_key);
  r ← remove_descent key ptree;
  match r with
  | None => mret tt
  | Some (nodeplace_to_delete, stack) =>
      l ← load (node_to_delete + vm_avl_left);
      if l =? avl_empty then
        v ← load (node_to_delete + vm_avl_right);
        store nodeplace_to_delete v;;
        avl_rebalance (tail stack)
      else
        '(nodeplace, passed, node) ← rightmost_descent (node_to_delete + vm_avl_left);
        (if Z.of_nat (Nat.max 1 (length passed) + length stack) <=? avl_maxheight then mret tt else fault);;
        v ← load (node + vm_avl_left);
        store nodeplace v;;
        v ← load (node_to_delete + vm_avl_left);
        store (node + vm_avl_left) v;;
        v ← load (node_to_delete + vm_avl_right);
        store (node + vm_avl_right) v;;
        v ← load (node_to_delete + vm_avl_height);
        store (node + vm_avl_height) v;;
        store nodeplace_to_delete node;;
        avl_rebalance (replace_first passed (node + vm_avl_left) ++ stack)
  end.

(** The first area that ends behind [addr]; one that [addr] lies inside ends the search. *)
Definition find_vma (root addr : Z) : M Z :=
  tree ← load root;
  loop (λ '(tree, result),
    if tree =? avl_empty then mret (inr result) else
    e ← load (tree + vm_end);
    if e >? addr then
      s ← load (tree + vm_start);
      if s <? addr then mret (inr tree)
      else l ← load (tree + vm_avl_left); mret (inl (l, tree))
    else r ← load (tree + vm_avl_right); mret (inl (r, result))) (tree, NULL).

(** struct mm_struct *)
Definition mm_mmap : Z := 88.
Definition mm_mmap_avl : Z := 92.

Definition build_mmap_avl (mm : Z) : M unit :=
  store (mm + mm_mmap_avl) NULL;;
  vma ← load (mm + mm_mmap);
  loop (λ vma,
    if negb (vma =? NULL) then
      avl_insert vma (mm + mm_mmap_avl);;
      vma ← load (vma + vm_next);
      mret (inl vma)
    else mret (inr tt)) vma.

(** struct m_inode *)
Definition i_mmap : Z := 76.

Definition insert_vm_struct (mm vma : Z) : M unit :=
  '(prev, next) ← avl_insert_neighbours vma (mm + mm_mmap_avl);
  (if negb (prev =? NULL) then _ ← load (prev + vm_next); mret tt else _ ← load (mm + mm_mmap); mret tt);;
  (if negb (prev =? NULL) then store (prev + vm_next) vma else store (mm + mm_mmap) vma);;
  inode ← load (vma + vm_inode);
  if inode =? NULL then mret tt else
  share ← load (inode + i_mmap);
  if negb (share =? NULL) then
    n ← load (share + vm_next_share);
    store (vma + vm_next_share) n;;
    n ← load (vma + vm_next_share);
    store (n + vm_prev_share) vma;;
    store (share + vm_next_share) vma;;
    store (vma + vm_prev_share) share
  else
    store (vma + vm_prev_share) vma;;
    store (vma + vm_next_share) vma;;
    store (inode + i_mmap) vma.

(** To the rightmost, or the leftmost node of a subtree: [move] is the member the walk follows. *)
Definition walk_down (move node : Z) : M Z :=
  loop (λ node,
    n ← load (node + move);
    if negb (n =? avl_empty) then n ← load (node + move); mret (inl n) else mret (inr node)) node.

(** Returns [*to_the_left] and [*to_the_right]; the messages about an inconsistent tree are left out, the
    reads of their conditions are not. *)
Definition avl_neighbours (node tree : Z) : M (Z * Z) :=
  key ← load (node + vm_avl_key);
  '(found, tree, to_the_left, to_the_right) ← loop (λ '(tree, to_the_left, to_the_right),
    if tree =? avl_empty then mret (inr (false, tree, to_the_left, to_the_right)) else
    k ← load (tree + vm_avl_key);
    if key =? k then mret (inr (true, tree, to_the_left, to_the_right))
    else if key <? k then l ← load (tree + vm_avl_left); mret (inl (l, to_the_left, tree))
    else r ← load (tree + vm_avl_right); mret (inl (r, tree, to_the_right))) (tree, NULL, NULL);
  if negb found || negb (tree =? node) then mret (to_the_left, to_the_right) else
  l ← load (tree + vm_avl_left);
  to_the_left ← (if negb (l =? avl_empty) then walk_down vm_avl_right l else mret to_the_left);
  r ← load (tree + vm_avl_right);
  to_the_right ← (if negb (r =? avl_empty) then walk_down vm_avl_left r else mret to_the_right);
  bad ← (if negb (to_the_left =? NULL) then n ← load (to_the_left + vm_next); mret (negb (n =? node)) else mret false);
  (if bad : bool then mret tt else _ ← load (node + vm_next); mret tt);;
  mret (to_the_left, to_the_right).

Definition remove_shared_vm_struct (mpnt : Z) : M unit :=
  inode ← load (mpnt + vm_inode);
  if inode =? NULL then mret tt else
  n ← load (mpnt + vm_next_share);
  if n =? mpnt then
    _ ← load (inode + i_mmap);
    store (inode + i_mmap) NULL
  else
    i ← load (inode + i_mmap);
    (if i =? mpnt then n ← load (mpnt + vm_next_share); store (inode + i_mmap) n else mret tt);;
    p ← load (mpnt + vm_prev_share);
    n ← load (mpnt + vm_next_share);
    store (p + vm_next_share) n;;
    n ← load (mpnt + vm_next_share);
    p ← load (mpnt + vm_prev_share);
    store (n + vm_prev_share) p.
