(* ===== verification/AvlModel.v ===== *)
(** * AVL trees as values

    A node carries its address and its key.  [bal] is what one turn of [avl_rebalance] makes of a node
    whose subtrees differ in height by at most two; a context is the path from a subtree up to the root. *)

From S2P Require Export Prelude.

Inductive tree :=
  | E
  | T (l : tree) (p k : Z) (r : tree).

Fixpoint height (t : tree) : Z :=
  match t with E => 0 | T l _ _ r => 1 + Z.max (height l) (height r) end.

Fixpoint nodes (t : tree) : list (Z * Z) :=
  match t with E => [] | T l p k r => nodes l ++ (p, k) :: nodes r end.

Fixpoint size (t : tree) : Z :=
  match t with E => 0 | T l _ _ r => 1 + size l + size r end.

(** The heights of the two subtrees of every node differ by at most one. *)
Fixpoint balanced (t : tree) : Prop :=
  match t with
  | E => True
  | T l _ _ r => balanced l ∧ balanced r ∧ - 1 ≤ height l - height r ≤ 1
  end.

Lemma height_nonneg t : 0 ≤ height t.
Proof. induction t; simpl; lia. Qed.

Lemma size_nodes t : size t = Z.of_nat (length (nodes t)).
Proof. induction t as [|l IHl p k r IHr]; simpl; [done|]. rewrite length_app. simpl. lia. Qed.

(** A balanced tree of height [h] has at least [2 ^ (h / 2)] nodes but one. *)
Lemma balanced_size t : balanced t → 2 ^ (height t / 2) ≤ size t + 1.
Proof.
  assert (∀ n : nat, ∀ t, height t ≤ Z.of_nat n → balanced t → 2 ^ (height t / 2) ≤ size t + 1) as H.
  2: { intros Hb. apply (H (Z.to_nat (height t))); [pose proof (height_nonneg t); lia|done]. }
  clear t. induction n as [n IH] using lt_wf_ind. intros t Hn Hb.
  destruct t as [|l p k r]; [done|]. simpl in *. destruct Hb as (Hl & Hr & Hd).
  pose proof (height_nonneg l). pose proof (height_nonneg r).
  assert (∀ t', (t' = l ∨ t' = r) → 2 ^ ((height l `max` height r - 1) / 2) ≤ size t' + 1) as Hsub.
  { intros t' Ht'. destruct (decide (n = 0%nat)) as [->|]; [lia|].
    etrans; [|apply (IH (n - 1)%nat); [lia|destruct Ht' as [->| ->]; lia|destruct Ht' as [->| ->]; done]].
    apply Z.pow_le_mono_r; [lia|]. apply Z.div_le_mono; [lia|]. destruct Ht' as [->| ->]; lia. }
  pose proof (Hsub l ltac:(auto)). pose proof (Hsub r ltac:(auto)).
  destruct (Z.eq_dec (height l `max` height r) 0) as [->|Hne].
  { change ((1 + 0) / 2) with 0. change (2 ^ 0) with 1. change ((0 - 1) / 2) with (-1) in *. change (2 ^ (-1)) with 0 in *.
    assert (∀ t, 0 ≤ size t) as Hsz by (clear; induction t; simpl; lia). pose proof (Hsz l). pose proof (Hsz r). lia. }
  replace ((1 + height l `max` height r) / 2) with (1 + (height l `max` height r - 1) / 2) by
    (replace (1 + height l `max` height r) with (1 * 2 + (height l `max` height r - 1)) by lia;
     rewrite Z.div_add_l; lia).
  rewrite Z.pow_add_r; [lia|lia|]. apply Z.div_pos; lia.
Qed.

Lemma balanced_height t : balanced t → size t < 2 ^ 20 → height t ≤ 41.
Proof.
  intros Hb Hs. pose proof (balanced_size t Hb) as H. destruct (Z.le_gt_cases (height t) 41); [done|].
  assert (2 ^ 21 ≤ 2 ^ (height t / 2)) by (apply Z.pow_le_mono_r; [lia|apply Z.div_le_lower_bound; lia]). lia.
Qed.

(** ** One turn of the rebalancing *)

Definition bal (l : tree) (p k : Z) (r : tree) : tree :=
  if height r + 1 <? height l then
    match l with
    | T ll lp lk lr =>
        if height ll >=? height lr then T ll lp lk (T lr p k r)
        else match lr with
             | T lrl q qk lrr => T (T ll lp lk lrl) q qk (T lrr p k r)
             | E => T l p k r
             end
    | E => T l p k r
    end
  else if height l + 1 <? height r then
    match r with
    | T rl rp rk rr =>
        if height rr >=? height rl then T (T l p k rl) rp rk rr
        else match rl with
             | T rll q qk rlr => T (T l p k rll) q qk (T rlr rp rk rr)
             | E => T l p k r
             end
    | E => T l p k r
    end
  else T l p k r.

Ltac tree_heights :=
  repeat match goal with
  | |- context [height ?t] => lazymatch goal with H : 0 ≤ height t |- _ => fail | _ => pose proof (height_nonneg t) end
  end.

Lemma bal_nodes l p k r : nodes (bal l p k r) = nodes (T l p k r).
Proof.
  unfold bal. repeat case_match; subst; simpl; rewrite <- ?(assoc_L (++)); simpl; rewrite <- ?(assoc_L (++)); done.
Qed.

Lemma bal_balanced l p k r : balanced l → balanced r → - 2 ≤ height l - height r ≤ 2 →
  balanced (bal l p k r) ∧
  1 + Z.max (height l) (height r) - 1 ≤ height (bal l p k r) ≤ 1 + Z.max (height l) (height r).
Proof.
  intros Hl Hr Hd. pose proof (height_nonneg l). pose proof (height_nonneg r). unfold bal.
  destruct (Z.ltb_spec (height r + 1) (height l)).
  - destruct l as [|ll lp lk lr]; simpl in *; [lia|]. destruct Hl as (Hll & Hlr & Hld).
    pose proof (height_nonneg ll). pose proof (height_nonneg lr).
    rewrite Z.geb_leb. destruct (Z.leb_spec (height lr) (height ll)); simpl; [repeat split; auto; lia|].
    destruct lr as [|lrl q qk lrr]; simpl in *; [lia|]. destruct Hlr as (? & ? & ?).
    pose proof (height_nonneg lrl). pose proof (height_nonneg lrr). repeat split; auto; lia.
  - destruct (Z.ltb_spec (height l + 1) (height r)).
    + destruct r as [|rl rp rk rr]; simpl in *; [lia|]. destruct Hr as (Hrl & Hrr & Hrd).
      pose proof (height_nonneg rl). pose proof (height_nonneg rr).
      rewrite Z.geb_leb. destruct (Z.leb_spec (height rl) (height rr)); simpl; [repeat split; auto; lia|].
      destruct rl as [|rll q qk rlr]; simpl in *; [lia|]. destruct Hrl as (? & ? & ?).
      pose proof (height_nonneg rll). pose proof (height_nonneg rlr). repeat split; auto; lia.
    + simpl. repeat split; auto; lia.
Qed.

Lemma bal_id l p k r : - 1 ≤ height l - height r ≤ 1 → bal l p k r = T l p k r.
Proof.
  intros H. unfold bal. destruct (Z.ltb_spec (height r + 1) (height l)); [lia|].
  destruct (Z.ltb_spec (height l + 1) (height r)); [lia|done].
Qed.

(** ** Contexts *)

Inductive frame :=
  | FL (p k : Z) (r : tree)
  | FR (l : tree) (p k : Z).

(** The path from the hole up to the root. *)
Abbreviation ctx := (list frame).

Definition fill (f : frame) (t : tree) : tree :=
  match f with FL p k r => T t p k r | FR l p k => T l p k t end.

Fixpoint plug (c : ctx) (t : tree) : tree :=
  match c with [] => t | f :: c => plug c (fill f t) end.

Definition refill (f : frame) (t : tree) : tree :=
  match f with FL p k r => bal t p k r | FR l p k => bal l p k t end.

Definition sibling (f : frame) : tree := match f with FL _ _ r => r | FR l _ _ => l end.

(** A context that is balanced around a hole of height [h]. *)
Fixpoint ctx_balanced (h : Z) (c : ctx) : Prop :=
  match c with
  | [] => True
  | f :: c => balanced (sibling f) ∧ - 1 ≤ h - height (sibling f) ≤ 1 ∧
      ctx_balanced (1 + Z.max h (height (sibling f))) c
  end.

Lemma plug_balanced c t : balanced t → ctx_balanced (height t) c → balanced (plug c t).
Proof.
  revert t. induction c as [|f c IH]; intros t Ht Hc; simpl in *; [done|]. destruct Hc as (Hs & Hd & Hc).
  apply IH; destruct f; simpl in *; try (rewrite Z.max_comm; done); try done; repeat split; auto; lia.
Qed.

Lemma plug_nodes c t t' : nodes t = nodes t' → nodes (plug c t) = nodes (plug c t').
Proof.
  revert t t'. induction c as [|f c IH]; intros t t' Ht; simpl; [done|]. apply IH. destruct f; simpl; by rewrite Ht.
Qed.

Lemma plug_size c t : size (plug c t) = size t + size (plug c E).
Proof.
  revert t. induction c as [|f c IH]; intros t; simpl; [lia|]. rewrite IH, (IH (fill f E)). destruct f; simpl; lia.
Qed.

(** The nodes to the left and to the right of the hole. *)
Fixpoint lefts (c : ctx) : list (Z * Z) :=
  match c with [] => [] | FL _ _ _ :: c => lefts c | FR l p k :: c => lefts c ++ nodes l ++ [(p, k)] end.
Fixpoint rights (c : ctx) : list (Z * Z) :=
  match c with [] => [] | FL p k r :: c => (p, k) :: nodes r ++ rights c | FR _ _ _ :: c => rights c end.

Lemma plug_lefts_rights c t : nodes (plug c t) = lefts c ++ nodes t ++ rights c.
Proof.
  revert t. induction c as [|f c IH]; intros t; simpl; [by rewrite app_nil_r|].
  rewrite IH. destruct f; simpl; rewrite <- ?(assoc_L (++)); simpl; rewrite <- ?(assoc_L (++)); done.
Qed.

Lemma refill_nodes f t : nodes (refill f t) = nodes (fill f t).
Proof. destruct f; apply bal_nodes. Qed.

(** A subtree whose height changed by at most one, put back and rebalanced, changes the height of the
    node above by at most one. *)
Lemma refill_balanced f t h : balanced t → balanced (sibling f) → - 1 ≤ height t - h ≤ 1 →
  - 1 ≤ h - height (sibling f) ≤ 1 →
  balanced (refill f t) ∧ - 1 ≤ height (refill f t) - (1 + Z.max h (height (sibling f))) ≤ 1.
Proof.
  intros Ht Hs Hd Hh. destruct f as [p k r|l p k]; simpl in *.
  - destruct (bal_balanced t p k r) as [Hb Hr]; [done|done|lia|]. split; [done|].
    destruct (decide (- 1 ≤ height t - height r ≤ 1)) as [Hid|]; [rewrite bal_id; simpl; lia|lia].
  - destruct (bal_balanced l p k t) as [Hb Hr]; [done|done|lia|]. split; [done|].
    destruct (decide (- 1 ≤ height l - height t ≤ 1)) as [Hid|]; [rewrite bal_id; simpl; lia|lia].
Qed.

Lemma unplug_balanced c t : balanced (plug c t) → balanced t ∧ ctx_balanced (height t) c.
Proof.
  revert t. induction c as [|f c IH]; intros t H; simpl in *; [done|]. apply IH in H as [Hf Hc].
  destruct f as [p k r|l p k]; simpl in *; destruct Hf as (H1 & H2 & H3); repeat split; try done; try lia.
  by rewrite Z.max_comm.
Qed.

Lemma plug_height c t : Z.of_nat (length c) + height t ≤ height (plug c t).
Proof.
  revert t. induction c as [|f c IH]; intros t; simpl; [lia|]. specialize (IH (fill f t)).
  destruct f as [p k r|l p k]; simpl in *; lia.
Qed.

(** The height above a context, and contexts in two parts. *)
Fixpoint ctx_height (h : Z) (c : ctx) : Z :=
  match c with [] => h | f :: c => ctx_height (1 + Z.max h (height (sibling f))) c end.

Lemma avl_plug_app c1 c2 t : plug (c1 ++ c2) t = plug c2 (plug c1 t).
Proof. revert t. induction c1 as [|f c1 IH]; intros t; simpl; [done|]. apply IH. Qed.

Lemma height_fill f t : height (fill f t) = 1 + Z.max (height t) (height (sibling f)).
Proof. destruct f; simpl; lia. Qed.

Lemma height_plug c t : height (plug c t) = ctx_height (height t) c.
Proof. revert t. induction c as [|f c IH]; intros t; simpl; [done|]. by rewrite IH, height_fill. Qed.

(** Balance depends on the siblings only. *)
Lemma ctx_balanced_sibling h c1 f f' c2 : sibling f = sibling f' →
  ctx_balanced h (c1 ++ f :: c2) → ctx_balanced h (c1 ++ f' :: c2).
Proof.
  intros Hf. revert h. induction c1 as [|g c1 IH]; intros h; simpl; [by rewrite Hf|].
  intros (H1 & H2 & H3). repeat split; try done; try lia. by apply IH.
Qed.

Lemma lefts_app c1 c2 : lefts (c1 ++ c2) = lefts c2 ++ lefts c1.
Proof.
  induction c1 as [|[p k r|l p k] c1 IH]; simpl; [by rewrite app_nil_r|done|]. rewrite IH. by rewrite <- (assoc_L (++)).
Qed.

Lemma rights_app c1 c2 : rights (c1 ++ c2) = rights c1 ++ rights c2.
Proof.
  induction c1 as [|[p k r|l p k] c1 IH]; simpl; [done| |done]. rewrite IH. by rewrite (assoc_L (++)).
Qed.
