(* ===== verification/AvlSpec.v ===== *)
(** * The tree of memory areas in memory *)

From Stdlib Require Import Sorting.Sorted.
From S2P Require Export Avl AvlModel.

Definition ptr (t : tree) : Z := match t with E => NULL | T _ p _ _ => p end.

(** The cells of the nodes of a tree. *)
Fixpoint sub (t : tree) : heapProp :=
  match t with
  | E => emp
  | T l p k r =>
      ⌜p ≠ NULL⌝ ∗ (p + vm_avl_key) ↦ k ∗ (p + vm_avl_height) ↦ height t ∗
      ((p + vm_avl_left) ↦ ptr l ∗ sub l) ∗ ((p + vm_avl_right) ↦ ptr r ∗ sub r)
  end.

(** A tree at a place. *)
Definition tree_at (pl : Z) (t : tree) : heapProp := pl ↦ ptr t ∗ sub t.

Lemma sub_T l p k r : sub (T l p k r) ⊣⊢
  ⌜p ≠ NULL⌝ ∗ (p + vm_avl_key) ↦ k ∗ (p + vm_avl_height) ↦ (1 + Z.max (height l) (height r)) ∗
  tree_at (p + vm_avl_left) l ∗ tree_at (p + vm_avl_right) r.
Proof. done. Qed.

Lemma s16_small z : - 2 ^ 15 ≤ z < 2 ^ 15 → s16 z = z.
Proof. intros H. unfold s16. rw Z.mod_small; lia. Qed.

Lemma heightof_wp t Q : sub t -∗ (sub t -∗ Q (height t)) -∗ wp (heightof (ptr t)) Q.
Proof.
  iIntros "H HQ". unfold heightof. destruct t as [|l p k r].
  - change (ptr E =? avl_empty) with true. wp_pures. by iApply "HQ".
  - rw sub_T. iDestruct "H" as "(%Hp & Hk & Hh & Hl & Hr)". cbn [ptr].
    rw (proj2 (Z.eqb_neq p avl_empty)) //. wp_load. iApply "HQ". by iFrame.
Qed.

(** A node whose stored height may be out of date. *)
Definition node_at (pl p k H : Z) (l r : tree) : heapProp :=
  ⌜p ≠ NULL⌝ ∗ pl ↦ p ∗ (p + vm_avl_key) ↦ k ∗ (p + vm_avl_height) ↦ H ∗
  tree_at (p + vm_avl_left) l ∗ tree_at (p + vm_avl_right) r.

Lemma node_at_tree pl p k l r : node_at pl p k (1 + Z.max (height l) (height r)) l r ⊣⊢ tree_at pl (T l p k r).
Proof.
  unfold node_at, tree_at. rw sub_T. cbn [ptr]. iSplit.
  - iIntros "($ & $ & $ & $ & $)".
  - iIntros "($ & $ & $ & $ & $)".
Qed.

Lemma rebalance_node_wp pl p k H l r : balanced l → balanced r → - 2 ≤ height l - height r ≤ 2 →
  height l ≤ 1000 → height r ≤ 1000 →
  node_at pl p k H l r ⊢ wp (rebalance_node pl) (λ go,
    tree_at pl (bal l p k r) ∗ ⌜go = false → H = height (bal l p k r)⌝).
Proof.
  intros Hbl Hbr Hd Hl1 Hr1. pose proof (height_nonneg l). pose proof (height_nonneg r).
  iIntros "(%Hp & Hpl & Hk & Hh & [Hlp Hl] & [Hrp Hr])". unfold rebalance_node. wp_load. wp_load. wp_load.
  iApply wp_bind. iApply (heightof_wp with "Hl"). iIntros "Hl". wp_pures.
  iApply wp_bind. iApply (heightof_wp with "Hr"). iIntros "Hr". wp_pures. unfold bal.
  destruct (Z.ltb_spec (height r + 1) (height l)) as [Hlt|Hge].
  - destruct l as [|ll lp lk lr]; [simpl in *; lia|]. rw (sub_T ll). cbn [ptr].
    iDestruct "Hl" as "(%Hlp & Hlk & Hlh & [Hllp Hll] & [Hlrp Hlr])". wp_load. wp_load.
    iApply wp_bind. iApply (heightof_wp with "Hlr"). iIntros "Hlr". wp_pures.
    iApply wp_bind. iApply (heightof_wp with "Hll"). iIntros "Hll". wp_pures.
    simpl in Hbl, Hlt, Hd, Hl1. pose proof (height_nonneg lr). pose proof (height_nonneg ll).
    destruct (Z.geb_spec (height ll) (height lr)).
    + wp_store. wp_store. wp_store. wp_store. wp_store. iSplit; [|done].
      rw -node_at_tree. unfold node_at, tree_at. rw !sub_T. unfold tree_at. cbn [ptr height]. rw !s16_small; [|lia..].
      rw (_ : Z.max (height lr) (height r) = height lr); [|lia].
      rw (_ : 1 + Z.max (height ll) (1 + height lr) = 1 + (1 + height lr)); [|lia]. iFrame. done.
    + destruct lr as [|lrl q qk lrr]; [simpl in *; lia|]. rw (sub_T lrl). cbn [ptr].
      iDestruct "Hlr" as "(%Hq & Hqk & Hqh & [Hlrlp Hlrl] & [Hlrrp Hlrr])".
      wp_load. wp_store. wp_load. wp_store. wp_store. wp_store. wp_store. wp_store. wp_store. wp_store.
      iSplit; [|done]. simpl in *. pose proof (height_nonneg lrl). pose proof (height_nonneg lrr).
      rw -node_at_tree. unfold node_at, tree_at. rw !sub_T. unfold tree_at. cbn [ptr height]. rw !s16_small; [|lia..].
      rw (_ : Z.max (height ll) (height lrl) = Z.max (height lrl) (height lrr)); [|lia].
      rw (_ : Z.max (height lrr) (height r) = Z.max (height lrl) (height lrr)); [|lia].
      rw (_ : 1 + Z.max (1 + Z.max (height lrl) (height lrr)) (1 + Z.max (height lrl) (height lrr)) =
              1 + Z.max (height ll) (1 + Z.max (height lrl) (height lrr))); [|lia].
      iFrame. done.
  - destruct (Z.ltb_spec (height l + 1) (height r)) as [Hlt|Hge'].
    + destruct r as [|rl rp rk rr]; [simpl in *; lia|]. rw (sub_T rl). cbn [ptr].
      iDestruct "Hr" as "(%Hrp & Hrk & Hrh & [Hrlp Hrl] & [Hrrp Hrr])". wp_load. wp_load.
      iApply wp_bind. iApply (heightof_wp with "Hrl"). iIntros "Hrl". wp_pures.
      iApply wp_bind. iApply (heightof_wp with "Hrr"). iIntros "Hrr". wp_pures.
      simpl in Hbr, Hlt, Hd, Hr1. pose proof (height_nonneg rl). pose proof (height_nonneg rr).
      destruct (Z.geb_spec (height rr) (height rl)).
      * wp_store. wp_store. wp_store. wp_store. wp_store. iSplit; [|done].
        rw -node_at_tree. unfold node_at, tree_at. rw !sub_T. unfold tree_at. cbn [ptr height]. rw !s16_small; [|lia..].
        rw (_ : Z.max (height l) (height rl) = height rl); [|lia].
        rw (_ : 1 + Z.max (1 + height rl) (height rr) = 1 + (1 + height rl)); [|lia]. iFrame. done.
      * destruct rl as [|rll q qk rlr]; [simpl in *; lia|]. rw (sub_T rll). cbn [ptr].
        iDestruct "Hrl" as "(%Hq & Hqk & Hqh & [Hrllp Hrll] & [Hrlrp Hrlr])".
        wp_load. wp_store. wp_load. wp_store. wp_store. wp_store. wp_store. wp_store. wp_store. wp_store.
        iSplit; [|done]. simpl in *. pose proof (height_nonneg rll). pose proof (height_nonneg rlr).
        rw -node_at_tree. unfold node_at, tree_at. rw !sub_T. unfold tree_at. cbn [ptr height]. rw !s16_small; [|lia..].
        rw (_ : Z.max (height l) (height rll) = Z.max (height rll) (height rlr)); [|lia].
        rw (_ : Z.max (height rlr) (height rr) = Z.max (height rll) (height rlr)); [|lia].
        rw (_ : 1 + Z.max (1 + Z.max (height rll) (height rlr)) (1 + Z.max (height rll) (height rlr)) =
                1 + Z.max (1 + Z.max (height rll) (height rlr)) (height rr)); [|lia].
        iFrame. done.
    + wp_load. rw (_ : (if height l <? height r then height r else height l) = Z.max (height l) (height r));
        [|destruct (Z.ltb_spec (height l) (height r)); lia].
      rw (Z.add_comm (Z.max _ _) 1).
      destruct (Z.eqb_spec (1 + Z.max (height l) (height r)) H) as [<-|Hne].
      * wp_pures. iSplit; [|by iPureIntro; simpl]. rw -node_at_tree. by iFrame.
      * wp_store. iSplit; [|done]. rw s16_small; [|lia]. rw -node_at_tree. by iFrame.
Qed.

(** ** Paths

    [ctx_at root c h pl stack]: the nodes of the context [c] around a hole of height [h] at the place
    [pl]; [stack] are the places above. *)
Fixpoint ctx_at (root : Z) (c : ctx) (h pl : Z) (stack : list Z) : heapProp :=
  match c with
  | [] => ⌜pl = root ∧ stack = []⌝
  | FL p k r :: c =>
      ⌜pl = (p + vm_avl_left)%Z ∧ p ≠ NULL⌝ ∗ (p + vm_avl_key) ↦ k ∗ (p + vm_avl_height) ↦ (1 + Z.max h (height r)) ∗
      tree_at (p + vm_avl_right) r ∗
      ∃ pl' st, ⌜stack = pl' :: st⌝ ∗ pl' ↦ p ∗ ctx_at root c (1 + Z.max h (height r)) pl' st
  | FR l p k :: c =>
      ⌜pl = (p + vm_avl_right)%Z ∧ p ≠ NULL⌝ ∗ (p + vm_avl_key) ↦ k ∗ (p + vm_avl_height) ↦ (1 + Z.max h (height l)) ∗
      tree_at (p + vm_avl_left) l ∗
      ∃ pl' st, ⌜stack = pl' :: st⌝ ∗ pl' ↦ p ∗ ctx_at root c (1 + Z.max h (height l)) pl' st
  end.

(** The place of the hole. *)
Definition hole (f : frame) : Z := match f with FL p _ _ => p + vm_avl_left | FR _ p _ => p + vm_avl_right end.

(** The node above the hole. *)
Definition frame_at (pl : Z) (f : frame) (H : Z) (t : tree) : heapProp :=
  match f with FL p k r => node_at pl p k H t r | FR l p k => node_at pl p k H l t end.

Lemma ctx_at_cons root f c h pl stack t :
  tree_at pl t ∗ ctx_at root (f :: c) h pl stack ⊣⊢
  ∃ pl' st, ⌜stack = pl' :: st⌝ ∗ ⌜pl = hole f⌝ ∗
    frame_at pl' f (1 + Z.max h (height (sibling f))) t ∗ ctx_at root c (1 + Z.max h (height (sibling f))) pl' st.
Proof.
  destruct f as [p k r|l p k]; cbn [ctx_at frame_at sibling]; iSplit.
  - iIntros "(Ht & (-> & %Hp) & Hk & Hh & Hr & %pl' & %st & -> & Hpl & Hc)". iExists pl', st. by iFrame.
  - iIntros "(%pl' & %st & -> & -> & (%Hp & Hpl & Hk & Hh & Hl & Hr) & Hc)". iFrame "Hl Hk Hh Hr". iSplit; [done|].
    iExists pl', st. by iFrame.
  - iIntros "(Ht & (-> & %Hp) & Hk & Hh & Hr & %pl' & %st & -> & Hpl & Hc)". iExists pl', st. by iFrame.
  - iIntros "(%pl' & %st & -> & -> & (%Hp & Hpl & Hk & Hh & Hl & Hr) & Hc)". iFrame "Hl Hk Hh Hr". iSplit; [done|].
    iExists pl', st. by iFrame.
Qed.

Lemma frame_at_tree pl f t : frame_at pl f (1 + Z.max (height t) (height (sibling f))) t ⊣⊢ tree_at pl (fill f t).
Proof. destruct f as [p k r|l p k]; cbn [frame_at fill sibling]; rw -node_at_tree //. by rw (Z.max_comm (height t)). Qed.

(** A tree in a context for its height is a tree. *)
Lemma ctx_plug root c t pl stack : tree_at pl t ∗ ctx_at root c (height t) pl stack ⊢ tree_at root (plug c t).
Proof.
  revert t pl stack. induction c as [|f c IH]; intros t pl stack.
  - iIntros "[Ht (-> & _)]". done.
  - rw ctx_at_cons. iIntros "(%pl' & %st & _ & _ & Hf & Hc)". rw frame_at_tree. iApply IH. iFrame "Hf".
    destruct f as [p k r|l p k]; cbn [fill height sibling]; [done|]. by rw Z.max_comm.
Qed.

Lemma frame_rebalance pl f H t h : balanced t → balanced (sibling f) → - 1 ≤ height t - h ≤ 1 →
  - 1 ≤ h - height (sibling f) ≤ 1 → 0 ≤ h ≤ 900 →
  frame_at pl f H t ⊢ wp (rebalance_node pl) (λ go, tree_at pl (refill f t) ∗ ⌜go = false → H = height (refill f t)⌝).
Proof. intros. destruct f; simpl in *; apply rebalance_node_wp; done || lia. Qed.

(** [avl_rebalance] with a subtree in the hole whose height differs from the old one by at most one. *)
Lemma avl_rebalance_wp root c t h pl stack : balanced t → - 1 ≤ height t - h ≤ 1 → ctx_balanced h c →
  0 ≤ h → h + 2 * Z.of_nat (length c) ≤ 900 →
  tree_at pl t ∗ ctx_at root c h pl stack ⊢ wp (avl_rebalance stack) (λ _,
    ∃ t', ⌜balanced t' ∧ nodes t' = nodes (plug c t)⌝ ∗ tree_at root t').
Proof.
  revert t h pl stack. induction c as [|f c IH]; intros t h pl stack Hb Hd Hc Hh Hlen.
  - iIntros "[Ht (-> & ->)]". cbn [avl_rebalance]. wp_pures. iExists t. by iFrame.
  - rw ctx_at_cons. iIntros "(%pl' & %st & -> & _ & Hf & Hc)". destruct Hc as (Hs & Hsh & Hc).
    cbn [avl_rebalance]. iApply wp_bind. iApply (wp_wand with "[Hf]"); [iApply (frame_rebalance with "Hf"); [done|done|exact Hd|done|]|].
    { cbn [length] in Hlen. lia. }
    destruct (refill_balanced f t h Hb Hs Hd Hsh) as [Hb' Hd'].
    iIntros ([|]) "[Ht %Hgo]"; cbn beta iota.
    + iApply (wp_wand with "[Ht Hc]"); [iApply (IH (refill f t)); [done|exact Hd'|done| | |iFrame]|].
      { lia. } { cbn [length] in Hlen. lia. }
      iIntros ([]) "(%t' & [%Hb'' %Hn] & Ht)". iExists t'. iFrame. iPureIntro. split; [done|]. rw Hn.
      apply (plug_nodes c (refill f t) (fill f t)), refill_nodes.
    + rw (Hgo eq_refl). rw (Hgo eq_refl) in Hc. wp_pures. iExists (plug c (refill f t)). iSplit.
      * iPureIntro. split; [by apply plug_balanced|]. apply (plug_nodes c (refill f t) (fill f t)), refill_nodes.
      * iApply ctx_plug. iFrame.
Qed.

(** ** Insertion *)

Definition ascending (xs : list (Z * Z)) : Prop := StronglySorted Z.le xs.*2.

Lemma ascending_app xs ys : ascending (xs ++ ys) ↔
  ascending xs ∧ ascending ys ∧ ∀ x y, x ∈ xs → y ∈ ys → x.2 ≤ y.2.
Proof.
  unfold ascending. rw fmap_app. induction xs as [|x xs IH]; simpl.
  - split; [intros H; split; [constructor|]; split; [done|]; intros; by set_solver|by intros (_ & H & _)].
  - split.
    + intros H. inversion H as [|? ? H1 H2]; subst. apply IH in H1 as (H3 & H4 & H5). apply Forall_app in H2 as [H6 H7].
      split; [by constructor|]. split; [done|]. intros a b Ha Hb. apply list_elem_of_In in Ha as [<-|Ha].
      * apply (proj1 (Forall_forall _ _) H7). by apply list_elem_of_fmap_2.
      * apply H5; [by apply list_elem_of_In|done].
    + intros (H1 & H2 & H3). inversion H1 as [|? ? H4 H5]; subst. constructor.
      * apply IH. split; [done|]. split; [done|]. intros a b Ha Hb. apply H3; [by right|done].
      * apply Forall_app. split; [done|]. apply Forall_forall. intros b Hb. apply list_elem_of_fmap in Hb as (y & -> & Hy).
        apply H3; [by left|done].
Qed.

Lemma ctx_at_stack root c h pl stack : ctx_at root c h pl stack ⊢ ⌜length stack = length c⌝.
Proof.
  revert h pl stack. induction c as [|f c IH]; intros h pl stack; cbn [ctx_at]; [by iIntros "(_ & ->)"|].
  destruct f; iIntros "(_ & _ & _ & _ & %pl' & %st & -> & _ & H)"; iDestruct (IH with "H") as %H; simpl; by rw H.
Qed.

Lemma sub_cells t : sub t ⊢ cells (length (nodes t)).
Proof.
  induction t as [|l IHl p k r IHr]; [iIntros "_"; iApply cells_0|]. rw sub_T. cbn [nodes].
  iIntros "(_ & Hk & _ & [_ Hl] & [_ Hr])". rw IHl IHr pt_cells. rw length_app. cbn [length].
  iDestruct (cells_add with "Hl Hk") as "H". iDestruct (cells_add with "H Hr") as "H". iApply (cells_le with "H"). lia.
Qed.

(** The pointer to the last, or to the first of some nodes. *)
Definition last_ptr (xs : list (Z * Z)) : Z := from_option fst NULL (last xs).
Definition head_ptr (xs : list (Z * Z)) : Z := from_option fst NULL (head xs).

(** [xs] go before a new node with the key, [ys] behind it. *)
Definition splits (key : Z) (xs ys : list (Z * Z)) : Prop :=
  Forall (λ x, x.2 ≤ key) xs ∧ Forall (λ y, key < y.2) ys.

Definition descent_at (root key : Z) (t0 : tree) (n : nat) (s : Z * list Z * Z * Z) : heapProp :=
  let '(pl, stack, tl, tr) := s in
  ∃ c t, ⌜t0 = plug c t ∧ n = length (nodes t) ∧ splits key (lefts c) (rights c) ∧
          tl = last_ptr (lefts c) ∧ tr = head_ptr (rights c)⌝ ∗
    tree_at pl t ∗ ctx_at root c (height t) pl stack.

(** Going down one level opens a frame. *)
Lemma tree_at_open_l pl l p k r root c stack :
  tree_at pl (T l p k r) ∗ ctx_at root c (height (T l p k r)) pl stack ⊢
  tree_at (p + vm_avl_left) l ∗ ctx_at root (FL p k r :: c) (height l) (p + vm_avl_left) (pl :: stack).
Proof.
  iIntros "[Ht Hc]". rw ctx_at_cons. iExists pl, stack. iSplit; [done|]. iSplit; [done|]. cbn [sibling frame_at].
  iFrame "Hc". by rw node_at_tree.
Qed.

Lemma tree_at_open_r pl l p k r root c stack :
  tree_at pl (T l p k r) ∗ ctx_at root c (height (T l p k r)) pl stack ⊢
  tree_at (p + vm_avl_right) r ∗ ctx_at root (FR l p k :: c) (height r) (p + vm_avl_right) (pl :: stack).
Proof.
  iIntros "[Ht Hc]". rw ctx_at_cons. iExists pl, stack. iSplit; [done|]. iSplit; [done|]. cbn [sibling frame_at height].
  rw (Z.max_comm (height r)). iFrame "Hc". by rw node_at_tree.
Qed.

Lemma last_ptr_snoc xs x : last_ptr (xs ++ [x]) = x.1.
Proof. unfold last_ptr. by rw last_snoc. Qed.

(** A node of the tree read on the way. *)
Lemma tree_at_key pl l p k r : tree_at pl (T l p k r) ⊢
  ⌜p ≠ NULL⌝ ∗ pl ↦ p ∗ (p + vm_avl_key) ↦ k ∗ (pl ↦ p -∗ (p + vm_avl_key) ↦ k -∗ tree_at pl (T l p k r)).
Proof.
  unfold tree_at. rw sub_T. cbn [ptr]. iIntros "(Hpl & %Hp & Hk & Hh & Hl & Hr)". iFrame "Hpl Hk". iSplit; [done|].
  iIntros "Hpl Hk". iFrame. done.
Qed.

Lemma insert_descent_wp root key t0 : balanced t0 → size t0 < 2 ^ 20 → ascending (nodes t0) →
  tree_at root t0 ⊢ wp (insert_descent key root) (λ '(pl, stack, tl, tr),
    ∃ c, ⌜t0 = plug c E ∧ splits key (lefts c) (rights c) ∧ tl = last_ptr (lefts c) ∧ tr = head_ptr (rights c)⌝ ∗
      pl ↦ NULL ∗ ctx_at root c 0 pl stack).
Proof.
  intros Hb Hs Hasc. iIntros "Ht". unfold insert_descent.
  iApply (wp_loop _ (descent_at root key t0) _ (length (nodes t0))); last first.
  { iExists [], t0. iFrame "Ht". iPureIntro. split_and!; try done; constructor. }
  - intros n [[[pl stack] tl] tr]. iIntros "(%c & %t & (-> & -> & [%Hxs %Hys] & -> & ->) & Ht & Hc)".
    destruct t as [|l p k r].
    { iDestruct "Ht" as "[Hpl _]". cbn [ptr]. wp_load. change (NULL =? avl_empty) with true. wp_pures. iExists c. by iFrame. }
    iDestruct (tree_at_key with "Ht") as "(%Hp & Hpl & Hk & Ht)". wp_load. rw (proj2 (Z.eqb_neq p avl_empty)) //.
    iDestruct (ctx_at_stack with "Hc") as %Hlen. pose proof (plug_height c (T l p k r)) as Hph.
    pose proof (balanced_height _ Hb Hs) as Hbh. cbn [height] in Hph. pose proof (height_nonneg l).
    unfold push. rw (proj2 (Z.ltb_lt (Z.of_nat (length stack)) avl_maxheight)); [|unfold avl_maxheight; lia].
    wp_load. iDestruct ("Ht" with "Hpl Hk") as "Ht".
    pose proof (plug_lefts_rights c (T l p k r)) as Hpn. rw Hpn in Hasc. cbn [nodes] in Hasc.
    apply ascending_app in Hasc as (_ & Hasc & _). apply ascending_app in Hasc as (Hasc & _ & _).
    apply ascending_app in Hasc as (_ & Hpr & Hlp).
    destruct (Z.ltb_spec key k) as [Hlt|Hge].
    + wp_pures. iExists (length (nodes l)). iSplit; [iPureIntro; cbn [nodes]; rw length_app; simpl; lia|].
      iExists (FL p k r :: c), l. iSplit; [|iApply tree_at_open_l; iFrame].
      iPureIntro. split_and!; try done. split; [done|]. cbn [rights]. constructor; [done|].
      apply Forall_app. split; [|done]. apply Forall_forall. intros y Hy.
      apply (ascending_app [(p, k)]) in Hpr as (_ & _ & Hpr). specialize (Hpr (p, k) y). simpl in Hpr.
      assert (k ≤ y.2); [apply Hpr; [by left|done]|]. lia.
    + wp_pures. iExists (length (nodes r)). iSplit; [iPureIntro; cbn [nodes]; rw length_app; simpl; lia|].
      iExists (FR l p k :: c), r. iSplit; [|iApply tree_at_open_r; iFrame].
      iPureIntro. split_and!; try done; [|cbn [lefts]; by rw assoc_L last_ptr_snoc]. split; [|done]. cbn [lefts].
      apply Forall_app. split; [done|]. apply Forall_app. split; [|by constructor]. apply Forall_forall. intros y Hy.
      assert (y.2 ≤ k); [|lia]. apply (Hlp y (p, k)); [done|by left].
  - unfold descent_at. iIntros "(%c & %t & (-> & %Hn & _) & [_ Ht] & _)". rw sub_cells. iApply (cells_le with "Ht"). lia.
Qed.

Lemma splits_ascending p key xs ys : ascending (xs ++ ys) → splits key xs ys → ascending (xs ++ (p, key) :: ys).
Proof.
  intros Hasc [Hx Hy]. apply ascending_app in Hasc as (H1 & H2 & H3). apply ascending_app. split; [done|]. split.
  - apply (ascending_app [(p, key)]). split; [by repeat constructor|]. split; [done|].
    intros a b Ha Hb. apply list_elem_of_singleton in Ha as ->. simpl.
    pose proof (proj1 (Forall_forall _ _) Hy b Hb) as H. simpl in H. lia.
  - intros a b Ha Hb. apply list_elem_of_In in Hb as [<-|Hb].
    + by apply (proj1 (Forall_forall _ _) Hx a Ha).
    + apply H3; [done|by apply list_elem_of_In].
Qed.

(** A node that is in no tree. *)
Definition new_area (p key : Z) : heapProp :=
  ⌜p ≠ NULL⌝ ∗ (p + vm_avl_key) ↦ key ∗ (∃ v, (p + vm_avl_height) ↦ v) ∗
  (∃ v, (p + vm_avl_left) ↦ v) ∗ (∃ v, (p + vm_avl_right) ↦ v).

(** The new node in the hole at the end of a descent. *)
Lemma avl_link_wp new key root c pl stack : balanced (plug c E) → size (plug c E) < 2 ^ 20 →
  pl ↦ NULL ∗ ctx_at root c 0 pl stack ∗ new_area new key ⊢
  wp (store (new + vm_avl_left) avl_empty;;
      store (new + vm_avl_right) avl_empty;;
      store (new + vm_avl_height) 1;;
      store pl new;;
      avl_rebalance stack) (λ _,
    ∃ t', ⌜balanced t' ∧ nodes t' = lefts c ++ (new, key) :: rights c⌝ ∗ tree_at root t').
Proof.
  intros Hb Hs. iIntros "(Hpl & Hc & (%Hn & Hk & (%v1 & Hh) & (%v2 & Hl) & (%v3 & Hr)))".
  pose proof (plug_height c E) as Hph. pose proof (balanced_height _ Hb Hs) as Hbh. cbn [height] in Hph.
  apply unplug_balanced in Hb as [_ Hb]. wp_store. wp_store. wp_store. wp_store.
  iApply (wp_wand with "[-]").
  { iApply (avl_rebalance_wp root c (T E new key E) 0); [done|done|done|done|lia|]. iFrame "Hc".
    rw -node_at_tree. iFrame. done. }
  iIntros ([]) "(%t' & [%Hb' %Hn'] & Ht)". iExists t'. iFrame. iPureIntro. split; [done|].
  rw Hn' plug_lefts_rights. done.
Qed.

(** C5: [avl_insert_neighbours] puts an area into the tree at its place in the order of the ends, behind
    areas with the same end, and returns its two neighbours; the tree stays balanced and in order.  The
    stack of 41 places never overflows for less than [2 ^ 20] areas. *)
Theorem avl_insert_neighbours_correct new key root t :
  {{ tree_at root t ∗ new_area new key ∗ ⌜balanced t ∧ size t < 2 ^ 20 ∧ ascending (nodes t)⌝ }}
    avl_insert_neighbours new root
  {{ r, ∃ xs ys t', ⌜nodes t = xs ++ ys ∧ splits key xs ys ∧ r = (last_ptr xs, head_ptr ys) ∧
            nodes t' = xs ++ (new, key) :: ys ∧ balanced t' ∧ ascending (nodes t')⌝ ∗ tree_at root t' }}.
Proof.
  apply triple_wp. iIntros "(Ht & (%Hn & Hk & Hnew) & (%Hb & %Hs & %Hasc))". unfold avl_insert_neighbours. wp_load.
  iApply wp_bind. iApply (wp_wand with "[Ht]"); [by iApply insert_descent_wp|].
  iIntros ([[[pl stack] tl] tr]) "(%c & (-> & %Hsp & -> & ->) & Hpl & Hc)". cbn beta iota.
  rw plug_lefts_rights /= in Hasc |- *.
  iApply (wp_ext ((store (new + vm_avl_left) avl_empty;; store (new + vm_avl_right) avl_empty;;
    store (new + vm_avl_height) 1;; store pl new;; avl_rebalance stack) ≫= λ _, mret (last_ptr (lefts c), head_ptr (rights c)))).
  { intros m. unfold mbind, M_bind. repeat case_match; congruence. }
  iApply wp_bind. iApply (wp_wand with "[-]").
  { iApply avl_link_wp; [done|done|]. iFrame "Hpl Hc Hk Hnew". done. }
  iIntros ([]) "(%t' & [%Hb' %Hn'] & Ht)". wp_pures. iExists (lefts c), (rights c), t'. iFrame. iPureIntro.
  split_and!; try done. rw Hn'. by apply splits_ascending.
Qed.

(** ** Search *)

(** The start cells of some areas, and areas that do not overlap. *)
Definition starts (st : Z → Z) (xs : list (Z * Z)) : heapProp := [∗ list] x ∈ xs, (x.1 + vm_start) ↦ st x.1.

Definition disjoint_areas (st : Z → Z) (xs : list (Z * Z)) : Prop :=
  ∀ a x b y, xs = a ++ x :: b → y ∈ a → y.2 ≤ st x.1.

Lemma splits_first key xs ys : splits key xs ys →
  head_ptr (filter (λ x, key < x.2) (xs ++ ys)) = head_ptr ys.
Proof.
  intros [Hx Hy]. rw filter_app. assert (filter (λ x, key < x.2) xs = []) as ->.
  { induction Hx as [|x xs Hx Hxs IH]; [done|]. rw filter_cons_False; [done|]. lia. }
  simpl. destruct Hy as [|y ys Hy Hys]; [done|]. by rw filter_cons_True.
Qed.

Lemma tree_at_parts pl l p k r : tree_at pl (T l p k r) ⊢ ⌜p ≠ NULL⌝ ∗
  (p + vm_avl_key) ↦ k ∗ (p + vm_avl_left) ↦ ptr l ∗ (p + vm_avl_right) ↦ ptr r ∗
  ((p + vm_avl_key) ↦ k -∗ (p + vm_avl_left) ↦ ptr l -∗ (p + vm_avl_right) ↦ ptr r -∗ tree_at pl (T l p k r)).
Proof.
  unfold tree_at. rw sub_T. iIntros "(Hpl & %Hp & Hk & Hh & [Hl Hls] & [Hr Hrs])". iFrame "Hk Hl Hr". iSplit; [done|].
  iIntros "Hk Hl Hr". iFrame. done.
Qed.

Lemma find_vma_wp root addr t st : ascending (nodes t) → disjoint_areas st (nodes t) →
  tree_at root t ∗ starts st (nodes t) ⊢ wp (find_vma root addr) (λ r,
    ⌜r = head_ptr (filter (λ x, addr < x.2) (nodes t))⌝ ∗ tree_at root t ∗ starts st (nodes t)).
Proof.
  intros Hasc Hdis. iIntros "[Ht Hst]". unfold find_vma.
  iDestruct "Ht" as "[Hroot Hsub]". wp_load.
  iApply (wp_loop _ (λ (n : nat) (s : Z * Z), ∃ c t' pl stack, ⌜t = plug c t' ∧ n = length (nodes t') ∧
      splits addr (lefts c) (rights c) ∧ s = (ptr t', head_ptr (rights c))⌝ ∗
      tree_at pl t' ∗ ctx_at root c (height t') pl stack ∗ starts st (nodes t))%I _ (length (nodes t))); last first.
  { iExists [], t, root, []. iFrame. iPureIntro. split_and!; try done; constructor. }
  - intros n [tp result]. iIntros "(%c & %t' & %pl & %stack & (-> & -> & %Hsp & %Hs) & Ht & Hc & Hst)".
    injection Hs as -> ->. pose proof Hsp as [Hxs Hys].
    destruct t' as [|l p k r]; cbn [ptr].
    { change (NULL =? avl_empty) with true. wp_pures. iFrame "Hst". iSplit.
      - iPureIntro. rw plug_lefts_rights /=. symmetry. by apply splits_first.
      - iApply ctx_plug. iFrame. }
    iDestruct (tree_at_parts with "Ht") as "(%Hp & Hk & Hl & Hr & Ht)". rw (proj2 (Z.eqb_neq p avl_empty)) //.
    change vm_avl_key with vm_end. wp_load.
    pose proof (plug_lefts_rights c (T l p k r)) as Hpn. rw Hpn in Hasc. cbn [nodes] in Hasc.
    apply ascending_app in Hasc as (_ & Hasc & _). apply ascending_app in Hasc as (Hasc & _ & _).
    apply ascending_app in Hasc as (_ & Hpr & Hlp).
    assert (∀ y, y ∈ nodes r → k ≤ y.2) as Hrk.
    { intros y Hy. apply (ascending_app [(p, k)]) in Hpr as (_ & _ & Hpr). apply (Hpr (p, k) y); [by left|done]. }
    destruct (Z.gtb_spec k addr) as [Hgt|Hle].
    + iAssert ((p + vm_start) ↦ st p ∗ ((p + vm_start) ↦ st p -∗ starts st (nodes (plug c (T l p k r)))))%I with "[Hst]" as "[Hs Hst]".
      { rw Hpn. cbn [nodes]. unfold starts. iDestruct (big_sepL_elem_of_acc _ _ (p, k) with "Hst") as "[$ $]".
        apply elem_of_app. right. apply elem_of_app. left. apply elem_of_app. right. left. }
      wp_load. iDestruct ("Hst" with "Hs") as "Hst". destruct (Z.ltb_spec (st p) addr) as [Hin|Hout].
      * wp_pures. iFrame "Hst". iSplit.
        { iPureIntro. rw Hpn. cbn [nodes]. rw -(assoc_L (++)) assoc_L. symmetry.
          apply (splits_first addr (lefts c ++ nodes l) (((p, k) :: nodes r) ++ rights c)). split.
          - apply Forall_app. split; [done|]. apply Forall_forall. intros y Hy.
            assert (y.2 ≤ st p); [|lia]. apply (Hdis (lefts c ++ nodes l) (p, k) (nodes r ++ rights c)); [|by apply elem_of_app; right].
            rw Hpn. cbn [nodes]. by rw -!(assoc_L (++)).
          - constructor; [done|]. apply Forall_app. split; [|done]. apply Forall_forall. intros y Hy. specialize (Hrk y Hy). lia. }
        iApply ctx_plug. iFrame "Hc". iApply ("Ht" with "Hk Hl Hr").
      * wp_load. iExists (length (nodes l)). iSplit; [iPureIntro; cbn [nodes]; rw length_app; simpl; lia|].
        iDestruct ("Ht" with "Hk Hl Hr") as "Ht". iDestruct (tree_at_open_l with "[$Ht $Hc]") as "[Ht Hc]".
        iExists (FL p k r :: c), l, _, _. iFrame. iPureIntro. split_and!; try done. split; [done|]. cbn [rights].
        constructor; [done|]. apply Forall_app. split; [|done]. apply Forall_forall. intros y Hy. specialize (Hrk y Hy). lia.
    + wp_load. iExists (length (nodes r)). iSplit; [iPureIntro; cbn [nodes]; rw length_app; simpl; lia|].
      iDestruct ("Ht" with "Hk Hl Hr") as "Ht". iDestruct (tree_at_open_r with "[$Ht $Hc]") as "[Ht Hc]".
      iExists (FR l p k :: c), r, _, _. iFrame. iPureIntro. split_and!; try done. split; [|done]. cbn [lefts].
      apply Forall_app. split; [done|]. apply Forall_app. split; [|by constructor]. apply Forall_forall. intros y Hy.
      assert (y.2 ≤ k); [|lia]. apply (Hlp y (p, k)); [done|by left].
  - iIntros "(%c & %t' & %pl & %stack & (-> & %Hn & _) & [_ Ht] & _)". rw sub_cells. iApply (cells_le with "Ht"). lia.
Qed.

(** [find_vma] ends and returns the first area, in the order of addresses, that ends behind the
    address, NULL when there is none, for areas that do not overlap; the early exit on an area that
    contains the address gives the same answer. *)
Theorem find_vma_correct root addr t st :
  {{ tree_at root t ∗ starts st (nodes t) ∗ ⌜ascending (nodes t) ∧ disjoint_areas st (nodes t)⌝ }}
    find_vma root addr
  {{ r, ⌜r = head_ptr (filter (λ x, addr < x.2) (nodes t))⌝ ∗ tree_at root t ∗ starts st (nodes t) }}.
Proof. apply triple_wp. iIntros "(Ht & Hst & (%Hasc & %Hdis))". iApply find_vma_wp; [done|done|iFrame]. Qed.
