(* ===== verification/AvlRemove.v ===== *)
(** * Removal from the tree of memory areas *)

From S2P Require Export AvlSpec.

(** A context in two parts that meet at a place. *)
Lemma ctx_at_app root c1 c2 h pl mid st1 st2 :
  ctx_at mid c1 h pl st1 ∗ ctx_at root c2 (ctx_height h c1) mid st2 ⊢ ctx_at root (c1 ++ c2) h pl (st1 ++ st2).
Proof.
  revert h pl st1. induction c1 as [|[p k r|l p k] c1 IH]; intros h pl st1; cbn [ctx_at app ctx_height sibling].
  - iIntros "[(-> & ->) H]". done.
  - iIntros "[($ & $ & $ & $ & %pl' & %st & -> & Hpl & H1) H2]". iExists pl', (st ++ st2). iSplit; [done|].
    iFrame "Hpl". iApply IH. iFrame.
  - iIntros "[($ & $ & $ & $ & %pl' & %st & -> & Hpl & H1) H2]". iExists pl', (st ++ st2). iSplit; [done|].
    iFrame "Hpl". iApply IH. iFrame.
Qed.

(** The place at the top of a context can be exchanged. *)
Lemma ctx_at_rebase a f c h pl st : ctx_at a (f :: c) h pl st ⊢
  ∃ q st0, ⌜st = st0 ++ [a]⌝ ∗ a ↦ q ∗ ∀ b, b ↦ q -∗ ctx_at b (f :: c) h pl (st0 ++ [b]).
Proof.
  revert f h pl st. induction c as [|g c IH]; intros f h pl st.
  - destruct f as [p k r|l p k]; cbn [ctx_at].
    + iIntros "($ & $ & $ & $ & %pl' & %st' & -> & Hpl & (-> & ->))". iExists p, []. iFrame "Hpl". iSplit; [done|].
      iIntros (b) "Hb". iExists b, []. by iFrame.
    + iIntros "($ & $ & $ & $ & %pl' & %st' & -> & Hpl & (-> & ->))". iExists p, []. iFrame "Hpl". iSplit; [done|].
      iIntros (b) "Hb". iExists b, []. by iFrame.
  - destruct f as [p k r|l p k].
    + change (ctx_at a (FL p k r :: g :: c) h pl st) with
        (⌜pl = (p + vm_avl_left)%Z ∧ p ≠ NULL⌝ ∗ (p + vm_avl_key) ↦ k ∗ (p + vm_avl_height) ↦ (1 + Z.max h (height r)) ∗
         tree_at (p + vm_avl_right) r ∗ ∃ pl' st', ⌜st = pl' :: st'⌝ ∗ pl' ↦ p ∗ ctx_at a (g :: c) (1 + Z.max h (height r)) pl' st')%I.
      iIntros "(H1 & H2 & H3 & H4 & %pl' & %st' & -> & Hpl & H)". rw IH. iDestruct "H" as (q st0 ->) "[Ha H]".
      iExists q, (pl' :: st0). iFrame "Ha". iSplit; [done|]. iIntros (b) "Hb". iFrame "H1 H2 H3 H4".
      iExists pl', (st0 ++ [b]). iFrame "Hpl". iSplit; [done|]. by iApply "H".
    + change (ctx_at a (FR l p k :: g :: c) h pl st) with
        (⌜pl = (p + vm_avl_right)%Z ∧ p ≠ NULL⌝ ∗ (p + vm_avl_key) ↦ k ∗ (p + vm_avl_height) ↦ (1 + Z.max h (height l)) ∗
         tree_at (p + vm_avl_left) l ∗ ∃ pl' st', ⌜st = pl' :: st'⌝ ∗ pl' ↦ p ∗ ctx_at a (g :: c) (1 + Z.max h (height l)) pl' st')%I.
      iIntros "(H1 & H2 & H3 & H4 & %pl' & %st' & -> & Hpl & H)". rw IH. iDestruct "H" as (q st0 ->) "[Ha H]".
      iExists q, (pl' :: st0). iFrame "Ha". iSplit; [done|]. iIntros (b) "Hb". iFrame "H1 H2 H3 H4".
      iExists pl', (st0 ++ [b]). iFrame "Hpl". iSplit; [done|]. by iApply "H".
Qed.

(** ** The two descents *)

(** The rightmost node of a tree: only turns to the right lead to it. *)
Lemma rightmost_descent_wp a l p k r :
  tree_at a (T l p k r) ⊢ wp (rightmost_descent a) (λ '(pl, passed, m),
    ∃ c ml mk, ⌜T l p k r = plug c (T ml m mk E) ∧ rights c = []⌝ ∗
      tree_at pl (T ml m mk E) ∗ ctx_at a c (height (T ml m mk E)) pl passed).
Proof.
  iIntros "Ht". unfold rightmost_descent.
  iApply (wp_loop _ (λ (n : nat) '((pl, passed) : Z * list Z), ∃ c l' p' k' r', ⌜T l p k r = plug c (T l' p' k' r') ∧ rights c = [] ∧
      n = length (nodes (T l' p' k' r'))⌝ ∗ tree_at pl (T l' p' k' r') ∗ ctx_at a c (height (T l' p' k' r')) pl passed)%I
    _ (length (nodes (T l p k r)))); last first.
  { iExists [], l, p, k, r. iFrame. done. }
  - intros n [pl passed]. iIntros "(%c & %l' & %p' & %k' & %r' & (%Heq & %Hr & ->) & Ht & Hc)".
    iDestruct "Ht" as "[Hpl Ht]". rw sub_T. cbn [ptr]. iDestruct "Ht" as "(%Hp & Hk & Hh & Hl & [Hr Hrs])". wp_load. wp_load.
    iAssert (tree_at pl (T l' p' k' r')) with "[Hpl Hk Hh Hl Hr Hrs]" as "Ht".
    { rw -node_at_tree. iFrame. done. }
    destruct r' as [|rl rp rk rr]; cbn [ptr].
    + change (NULL =? avl_empty) with true. wp_pures. iExists c, l', k'. by iFrame.
    + iDestruct (tree_at_open_r with "[$Ht $Hc]") as "[Ht Hc]". iDestruct (tree_at_key with "Ht") as "(%Hrp & Hpl & Hk & Ht)".
      rw (proj2 (Z.eqb_neq rp avl_empty)) //. iDestruct ("Ht" with "Hpl Hk") as "Ht". wp_pures.
      iExists (length (nodes (T rl rp rk rr))). iSplit; [iPureIntro; cbn [nodes]; rw !length_app /=; rw length_app; simpl; lia|].
      iExists (FR l' p' k' :: c), rl, rp, rk, rr. iFrame. done.
  - iIntros "(%c & %l' & %p' & %k' & %r' & (_ & _ & %Hn) & [_ Ht] & _)". rw sub_cells. by rw -Hn.
Qed.

(** No two areas have the same end. *)
Definition distinct_ends (xs : list (Z * Z)) : Prop := ∀ x y, x ∈ xs → y ∈ xs → x.2 = y.2 → x = y.

Lemma remove_descent_wp root key p t0 : balanced t0 → size t0 < 2 ^ 20 → ascending (nodes t0) → distinct_ends (nodes t0) →
  (p, key) ∈ nodes t0 →
  tree_at root t0 ⊢ wp (remove_descent key root) (λ r,
    ∃ c l r' pl stack, ⌜t0 = plug c (T l p key r') ∧ r = Some (pl, pl :: stack)⌝ ∗
      tree_at pl (T l p key r') ∗ ctx_at root c (height (T l p key r')) pl stack).
Proof.
  intros Hb Hs Hasc Hdist Hin. iIntros "Ht". unfold remove_descent.
  iApply (wp_loop _ (λ (n : nat) '((pl, stack) : Z * list Z), ∃ c t, ⌜t0 = plug c t ∧ n = length (nodes t) ∧ (p, key) ∈ nodes t⌝ ∗
    tree_at pl t ∗ ctx_at root c (height t) pl stack)%I _ (length (nodes t0))); last first.
  { iExists [], t0. by iFrame. }
  - intros n [pl stack]. iIntros "(%c & %t & (-> & -> & %Hpt) & Ht & Hc)".
    destruct t as [|l q k r]; [by apply elem_of_nil in Hpt|].
    iDestruct (tree_at_key with "Ht") as "(%Hq & Hpl & Hk & Ht)". wp_load. rw (proj2 (Z.eqb_neq q avl_empty)) //.
    iDestruct (ctx_at_stack with "Hc") as %Hlen. pose proof (plug_height c (T l q k r)) as Hph.
    pose proof (balanced_height _ Hb Hs) as Hbh. cbn [height] in Hph. pose proof (height_nonneg l).
    unfold push. rw (proj2 (Z.ltb_lt (Z.of_nat (length stack)) avl_maxheight)); [|unfold avl_maxheight; lia].
    wp_load. iDestruct ("Ht" with "Hpl Hk") as "Ht".
    pose proof (plug_lefts_rights c (T l q k r)) as Hpn. rw Hpn in Hasc, Hdist. cbn [nodes] in Hasc, Hdist, Hpt.
    apply ascending_app in Hasc as (_ & Hasc & _). apply ascending_app in Hasc as (Hasc & _ & _).
    apply ascending_app in Hasc as (_ & Hpr & Hlp). apply (ascending_app [(q, k)]) in Hpr as (_ & _ & Hpr).
    destruct (Z.eqb_spec key k) as [->|Hne].
    { assert ((p, k) = (q, k)) as [= ->].
      { apply Hdist; [| |done]; apply elem_of_app; right; apply elem_of_app; left; [done|].
        apply elem_of_app. right. left. }
      wp_pures. iExists c, l, r, pl, stack. by iFrame. }
    apply elem_of_app in Hpt. rw elem_of_cons in Hpt. destruct (Z.ltb_spec key k) as [Hlt|Hge].
    + wp_pures. iExists (length (nodes l)). iSplit; [iPureIntro; cbn [nodes]; rw length_app; simpl; lia|].
      iExists (FL q k r :: c), l. iSplit; [|iApply tree_at_open_l; iFrame]. iPureIntro. split_and!; try done.
      destruct Hpt as [?|[[= _ ?]|Hpt]]; [done|lia|]. specialize (Hpr (q, k) (p, key) ltac:(by left) Hpt). simpl in Hpr. lia.
    + wp_pures. iExists (length (nodes r)). iSplit; [iPureIntro; cbn [nodes]; rw length_app; simpl; lia|].
      iExists (FR l q k :: c), r. iSplit; [|iApply tree_at_open_r; iFrame]. iPureIntro. split_and!; try done.
      destruct Hpt as [Hpt|[[= _ ?]|?]]; [|lia|done]. specialize (Hlp (p, key) (q, k) Hpt ltac:(by left)). simpl in Hlp. lia.
  - iIntros "(%c & %t & (-> & %Hn & _) & [_ Ht] & _)". rw sub_cells. iApply (cells_le with "Ht"). lia.
Qed.

(** ** Removal *)

Lemma replace_first_snoc st a b : replace_first (st ++ [a]) b = st ++ [b].
Proof. unfold replace_first. rw reverse_app /= reverse_cons reverse_involutive. done. Qed.

(** The rightmost node of the left subtree takes the place of the removed one: the contexts below and
    above it, with the new node between them. *)
Lemma successor_ctx root c c2 ml m mk p r pl pl2 stack passed :
  m ≠ NULL →
  (match c2 with [] => pl2 = (p + vm_avl_left)%Z | _ => True end) →
  ctx_at (p + vm_avl_left) c2 (height (T ml m mk E)) pl2 passed -∗
  ctx_at root c (1 + Z.max (ctx_height (height (T ml m mk E)) c2) (height r)) pl stack -∗
  pl2 ↦ ptr ml -∗ sub ml -∗
  wp (v ← load (p + vm_avl_left); mret v) (λ v,
    (m + vm_avl_left) ↦ v -∗ pl ↦ m -∗ (m + vm_avl_key) ↦ mk -∗
    (m + vm_avl_height) ↦ (1 + Z.max (ctx_height (height (T ml m mk E)) c2) (height r)) -∗
    tree_at (m + vm_avl_right) r -∗
    ∃ pl', tree_at pl' ml ∗ (∃ v, (p + vm_avl_left) ↦ v) ∗
      ctx_at root (c2 ++ FL m mk r :: c) (height (T ml m mk E)) pl' (replace_first passed (m + vm_avl_left) ++ pl :: stack)).
Proof.
  iIntros (Hm Hpl2) "H2 H1 Hpl2 Hml". destruct c2 as [|f c2].
  - subst pl2. iDestruct "H2" as "[_ ->]". wp_load. iIntros "Hl Hpl Hk Hh Hr". iExists (m + vm_avl_left). iFrame "Hl Hml".
    iSplitL "Hpl2"; [by iExists _|]. cbn [replace_first reverse rev_append app ctx_at ctx_height sibling]. iFrame. done.
  - iDestruct (ctx_at_rebase with "H2") as (q st0 ->) "[Ha H2]". wp_load. iIntros "Hl Hpl Hk Hh Hr". iExists pl2.
    iFrame "Hpl2 Hml". iSplitL "Ha"; [by iExists _|]. rw replace_first_snoc. iApply (ctx_at_app _ _ _ _ _ (m + vm_avl_left)).
    iSplitL "H2 Hl"; [by iApply "H2"|]. cbn [ctx_at sibling]. iFrame. done.
Qed.

Lemma sub_key t p k : (p, k) ∈ nodes t → sub t ⊢ (p + vm_avl_key) ↦ k ∗ ((p + vm_avl_key) ↦ k -∗ sub t).
Proof.
  induction t as [|l IHl q kq r IHr]; cbn [nodes]; intros Hin; [by apply elem_of_nil in Hin|].
  apply elem_of_app in Hin. rw elem_of_cons in Hin. rw sub_T. unfold tree_at. iIntros "($ & Hk & $ & [Hl Hls] & [Hr Hrs])".
  destruct Hin as [Hin|[[= -> ->]|Hin]].
  - iFrame "Hk Hl Hr Hrs". by iApply IHl.
  - iFrame "Hk Hl Hls Hr Hrs". by iIntros "$".
  - iFrame "Hk Hl Hls Hr". by iApply IHr.
Qed.

Lemma avl_remove_wp p key root t : (p, key) ∈ nodes t → balanced t → size t < 2 ^ 20 → ascending (nodes t) → distinct_ends (nodes t) →
  tree_at root t ⊢ wp (avl_remove p root) (λ _,
    ∃ xs ys t', ⌜nodes t = xs ++ (p, key) :: ys ∧ nodes t' = xs ++ ys ∧ balanced t'⌝ ∗ tree_at root t' ∗ new_area p key).
Proof.
  intros Hin Hb Hs Hasc Hdist. iIntros "[Hroot Ht]". unfold avl_remove.
  iDestruct (sub_key with "Ht") as "[Hk Ht]"; [done|]. wp_load. iDestruct ("Ht" with "Hk") as "Ht".
  iApply wp_bind. iApply (wp_wand with "[Hroot Ht]"); [iApply (remove_descent_wp root key p t); [done..|]; iFrame|].
  iIntros (x) "(%c & %l & %r & %pl & %stack & (-> & ->) & Ht & Hc)". cbn beta iota.
  iDestruct (ctx_at_stack with "Hc") as %Hlen. pose proof (balanced_height _ Hb Hs) as Hbh.
  rw -node_at_tree. iDestruct "Ht" as "(%Hp & Hpl & Hk & Hh & [Hl Hls] & [Hr Hrs])". wp_load.
  destruct l as [|ll lp lk lr]; cbn [ptr].
  - change (NULL =? avl_empty) with true. wp_load. wp_store. pose proof (plug_height c (T E p key r)) as Hph.
    cbn [height] in Hph. pose proof (height_nonneg r).
    apply unplug_balanced in Hb as [(_ & Hbr & _) Hc]. iApply (wp_wand with "[Hpl Hc Hrs]").
    { iApply (avl_rebalance_wp root c r (height (T E p key r)) pl); [done|cbn [height]; lia|done|cbn [height]; lia|cbn [height]; lia|]. iFrame. }
    iIntros ([]) "(%t' & [%Hb' %Hn] & Ht)". iExists (lefts c), (nodes r ++ rights c), t'. iFrame "Ht". iSplit.
    + iPureIntro. split; [by rw plug_lefts_rights|]. split; [by rw Hn plug_lefts_rights|done].
    + iSplit; [done|]. iFrame "Hk". iSplitL "Hh"; [by iExists _|]. iSplitL "Hl"; by iExists _.
  - iAssert ⌜lp ≠ NULL⌝%I as %Hlp; [rw sub_T; by iDestruct "Hls" as "[$ _]"|].
    rw (proj2 (Z.eqb_neq lp avl_empty)) //. wp_pures. iApply wp_bind.
    iApply (wp_wand with "[Hl Hls]"); [iApply (rightmost_descent_wp (p + vm_avl_left) ll lp lk lr); iFrame|].
    iIntros ([[pl2 passed] m]) "(%c2 & %ml & %mk & (%Heq & %Hr2) & [Hpl2 Hm] & H2)". cbn beta iota.
    iDestruct (ctx_at_stack with "H2") as %Hlen2.
    assert (plug c (T (T ll lp lk lr) p key r) = plug (c2 ++ FL p key r :: c) (T ml m mk E)) as Hplug
      by (by rw avl_plug_app -Heq).
    rw Hplug in Hb, Hbh. pose proof (plug_height (c2 ++ FL p key r :: c) (T ml m mk E)) as Hph.
    rw length_app in Hph. cbn [length height] in Hph. pose proof (height_nonneg ml).
    rw (proj2 (Z.leb_le (Z.of_nat (Nat.max 1 (length passed) + length (pl :: stack))) avl_maxheight));
      [|unfold avl_maxheight; cbn [length]; lia].
    rw (sub_T ml m mk E). cbn [ptr]. iDestruct "Hm" as "(%Hm & Hmk & Hmh & [Hmlp Hml] & [Hmr _])".
    wp_load. wp_store.
    iAssert ⌜match c2 with [] => pl2 = (p + vm_avl_left)%Z | _ => True end⌝%I as %Hc2.
    { destruct c2; [by iDestruct "H2" as "[-> _]"|done]. }
    rw (_ : height (T (T ll lp lk lr) p key r) = 1 + Z.max (ctx_height (height (T ml m mk E)) c2) (height r));
      [|rw -height_plug -Heq; done].
    rw (_ : 1 + Z.max (height (T ll lp lk lr)) (height r) = 1 + Z.max (ctx_height (height (T ml m mk E)) c2) (height r));
      [|rw -height_plug -Heq; done].
    iApply (wp_ext ((v ← load (p + vm_avl_left); mret v) ≫= λ v,
        store (m + vm_avl_left) v;;
        v ← load (p + vm_avl_right);
        store (m + vm_avl_right) v;;
        v ← load (p + vm_avl_height);
        store (m + vm_avl_height) v;;
        store pl m;;
        avl_rebalance (replace_first passed (m + vm_avl_left) ++ pl :: stack))).
    { intros h. unfold mbind, M_bind. by destruct (load (p + vm_avl_left) h). }
    iApply wp_bind. iApply (wp_wand with "[H2 Hc Hpl2 Hml]"); [iApply (successor_ctx with "H2 Hc Hpl2 Hml"); done|].
    iIntros (v) "Hctx". wp_store. wp_load. wp_store. wp_load. wp_store. wp_store.
    iDestruct ("Hctx" with "Hmlp Hpl Hmk Hmh [Hmr Hrs]") as (pl') "(Hml & Hl & Hc)"; [iFrame|].
    pose proof Hb as Hb2. apply unplug_balanced in Hb2 as [(Hbml & _ & _) Hcb].
    iApply (wp_wand with "[Hml Hc]").
    { iApply (avl_rebalance_wp root (c2 ++ FL m mk r :: c) ml (height (T ml m mk E)) pl'); [done|cbn [height]; lia| |cbn [height]; lia| |iFrame].
      - by apply (ctx_balanced_sibling _ _ (FL p key r)).
      - rw length_app. cbn [length height]. lia. }
    iIntros ([]) "(%t' & [%Hb' %Hn] & Ht)".
    iExists (lefts c ++ nodes (T ll lp lk lr)), (nodes r ++ rights c), t'. iFrame "Ht". iSplit.
    + iPureIntro. split; [|split; [|done]].
      * rw plug_lefts_rights. cbn [nodes]. by rw -!(assoc_L (++)).
      * rw Hn plug_lefts_rights lefts_app rights_app Hr2. cbn [lefts rights app]. rw Heq plug_lefts_rights Hr2 app_nil_r.
        cbn [nodes]. by rw -!(assoc_L (++)).
    + iSplit; [done|]. iFrame "Hk Hl". iSplitL "Hh"; by iExists _.
Qed.

(** C6: [avl_remove] takes an area out of the tree and nothing else; the tree stays balanced, and the stack
    of 41 places never overflows for less than [2 ^ 20] areas. *)
Theorem avl_remove_correct p key root t :
  {{ tree_at root t ∗ ⌜(p, key) ∈ nodes t ∧ balanced t ∧ size t < 2 ^ 20 ∧ ascending (nodes t) ∧ distinct_ends (nodes t)⌝ }}
    avl_remove p root
  {{ _, ∃ xs ys t', ⌜nodes t = xs ++ (p, key) :: ys ∧ nodes t' = xs ++ ys ∧ balanced t'⌝ ∗ tree_at root t' ∗ new_area p key }}.
Proof. apply triple_wp. iIntros "(Ht & (%Hin & %Hb & %Hs & %Hasc & %Hdist))". by iApply avl_remove_wp. Qed.
