(* ===== verification/PageCache.v ===== *)
(** * The page cache and swapping: mm/filemap.c and mm/swap.c

    The pages of a file are found in the radix tree of its address space and stand in two lists, the clean pages of the
    address space and the inactive pages of the kernel. *)

From S2P Require Export Pgtable RadixTree Wait CList.

(** The other members of struct page. *)
Definition pg_list : Z := 0.
Definition pg_mapping : Z := 8.
Definition pg_index : Z := 16.
Definition pg_count : Z := 24.
Definition pg_lru : Z := 32.

(** struct address_space *)
Definition page_tree : Z := 4.
Definition clean_pages : Z := 16.

(** [atomic_inc]; [get_page] is it on the count of a page. *)
Definition atomic_inc (v : Z) : M unit := n ← load v; store v (s32 (n + 1)).
Definition get_page (p : Z) : M unit := atomic_inc (p + pg_count).

Section filemap.
Context (kmem_get_obj : M Z) (inactive_list : Z).

Definition add_page_to_inactive_list (page : Z) : M unit := list_add (page + pg_lru) inactive_list.
Definition lru_cache_add (page : Z) : M unit := add_page_to_inactive_list page.

Definition __add_to_page_cache (page mapping index : Z) : M Z :=
  list_add (page + pg_list) (mapping + clean_pages);;
  store (page + pg_mapping) mapping;;
  store (page + pg_index) index;;
  mret 0.

Definition _add_to_page_cache (page mapping offset : Z) : M Z :=
  get_page page;;
  r ← radix_tree_insert kmem_get_obj (mapping + page_tree) offset page;
  if r <? 0 then mret (-1) else
  __add_to_page_cache page mapping offset;;
  mret 0.

Definition add_to_page_cache (page mapping offset : Z) : M Z :=
  r ← _add_to_page_cache page mapping offset;
  if r <? 0 then mret (-1) else
  lru_cache_add page;;
  mret 0.

(** What a page struct has besides its two list nodes. *)
Definition page_fields (page mapping index count : Z) : heapProp :=
  (page + pg_mapping) ↦ mapping ∗ (page + pg_index) ↦ index ∗ (page + pg_count) ↦ count.

(** An address space and the list of inactive pages. *)
Definition page_cache (mapping : Z) (F : Z → Z) (clean inactive : list Z) : heapProp :=
  radix_root (mapping + page_tree) F ∗ dlist (mapping + clean_pages) clean ∗ dlist inactive_list inactive.

Context `{!NodeCache kmem_get_obj}.

(** [add_to_page_cache] enters a page at a free index of the address space: the tree finds it there and keeps the others, and the page is
    the last of both lists.  When the index is taken or no node is left it answers -1 and leaves the tree and the lists as they
    were, but keeps the reference to the page that it took. *)
Theorem add_to_page_cache_correct n page mapping offset F clean inactive mp ix c :
  {{ clean_cache n ∗ page_cache mapping F clean inactive ∗ page_fields page mp ix c ∗
     lnode (page + pg_list) ∗ lnode (page + pg_lru) ∗ ⌜0 ≤ offset < 2 ^ 32 ∧ page ≠ NULL⌝ }}
    add_to_page_cache page mapping offset
  {{ r, (⌜r = 0 ∧ F offset = NULL⌝ ∗
          page_cache mapping (upd F offset page) (clean ++ [page + pg_list]%Z) (inactive ++ [page + pg_lru]%Z) ∗
          page_fields page mapping offset (s32 (c + 1)) ∗ ∃ n', clean_cache n') ∨
        (⌜r = -1⌝ ∗ (⌜F offset ≠ NULL⌝ ∗ (∃ n', clean_cache n') ∨ clean_cache 0) ∗ page_cache mapping F clean inactive ∗
          page_fields page mp ix (s32 (c + 1)) ∗ lnode (page + pg_list) ∗ lnode (page + pg_lru)) }}.
Proof.
  apply triple_wp. iIntros "(Hn & (Ht & Hc & Hi) & (Hm & Hx & Hcnt) & Hl & Hr & (%Ho & %Hp))".
  unfold add_to_page_cache, _add_to_page_cache, get_page, atomic_inc. iApply wp_bind. iApply wp_bind. wp_load. wp_store.
  iApply wp_bind. iApply (wp_wand with "[Hn Ht]"); [iApply (radix_tree_insert_wp n (mapping + page_tree) offset page F); [done|done|iFrame]|].
  iIntros (e) "[([-> %HF] & Ht & Hn)|[([-> %HF] & Ht & Hn)|(-> & Ht & Hn)]]".
  - change (0 <? 0) with false. wp_pures. unfold __add_to_page_cache. iApply wp_bind. iApply wp_bind.
    iApply (list_add_head_wp with "Hc Hl"). iIntros "Hc". wp_store. wp_store. wp_pures. change (0 <? 0) with false. wp_pures.
    unfold lru_cache_add, add_page_to_inactive_list. iApply wp_bind. iApply (list_add_head_wp with "Hi Hr"). iIntros "Hi". wp_pures.
    iLeft. iSplit; [done|]. iFrame.
  - change (-3 <? 0) with true. wp_pures. change (-1 <? 0) with true. wp_pures. iRight. iSplit; [done|]. iFrame. iLeft. by iFrame.
  - change (-2 <? 0) with true. wp_pures. change (-1 <? 0) with true. wp_pures. iRight. iSplit; [done|]. iFrame.
Qed.
End filemap.

(** ** mm/swap.c

    [swap_free] is in the file of the page tables, which use it. *)

Definition READ : Z := 0.

Section swapping.
Context (buddy_list nr_swapfiles swap_files nr_swap_pages swap_cache_add_total lock_queue : Z).

Definition add_to_swap_cache (page entry : Z) : M unit :=
  n ← load swap_cache_add_total; store swap_cache_add_total (s32 (n + 1)).

(** [p] is the local variable of the source, which is never set. *)
Definition rw_swap_page (p rw entry buf : Z) : M unit :=
  let type := SWAP_TYPE entry in
  n ← load nr_swap_pages;
  if type >=? u32 n then mret tt else
  let offset := SWAP_OFFSET entry in
  mx ← load (p + sw_max);
  if offset >=? mx then mret tt else
  map ← load (p + sw_swap_map);
  bad ← (if negb (map =? NULL) then map ← load (p + sw_swap_map); c ← load (map + offset); mret (c =? 0) else mret false);
  if bad : bool then mret tt else
  d ← load (p + sw_swap_device);
  (if negb (d =? 0) then mret tt else f ← load (p + sw_swap_file); mret tt);;
  wake_up_interruptible lock_queue.

Definition swap_in (p vma page_table entry write_access : Z) : M unit :=
  v ← load page_table;
  if negb (v =? entry) then mret tt else
  page ← get_free_page buddy_list GFP_KERNEL;
  (if page =? 0 then
     store page_table PAGE_BAD;;
     swap_free nr_swapfiles swap_files nr_swap_pages entry;;
     oom
   else mret tt);;
  rw_swap_page p READ entry page;;
  v ← load page_table;
  if negb (v =? entry) then mret tt else mret tt.

(** There are no swap files: [nr_swapfiles] is zero from the start and nothing changes it, so [swap_free] never gives
    anything back. *)
Theorem swap_free_nothing entry m : m !! nr_swapfiles = Some 0 → 0 ≤ entry →
  swap_free nr_swapfiles swap_files nr_swap_pages entry m = Ok tt m.
Proof.
  intros Hm He. unfold swap_free. destruct (entry =? 0); [done|]. unfold mbind, M_bind, load. rw Hm.
  rw (_ : (SWAP_TYPE entry >=? u32 0) = true); [done|]. rw Z.geb_leb. apply Z.leb_le.
  unfold SWAP_TYPE. change (u32 0) with 0. apply Z.land_nonneg. right. lia.
Qed.
End swapping.

(** The page cache on the pool of nodes at 64: a page at 8192 into an empty address space at 4096. *)
Lemma add_to_page_cache_correct_witness :
  {{ pool_free 4 ∗ page_cache 256 4096 (λ _, NULL) [] [] ∗ page_fields 8192 0 0 0 ∗
     lnode (8192 + pg_list) ∗ lnode (8192 + pg_lru) ∗ ⌜0 ≤ 300 < 2 ^ 32 ∧ 8192 ≠ NULL⌝ }}
    add_to_page_cache (pool_get 64) 256 8192 4096 300
  {{ r, (⌜r = 0 ∧ NULL = NULL⌝ ∗ page_cache 256 4096 (upd (λ _, NULL) 300 8192) [8192 + pg_list]%Z [8192 + pg_lru]%Z ∗
          page_fields 8192 4096 300 (s32 (0 + 1)) ∗ ∃ n', pool_free n') ∨
        (⌜r = -1⌝ ∗ (⌜NULL ≠ NULL⌝ ∗ (∃ n', pool_free n') ∨ pool_free 0) ∗ page_cache 256 4096 (λ _, NULL) [] [] ∗
          page_fields 8192 0 0 (s32 (0 + 1)) ∗ lnode (8192 + pg_list) ∗ lnode (8192 + pg_lru)) }}.
Proof. exact (add_to_page_cache_correct (pool_get 64) 256 4 8192 4096 300 (λ _, NULL) [] [] 0 0 0). Defined.

Lemma swap_free_nothing_witness :
  (<[16 := 0]> ∅ : mem) !! 16 = Some 0 ∧ swap_free 16 32 64 6 (<[16 := 0]> ∅) = Ok tt (<[16 := 0]> ∅).
Proof. split; [reflexivity|]. apply (swap_free_nothing 16 32 64 6); [reflexivity|lia]. Defined.
