(* ===== verification/Buffer.v ===== *)
(** * The buffer cache: fs/buffer_head.c

    Buffer heads are in a hash table by device and block, and all of them in a ring, the free list.  The
    disk driver and [sleep_on] are parameters; [turns] bounds how often a task sleeps and tries again. *)

From S2P Require Export Buddy Wait.

(** struct buffer_head *)
Definition b_data : Z := 0.
Definition b_blocknr : Z := 4.
Definition b_dev : Z := 8.
Definition b_uptodate : Z := 10.
Definition b_dirt : Z := 11.
Definition b_count : Z := 12.
Definition b_lock : Z := 13.
Definition b_wait : Z := 16.
Definition b_prev : Z := 20.
Definition b_next : Z := 24.
Definition b_prev_free : Z := 28.
Definition b_next_free : Z := 32.
Definition sizeof_buffer_head : Z := 36.

Definition NR_HASH_BUFFER : Z := 107.
Definition BUFFER_HEAD_PAGE : Z := 8.
Definition SECTOR_SIZE : Z := 512.
Definition ATA_READ : Z := 0x20.

Definition _hashfn (dev block : Z) : Z := u32 (Z.lxor dev block) mod NR_HASH_BUFFER.

Section buffers.
(** The variables [hash_buffer], [buffer_free_list] and [buffer_wait]. *)
Context (hash_buffer buffer_free_list buffer_wait : Z).

(** [&hash(dev,block)] *)
Definition hash (dev block : Z) : Z := hash_buffer + 4 * _hashfn dev block.

Definition remove_from_queues (bh : Z) : M unit :=
  n ← load (bh + b_next);
  (if negb (n =? NULL) then n ← load (bh + b_next); p ← load (bh + b_prev); store (n + b_prev) p else mret tt);;
  p ← load (bh + b_prev);
  (if negb (p =? NULL) then p ← load (bh + b_prev); n ← load (bh + b_next); store (p + b_next) n else mret tt);;
  dev ← load (bh + b_dev);
  block ← load (bh + b_blocknr);
  h ← load (hash dev block);
  (if h =? bh then
     dev ← load (bh + b_dev);
     block ← load (bh + b_blocknr);
     n ← load (bh + b_next);
     store (hash dev block) n
   else mret tt);;
  p ← load (bh + b_prev_free);
  ok ← (if p =? NULL then mret false else n ← load (bh + b_next_free); mret (negb (n =? NULL)));
  (if negb ok then panic else mret tt);;
  p ← load (bh + b_prev_free);
  n ← load (bh + b_next_free);
  store (p + b_next_free) n;;
  n ← load (bh + b_next_free);
  p ← load (bh + b_prev_free);
  store (n + b_prev_free) p;;
  f ← load buffer_free_list;
  if f =? bh then n ← load (bh + b_next_free); store buffer_free_list n else mret tt.

Definition insert_into_queues (bh : Z) : M unit :=
  f ← load buffer_free_list;
  store (bh + b_next_free) f;;
  f ← load buffer_free_list;
  n ← load (f + b_next_free);
  store (bh + b_prev_free) n;;
  f ← load buffer_free_list;
  p ← load (f + b_prev_free);
  store (p + b_next_free) bh;;
  store (bh + b_prev) NULL;;
  store (bh + b_next) NULL;;
  dev ← load (bh + b_dev);
  if dev =? 0 then mret tt else
  dev ← load (bh + b_dev);
  block ← load (bh + b_blocknr);
  h ← load (hash dev block);
  store (bh + b_next) h;;
  dev ← load (bh + b_dev);
  block ← load (bh + b_blocknr);
  store (hash dev block) bh;;
  n ← load (bh + b_next);
  store (n + b_prev) bh.

Definition find_buffer (dev block : Z) : M Z :=
  bh ← load (hash dev block);
  loop (λ bh,
    if negb (bh =? NULL) then
      d ← load (bh + b_dev);
      same ← (if d =? dev then b ← load (bh + b_blocknr); mret (b =? u32 block) else mret false);
      if same : bool then mret (inr bh)
      else n ← load (bh + b_next); mret (inl n)
    else mret (inr NULL)) bh.

Section sleeping.
(** [sleep_on], and [hd_rw(dev, block, 1, command, bh)]. *)
Context (sleep_on : Z → M unit) (hd_rw : Z → Z → Z → Z → M unit) (turns : nat).

Definition wait_on_buffer (bh : Z) : M unit :=
  run (S turns) (λ _ : unit,
    l ← load (bh + b_lock);
    if negb (l =? 0) then sleep_on (bh + b_wait);; mret (inl tt) else mret (inr tt)) tt.

Definition lock_buffer (bh : Z) : M unit :=
  wait_on_buffer bh;;
  store (bh + b_lock) 1.

Definition unlock_buffer (bh : Z) : M unit :=
  l ← load (bh + b_lock);
  if l =? 0 then panic else
  store (bh + b_lock) 0;;
  wake_up (bh + b_wait).

Definition get_hash_buffer (dev block : Z) : M Z :=
  run (S turns) (λ _ : unit,
    bh ← find_buffer dev block;
    if bh =? NULL then mret (inr NULL) else
    c ← load (bh + b_count);
    store (bh + b_count) (u8 (c + 1));;
    wait_on_buffer bh;;
    d ← load (bh + b_dev);
    b ← load (bh + b_blocknr);
    if (d =? dev) && (b =? u32 block) then mret (inr bh)
    else c ← load (bh + b_count); store (bh + b_count) (u8 (c - 1));; mret (inl tt)) tt.

Definition BADNESS (bh : Z) : M Z :=
  d ← load (bh + b_dirt);
  b ← load (bh + b_blocknr);
  mret (u32 (Z.shiftl d 1 + b)).

(** The choice of a buffer from the free list: the first of those with the least badness that nobody
    uses, NULL when all are in use. *)
Definition choose_buffer : M Z :=
  item ← load buffer_free_list;
  loop (λ '(item, bh),
    c ← load (item + b_count);
    '(bh, stop) ← (if negb (c =? 0) then mret (bh, false) else
      better ← (if bh =? NULL then mret true else x ← BADNESS bh; y ← BADNESS item; mret (x >? y));
      if better : bool then b ← BADNESS item; mret (item, b =? 0) else mret (bh, false));
    if stop : bool then mret (inr bh) else
    item ← load (item + b_next_free);
    f ← load buffer_free_list;
    if negb (item =? f) then mret (inl (item, bh)) else mret (inr bh)) (item, NULL).

Definition getblk (dev block : Z) : M Z :=
  run (S turns) (λ _ : unit,
    bh ← get_hash_buffer dev block;
    if negb (bh =? NULL) then mret (inr bh) else
    bh ← choose_buffer;
    if bh =? NULL then sleep_on buffer_wait;; mret (inl tt) else
    wait_on_buffer bh;;
    c ← load (bh + b_count);
    if negb (c =? 0) then mret (inl tt) else
    found ← find_buffer dev block;
    if negb (found =? NULL) then mret (inl tt) else
    store (bh + b_count) 1;;
    store (bh + b_dirt) 0;;
    store (bh + b_uptodate) 0;;
    remove_from_queues bh;;
    store (bh + b_dev) (u16 dev);;
    store (bh + b_blocknr) (u32 block);;
    insert_into_queues bh;;
    mret (inr bh)) tt.

Definition brelse (bh : Z) : M unit :=
  if bh =? NULL then mret tt else
  wait_on_buffer bh;;
  c ← load (bh + b_count);
  store (bh + b_count) (u8 (c - 1));;
  if c =? 0 then panic else mret tt.

Definition bread (dev block_nr : Z) : M Z :=
  bh ← getblk dev block_nr;
  if bh =? NULL then panic else
  u ← load (bh + b_uptodate);
  if negb (u =? 0) then mret bh else
  hd_rw dev block_nr ATA_READ bh;;
  wait_on_buffer bh;;
  u ← load (bh + b_uptodate);
  if negb (u =? 0) then mret bh else
  brelse bh;; mret NULL.
End sleeping.

(** [for(i = 0; i < NR_HASH_BUFFER; i++) hash_buffer[i] = NULL] *)
Fixpoint clear_hash (i : Z) (n : nat) : M unit :=
  match n with O => mret tt | S n => store (hash_buffer + 4 * i) NULL;; clear_hash (i + 1) n end.

(** The loop of [buffer_init]; the state is [bh], [b] and [NR_BUFFERS]. *)
Definition buffer_init_step (s : Z * Z * Z) : M (Z * Z * Z + Z * Z) :=
  let '(bh, b, n) := s in
  let b := b - SECTOR_SIZE in
  if b >=? bh + sizeof_buffer_head then
    store (bh + b_dev) 0;;
    store (bh + b_dirt) 0;;
    store (bh + b_count) 0;;
    store (bh + b_lock) 0;;
    store (bh + b_uptodate) 0;;
    store (bh + b_wait) NULL;;
    store (bh + b_prev) NULL;;
    store (bh + b_next) NULL;;
    store (bh + b_data) b;;
    store (bh + b_prev_free) (bh - sizeof_buffer_head);;
    store (bh + b_next_free) (bh + sizeof_buffer_head);;
    mret (inl (bh + sizeof_buffer_head, b, n + 1))
  else mret (inr (bh, n)).

Definition buffer_init (buddy_list NR_BUFFERS : Z) : M unit :=
  start_buffer ← get_free_pages buddy_list BUFFER_HEAD_PAGE;
  let end_buffer := start_buffer + power BUFFER_HEAD_PAGE * PAGE_SIZE in
  n0 ← load NR_BUFFERS;
  '(bh, n) ← loop buffer_init_step (start_buffer, end_buffer, n0);
  store NR_BUFFERS n;;
  let bh := bh - sizeof_buffer_head in
  store buffer_free_list start_buffer;;
  f ← load buffer_free_list;
  store (f + b_prev_free) bh;;
  f ← load buffer_free_list;
  store (bh + b_next_free) f;;
  clear_hash 0 (Z.to_nat NR_HASH_BUFFER).
End buffers.
