(* ===== verification/BufferSpec.v ===== *)
(** * Finding buffers *)

From S2P Require Export Buffer.

(** A hash queue of buffers [(bh, dev, block)]. *)
Fixpoint hqueue (q : Z) (xs : list (Z * Z * Z)) : heapProp :=
  match xs with
  | [] => ⌜q = NULL⌝
  | (bh, d, b) :: xs =>
      ⌜q = bh ∧ bh ≠ NULL⌝ ∗ (bh + b_dev) ↦ d ∗ (bh + b_blocknr) ↦ b ∗ ∃ n, (bh + b_next) ↦ n ∗ hqueue n xs
  end.

Definition holds (dev block : Z) (x : Z * Z * Z) : bool := (x.1.2 =? dev) && (x.2 =? u32 block).

(** The first buffer of the queue with the block, NULL when there is none. *)
Definition cached (dev block : Z) (xs : list (Z * Z * Z)) : Z :=
  from_option (λ x, x.1.1) NULL (head (filter (holds dev block) xs)).

Lemma hqueue_cons q bh d b xs : hqueue q ((bh, d, b) :: xs) ⊣⊢
  ⌜q = bh ∧ bh ≠ NULL⌝ ∗ (bh + b_dev) ↦ d ∗ (bh + b_blocknr) ↦ b ∗ ∃ n, (bh + b_next) ↦ n ∗ hqueue n xs.
Proof. done. Qed.

Lemma hqueue_cells q xs : hqueue q xs ⊢ cells (length xs).
Proof.
  revert q. induction xs as [|[[bh d] b] xs IH]; intros q; [iIntros "_"; iApply cells_0|]. rw hqueue_cons.
  iIntros "(_ & H1 & _ & %n & _ & H2)". rw IH pt_cells. iApply (cells_add with "H1 H2").
Qed.

Section find.
Context (hash_buffer : Z).

(** The loop, from a buffer on. *)
Lemma find_buffer_wp dev block q xs Q :
  hash hash_buffer dev block ↦ q -∗ hqueue q xs -∗
  (hash hash_buffer dev block ↦ q -∗ hqueue q xs -∗ Q (cached dev block xs)) -∗
  wp (find_buffer hash_buffer dev block) Q.
Proof.
  iIntros "Hh H HQ". unfold find_buffer. wp_load.
  iApply (wp_wand _ (λ r, ⌜r = cached dev block xs⌝ ∗ hqueue q xs)%I with "[H]");
    [|iIntros (r) "[-> H]"; iApply ("HQ" with "Hh H")].
  iApply (wp_loop _ (λ (n : nat) (p : Z), ∃ ys, ⌜n = length ys ∧ cached dev block ys = cached dev block xs⌝ ∗
    hqueue p ys ∗ (hqueue p ys -∗ hqueue q xs))%I _ (length xs)); last first.
  { iExists xs. iFrame. auto. }
  - intros n p. iIntros "(%ys & (-> & %Hc) & H & Hw)". destruct ys as [|[[bh d] b] ys].
    + iDestruct "H" as %->. change (NULL =? NULL) with true. wp_pures. iSplit; [done|]. by iApply "Hw".
    + rw hqueue_cons. iDestruct "H" as "((-> & %Hbh) & Hd & Hb & %n & Hn & H)".
      rw (proj2 (Z.eqb_neq _ _) Hbh). wp_load. iApply wp_bind.
      iApply (wp_wand _ (λ r, ⌜r = holds dev block (bh, d, b)⌝ ∗ (bh + b_blocknr) ↦ b)%I with "[Hb]").
      { unfold holds; cbn [fst snd]. destruct (d =? dev); [wp_load|wp_pures]; by iFrame. }
      iIntros (r) "[-> Hb]". destruct (holds dev block (bh, d, b)) eqn:Hh.
      * wp_pures. iSplit; [iPureIntro; rw -Hc; unfold cached; (rw filter_cons_True; [done|by apply Is_true_true])|]. iApply "Hw". iFrame. done.
      * wp_load. iExists (length ys). iSplit; [iPureIntro; simpl; lia|]. iExists ys. iFrame "H".
        iSplit; [iPureIntro; split; [done|]; rw -Hc; unfold cached; (rw filter_cons_False; [done|by apply Is_true_false])|].
        iIntros "H". iApply "Hw". iFrame. done.
  - iIntros "(%ys & (%Hn & _) & H & _)". rw hqueue_cells. by rw -Hn.
Qed.

Lemma hqueue_cached dev block q xs : cached dev block xs ≠ NULL → hqueue q xs ⊢
  (cached dev block xs + b_dev) ↦ dev ∗ (cached dev block xs + b_blocknr) ↦ u32 block ∗
  ((cached dev block xs + b_dev) ↦ dev -∗ (cached dev block xs + b_blocknr) ↦ u32 block -∗ hqueue q xs).
Proof.
  revert q. induction xs as [|[[bh d] b] xs IH]; intros q Hc; [done|]. rw hqueue_cons.
  iIntros "((-> & %Hbh) & Hd & Hb & %n & Hn & H)". destruct (holds dev block (bh, d, b)) eqn:Hh.
  - rw (_ : cached dev block ((bh, d, b) :: xs) = bh); [|unfold cached; rw filter_cons_True; [done|by apply Is_true_true]].
    unfold holds in Hh. cbn [fst snd] in Hh. apply andb_true_iff in Hh as [->%Z.eqb_eq ->%Z.eqb_eq]. iFrame "Hd Hb".
    iIntros "Hd Hb". iFrame. done.
  - rw (_ : cached dev block ((bh, d, b) :: xs) = cached dev block xs) in Hc |- *;
      [|unfold cached; rw filter_cons_False; [done|by apply Is_true_false]].
    iDestruct (IH with "H") as "($ & $ & H)"; [done|]. iIntros "H1 H2". iSplit; [done|]. iFrame "Hd Hb".
    iExists n. iFrame "Hn". iApply ("H" with "H1 H2").
Qed.

(** A block that is in the cache, in a buffer that is not locked, is found there: [getblk] returns its
    buffer with one user more, without sleeping, and changes nothing else. *)
Theorem getblk_hit buffer_free_list buffer_wait sleep_on turns dev block q xs c :
  {{ ⌜cached dev block xs ≠ NULL⌝ ∗ hash hash_buffer dev block ↦ q ∗ hqueue q xs ∗
     (cached dev block xs + b_count) ↦ c ∗ (cached dev block xs + b_lock) ↦ 0 }}
    getblk hash_buffer buffer_free_list buffer_wait sleep_on turns dev block
  {{ r, ⌜r = cached dev block xs⌝ ∗ hash hash_buffer dev block ↦ q ∗ hqueue q xs ∗
        (cached dev block xs + b_count) ↦ u8 (c + 1) ∗ (cached dev block xs + b_lock) ↦ 0 }}.
Proof.
  apply triple_wp. iIntros "(%Hc & Hh & H & Hcnt & Hl)". unfold getblk. cbn [run]. wp_pures.
  unfold get_hash_buffer. cbn [run]. wp_pures. iApply wp_bind. iApply (find_buffer_wp with "Hh H"). iIntros "Hh H".
  rw (proj2 (Z.eqb_neq _ _) Hc). wp_load. wp_store. unfold wait_on_buffer. cbn [run]. wp_load.
  iDestruct (hqueue_cached with "H") as "(Hd & Hb & H)"; [done|]. wp_load. wp_load.
  wp_pures. rw (proj2 (Z.eqb_neq _ _) Hc). wp_pures. iSplit; [done|]. iFrame. iApply ("H" with "Hd Hb").
Qed.
End find.

(** ** Choosing a buffer *)

(** A buffer of the free list: its address, users, dirt and block. *)
Record bufd := Bufd { bd_addr : Z; bd_count : Z; bd_dirt : Z; bd_block : Z }.

Definition badness (x : bufd) : Z := u32 (Z.shiftl (bd_dirt x) 1 + bd_block x).

Definition buf_at (x : bufd) : heapProp :=
  (⌜bd_addr x ≠ NULL⌝ ∗ (bd_addr x + b_count) ↦ bd_count x ∗ (bd_addr x + b_dirt) ↦ bd_dirt x ∗
   (bd_addr x + b_blocknr) ↦ bd_block x)%I.

(** The ring of the buffers [xs] by [b_next_free]; the last one points to [first]. *)
Definition free_ring (first : Z) (xs : list bufd) : heapProp :=
  ([∗ list] i ↦ x ∈ xs, buf_at x ∗ (bd_addr x + b_next_free) ↦ from_option bd_addr first (xs !! S i))%I.

(** [r] is an unused buffer of [xs] with the least badness, or NULL when all are in use. *)
Definition best (xs : list bufd) (r : Z) : Prop :=
  (r = NULL ∧ ∀ x, x ∈ xs → bd_count x ≠ 0) ∨
  ∃ x, x ∈ xs ∧ r = bd_addr x ∧ bd_count x = 0 ∧ r ≠ NULL ∧
       ∀ y, y ∈ xs → bd_count y = 0 → badness x ≤ badness y.

Lemma best_used xs x r : best xs r → bd_count x ≠ 0 → best (xs ++ [x]) r.
Proof.
  intros [[-> H]|(y & Hy & -> & Hc & Hn & H)] Hx; [left; split; [done|]|right; exists y; split_and!; try done; [set_solver|]];
    intros z [Hz| ->%list_elem_of_singleton]%elem_of_app; auto; congruence.
Qed.

Lemma best_worse xs x y : y ∈ xs → bd_count y = 0 → bd_addr y ≠ NULL →
  (∀ z, z ∈ xs → bd_count z = 0 → badness y ≤ badness z) → badness y ≤ badness x → best (xs ++ [x]) (bd_addr y).
Proof.
  intros Hy Hc Hn H Hx. right. exists y. split_and!; try done; [set_solver|].
  intros z [Hz| ->%list_elem_of_singleton]%elem_of_app Hz0; auto.
Qed.

Lemma best_better xs x : bd_count x = 0 → bd_addr x ≠ NULL →
  (∀ y, y ∈ xs → bd_count y = 0 → badness x ≤ badness y) → best (xs ++ [x]) (bd_addr x).
Proof.
  intros Hc Hn H. right. exists x. split_and!; try done; [set_solver|].
  intros z [Hz| ->%list_elem_of_singleton]%elem_of_app Hz0; [auto|lia].
Qed.

(** A buffer of badness 0 is the best of any list with it. *)
Lemma best_zero xs x : x ∈ xs → bd_count x = 0 → bd_addr x ≠ NULL → badness x = 0 → best xs (bd_addr x).
Proof. intros Hx Hc Hn Hb. right. exists x. split_and!; try done. intros y _ _. rw Hb. apply u32_range. Qed.

Lemma free_ring_cells f xs : free_ring f xs ⊢ cells (length xs).
Proof.
  unfold free_ring. generalize (λ i, from_option bd_addr f (xs !! S i)). intros g.
  iIntros "H". iStopProof. revert g. induction xs as [|x xs IH]; intros g; [iIntros "_"; iApply cells_0|].
  rw big_sepL_cons. iIntros "[[_ H1] H2]". iDestruct (IH (λ i, g (S i)) with "H2") as "H2". rw pt_cells.
  iApply (cells_add with "H1 H2").
Qed.

Section choose.
Context (buffer_free_list : Z).

Lemma BADNESS_wp f xs x Q : x ∈ xs →
  free_ring f xs -∗ (free_ring f xs -∗ Q (badness x)) -∗ wp (BADNESS (bd_addr x)) Q.
Proof.
  intros [i Hi]%list_elem_of_lookup. iIntros "H HQ".
  iDestruct (big_sepL_lookup_acc _ _ i x with "H") as "[((%Hn & Hc & Hd & Hb) & Hx) H]"; [done|].
  unfold BADNESS. wp_load. wp_load. iApply "HQ". iApply "H". by iFrame.
Qed.

Lemma lookup_after {A} (xs ys : list A) y zs : xs = ys ++ y :: zs → xs !! S (length ys) = head zs.
Proof. intros ->. induction ys as [|a ys IH]; [by destruct zs|exact IH]. Qed.

(** No buffer is twice in the ring. *)
Lemma free_ring_head_ne f x ys z zs : free_ring f (x :: ys ++ z :: zs) ⊢ ⌜bd_addr z ≠ bd_addr x⌝.
Proof.
  iIntros "H". unfold free_ring. rw big_sepL_cons big_sepL_app big_sepL_cons.
  iDestruct "H" as "((_ & H1) & _ & (_ & H2) & _)". iDestruct (pt_ne with "H2 H1") as %Hne. iPureIntro. lia.
Qed.

(** One turn of the loop on the buffer [x] that follows the buffers [ys]. *)
Lemma choose_step f xs ys x zs bh (Q : Z * bool → heapProp) : xs = ys ++ x :: zs → best ys bh →
  free_ring f xs -∗
  (∀ r (stop : bool), ⌜if stop then best xs r else best (ys ++ [x]) r⌝ -∗ free_ring f xs -∗ Q (r, stop)) -∗
  wp (c ← load (bd_addr x + b_count);
      if negb (c =? 0) then mret (bh, false) else
      better ← (if bh =? NULL then mret true else a ← BADNESS bh; b ← BADNESS (bd_addr x); mret (a >? b));
      if better : bool then b ← BADNESS (bd_addr x); mret (bd_addr x, b =? 0) else mret (bh, false)) Q.
Proof.
  intros Hxs Hb. assert (x ∈ xs) as Hx by (subst xs; set_solver). iIntros "H HQ".
  pose proof Hx as [i Hi]%list_elem_of_lookup.
  iDestruct (big_sepL_lookup_acc _ _ i x with "H") as "[((%Hn & Hc & Hd & Hk) & Hl) H]"; [done|].
  wp_load. iDestruct ("H" with "[$Hc $Hd $Hk $Hl]") as "H"; [done|].
  destruct (bd_count x =? 0) eqn:Hc; wp_pures; last first.
  { iApply ("HQ" with "[%] H"). apply best_used; [done|]. by apply Z.eqb_neq. }
  apply Z.eqb_eq in Hc. iApply wp_bind.
  iApply (wp_wand _ (λ better : bool, ⌜if better then ∀ y, y ∈ ys → bd_count y = 0 → badness x ≤ badness y
    else best (ys ++ [x]) bh⌝ ∗ free_ring f xs)%I with "[H]").
  - destruct Hb as [[-> Hb]|(y & Hy & -> & Hyc & Hyn & Hb)].
    + change (NULL =? NULL) with true. wp_pures. iFrame. iPureIntro. intros y Hy Hy0. by destruct (Hb y Hy).
    + rw (proj2 (Z.eqb_neq _ _) Hyn). wp_focus. iApply (BADNESS_wp _ xs y with "H"); [subst xs; apply elem_of_app; by left|].
      iIntros "H". wp_focus. iApply (BADNESS_wp _ xs x with "H"); [done|]. iIntros "H". wp_pures. iFrame. iPureIntro.
      destruct (badness y >? badness x) eqn:Hg.
      * apply Z.gtb_lt in Hg. intros z Hz Hz0. specialize (Hb z Hz Hz0). lia.
      * rw Z.gtb_ltb in Hg. apply Z.ltb_ge in Hg. by apply best_worse.
  - iIntros ([]) "[%H1 H]".
    + wp_focus. iApply (BADNESS_wp _ xs x with "H"); [done|]. iIntros "H". wp_pures. iApply ("HQ" with "[%] H").
      destruct (badness x =? 0) eqn:H0; [apply best_zero; try done; by apply Z.eqb_eq|by apply best_better].
    + wp_pures. by iApply ("HQ" with "[%] H").
Qed.

(** From a free list that is a ring, [getblk] chooses a buffer that nobody uses and whose badness
    (dirty, then the block number) is the least among those; it chooses none exactly when all are in use. *)
Theorem choose_buffer_correct x xs :
  {{ buffer_free_list ↦ bd_addr x ∗ free_ring (bd_addr x) (x :: xs) }}
    choose_buffer buffer_free_list
  {{ r, ⌜best (x :: xs) r⌝ ∗ buffer_free_list ↦ bd_addr x ∗ free_ring (bd_addr x) (x :: xs) }}.
Proof.
  apply triple_wp. iIntros "[Hf H]". unfold choose_buffer. wp_load.
  iApply (wp_loop _ (λ n '(item, bh), ∃ ys y zs, ⌜x :: xs = ys ++ y :: zs ∧ n = length zs ∧ item = bd_addr y ∧ best ys bh⌝ ∗
    buffer_free_list ↦ bd_addr x ∗ free_ring (bd_addr x) (x :: xs))%I _ (length xs)); last first.
  { iExists [], x, xs. iFrame. iPureIntro. split_and!; try done. left. split; [done|]. by intros ? ?%elem_of_nil. }
  - intros n [item bh]. iIntros "(%ys & %y & %zs & (%Hxs & -> & -> & %Hb) & Hf & H)".
    iApply wp_assoc. iApply wp_bind. iApply (choose_step _ (x :: xs) ys y zs with "H"); [done..|].
    iIntros (r stop) "%Hr H". destruct stop; [wp_pures; by iFrame|].
    assert (length ys < length (x :: xs))%nat as Hl by (rw Hxs length_app; simpl; lia).
    iDestruct (big_sepL_lookup_acc _ _ (length ys) y with "H") as "[[Hy Hn] H]"; [by rw Hxs list_lookup_middle|].
    wp_load. iDestruct ("H" with "[$Hy $Hn]") as "H". wp_load.
    rw (lookup_after _ _ _ _ Hxs).
    destruct zs as [|z zs]; simpl.
    + wp_pures. iFrame. by rw Hxs.
    + iAssert ⌜bd_addr z ≠ bd_addr x⌝%I as %Hne.
      { destruct ys as [|a ys]; simpl in Hxs; injection Hxs as -> ->; [iApply (free_ring_head_ne _ _ [] with "H")|].
        rw cons_middle app_assoc. iApply (free_ring_head_ne with "H"). }
      rw (proj2 (Z.eqb_neq _ _) Hne). wp_pures. iExists (length zs). iSplit; [iPureIntro; lia|].
      iExists (ys ++ [y]), z, zs. iFrame. iPureIntro. rw Hxs -app_assoc. done.
  - iIntros "(%ys & %y & %zs & (%Hxs & %Hn & _) & _ & H)". rw free_ring_cells. iApply (cells_le with "H"). simpl. lia.
Qed.
End choose.

(** ** Moving a buffer to another queue

    [insert_into_queues] closes the ring forwards, but it leaves [b_prev_free] of the first buffer as it
    was: the next buffer that is put at the end goes there too, and the one before it is lost. *)
Definition two_inserts (hash_buffer buffer_free_list a b : Z) : M Z :=
  insert_into_queues hash_buffer buffer_free_list a;;
  insert_into_queues hash_buffer buffer_free_list b;;
  f ← load buffer_free_list;
  l ← load (f + b_next_free);
  load (l + b_next_free).

Theorem insert_into_queues_loses hash_buffer buffer_free_list f l a b w1 w2 w3 w4 w5 w6 w7 w8 v :
  {{ buffer_free_list ↦ f ∗ (f + b_next_free) ↦ l ∗ (f + b_prev_free) ↦ l ∗ (l + b_next_free) ↦ v ∗
     (a + b_next_free) ↦ w1 ∗ (a + b_prev_free) ↦ w2 ∗ (a + b_prev) ↦ w3 ∗ (a + b_next) ↦ w4 ∗ (a + b_dev) ↦ 0 ∗
     (b + b_next_free) ↦ w5 ∗ (b + b_prev_free) ↦ w6 ∗ (b + b_prev) ↦ w7 ∗ (b + b_next) ↦ w8 ∗ (b + b_dev) ↦ 0 }}
    two_inserts hash_buffer buffer_free_list a b
  {{ r, ⌜r = b⌝ ∗ buffer_free_list ↦ f ∗ (f + b_next_free) ↦ l ∗ (l + b_next_free) ↦ b ∗ (b + b_next_free) ↦ f }}.
Proof.
  apply triple_wp. iIntros "(Hf & H1 & H2 & H3 & Ha1 & Ha2 & Ha3 & Ha4 & Ha5 & Hb1 & Hb2 & Hb3 & Hb4 & Hb5)".
  unfold two_inserts, insert_into_queues.
  do 2 (wp_load; wp_store; wp_load; wp_load; wp_store; wp_load; wp_load; wp_store; wp_store; wp_store; wp_load).
  wp_load. wp_load. wp_load. by iFrame.
Qed.

