(* ===== verification/Hd.v ===== *)
(** * The hard disk driver: kernel/hd.c

    The ports of the drive are parameters: [in_byte] and [out_byte], and [in_word] and [out_word] for one
    word of [rep insw] and [rep outsw]; so is the system call [get_ticks].  [polls] bounds how often the
    status is read before the clock reaches the time limit. *)

From S2P Require Export Buffer CStringSpec.

(** struct hd_cmd *)
Definition hc_features : Z := 0.
Definition hc_count : Z := 1.
Definition hc_lba_low : Z := 2.
Definition hc_lba_mid : Z := 3.
Definition hc_lba_high : Z := 4.
Definition hc_device : Z := 5.
Definition hc_command : Z := 6.
Definition hc_buffer : Z := 7.

(** struct partition_table: the members the driver reads *)
Definition pt_system_id : Z := 4.
Definition pt_start_sector_lba : Z := 8.
Definition pt_nr_sectors : Z := 12.
Definition sizeof_partition_table : Z := 16.

(** struct hard_disk_info, whose partitions are pairs of [start_sector] and [total_sectors] *)
Definition hi_open_cnt : Z := 0.
Definition hi_primary (i : Z) : Z := 4 + 8 * i.
Definition hi_logical (i : Z) : Z := 44 + 8 * i.
Definition sizeof_hard_disk_info : Z := 556.
Definition start_sector : Z := 0.
Definition total_sectors : Z := 4.

Definition HD_TIMEOUT : Z := 10000.
Definition REG_DEV_CTL : Z := 0x3f6.
Definition REG_DATA : Z := 0x1f0.
Definition REG_FEATURES : Z := 0x1f1.
Definition REG_NSECTOR : Z := 0x1f2.
Definition REG_LBA_LOW : Z := 0x1f3.
Definition REG_LBA_MID : Z := 0x1f4.
Definition REG_LBA_HIGH : Z := 0x1f5.
Definition REG_DEVICE : Z := 0x1f6.
Definition REG_STATUS : Z := 0x1f7.
Definition REG_COMMAND : Z := REG_STATUS.
Definition ATA_IDENTIFY : Z := 0xec.
Definition ATA_WRITE : Z := 0x30.
Definition NR_PART_PER_DRIVE : Z := 4.
Definition NR_PRIM_PER_DRIVE : Z := NR_PART_PER_DRIVE + 1.
Definition NR_LOG_PER_PART : Z := 16.
Definition NR_LOG_PER_DRIVE : Z := NR_LOG_PER_PART * NR_PART_PER_DRIVE.
Definition MAX_PRIMARY : Z := 1 * NR_PRIM_PER_DRIVE - 1.
Definition P_PRIMARY : Z := 0.
Definition P_EXTENDED : Z := 1.
Definition UNUSED_PART : Z := 0.
Definition EXTENDED_PART : Z := 5.
Definition PARTITION_TABLE_OFFSET : Z := 0x1BE.
Definition MINOR_hd1a : Z := 0x10.
Definition MINOR (x : Z) : Z := Z.land x 0xff.
Definition MAKE_DEV (a b : Z) : Z := Z.lor (Z.shiftl a 8) b.
Definition ROOT_DEV : Z := MAKE_DEV 3 MINOR_hd1a.
Definition HZ : Z := 100.

Definition DRV_OF_DEV (dev : Z) : Z :=
  if dev <=? MAX_PRIMARY then Z.quot dev NR_PRIM_PER_DRIVE
  else Z.quot (dev - MINOR_hd1a) NR_LOG_PER_DRIVE.

Definition MAKE_DEVICE_REG (lba drive lba_highest : Z) : Z :=
  Z.lor (Z.lor (Z.lor (Z.shiftl lba 6) (Z.shiftl drive 4)) (Z.land lba_highest 0xf)) 0xA0.

Section hd.
Context (in_byte in_word : Z → M Z) (out_byte out_word : Z → Z → M unit) (get_ticks : M Z) (polls : nat).
(** The address of the array [hd_info]. *)
Context (hd_info : Z).

(** [rep insw]: [nr] words go to the buffer. *)
Fixpoint port_read (port buf : Z) (nr : nat) : M unit :=
  match nr with
  | O => mret tt
  | S nr =>
      w ← in_word port;
      store buf (Z.land w 0xff);;
      store (buf + 1) (Z.land (Z.shiftr w 8) 0xff);;
      port_read port (buf + 2) nr
  end.

(** [rep outsw] *)
Fixpoint port_write (port buf : Z) (nr : nat) : M unit :=
  match nr with
  | O => mret tt
  | S nr =>
      l ← load buf;
      h ← load (buf + 1);
      out_word port (Z.lor (Z.land l 0xff) (Z.shiftl (Z.land h 0xff) 8));;
      port_write port (buf + 2) nr
  end.

Definition is_hd_status (timeout : Z) : M Z :=
  t ← get_ticks;
  run (S polls) (λ _ : unit,
    now ← get_ticks;
    if Z.quot (s32 (s32 (now - t) * 1000)) HZ <? timeout then
      s ← in_byte REG_STATUS;
      if Z.land s 0x80 =? 0 then mret (inr 1) else mret (inl tt)
    else mret (inr 0)) tt.

Definition read_intr (buffer : Z) : M Z :=
  ready ← is_hd_status HD_TIMEOUT;
  if ready =? 0 then mret (-1) else
  port_read REG_DATA buffer (Z.to_nat SECTOR_SIZE);;
  mret 0.

Definition write_intr (buffer : Z) : M Z :=
  ready ← is_hd_status HD_TIMEOUT;
  if ready =? 0 then mret (-1) else
  port_write REG_DATA buffer (Z.to_nat SECTOR_SIZE);;
  mret 0.

Definition hd_cmd_out (cmd : Z) : M unit :=
  out_byte REG_DEV_CTL 0;;
  v ← load (cmd + hc_features);
  out_byte REG_FEATURES v;;
  v ← load (cmd + hc_count);
  out_byte REG_NSECTOR v;;
  v ← load (cmd + hc_lba_low);
  out_byte REG_LBA_LOW v;;
  v ← load (cmd + hc_lba_mid);
  out_byte REG_LBA_MID v;;
  v ← load (cmd + hc_lba_high);
  out_byte REG_LBA_HIGH v;;
  v ← load (cmd + hc_device);
  out_byte REG_DEVICE v;;
  v ← load (cmd + hc_command);
  out_byte REG_COMMAND v.

(** The arguments are of type [u8]. *)
Definition make_cmd (cmd features count lba_low lba_mid lba_high device command : Z) : M Z :=
  store (cmd + hc_features) (u8 features);;
  store (cmd + hc_count) (u8 count);;
  store (cmd + hc_lba_low) (u8 lba_low);;
  store (cmd + hc_lba_mid) (u8 lba_mid);;
  store (cmd + hc_lba_high) (u8 lba_high);;
  store (cmd + hc_device) (u8 device);;
  store (cmd + hc_command) (u8 command);;
  mret cmd.

Definition make_rw_cmd (cmd drive start_sect nr_sects flag : Z) : M unit :=
  let device := MAKE_DEVICE_REG 1 drive (Z.land (Z.shiftr start_sect 24) 0xF) in
  let lba_low := Z.land start_sect 0xff in
  let lba_mid := Z.land (Z.shiftr start_sect 8) 0xff in
  let lba_high := Z.land (Z.shiftr start_sect 16) 0xff in
  make_cmd cmd 0 nr_sects lba_low lba_mid lba_high device flag;;
  mret tt.

(** lib/stringa.asm *)
Fixpoint memcpy (dst src : Z) (n : nat) : M unit :=
  match n with
  | O => mret tt
  | S n => c ← load src; store dst c;; memcpy (dst + 1) (src + 1) n
  end.

(** A [u16] and a [u32] read from a buffer of bytes. *)
Definition load16 (p : Z) : M Z :=
  a ← load p; b ← load (p + 1);
  mret (Z.lor (Z.land a 0xff) (Z.shiftl (Z.land b 0xff) 8)).
Definition load32 (p : Z) : M Z :=
  a ← load16 p; b ← load16 (p + 2);
  mret (Z.lor a (Z.shiftl b 16)).

Definition hd_identify (cmd drive : Z) : M unit :=
  make_cmd cmd 0 0 0 0 0 (MAKE_DEVICE_REG 0 drive 0) ATA_IDENTIFY;;
  hd_cmd_out cmd;;
  read_intr (cmd + hc_buffer);;
  let hdinfo := cmd + hc_buffer in
  store (hd_info + sizeof_hard_disk_info * drive + hi_primary 0 + start_sector) 0;;
  a ← load16 (hdinfo + 2 * 61);
  b ← load16 (hdinfo + 2 * 60);
  store (hd_info + sizeof_hard_disk_info * drive + hi_primary 0 + total_sectors) (u32 (Z.shiftl a 16 + b)).

(** [cmd] is the local command block. *)
Definition get_partition_table (cmd drive start_sect entry : Z) : M unit :=
  make_rw_cmd cmd drive start_sect 1 ATA_READ;;
  hd_cmd_out cmd;;
  r ← read_intr (cmd + hc_buffer);
  if r =? 0 then
    memcpy entry (cmd + hc_buffer + PARTITION_TABLE_OFFSET)
      (Z.to_nat (sizeof_partition_table * NR_PART_PER_DRIVE))
  else mret tt.

(** The branch [P_EXTENDED]; [cmd] and [part_tbl] are the local variables of the calls. *)
Definition partition_extended (cmd part_tbl device : Z) : M unit :=
  let drive := DRV_OF_DEV device in
  let hdi := hd_info + sizeof_hard_disk_info * drive in
  let j := Z.rem device NR_PRIM_PER_DRIVE in
  e ← load (hdi + hi_primary j + start_sector);
  let ext_start_sect := s32 e in
  let nr_1st_log := (j - 1) * NR_LOG_PER_PART in
  run (S (Z.to_nat NR_LOG_PER_PART)) (λ '(i, s),
    if i <? NR_LOG_PER_PART then
      let dev_nr := nr_1st_log + i in
      get_partition_table cmd drive s part_tbl;;
      a ← load32 (part_tbl + pt_start_sector_lba);
      store (hdi + hi_logical dev_nr + start_sector) (u32 (s + a));;
      n ← load32 (part_tbl + pt_nr_sectors);
      store (hdi + hi_logical dev_nr + total_sectors) n;;
      b ← load32 (part_tbl + sizeof_partition_table + pt_start_sector_lba);
      id ← load (part_tbl + sizeof_partition_table + pt_system_id);
      if id =? UNUSED_PART then mret (inr tt) else mret (inl (i + 1, s32 (ext_start_sect + b)))
    else mret (inr tt)) (0, ext_start_sect).

(** [cmd'] and [part_tbl'] are the local variables of the recursive call, which does not call itself. *)
Definition partition (cmd part_tbl cmd' part_tbl' device style : Z) : M unit :=
  let drive := DRV_OF_DEV device in
  let hdi := hd_info + sizeof_hard_disk_info * drive in
  if style =? P_PRIMARY then
    get_partition_table cmd drive drive part_tbl;;
    run (S (Z.to_nat NR_PART_PER_DRIVE)) (λ i,
      if i <? NR_PART_PER_DRIVE then
        let e := part_tbl + sizeof_partition_table * i in
        id ← load (e + pt_system_id);
        if id =? UNUSED_PART then mret (inl (i + 1)) else
        let dev_nr := i + 1 in
        a ← load32 (e + pt_start_sector_lba);
        store (hdi + hi_primary dev_nr + start_sector) a;;
        n ← load32 (e + pt_nr_sectors);
        store (hdi + hi_primary dev_nr + total_sectors) n;;
        id ← load (e + pt_system_id);
        (if id =? EXTENDED_PART then partition_extended cmd' part_tbl' (device + dev_nr) else mret tt);;
        mret (inl (i + 1))
      else mret (inr tt)) 0
  else if style =? P_EXTENDED then partition_extended cmd part_tbl device
  else mret tt.

Definition hd_open (cmd part_tbl cmd' part_tbl' device : Z) : M unit :=
  let drive := DRV_OF_DEV device in
  if negb (drive =? 0) then panic else
  hd_identify cmd drive;;
  c ← load (hd_info + sizeof_hard_disk_info * drive + hi_open_cnt);
  store (hd_info + sizeof_hard_disk_info * drive + hi_open_cnt) (s32 (c + 1));;
  if c =? 0 then partition cmd part_tbl cmd' part_tbl' (drive * (NR_PART_PER_DRIVE + 1)) P_PRIMARY
  else mret tt.

Definition hd_close (device : Z) : M unit :=
  let drive := DRV_OF_DEV device in
  c ← load (hd_info + sizeof_hard_disk_info * drive + hi_open_cnt);
  store (hd_info + sizeof_hard_disk_info * drive + hi_open_cnt) (s32 (c - 1)).

(** The start of the partition is added to the number of sectors. *)
Definition hd_rw (cmd device start_sect nr_sects flag bh : Z) : M Z :=
  if bh =? NULL then mret (-1) else
  let drive := DRV_OF_DEV (MINOR device) in
  nr_sects ← (if device >? MAX_PRIMARY then
      let part_index := Z.rem (device - MINOR_hd1a) NR_LOG_PER_DRIVE in
      a ← load (hd_info + sizeof_hard_disk_info * drive + hi_logical part_index + start_sector);
      mret (s32 (nr_sects + a))
    else
      a ← load (hd_info + sizeof_hard_disk_info * drive + hi_primary device + start_sector);
      mret (s32 (nr_sects + a)));
  make_rw_cmd cmd drive start_sect nr_sects flag;;
  hd_cmd_out cmd;;
  if flag =? ATA_READ then
    d ← load (bh + b_data);
    memset d 0 SECTOR_SIZE;;
    d ← load (bh + b_data);
    r ← read_intr d;
    if r =? 0 then mret 0 else mret (-2)
  else if flag =? ATA_WRITE then
    d ← load (bh + b_data);
    r ← write_intr d;
    if r =? 0 then mret 0 else mret (-3)
  else mret (-4).
End hd.
