(* ===== verification/HdSpec.v ===== *)
(** * What the disk driver asks of the drive

    [AtaDrive] states what the ports of the drive promise: a command register keeps what is written to it,
    the status register tells that the drive is not busy, the data register delivers the words of
    the sector in turn, and the clock moves by at most one tick between two readings. *)

From S2P Require Export Hd Arrays.

Class AtaDrive (in_byte in_word : Z → M Z) (out_byte out_word : Z → Z → M unit) (get_ticks : M Z) := {
  reg : Z → Z → heapProp;
  ready : heapProp;
  data_in : list Z → heapProp;
  now : Z → heapProp;
  out_byte_wp p v w (Q : unit → heapProp) : reg p w -∗ (reg p v -∗ Q tt) -∗ wp (out_byte p v) Q;
  in_byte_wp Q : ready -∗ (∀ s, ⌜Z.land s 0x80 = 0⌝ -∗ ready -∗ Q s) -∗ wp (in_byte REG_STATUS) Q;
  in_word_wp w ws Q : data_in (w :: ws) -∗ (data_in ws -∗ Q w) -∗ wp (in_word REG_DATA) Q;
  get_ticks_wp t Q : now t -∗ (∀ t', ⌜t ≤ t' ≤ t + 1⌝ -∗ now t' -∗ Q t') -∗ wp get_ticks Q;
}.

(** The bytes of a word, the low one first. *)
Definition word_bytes (w : Z) : list Z := [Z.land w 0xff; Z.land (Z.shiftr w 8) 0xff].

(** The 28-bit sector number in the registers of a command. *)
Definition lba28 (low mid high device : Z) : Z :=
  low + 2 ^ 8 * mid + 2 ^ 16 * high + 2 ^ 24 * Z.land device 0xf.

Lemma device_reg_lba (x : Z) : 0 ≤ x < 16 → Z.land (u8 (MAKE_DEVICE_REG 1 0 x)) 0xf = x.
Proof.
  intros Hx. assert (x ∈ seqZ 0 16) as Hin by (apply elem_of_seqZ; lia). revert x Hx Hin.
  assert (Forall (λ x, Z.land (u8 (MAKE_DEVICE_REG 1 0 x)) 0xf = x) (seqZ 0 16)) as H.
  { by repeat (constructor; [reflexivity|]). }
  intros x _ Hin. by apply (proj1 (Forall_forall _ _) H).
Qed.

Lemma u8_land z : u8 (Z.land z 0xff) = z mod 2 ^ 8.
Proof. change 0xff with (Z.ones 8). rw Z.land_ones; [|lia]. unfold u8. by rw Zmod_mod. Qed.

Lemma u8_s32 z : u8 (s32 z) = u8 z.
Proof. unfold u8, s32. dlia. Qed.

Lemma length_word_bytes ws : length (ws ≫= word_bytes) = (2 * length ws)%nat.
Proof. induction ws as [|w ws IH]; [done|]. change (length ((w :: ws) ≫= word_bytes)) with (S (S (length (ws ≫= word_bytes)))). rw IH. simpl. lia. Qed.

(** The registers of a command have the sector number. *)
Lemma make_rw_cmd_lba s :
  lba28 (u8 (Z.land s 0xff)) (u8 (Z.land (Z.shiftr s 8) 0xff)) (u8 (Z.land (Z.shiftr s 16) 0xff))
    (u8 (MAKE_DEVICE_REG 1 0 (Z.land (Z.shiftr s 24) 0xF))) = s mod 2 ^ 28.
Proof.
  unfold lba28. rw !u8_land device_reg_lba.
  - change 0xF with (Z.ones 4). rw Z.land_ones; [|lia]. rw !Z.shiftr_div_pow2; [|lia..]. dlia.
  - change 0xF with (Z.ones 4). rw Z.land_ones; [|lia]. apply Z.mod_pos_bound. lia.
Qed.

Section spec.
Context `{!AtaDrive in_byte in_word out_byte out_word get_ticks} (polls : nat) (hd_info : Z).

Lemma port_read_wp ws buf vs rest (Q : unit → heapProp) : length vs = (2 * length ws)%nat →
  data_in (ws ++ rest) -∗ bytes buf vs -∗ (data_in rest -∗ bytes buf (ws ≫= word_bytes) -∗ Q tt) -∗
  wp (port_read in_word REG_DATA buf (length ws)) Q.
Proof.
  revert buf vs. induction ws as [|w ws IH]; intros buf vs Hl; iIntros "Hd H HQ".
  - destruct vs; [|done]. simpl. wp_pures. iApply ("HQ" with "Hd H").
  - destruct vs as [|a [|b vs]]; [simpl in Hl; lia..|]. rw !arr_cons. iDestruct "H" as "(Ha & Hb & H)". simpl.
    iApply wp_bind. iApply (in_word_wp with "Hd"). iIntros "Hd". wp_store. wp_store.
    replace (buf + 1 + 1) with (buf + 2) by lia. iApply (IH with "Hd H"); [simpl in Hl; lia|].
    iIntros "Hd H". iApply ("HQ" with "Hd").
    iFrame "Ha Hb". iExact "H".
Qed.

Lemma is_hd_status_wp t Q : - 2 ^ 31 ≤ t < 2 ^ 30 →
  now t -∗ ready -∗ (∀ t', ⌜t ≤ t' ≤ t + 2⌝ -∗ now t' -∗ ready -∗ Q 1) -∗ wp (is_hd_status in_byte get_ticks polls HD_TIMEOUT) Q.
Proof.
  intros Ht. iIntros "Hn Hr HQ". unfold is_hd_status. iApply wp_bind. iApply (get_ticks_wp with "Hn").
  iIntros (t1) "%Ht1 Hn". cbn [run]. wp_pures. iApply wp_bind. iApply (get_ticks_wp with "Hn"). iIntros (t2) "%Ht2 Hn".
  rw (_ : (Z.quot (s32 (s32 (t2 - t1) * 1000)) HZ <? HD_TIMEOUT) = true); last first.
  { assert (t2 - t1 = 0 ∨ t2 - t1 = 1) as [-> | ->] by lia; reflexivity. }
  wp_focus. iApply (in_byte_wp with "Hr"). iIntros (s) "%Hs Hr". rw Hs. wp_pures.
  iApply ("HQ" with "[%] Hn Hr"). lia.
Qed.

(** The command block and the command registers. *)
Definition command_block (cmd : Z) : heapProp :=
  (∃ a b c d e f g, (cmd + hc_features) ↦ a ∗ (cmd + hc_count) ↦ b ∗ (cmd + hc_lba_low) ↦ c ∗ (cmd + hc_lba_mid) ↦ d ∗
   (cmd + hc_lba_high) ↦ e ∗ (cmd + hc_device) ↦ f ∗ (cmd + hc_command) ↦ g)%I.

Definition registers (count lba command : Z) : heapProp :=
  (∃ ctl feat low mid high dev, ⌜lba28 low mid high dev = lba⌝ ∗ reg REG_DEV_CTL ctl ∗ reg REG_FEATURES feat ∗
   reg REG_NSECTOR count ∗ reg REG_LBA_LOW low ∗ reg REG_LBA_MID mid ∗ reg REG_LBA_HIGH high ∗ reg REG_DEVICE dev ∗
   reg REG_COMMAND command)%I.

(** The command for a sector: the drive gets its number, the count and the operation. *)
Lemma rw_command_wp cmd s n flag c0 l0 k0 (B : Type) (k : M B) Q : 
  command_block cmd -∗ registers c0 l0 k0 -∗
  (command_block cmd -∗ registers (u8 n) (s mod 2 ^ 28) (u8 flag) -∗ wp k Q) -∗
  wp (make_rw_cmd cmd 0 s n flag;; hd_cmd_out out_byte cmd;; k) Q.
Proof.
  iIntros "(%a & %b & %c & %d & %e & %f & %g & Ha & Hb & Hc & Hd & He & Hf & Hg)
    (%r1 & %r2 & %r3 & %r4 & %r5 & %r6 & _ & H1 & H2 & H3 & H4 & H5 & H6 & H7 & H8) HQ".
  unfold make_rw_cmd, make_cmd, hd_cmd_out.
  do 7 wp_store. wp_focus. iApply (out_byte_wp with "H1"). iIntros "H1".
  wp_load. wp_focus. iApply (out_byte_wp with "H2"). iIntros "H2".
  wp_load. wp_focus. iApply (out_byte_wp with "H3"). iIntros "H3".
  wp_load. wp_focus. iApply (out_byte_wp with "H4"). iIntros "H4".
  wp_load. wp_focus. iApply (out_byte_wp with "H5"). iIntros "H5".
  wp_load. wp_focus. iApply (out_byte_wp with "H6"). iIntros "H6".
  wp_load. wp_focus. iApply (out_byte_wp with "H7"). iIntros "H7".
  wp_load. wp_focus. iApply (out_byte_wp with "H8"). iIntros "H8".
  iApply ("HQ" with "[$Ha $Hb $Hc $Hd $He $Hf $Hg] [-]"). iFrame "H1 H2 H3 H4 H5 H6 H7 H8". iPureIntro. apply make_rw_cmd_lba.
Qed.

(** Reading a block of the root partition, whose first sector is [p].  The drive is asked for the
    sector [blk] of the disk, not of the partition, and for [1 + p] sectors; and twice the size of the buffer is
    read, so that the 512 bytes behind it are overwritten too. *)
Theorem hd_rw_reads_two_sectors cmd blk bh d own other ws rest t p c0 l0 k0 :
  {{ ⌜length own = Z.to_nat SECTOR_SIZE ∧ length other = Z.to_nat SECTOR_SIZE ∧ length ws = Z.to_nat SECTOR_SIZE ∧
      bh ≠ NULL ∧ 0 < d ∧ (- 2 ^ 31 ≤ t < 2 ^ 30)⌝ ∗
     command_block cmd ∗ registers c0 l0 k0 ∗ (hd_info + hi_logical 0 + start_sector) ↦ p ∗ (bh + b_data) ↦ d ∗
     bytes d own ∗ bytes (d + SECTOR_SIZE) other ∗ data_in (ws ++ rest) ∗ ready ∗ now t }}
    hd_rw in_byte in_word out_byte out_word get_ticks polls hd_info cmd ROOT_DEV blk 1 ATA_READ bh
  {{ r, ⌜r = 0⌝ ∗ registers (u8 (1 + p)) (blk mod 2 ^ 28) ATA_READ ∗ (bh + b_data) ↦ d ∗
        bytes d (take 256 ws ≫= word_bytes) ∗ bytes (d + SECTOR_SIZE) (drop 256 ws ≫= word_bytes) ∗ data_in rest }}.
Proof.
  apply triple_wp. iIntros "((%H1 & %H2 & %H3 & %Hbh & %Hd & %Ht) & Hc & Hr & Hp & Hb & Hown & Hoth & Hin & Hrdy & Hnow)".
  unfold hd_rw. rw (proj2 (Z.eqb_neq _ _) Hbh).
  change (ROOT_DEV >? MAX_PRIMARY) with true. change (DRV_OF_DEV (MINOR ROOT_DEV)) with 0.
  change (Z.rem (ROOT_DEV - MINOR_hd1a) NR_LOG_PER_DRIVE) with 0. rw Z.mul_0_r Z.add_0_r.
  wp_load. iApply (rw_command_wp with "Hc Hr"). iIntros "Hc Hr". rw u8_s32. wp_load. wp_focus.
  iApply (memset_wp _ _ _ own [] with "[Hown]"); [by rw H1|done|done|by rw app_nil_r|]. rw app_nil_r. iIntros "Hown". wp_load.
  unfold read_intr. wp_focus. iApply (is_hd_status_wp with "Hnow Hrdy"); [done|]. iIntros (t') "_ Hnow Hrdy". wp_focus.
  rw -{2}H3. iApply (port_read_wp _ _ (replicate (Z.to_nat SECTOR_SIZE) 0 ++ other) with "Hin [Hown Hoth]").
  { by rw length_app length_replicate H2 H3. }
  { rw arr_app length_replicate. iFrame "Hown". by rw Z.mul_1_l. }
  iIntros "Hin H". wp_pures. iSplit; [done|]. iFrame "Hr Hb Hin".
  rw -{1}(take_drop 256 ws) bind_app arr_app length_word_bytes. iDestruct "H" as "[$ H]".
  rw length_take H3. iExact "H".
Qed.
End spec.

(** ** A drive in memory

    The registers are cells, the data register follows a pointer through the words of the sector, and the
    drive is never busy: the interface can be implemented. *)
Section ram_drive.
Context (base dp ticks : Z).

Definition ram_in_byte (p : Z) : M Z := mret 0.
Definition ram_in_word (p : Z) : M Z := q ← load dp; w ← load q; store dp (q + 1);; mret w.
Definition ram_out_byte (p v : Z) : M unit := store (base + p) v.
Definition ram_out_word (p v : Z) : M unit := mret tt.
Definition ram_get_ticks : M Z := load ticks.

#[global, program] Instance ram_drive : AtaDrive ram_in_byte ram_in_word ram_out_byte ram_out_word ram_get_ticks := {|
  reg p v := ((base + p) ↦ v)%I;
  ready := emp%I;
  data_in ws := (∃ q, dp ↦ q ∗ bytes q ws)%I;
  now t := (ticks ↦ t)%I;
|}.
Next Obligation. iIntros (p v w Q) "H HQ". unfold ram_out_byte. wp_store. by iApply "HQ". Qed.
Next Obligation. iIntros (Q) "H HQ". unfold ram_in_byte. wp_pures. by iApply ("HQ" with "[%] H"). Qed.
Next Obligation.
  iIntros (w ws Q) "(%q & Hd & H) HQ". unfold ram_in_word. rw arr_cons. iDestruct "H" as "[Hq H]".
  wp_load. wp_load. wp_store. iApply "HQ". iExists (q + 1). iFrame.
Qed.
Next Obligation. iIntros (t Q) "H HQ". unfold ram_get_ticks. wp_load. iApply ("HQ" with "[%] H"). lia. Qed.
End ram_drive.

Lemma hd_rw_reads_two_sectors_witness :
  let own := replicate 512 0 in let ws := replicate 512 0x4241 in
  triple (⌜length own = Z.to_nat SECTOR_SIZE ∧ length own = Z.to_nat SECTOR_SIZE ∧ length ws = Z.to_nat SECTOR_SIZE ∧
      8 ≠ NULL ∧ 0 < 4096 ∧ (- 2 ^ 31 ≤ 7 < 2 ^ 30)⌝ ∗
     command_block 100 ∗ registers (AtaDrive0 := ram_drive 10000 200 300) 0 0 0 ∗ (1000 + hi_logical 0 + start_sector) ↦ 63 ∗
     (8 + b_data) ↦ 4096 ∗ bytes 4096 own ∗ bytes (4096 + SECTOR_SIZE) own ∗
     data_in (AtaDrive := ram_drive 10000 200 300) (ws ++ []) ∗ ready (AtaDrive := ram_drive 10000 200 300) ∗
     now (AtaDrive := ram_drive 10000 200 300) 7)%I
    (hd_rw ram_in_byte (ram_in_word 200) (ram_out_byte 10000) ram_out_word (ram_get_ticks 300) 0 1000 100 ROOT_DEV 5 1 ATA_READ 8)
    (λ r, ⌜r = 0⌝ ∗ registers (AtaDrive0 := ram_drive 10000 200 300) (u8 (1 + 63)) (5 mod 2 ^ 28) ATA_READ ∗ (8 + b_data) ↦ 4096 ∗
        bytes 4096 (take 256 ws ≫= word_bytes) ∗ bytes (4096 + SECTOR_SIZE) (drop 256 ws ≫= word_bytes) ∗
        data_in (AtaDrive := ram_drive 10000 200 300) [])%I.
Proof. exact (hd_rw_reads_two_sectors (AtaDrive0 := ram_drive 10000 200 300) 0 1000 100 5 8 4096 (replicate 512 0) (replicate 512 0) (replicate 512 0x4241) [] 7 63 0 0 0). Defined.
