(* ===== verification/Fs.v ===== *)
(** * Blocks of the file system: fs/super.c, fs/bitmap.c, fs/block.c

    Sectors are read into and written from buffers, whose bytes are kept unsigned.  The buffer cache
    ([getblk], [brelse]) and the disk driver are parameters: [hd_rw dev blk flag bh] stands for
    [hd_rw(dev, blk, 1, flag, bh)].  [BlockIO] in FsSpec states what the file system relies on. *)

From S2P Require Export Hd.

(** struct super_block *)
Definition s_magic : Z := 0.
Definition s_ninodes : Z := 2.
Definition s_nzones : Z := 4.
Definition s_nimap_sects : Z := 6.
Definition s_nzmap_sects : Z := 8.
Definition s_firstzone : Z := 10.
Definition s_dev : Z := 12.
Definition file_max_size : Z := 16.
Definition s_inodes : Z := 116.
Definition s_dirty : Z := 124.
Definition s_io : Z := 132.
Definition s_files : Z := 140.
Definition sizeof_super_block : Z := 148.

(** struct m_inode; struct d_inode is its beginning *)
Definition i_mode : Z := 0.
Definition i_size : Z := 2.
Definition i_start_sect : Z := 4.
Definition i_nr_sects : Z := 6.
Definition i_flags : Z := 8.
Definition i_data : Z := 12.
Definition i_dev : Z := 64.
Definition i_count : Z := 66.
Definition i_num : Z := 68.
Definition i_lock : Z := 70.
Definition i_dirty : Z := 72.
Definition i_mmap : Z := 76.
Definition i_list : Z := 80.
Definition i_ops : Z := 88.
Definition i_mapping : Z := 92.
Definition sizeof_m_inode : Z := 96.

Definition NO_DEV : Z := 0.
Definition NR_SUPER : Z := 2.
Definition NR_SUPER_BLOCK_SECTS : Z := 1.
Definition NR_INODE_MAP_SECTS : Z := 1.
Definition NR_ZONE_MAP_SECTS : Z := 1.
Definition BITS_SECTOR : Z := SECTOR_SIZE * 8.
Definition BITS_ZONE : Z := NR_ZONE_MAP_SECTS * BITS_SECTOR.
Definition INODE_SIZE : Z := 64.
Definition NR_DEFAULT_SECTS : Z := 11.

(** [nr /INODE_SECTS]: the macro is a quotient without parentheses around it. *)
Definition div_INODE_SECTS (nr : Z) : Z :=
  Z.quot (Z.quot nr (NR_INODE_MAP_SECTS * BITS_SECTOR)) (Z.quot SECTOR_SIZE INODE_SIZE).

(** [btr] *)
Definition clear_bit (nr ch : Z) : Z := Z.land ch (Z.lnot (Z.shiftl 1 (Z.land nr 31))).

Section fs.
Context (getblk : Z → Z → M Z) (hd_rw : Z → Z → Z → Z → M Z) (brelse : Z → M unit).
(** The address of the array [super_block]. *)
Context (super_block : Z).

Definition get_super_block (dev : Z) : M Z :=
  run (S (Z.to_nat NR_SUPER)) (λ sb,
    if sb <? super_block + NR_SUPER * sizeof_super_block then
      d ← load (sb + s_dev);
      if d =? dev then mret (inr sb) else mret (inl (sb + sizeof_super_block))
    else mret (inr NULL)) super_block.

(** The common part of [clear_imap_bit] and [clear_zmap_bit]: the result of [clear_bit] is not used. *)
Definition clear_map_bit (dev nr blk_nr : Z) : M Z :=
  let char_nr := Z.quot nr 8 in
  bh ← getblk dev blk_nr;
  hd_rw ROOT_DEV blk_nr ATA_READ bh;;
  d ← load (bh + b_data);
  ch ← load (d + char_nr);
  let _ := clear_bit (Z.rem nr 8) ch in
  hd_rw ROOT_DEV blk_nr ATA_WRITE bh;;
  brelse bh;;
  mret 0.

Definition clear_imap_bit (dev nr : Z) : M Z :=
  sb ← get_super_block dev;
  let blk_nr := 1 + NR_SUPER_BLOCK_SECTS + div_INODE_SECTS nr in
  n ← load (sb + s_nimap_sects);
  if blk_nr >? 1 + NR_SUPER_BLOCK_SECTS + n then mret (-1) else
  clear_map_bit dev nr blk_nr.

Definition clear_zmap_bit (dev nr : Z) : M Z :=
  sb ← get_super_block dev;
  let blk_nr := 1 + NR_SUPER_BLOCK_SECTS + NR_INODE_MAP_SECTS + div_INODE_SECTS nr in
  n ← load (sb + s_nzmap_sects);
  if blk_nr >? 1 + NR_SUPER_BLOCK_SECTS + NR_INODE_MAP_SECTS + n then mret (-1) else
  clear_map_bit dev nr blk_nr.

Definition set_imap_bit (dev nr : Z) : M Z :=
  let blk_nr := 1 + NR_SUPER_BLOCK_SECTS + 1 + Z.quot nr (SECTOR_SIZE * 8) in
  bh ← getblk dev blk_nr;
  hd_rw ROOT_DEV blk_nr ATA_READ bh;;
  let bit := Z.quot nr 8 in
  d ← load (bh + b_data);
  ch ← load (d + bit);
  if ch =? 0xff then brelse bh;; mret 0 else
  d ← load (bh + b_data);
  b ← load (d + bit);
  store (d + bit) (u8 (Z.lor b (Z.shiftl 1 (Z.rem nr 8))));;
  hd_rw ROOT_DEV blk_nr ATA_WRITE bh;;
  brelse bh;;
  mret 0.

(** One sector of the inode map, from its byte [j].  The answer is the value of [inode_nr] and, when the
    function returns from inside the loop, what it returns. *)
Definition imap_sector (blk i bh inode_nr : Z) : M (option Z * Z) :=
  run (S (Z.to_nat SECTOR_SIZE)) (λ j,
    if j <? SECTOR_SIZE then
      d ← load (bh + b_data);
      ch ← load (d + j);
      if ch =? 0xff then mret (inl (j + 1)) else
      let ch := Z.land (Z.lnot ch) 0xff in
      let ret := find_first_bit ch in
      if (ret <? 0) || (ret >? 7) || ((i =? 0) && (j =? 0) && (ret =? 0)) then
        mret (inr (Some (if inode_nr <? 1 then 0 else u16 inode_nr), inode_nr))
      else
        let inode_nr := (i * SECTOR_SIZE + j) * 8 + ret in
        d ← load (bh + b_data);
        b ← load (d + j);
        store (d + j) (u8 (Z.lor b (Z.shiftl 1 ret)));;
        hd_rw ROOT_DEV (blk + i) ATA_WRITE bh;;
        brelse bh;;
        mret (inr (None, inode_nr))
    else mret (inr (None, inode_nr))) 0.

Definition get_imap_bit (dev : Z) : M Z :=
  sb ← get_super_block dev;
  let blk_nr := 1 + NR_SUPER_BLOCK_SECTS in
  n ← load (sb + s_nimap_sects);
  run (S (Z.to_nat n)) (λ '(i, inode_nr),
    n ← load (sb + s_nimap_sects);
    if i <? n then
      bh ← getblk dev (blk_nr + i);
      hd_rw ROOT_DEV (blk_nr + i) ATA_READ bh;;
      '(ret, inode_nr) ← imap_sector blk_nr i bh inode_nr;
      match ret with
      | Some r => mret (inr r)
      | None => mret (inl (i + 1, inode_nr))
      end
    else mret (inr (u16 inode_nr))) (0, -1).

(** One sector of the zone map. *)
Definition zmap_sector (blk i bh block_nr : Z) : M (option Z * Z) :=
  run (S (Z.to_nat SECTOR_SIZE)) (λ j,
    if j <? SECTOR_SIZE then
      d ← load (bh + b_data);
      ch ← load (d + j);
      if ch =? 0xff then mret (inl (j + 1)) else
      let ch := Z.land (Z.lnot ch) 0xff in
      let ret := find_first_bit ch in
      let block_nr := (SECTOR_SIZE * i + j) * 8 + ret in
      if block_nr >=? BITS_ZONE then mret (inr (Some 0, block_nr)) else
      d ← load (bh + b_data);
      b ← load (d + j);
      store (d + j) (u8 (Z.lor b (Z.shiftl 1 ret)));;
      hd_rw ROOT_DEV (blk + i) ATA_WRITE bh;;
      brelse bh;;
      mret (inr (None, block_nr))
    else mret (inr (None, block_nr))) 0.

Definition get_zmap_bit (dev : Z) : M Z :=
  sb ← get_super_block dev;
  k ← load (sb + s_nimap_sects);
  let blk_nr := 1 + NR_SUPER_BLOCK_SECTS + k in
  n ← load (sb + s_nzmap_sects);
  run (S (Z.to_nat n)) (λ '(i, block_nr),
    n ← load (sb + s_nzmap_sects);
    if i <? n then
      bh ← getblk dev (blk_nr + i);
      hd_rw dev (blk_nr + i) ATA_READ bh;;
      '(ret, block_nr) ← zmap_sector blk_nr i bh block_nr;
      match ret with
      | Some r => mret (inr r)
      | None => mret (inl (i + 1, block_nr))
      end
    else mret (inr (u16 block_nr))) (0, 0).

(** ** fs/block.c *)

(** An [int] written to a buffer of bytes. *)
Definition store32 (p v : Z) : M unit :=
  store p (u8 v);;
  store (p + 1) (u8 (Z.shiftr v 8));;
  store (p + 2) (u8 (Z.shiftr v 16));;
  store (p + 3) (u8 (Z.shiftr v 24)).

Definition sync_block (dev nr bh : Z) : M Z :=
  if negb (bh =? NULL) then
    store (bh + b_dirt) 0;;
    hd_rw dev nr ATA_WRITE bh;;
    mret 0
  else mret (-1).

Definition new_block (dev : Z) : M Z :=
  sb ← get_super_block dev;
  if sb =? NULL then panic else
  z ← load (sb + s_firstzone);
  b ← get_zmap_bit dev;
  let block_nr := z + b in
  if block_nr <=? 0 then mret (-1) else mret block_nr.

Definition free_block (dev nr : Z) : M Z :=
  if nr <=? 0 then mret (-1) else
  sb ← get_super_block dev;
  if sb =? NULL then panic else
  n ← load (sb + s_nzones);
  if (nr <? 1) || (nr >? n) then panic else
  bh ← getblk dev nr;
  if dev =? 0 then
    clear_zmap_bit dev nr;;
    (if bh =? NULL then
       b ← load (bh + b_dirt);
       if negb (b =? 0) then sync_block dev nr bh;; mret tt else mret tt
     else mret tt);;
    mret 0
  else mret (-1).

(** [word] and [put_word] read and write [i_data]: the inode is one in memory, whose members are cells, or one in a sector, whose members are
    bytes. *)
Section words.
Context (word : Z → M Z) (put_word : Z → Z → M unit).

Definition set_frist_block_nr (dev inode : Z) : M Z :=
  run (S (Z.to_nat NR_DEFAULT_SECTS)) (λ i,
    if i <? NR_DEFAULT_SECTS then
      v ← word (inode + i_data + 4 * i);
      if v =? 0 then
        nr ← new_block dev;
        if nr <? 0 then mret (inr (-1)) else
        put_word (inode + i_data + 4 * i) nr;;
        mret (inr 0)
      else mret (inl (i + 1))
    else mret (inr (-1))) 0.

Definition set_second_block_nr (dev inode : Z) : M Z :=
  b ← word (inode + i_data + 4 * 11);
  let blk_nr := s32 b in
  bh ← getblk dev blk_nr;
  if bh =? NULL then mret (-2) else
  r ← hd_rw dev blk_nr ATA_READ bh;
  if r <? 0 then mret (-3) else
  i_array ← load (bh + b_data);
  run (S (Z.to_nat (SECTOR_SIZE / 4))) (λ i,
    if i <? SECTOR_SIZE / 4 then
      v ← load32 (i_array + 4 * i);
      if v =? 0 then
        nr ← new_block dev;
        if nr <? 0 then mret (inr (-4)) else
        store32 (i_array + 4 * i) nr;;
        r ← hd_rw dev blk_nr ATA_WRITE bh;
        if r >? 0 then mret (inr (-5)) else
        brelse bh;;
        mret (inr 0)
      else mret (inl (i + 1))
    else mret (inr (-1))) 0.

(** The inner loop: a free entry in the block [blk_nr] that the buffer [sbh] holds; [None] when there
    is none. *)
Definition third_block_entry (dev blk_nr bh sbh i_sarray : Z) : M (option Z) :=
  run (S (Z.to_nat (SECTOR_SIZE / 4))) (λ k,
    if k <? SECTOR_SIZE / 4 then
      v ← load32 (i_sarray + 4 * k);
      if v =? 0 then
        nr ← new_block dev;
        if nr <? 0 then mret (inr (Some (-4))) else
        store32 (i_sarray + 4 * k) nr;;
        r ← hd_rw ROOT_DEV blk_nr ATA_WRITE sbh;
        if r >? 0 then mret (inr (Some (-5))) else
        brelse sbh;;
        brelse bh;;
        mret (inr (Some 0))
      else mret (inl (k + 1))
    else mret (inr None)) 0.

Definition set_third_block_nr (dev inode : Z) : M Z :=
  b ← word (inode + i_data + 4 * 12);
  let blk_nr := s32 b in
  bh ← getblk dev blk_nr;
  if bh =? NULL then mret (-2) else
  r ← hd_rw ROOT_DEV blk_nr ATA_READ bh;
  if r <? 0 then mret (-3) else
  i_array ← load (bh + b_data);
  run (S (Z.to_nat (SECTOR_SIZE / 4))) (λ i,
    if i <? SECTOR_SIZE / 4 then
      v ← load32 (i_array + 4 * i);
      if v =? 0 then mret (inl (i + 1)) else
      v ← load32 (i_array + 4 * i);
      let blk_nr := s32 v in
      sbh ← getblk dev blk_nr;
      r ← hd_rw ROOT_DEV blk_nr ATA_READ sbh;
      if r <? 0 then mret (inr (-3)) else
      i_sarray ← load (sbh + b_data);
      r ← third_block_entry dev blk_nr bh sbh i_sarray;
      match r with
      | Some r => mret (inr r)
      | None => mret (inl (i + 1))
      end
    else mret (inr (-1))) 0.

Definition set_block_nr (dev inode : Z) : M Z :=
  r ← set_frist_block_nr dev inode;
  if r =? 0 then mret 0 else
  r ← set_second_block_nr dev inode;
  if r =? 0 then mret 0 else
  r ← set_third_block_nr dev inode;
  if r =? 0 then mret 0 else mret (-2).

Definition set_block_nums (dev inode num : Z) : M Z :=
  run (S (Z.to_nat num)) (λ i,
    if i <? num then
      r ← set_block_nr dev inode;
      if r <? 0 then mret (inr (-2)) else mret (inl (i + 1))
    else mret (inr 0)) 0.
End words.
End fs.

Definition get_first_block (inode : Z) : M Z :=
  v ← load (inode + i_data);
  mret (s32 v).

(** The test [index >= 0 || index < NR_DEFAULT_SECTS] is always true. *)
Definition get_pos_block (inode pos : Z) : M Z :=
  let index := Z.quot pos SECTOR_SIZE in
  if (index >=? 0) || (index <? NR_DEFAULT_SECTS) then
    v ← load (inode + i_data + 4 * index);
    mret (s32 v)
  else mret (-1).
