(* ===== verification/FsSpec.v ===== *)
(** * The maps of the file system

    [BlockIO] is what the file system relies on: a buffer for a
    block, the bytes of a sector in it, and a sector with the bytes of a buffer.  The driver of kernel/hd.c
    does not keep this contract ([hd_rw_reads_two_sectors]); the theorems that use it are conditional on a driver that does. *)

From S2P Require Export Fs Arrays.

Class BlockIO (getblk : Z → Z → M Z) (hd_rw : Z → Z → Z → Z → M Z) (brelse : Z → M unit) := {
  bio_pool : nat → heapProp;
  bio_sector : Z → Z → list Z → heapProp;
  bio_buf : Z → Z → heapProp;
  getblk_wp dev blk n Q : bio_pool (S n) -∗
    (∀ bh d bs, ⌜bh ≠ NULL ∧ length bs = Z.to_nat SECTOR_SIZE⌝ -∗ bio_pool n -∗ bio_buf bh d -∗
       (bh + b_data) ↦ d -∗ bytes d bs -∗ Q bh) -∗
    wp (getblk dev blk) Q;
  read_wp dev blk bh d old bs Q : length old = Z.to_nat SECTOR_SIZE →
    bio_buf bh d -∗ (bh + b_data) ↦ d -∗ bytes d old -∗ bio_sector dev blk bs -∗
    (⌜length bs = Z.to_nat SECTOR_SIZE⌝ -∗ bio_buf bh d -∗ (bh + b_data) ↦ d -∗ bytes d bs -∗ bio_sector dev blk bs -∗ Q 0) -∗
    wp (hd_rw dev blk ATA_READ bh) Q;
  write_wp dev blk bh d bs old Q : length bs = Z.to_nat SECTOR_SIZE →
    bio_buf bh d -∗ (bh + b_data) ↦ d -∗ bytes d bs -∗ bio_sector dev blk old -∗
    (bio_buf bh d -∗ (bh + b_data) ↦ d -∗ bytes d bs -∗ bio_sector dev blk bs -∗ Q 0) -∗
    wp (hd_rw dev blk ATA_WRITE bh) Q;
  brelse_wp bh d bs n (Q : unit → heapProp) : length bs = Z.to_nat SECTOR_SIZE →
    bio_buf bh d -∗ (bh + b_data) ↦ d -∗ bytes d bs -∗ bio_pool n -∗ (bio_pool (S n) -∗ Q tt) -∗
    wp (brelse bh) Q;
  bio_buf_data bh d : bio_buf bh d ⊢ ⌜0 < d⌝;
}.

(** The bit [k] of a map. *)
Definition map_bit (bs : list Z) (k : Z) : bool :=
  match bs !! Z.to_nat (k / 8) with Some b => Z.testbit b (k mod 8) | None => false end.

Definition is_byte (b : Z) : Prop := 0 ≤ b < 256.

(** A map is full, or it has a first byte that is not. *)
Lemma full_or_first bs : Forall is_byte bs → bs = replicate (length bs) 255 ∨
  ∃ k b rest, bs = replicate k 255 ++ b :: rest ∧ 0 ≤ b < 255.
Proof.
  induction 1 as [|b bs Hb Hbs IH]; [by left|]. destruct (decide (b = 255)) as [->|Hne].
  - destruct IH as [IH|(k & c & rest & -> & Hc)]; [left; by rw {1}IH|]. right. by exists (S k), c, rest.
  - right. exists 0%nat, b, bs. split; [done|]. unfold is_byte in Hb. lia.
Qed.

Lemma map_bit_full n k : 0 ≤ k < 8 * Z.of_nat n → map_bit (replicate n 255) k = true.
Proof.
  intros Hk. unfold map_bit. rw lookup_replicate_2; [|dlia]. change 255 with (Z.ones 8).
  apply Z.ones_spec_low. apply Z.mod_pos_bound. lia.
Qed.

Lemma map_bit_before n b rest k : 0 ≤ k < 8 * Z.of_nat n → map_bit (replicate n 255 ++ b :: rest) k = true.
Proof.
  intros Hk. rw -(map_bit_full n k); [|done]. unfold map_bit. rw lookup_app_l; [done|]. rw length_replicate. dlia.
Qed.

Lemma map_bit_at n b rest i : 0 ≤ i < 8 → map_bit (replicate n 255 ++ b :: rest) (8 * Z.of_nat n + i) = Z.testbit b i.
Proof.
  intros Hi. unfold map_bit.
  replace ((8 * Z.of_nat n + i) / 8) with (Z.of_nat n) by dlia. replace ((8 * Z.of_nat n + i) mod 8) with i by dlia.
  rw Nat2Z.id lookup_app_r; rw length_replicate; [|lia]. by rw Nat.sub_diag.
Qed.

Lemma map_bit_other n b b' rest k : 0 ≤ k → k / 8 ≠ Z.of_nat n →
  map_bit (replicate n 255 ++ b :: rest) k = map_bit (replicate n 255 ++ b' :: rest) k.
Proof.
  intros Hk Hn. unfold map_bit. destruct (decide (Z.to_nat (k / 8) < n)%nat).
  - rw !lookup_app_l; [done|rw length_replicate; lia..].
  - rw !lookup_app_r; [|rw length_replicate; lia..]. rw length_replicate.
    destruct (Z.to_nat (k / 8) - n)%nat eqn:E; [dlia|done].
Qed.

(** Setting the lowest clear bit of the first byte with one sets the lowest clear bit of the map. *)
Definition takes (bs bs' : list Z) (z : Z) : Prop :=
  0 ≤ z ∧ map_bit bs z = false ∧ (∀ y, 0 ≤ y < z → map_bit bs y = true) ∧
  ∀ y, 0 ≤ y → map_bit bs' y = (y =? z) || map_bit bs y.

Lemma lor_set_bit b i : is_byte b → 0 ≤ i < 8 → u8 (Z.lor b (Z.shiftl 1 i)) = __set_bit i b.
Proof.
  intros Hb Hi. unfold __set_bit, u8, is_byte in *. change 0xFF with (Z.ones 8).
  rw -(Z.land_ones _ 8); [|lia]. rw Z.land_lor_distr_l. f_equal.
  rw Z.land_ones; [|lia]. apply Z.mod_small. lia.
Qed.

Lemma takes_first k b rest : 0 ≤ b < 255 →
  takes (replicate k 255 ++ b :: rest) (replicate k 255 ++ __set_bit (find_first_zero b) b :: rest)
    (8 * Z.of_nat k + find_first_zero b).
Proof.
  intros Hb. destruct (find_first_zero_spec b Hb) as (H8 & H0 & H1). split_and!; [lia| | |].
  - by rw map_bit_at; [|lia].
  - intros y Hy. destruct (decide (y < 8 * Z.of_nat k)); [apply map_bit_before; lia|].
    replace y with (8 * Z.of_nat k + (y - 8 * Z.of_nat k)) by lia. rw map_bit_at; [|lia]. apply H1. lia.
  - intros y Hy. destruct (decide (y / 8 = Z.of_nat k)) as [Hk|Hk].
    + replace y with (8 * Z.of_nat k + y mod 8) at 1 3 by dlia. rw !map_bit_at; [|dlia..].
      rw __set_bit_spec; [|done|dlia]. f_equal.
      destruct (Z.eqb_spec (y mod 8) (find_first_zero b)), (Z.eqb_spec y (8 * k + find_first_zero b)); (done || exfalso; dlia).
    + rw (map_bit_other _ _ b); [|done|done]. rw (proj2 (Z.eqb_neq _ _)); [done|]. dlia.
Qed.

(** A loop that goes on over the first [k] indices. *)
Lemma wp_run_skip {R} (body : Z → M (Z + R)) (P : heapProp) Q (k f : nat) :
  (∀ j : nat, (j < k)%nat → P ⊢ wp (body (Z.of_nat j)) (λ r, ⌜r = inl (Z.of_nat j + 1)%Z⌝ ∗ P)) →
  (P ⊢ wp (run f body (Z.of_nat k)) Q) → P ⊢ wp (run (k + f) body 0) Q.
Proof.
  intros Hb Hf. change 0 with (Z.of_nat 0).
  assert (∀ n i : nat, (i + n = k)%nat → P ⊢ wp (run (n + f) body (Z.of_nat i)) Q) as H; [|by apply (H k 0%nat)].
  induction n as [|n IH]; intros i Hi; [by rw -(_ : k = i); [|lia]|].
  cbn [run Nat.add]. iIntros "HP". iApply wp_bind. iApply (wp_wand with "[HP]"); [iApply (Hb with "HP"); lia|].
  iIntros (r) "[-> HP]". rw (_ : Z.of_nat i + 1 = Z.of_nat (S i)); [|lia]. iApply (IH with "HP"). lia.
Qed.

Lemma run_one {S R} n (body : S → M (S + R)) s :
  run (Datatypes.S n) body s = (r ← body s; match r with inl s' => run n body s' | inr r => mret r end).
Proof. done. Qed.

Section maps.
Context {getblk : Z → Z → M Z} {hd_rw : Z → Z → Z → Z → M Z} {brelse : Z → M unit} `{!BlockIO getblk hd_rw brelse}.

(** The bytes of a buffer in use. *)
Definition held (bh d : Z) (bs : list Z) : heapProp :=
  (⌜length bs = Z.to_nat SECTOR_SIZE⌝ ∗ bio_buf bh d ∗ (bh + b_data) ↦ d ∗ bytes d bs)%I.

Lemma held_byte {B} bh d bs (j : nat) b (k : Z → M B) Q : bs !! j = Some b →
  held bh d bs -∗ (held bh d bs -∗ wp (k b) Q) -∗
  wp (d ← load (bh + b_data); ch ← load (d + Z.of_nat j); k ch) Q.
Proof.
  intros Hj. iIntros "(%Hl & Hb & Hd & H) HQ". wp_load. iApply wp_bind.
  iApply (arr_load _ _ _ j b with "H"); [done|lia|]. iIntros "H". iApply "HQ". by iFrame.
Qed.

(** Both maps pass over a full byte. *)
Lemma skip_full {R} bh d bs (j : nat) F (rest : Z → M (Z + R)) e : bs !! j = Some 255 →
  held bh d bs ∗ F ⊢
  wp (if Z.of_nat j <? SECTOR_SIZE then
        d ← load (bh + b_data); ch ← load (d + Z.of_nat j);
        if ch =? 0xff then mret (inl (Z.of_nat j + 1)) else rest ch
      else e) (λ r, ⌜r = inl (Z.of_nat j + 1)%Z⌝ ∗ held bh d bs ∗ F).
Proof.
  intros Hj. iIntros "[H HF]". iAssert ⌜length bs = 512%nat⌝%I as %Hl; [by iDestruct "H" as "[$ _]"|].
  pose proof (lookup_lt_Some _ _ _ Hj). rw (proj2 (Z.ltb_lt _ _)); [|unfold SECTOR_SIZE; lia].
  iApply (held_byte with "H"); [done|]. iIntros "H". wp_pures. by iFrame.
Qed.

(** What the two maps do with the first byte that is not full. *)
Lemma take_bit_wp {B} dev blk bh d bs old (j : nat) b i n (k : M B) Q : bs !! j = Some b → is_byte b → 0 ≤ i < 8 →
  held bh d bs -∗ bio_sector dev blk old -∗ bio_pool n -∗
  (bio_sector dev blk (<[j := __set_bit i b]> bs) -∗ bio_pool (S n) -∗ wp k Q) -∗
  wp (d ← load (bh + b_data);
      b ← load (d + Z.of_nat j);
      store (d + Z.of_nat j) (u8 (Z.lor b (Z.shiftl 1 i)));;
      hd_rw dev blk ATA_WRITE bh;;
      brelse bh;; k) Q.
Proof.
  intros Hj Hb Hi. iIntros "(%Hl & Hbuf & Hd & H) Hs Hp HQ". wp_load. iApply wp_bind.
  iApply (arr_load _ _ _ j b with "H"); [done|lia|]. iIntros "H". iApply wp_bind.
  iApply (arr_store _ _ _ j b with "H"); [done|lia|]. iIntros "H". rw (lor_set_bit b i Hb Hi). iApply wp_bind.
  iApply (write_wp with "Hbuf Hd H Hs"); [by rw length_insert|]. iIntros "Hbuf Hd H Hs". iApply wp_bind.
  iApply (brelse_wp with "Hbuf Hd H Hp"); [by rw length_insert|]. iIntros "Hp". iApply ("HQ" with "Hs Hp").
Qed.

(** A sector of the zone map: the first clear bit is taken, or the buffer of a full one is kept. *)
Lemma zmap_sector_wp blk s bh d bs n v Q : s = blk + 0 → Forall is_byte bs →
  held bh d bs -∗ bio_sector ROOT_DEV s bs -∗ bio_pool n -∗
  (∀ bs' z, ⌜takes bs bs' z ∧ z < BITS_ZONE⌝ -∗ bio_sector ROOT_DEV s bs' -∗ bio_pool (S n) -∗ Q (None, z)) ∧
  (⌜bs = replicate (Z.to_nat SECTOR_SIZE) 255⌝ -∗ held bh d bs -∗ bio_sector ROOT_DEV s bs -∗ bio_pool n -∗ Q (None, v)) -∗
  wp (zmap_sector hd_rw brelse blk 0 bh v) Q.
Proof.
  intros -> Hbs. iIntros "H Hs Hp HQ". iAssert ⌜length bs = 512%nat⌝%I as %Hl; [by iDestruct "H" as "[$ _]"|].
  unfold zmap_sector. change (Z.to_nat SECTOR_SIZE) with 512%nat.
  destruct (full_or_first bs Hbs) as [Hfull|(k & b & rest & -> & Hb)].
  - rw (_ : 513%nat = (512 + 1)%nat); [|done]. iStopProof. apply wp_run_skip.
    + intros j Hj. apply skip_full. rw Hfull Hl. by apply lookup_replicate_2.
    + iIntros "(H & Hs & Hp & HQ)". rw run_one. change (Z.of_nat 512 <? SECTOR_SIZE) with false. wp_pures.
      iDestruct "HQ" as "[_ HQ]". iApply ("HQ" with "[%] H Hs Hp"). by rw Hfull Hl.
  - rw length_app length_replicate /= in Hl. assert ((replicate k 255 ++ b :: rest) !! k = Some b) as Hk.
    { rw lookup_app_r; rw length_replicate; [|lia]. by rw Nat.sub_diag. }
    rw (_ : 513%nat = (k + S (512 - k))%nat); [|lia]. iStopProof. apply wp_run_skip.
    + intros j Hj. apply skip_full. rw lookup_app_l; [|by rw length_replicate]. by apply lookup_replicate_2.
    + iIntros "(H & Hs & Hp & HQ)". rw run_one. iApply wp_bind. rw (proj2 (Z.ltb_lt _ _)); [|unfold SECTOR_SIZE; lia].
      iApply (held_byte with "H"); [done|]. iIntros "H". rw (proj2 (Z.eqb_neq b 255)); [|lia].
      destruct (find_first_zero_spec b Hb) as (H8 & _). unfold find_first_zero in H8.
      rw (_ : ((SECTOR_SIZE * 0 + k) * 8 + find_first_bit (Z.land (Z.lnot b) 255) >=? BITS_ZONE) = false);
        [|rw Z.geb_leb; apply Z.leb_gt; unfold BITS_ZONE, NR_ZONE_MAP_SECTS, BITS_SECTOR, SECTOR_SIZE in *; lia].
      iApply (take_bit_wp with "H Hs Hp"); [done|unfold is_byte; lia|done|]. iIntros "Hs Hp". wp_pures.
      iDestruct "HQ" as "[HQ _]". rw insert_app_r_alt; rw length_replicate; [|lia]. rw Nat.sub_diag /=.
      rw (_ : (SECTOR_SIZE * 0 + k) * 8 + find_first_bit (Z.land (Z.lnot b) 255) = 8 * k + find_first_zero b); [|unfold find_first_zero; lia].
      iApply ("HQ" with "[%] Hs Hp"). split; [by apply takes_first|].
      unfold find_first_zero, BITS_ZONE, NR_ZONE_MAP_SECTS, BITS_SECTOR, SECTOR_SIZE in *. lia.
Qed.

(** The super block of the root device: sectors of the inode map and of the zone map, and the first zone. *)
Context (super_block : Z).
Definition root_super (k z f : Z) : heapProp :=
  ((super_block + s_dev) ↦ ROOT_DEV ∗ (super_block + s_nimap_sects) ↦ k ∗ (super_block + s_nzmap_sects) ↦ z ∗
   (super_block + s_firstzone) ↦ f)%I.

Lemma get_super_block_wp k z f Q :
  root_super k z f -∗ (root_super k z f -∗ Q super_block) -∗ wp (get_super_block super_block ROOT_DEV) Q.
Proof.
  iIntros "(H1 & H2 & H3 & H4) HQ". unfold get_super_block. change (Z.to_nat NR_SUPER) with 2%nat. rw run_one.
  rw (proj2 (Z.ltb_lt _ _)); [|unfold NR_SUPER, sizeof_super_block; lia]. wp_load. iApply "HQ". iFrame.
Qed.

Lemma get_zmap_bit_wp k f n bs Q : Forall is_byte bs →
  root_super k 1 f -∗ bio_pool (S n) -∗ bio_sector ROOT_DEV (2 + k) bs -∗
  (root_super k 1 f -∗
    (∀ bs' z, ⌜takes bs bs' z ∧ z < BITS_ZONE⌝ -∗ bio_sector ROOT_DEV (2 + k) bs' -∗ bio_pool (S n) -∗ Q z) ∧
    (⌜bs = replicate (Z.to_nat SECTOR_SIZE) 255⌝ -∗ bio_sector ROOT_DEV (2 + k) bs -∗ bio_pool n -∗ Q 0)) -∗
  wp (get_zmap_bit getblk hd_rw brelse super_block ROOT_DEV) Q.
Proof.
  intros Hbs. iIntros "Hsb Hp Hs HQ". unfold get_zmap_bit. iApply wp_bind. iApply (get_super_block_wp with "Hsb").
  iIntros "(H1 & H2 & H3 & H4)". wp_load. wp_load. change (1 + NR_SUPER_BLOCK_SECTS + k) with (2 + k).
  change (Z.to_nat 1) with 1%nat. rw run_one. wp_load. change (0 <? 1) with true. wp_pures.
  iApply wp_bind. iApply (getblk_wp with "Hp"). iIntros (bh d old) "(%Hbh & %Hl) Hp Hb Hd H". rw (Z.add_0_r (2 + k)).
  wp_focus. iApply (read_wp with "Hb Hd H Hs"); [done|]. iIntros "%Hlb Hb Hd H Hs". iApply wp_bind.
  iApply wp_bind. iApply (zmap_sector_wp with "[Hb Hd H] Hs Hp"); [lia|done|by iFrame|].
  iSplit; [iIntros (bs' z) "[%Ht %Hz] Hs Hp"|iIntros "%Hf _ Hs Hp"]; wp_pures; rw run_one; wp_load; change (0 + 1 <? 1) with false; wp_pures.
  - rw (_ : u16 z = z); [|destruct Ht as [Hz0 _]; unfold BITS_ZONE, NR_ZONE_MAP_SECTS, BITS_SECTOR, SECTOR_SIZE in Hz; unfold u16; apply Z.mod_small; lia].
    iDestruct ("HQ" with "[$H1 $H2 $H3 $H4]") as "[HQ _]". iApply ("HQ" with "[//] Hs Hp").
  - iDestruct ("HQ" with "[$H1 $H2 $H3 $H4]") as "[_ HQ]". iApply ("HQ" with "[//] Hs Hp").
Qed.

(** Allocating a zone, with a zone map of one sector as [mk_fs] makes it: the first clear bit of
    the map on disk is set, no other bit changes, the zone of this bit is returned and the buffer
    released.  When the map is full the zone of the bit 0, the root directory's, is returned again, and
    the buffer is not released. *)
Theorem new_block_correct k f n bs :
  {{ ⌜Forall is_byte bs ∧ 0 < f ∧ super_block ≠ NULL⌝ ∗ root_super k 1 f ∗ bio_pool (S n) ∗ bio_sector ROOT_DEV (2 + k) bs }}
    new_block getblk hd_rw brelse super_block ROOT_DEV
  {{ r, root_super k 1 f ∗
     ((∃ bs' z, ⌜takes bs bs' z ∧ z < BITS_ZONE ∧ r = (f + z)%Z⌝ ∗ bio_sector ROOT_DEV (2 + k) bs' ∗ bio_pool (S n)) ∨
      (⌜bs = replicate (Z.to_nat SECTOR_SIZE) 255 ∧ r = f⌝ ∗ bio_sector ROOT_DEV (2 + k) bs ∗ bio_pool n)) }}.
Proof.
  apply triple_wp. iIntros "((%Hbs & %Hf & %Hn) & Hsb & Hp & Hs)". unfold new_block. iApply wp_bind.
  iApply (get_super_block_wp with "Hsb"). iIntros "(H1 & H2 & H3 & H4)". rw (proj2 (Z.eqb_neq _ _) Hn). wp_load.
  iApply wp_bind. iApply (get_zmap_bit_wp with "[$H1 $H2 $H3 $H4] Hp Hs"); [done|]. iIntros "$".
  iSplit; [iIntros (bs' z) "[%Ht %Hz] Hs Hp"|iIntros "%Hfull Hs Hp"].
  - pose proof (proj1 Ht). rw (proj2 (Z.leb_gt _ _)); [|lia]. wp_pures. iLeft. iExists bs', z. by iFrame.
  - rw Z.add_0_r (proj2 (Z.leb_gt _ _)); [|lia]. wp_pures. iRight. by iFrame.
Qed.

(** [clear_zmap_bit] reads the sector of the zone map and writes it back as it was: the bit of the zone
    is not cleared, no zone ever becomes free again. *)
Theorem clear_zmap_bit_keeps k f n nr bs :
  {{ ⌜0 ≤ nr < BITS_ZONE⌝ ∗ root_super k 1 f ∗ bio_pool (S n) ∗ bio_sector ROOT_DEV 3 bs }}
    clear_zmap_bit getblk hd_rw brelse super_block ROOT_DEV nr
  {{ r, ⌜r = 0⌝ ∗ root_super k 1 f ∗ bio_pool (S n) ∗ bio_sector ROOT_DEV 3 bs }}.
Proof.
  apply triple_wp. iIntros "(%Hnr & Hsb & Hp & Hs)". unfold clear_zmap_bit. iApply wp_bind.
  iApply (get_super_block_wp with "Hsb"). iIntros "(H1 & H2 & H3 & H4)". wp_load.
  assert (div_INODE_SECTS nr = 0) as ->.
  { unfold div_INODE_SECTS, NR_INODE_MAP_SECTS. unfold BITS_ZONE, NR_ZONE_MAP_SECTS in Hnr.
    rw (Z.quot_small nr); [done|unfold BITS_SECTOR, SECTOR_SIZE in *; lia]. }
  change (1 + NR_SUPER_BLOCK_SECTS + NR_INODE_MAP_SECTS + 0 >? 1 + NR_SUPER_BLOCK_SECTS + NR_INODE_MAP_SECTS + 1) with false.
  change (1 + NR_SUPER_BLOCK_SECTS + NR_INODE_MAP_SECTS + 0) with 3. unfold clear_map_bit. wp_pures.
  iApply wp_bind. iApply (getblk_wp with "Hp"). iIntros (bh d old) "(%Hbh & %Hl) Hp Hb Hd H". iApply wp_bind.
  iApply (read_wp with "Hb Hd H Hs"); [done|]. iIntros "%Hlb Hb Hd H Hs".
  destruct (lookup_lt_is_Some_2 bs (Z.to_nat (Z.quot nr 8))) as [b Hb].
  { rw Hlb Z.quot_div_nonneg; [|lia..]. unfold BITS_ZONE, NR_ZONE_MAP_SECTS, BITS_SECTOR, SECTOR_SIZE in *. dlia. }
  wp_load. iApply wp_bind. iApply (arr_load _ _ _ _ b with "H"); [done|rw Z.quot_div_nonneg; [|lia..]; dlia|]. iIntros "H".
  wp_pures. iApply wp_bind. iApply (write_wp with "Hb Hd H Hs"); [done|]. iIntros "Hb Hd H Hs". iApply wp_bind.
  iApply (brelse_wp with "Hb Hd H Hp"); [done|]. iIntros "Hp". wp_pures. by iFrame.
Qed.

(** With every inode in use, [get_imap_bit] does not answer 0, which its caller takes for an error,
    but [65535], and it does not release its buffer. *)
Theorem get_imap_bit_full z f n :
  {{ root_super 1 z f ∗ bio_pool (S n) ∗ bio_sector ROOT_DEV 2 (replicate (Z.to_nat SECTOR_SIZE) 255) }}
    get_imap_bit getblk hd_rw brelse super_block ROOT_DEV
  {{ r, ⌜r = 65535⌝ ∗ root_super 1 z f ∗ bio_pool n ∗ bio_sector ROOT_DEV 2 (replicate (Z.to_nat SECTOR_SIZE) 255) }}.
Proof.
  apply triple_wp. remember (replicate (Z.to_nat SECTOR_SIZE) 255) as bs eqn:Hbs.
  iIntros "(Hsb & Hp & Hs)". unfold get_imap_bit. iApply wp_bind.
  iApply (get_super_block_wp with "Hsb"). iIntros "(H1 & H2 & H3 & H4)". wp_load.
  change (Z.to_nat 1) with 1%nat. rw run_one. wp_load. change (0 <? 1) with true. wp_pures.
  iApply wp_bind. iApply (getblk_wp with "Hp"). iIntros (bh d old) "(%Hbh & %Hl) Hp Hb Hd H".
  change (1 + NR_SUPER_BLOCK_SECTS + 0) with 2. wp_focus. iApply (read_wp with "Hb Hd H Hs"); [done|].
  iIntros "%Hlb Hb Hd H Hs". iApply wp_bind. iApply wp_bind. unfold imap_sector. change (Z.to_nat SECTOR_SIZE) with 512%nat.
  iAssert (held bh d bs) with "[Hb Hd H]" as "H"; [by iFrame|].
  iCombine "H H1 H2 H3 H4 Hp Hs" as "H". rw (_ : 513%nat = (512 + 1)%nat); [|done]. iStopProof. apply wp_run_skip.
  - intros j Hj. apply skip_full. rw Hbs. by apply lookup_replicate_2.
  - iIntros "(H & H1 & H2 & H3 & H4 & Hp & Hs)". rw run_one. change (Z.of_nat 512 <? SECTOR_SIZE) with false. wp_pures.
    rw run_one. wp_load. change (0 + 1 <? 1) with false. wp_pures. by iFrame.
Qed.
End maps.

(** ** A disk in memory *)
Section ram.
Context (disk buf data : Z).

Definition ram_getblk (dev blk : Z) : M Z := mret buf.
Definition ram_rw (dev blk flag bh : Z) : M Z :=
  d ← load (bh + b_data);
  (if flag =? ATA_READ then memcpy d (disk + 512 * blk) 512 else memcpy (disk + 512 * blk) d 512);;
  mret 0.
Definition ram_brelse (bh : Z) : M unit := mret tt.

Lemma memcpy_wp dst src vs old n (Q : unit → heapProp) : length vs = n → length old = n →
  bytes src vs -∗ bytes dst old -∗ (bytes src vs -∗ bytes dst vs -∗ Q tt) -∗ wp (memcpy dst src n) Q.
Proof.
  intros <-. revert dst src old. induction vs as [|v vs IH]; intros dst src [|o old] Hl; try done; iIntros "Hs Hd HQ"; simpl.
  - wp_pures. iApply ("HQ" with "Hs Hd").
  - rw !arr_cons. iDestruct "Hs" as "[Hv Hs]". iDestruct "Hd" as "[Ho Hd]". wp_load. wp_store.
    iApply (IH _ _ old with "Hs Hd"); [by injection Hl|]. iIntros "Hs Hd". iApply ("HQ" with "[$Hv $Hs] [$Ho $Hd]").
Qed.

Definition ram_pool (n : nat) : heapProp :=
  match n with
  | O => emp
  | S O => ⌜buf ≠ NULL ∧ 0 < data⌝ ∗ (buf + b_data) ↦ data ∗ ∃ bs, ⌜length bs = 512%nat⌝ ∗ bytes data bs
  | S (S _) => False
  end%I.

#[global, program] Instance ram_disk : BlockIO ram_getblk ram_rw ram_brelse := {|
  bio_pool := ram_pool;
  bio_sector dev blk bs := (⌜length bs = 512%nat⌝ ∗ bytes (disk + 512 * blk) bs)%I;
  bio_buf bh d := ⌜bh = buf ∧ d = data ∧ buf ≠ NULL ∧ 0 < data⌝%I;
|}.
Next Obligation.
  iIntros (dev blk [|n] Q) "H HQ"; [|done]. iDestruct "H" as "([%Hn %Hd] & Hd & %bs & %Hl & H)". unfold ram_getblk. wp_pures.
  by iApply ("HQ" $! buf data bs with "[//] [//] [//] Hd H").
Qed.
Next Obligation.
  iIntros (dev blk bh d old bs Q Ho) "%Hb Hd H [%Hl Hs] HQ". unfold ram_rw. wp_load. change (ATA_READ =? ATA_READ) with true.
  iApply wp_bind. iApply (memcpy_wp with "Hs H"); [done|done|]. iIntros "Hs H". wp_pures.
  by iApply ("HQ" with "[//] [//] Hd H [$Hs]").
Qed.
Next Obligation.
  iIntros (dev blk bh d bs old Q Hl) "%Hb Hd H [%Ho Hs] HQ". unfold ram_rw. wp_load. change (ATA_WRITE =? ATA_READ) with false.
  iApply wp_bind. iApply (memcpy_wp with "H Hs"); [done|done|].
  iIntros "H Hs". wp_pures. by iApply ("HQ" with "[//] Hd H [$Hs]").
Qed.
Next Obligation.
  iIntros (bh d bs [|[|n]] Q Hl) "(-> & -> & %Hn) Hd H Hp HQ"; unfold ram_brelse; wp_pures; [|iDestruct "Hp" as "(_ & Hp & _)"|done].
  - iApply "HQ". iFrame. done.
  - iDestruct (pt_excl with "Hd Hp") as "[]".
Qed.
Next Obligation. iIntros (bh d) "(_ & -> & _ & $)". Qed.
End ram.

(** The properties of the maps on the disk in memory. *)
Lemma new_block_correct_witness :
  let rd := ram_disk 100000 64 4096 in let bs := 7 :: replicate 511 0 in
  triple (⌜Forall is_byte bs ∧ 0 < 516 ∧ 8 ≠ NULL⌝ ∗ root_super 8 1 1 516 ∗ bio_pool 1 ∗ bio_sector ROOT_DEV (2 + 1) bs)%I
    (new_block (ram_getblk 64) (ram_rw 100000) ram_brelse 8 ROOT_DEV)
    (λ r, root_super 8 1 1 516 ∗
     ((∃ bs' z, ⌜takes bs bs' z ∧ z < BITS_ZONE ∧ r = (516 + z)%Z⌝ ∗ bio_sector ROOT_DEV (2 + 1) bs' ∗ bio_pool 1) ∨
      (⌜bs = replicate (Z.to_nat SECTOR_SIZE) 255 ∧ r = 516⌝ ∗ bio_sector ROOT_DEV (2 + 1) bs ∗ bio_pool 0)))%I.
Proof. intros rd bs. exact (new_block_correct (BlockIO0 := rd) 8 1 516 0 bs). Defined.

Lemma clear_zmap_bit_keeps_witness :
  let rd := ram_disk 100000 64 4096 in let bs := replicate 512 255 in
  triple (⌜0 ≤ 9 < BITS_ZONE⌝ ∗ root_super 8 1 1 516 ∗ bio_pool 1 ∗ bio_sector ROOT_DEV 3 bs)%I
    (clear_zmap_bit (ram_getblk 64) (ram_rw 100000) ram_brelse 8 ROOT_DEV 9)
    (λ r, ⌜r = 0⌝ ∗ root_super 8 1 1 516 ∗ bio_pool 1 ∗ bio_sector ROOT_DEV 3 bs)%I.
Proof. intros rd bs. exact (clear_zmap_bit_keeps (BlockIO0 := rd) 8 1 516 0 9 bs). Defined.

Lemma get_imap_bit_full_witness :
  let rd := ram_disk 100000 64 4096 in
  triple (root_super 8 1 1 516 ∗ bio_pool 1 ∗ bio_sector ROOT_DEV 2 (replicate (Z.to_nat SECTOR_SIZE) 255))%I
    (get_imap_bit (ram_getblk 64) (ram_rw 100000) ram_brelse 8 ROOT_DEV)
    (λ r, ⌜r = 65535⌝ ∗ root_super 8 1 1 516 ∗ bio_pool 0 ∗ bio_sector ROOT_DEV 2 (replicate (Z.to_nat SECTOR_SIZE) 255))%I.
Proof. intros rd. exact (get_imap_bit_full (BlockIO0 := rd) 8 1 516 0). Defined.
