(* ===== verification/Inode.v ===== *)
(** * Inodes: fs/inode.c

    An inode in memory begins with the inode on disk, 64 bytes of a sector of eight.  Copying a
    struct is copying its members; on disk they are bytes, the low one first. *)

From S2P Require Export Fs CList.

Definition I_ALL : Z := 0x1D00.
Definition I_REGULAR : Z := 0x1000.
Definition I_BLOCK_SPECIAL : Z := 0x0600.
Definition I_DIRECTORY : Z := 0x0400.
Definition I_CHAR_SPECIAL : Z := 0x0200.

Definition S_ISBLK (m : Z) : bool := Z.land m I_ALL =? I_BLOCK_SPECIAL.
Definition S_ISCHR (m : Z) : bool := Z.land m I_ALL =? I_CHAR_SPECIAL.
Definition S_ISDIR (m : Z) : bool := Z.land m I_ALL =? I_DIRECTORY.
Definition S_ISREG (m : Z) : bool := Z.land m I_ALL =? I_REGULAR.

Definition store16 (p v : Z) : M unit :=
  store p (u8 v);;
  store (p + 1) (u8 (Z.shiftr v 8)).

(** [i_data[n..]], the [k] elements from the pointers on *)
Fixpoint data_to_disk (src dst : Z) (k : nat) : M unit :=
  match k with
  | O => mret tt
  | S k => v ← load src; store32 dst v;; data_to_disk (src + 4) (dst + 4) k
  end.

Fixpoint data_from_disk (src dst : Z) (k : nat) : M unit :=
  match k with
  | O => mret tt
  | S k => v ← load32 src; store dst v;; data_from_disk (src + 4) (dst + 4) k
  end.

(** The assignment of the [struct d_inode] that an inode in memory begins with to the one at [p], and
    the other way. *)
Definition inode_to_disk (inode p : Z) : M unit :=
  v ← load (inode + i_mode); store16 (p + i_mode) v;;
  v ← load (inode + i_size); store16 (p + i_size) v;;
  v ← load (inode + i_start_sect); store16 (p + i_start_sect) v;;
  v ← load (inode + i_nr_sects); store16 (p + i_nr_sects) v;;
  v ← load (inode + i_flags); store32 (p + i_flags) v;;
  data_to_disk (inode + i_data) (p + i_data) 13.

Definition inode_from_disk (inode p : Z) : M unit :=
  v ← load16 (p + i_mode); store (inode + i_mode) v;;
  v ← load16 (p + i_size); store (inode + i_size) v;;
  v ← load16 (p + i_start_sect); store (inode + i_start_sect) v;;
  v ← load16 (p + i_nr_sects); store (inode + i_nr_sects) v;;
  v ← load32 (p + i_flags); store (inode + i_flags) v;;
  data_from_disk (p + i_data) (inode + i_data) 13.

Fixpoint clear_cells (p step : Z) (k : nat) : M unit :=
  match k with
  | O => mret tt
  | S k => store p 0;; clear_cells (p + step) step k
  end.

(** [memset] of the whole struct: every member becomes 0. *)
Definition clear_m_inode (inode : Z) : M unit :=
  clear_cells (inode + i_mode) 2 4;;
  store (inode + i_flags) 0;;
  clear_cells (inode + i_data) 4 13;;
  clear_cells (inode + i_dev) 2 5;;
  store (inode + i_mmap) 0;;
  store (inode + i_list + list_next) 0;;
  store (inode + i_list + list_prev) 0;;
  store (inode + i_ops) 0;;
  store (inode + i_mapping) 0.

Section inodes.
Context (getblk : Z → Z → M Z) (hd_rw : Z → Z → Z → Z → M Z) (brelse : Z → M unit) (super_block : Z).
(** [kmem_get_obj(inode_cachep)], and the variables [nr_inodes_count], [root_inode] and [pfs]. *)
Context (kmem_get_inode : M Z) (nr_inodes_count root_inode pfs : Z).

(** The sector of the inode [num] and its place in it. *)
Definition inode_block (sb num : Z) : M Z :=
  k ← load (sb + s_nimap_sects);
  z ← load (sb + s_nzmap_sects);
  mret (1 + NR_SUPER_BLOCK_SECTS + k + z + Z.quot (num - 1) (Z.quot SECTOR_SIZE INODE_SIZE)).

Definition inode_place (num : Z) : Z := Z.rem (num - 1) (Z.quot SECTOR_SIZE INODE_SIZE) * INODE_SIZE.

Definition write_inode (inode : Z) : M Z :=
  bad ← (if inode =? NULL then mret true else
         dirty ← load (inode + i_dirty);
         if dirty =? 0 then mret true else
         dev ← load (inode + i_dev); mret (dev =? 0));
  if bad : bool then mret (-1) else
  dev ← load (inode + i_dev);
  num ← load (inode + i_num);
  sb ← get_super_block super_block dev;
  blk_nr ← inode_block sb num;
  bh ← getblk dev blk_nr;
  if bh =? NULL then mret (-2) else
  r ← hd_rw dev blk_nr ATA_READ bh;
  if r <? 0 then mret (-3) else
  d ← load (bh + b_data);
  inode_to_disk inode (d + inode_place num);;
  r ← hd_rw dev blk_nr ATA_WRITE bh;
  if r >? 0 then mret (-4) else
  brelse bh;;
  store (inode + i_dirty) 0;;
  mret 0.

Definition read_inode (inode : Z) : M Z :=
  if inode =? NULL then mret (-1) else
  dev ← load (inode + i_dev);
  num ← load (inode + i_num);
  sb ← get_super_block super_block dev;
  if sb =? NULL then mret (-2) else
  blk_nr ← inode_block sb num;
  bh ← getblk dev blk_nr;
  if bh =? NULL then mret (-3) else
  r ← hd_rw ROOT_DEV blk_nr ATA_READ bh;
  if r <? 0 then mret (-4) else
  d ← load (bh + b_data);
  inode_from_disk inode (d + inode_place num);;
  brelse bh;;
  store (inode + i_num) num;;
  mret 0.

Definition get_empty_inode (dev : Z) : M Z :=
  sb ← get_super_block super_block dev;
  c ← load nr_inodes_count;
  store nr_inodes_count (u16 (c + 1));;
  n ← load (sb + s_ninodes);
  if c >=? n then mret NULL else
  inode ← kmem_get_inode;
  if inode =? NULL then mret NULL else
  clear_m_inode inode;;
  store (inode + i_count) 1;;
  store (inode + i_dev) (u16 dev);;
  list_add (inode + i_list) (sb + s_inodes);;
  mret inode.

Definition _bmap (inode block flag : Z) : M Z := if block <? 0 then panic else mret 0.
Definition bmap (inode block : Z) : M Z := _bmap inode block 0.
Definition create_block (inode block : Z) : M Z := _bmap inode block 1.

(** The search in the list of inodes; NULL when the inode is not there. *)
Definition find_inode (head dev num : Z) : M Z :=
  r ← list_for_each_safe head (λ pos (_ : unit),
    let inode := pos - i_list in
    d ← load (inode + i_dev);
    same ← (if d =? dev then n ← load (inode + i_num); mret (n =? num) else mret false);
    if same : bool then mret (inr inode) else mret (inl tt)) tt;
  match r with inl _ => mret NULL | inr inode => mret inode end.

Definition iget (dev num : Z) : M Z :=
  if dev =? 0 then panic else
  sb ← get_super_block super_block dev;
  let head := sb + s_inodes in
  e ← list_empty_careful head;
  found ← (if e : bool then mret NULL else find_inode head dev num);
  if negb (found =? NULL) then mret found else
  inode ← get_empty_inode dev;
  if inode =? NULL then mret NULL else
  store (inode + i_ops) pfs;;
  store (inode + i_num) (u16 num);;
  r ← read_inode inode;
  if r <? 0 then mret NULL else mret inode.

Definition free_inode (inode : Z) : M Z :=
  if inode =? NULL then mret (-1) else
  c ← load (inode + i_count);
  if c >? 1 then panic else
  dev ← load (inode + i_dev);
  sb ← get_super_block super_block dev;
  if sb =? NULL then panic else
  num ← load (inode + i_num);
  n ← load (sb + s_ninodes);
  if (num <? 1) || (num >? n) then panic else
  dev ← load (inode + i_dev);
  if dev =? 0 then
    list_del (inode + i_list);;
    dev ← load (inode + i_dev);
    num ← load (inode + i_num);
    clear_imap_bit getblk hd_rw brelse super_block dev num;;
    clear_m_inode inode;;
    mret 0
  else mret (-1).

Definition iput (inode : Z) : M Z :=
  if inode =? NULL then mret (-1) else
  c ← load (inode + i_count);
  if c =? 0 then mret (-2) else
  root ← load root_inode;
  if inode =? root then mret (-3) else
  dev ← load (inode + i_dev);
  if dev =? 0 then mret (-4) else
  m ← load (inode + i_mode);
  if S_ISBLK m || S_ISCHR m then mret (-5) else
  c ← load (inode + i_count);
  store (inode + i_count) (s16 (c - 1));;
  if s16 (c - 1) >? 0 then mret 0 else
  dirty ← load (inode + i_dirty);
  (if negb (dirty =? 0) then write_inode inode;; mret tt else mret tt);;
  list_del (inode + i_list);;
  free_inode inode;;
  mret 0.
End inodes.
