(* ===== verification/InodeSpec.v ===== *)
(** * Inodes on disk and in memory *)

From S2P Require Export Inode FsSpec.

(** ** Little-endian integers *)

Definition le16 (v : Z) : list Z := [u8 v; u8 (Z.shiftr v 8)].
Definition le32 (v : Z) : list Z := [u8 v; u8 (Z.shiftr v 8); u8 (Z.shiftr v 16); u8 (Z.shiftr v 24)].

Lemma lor_shiftl_add a b n : 0 ≤ n → 0 ≤ a < 2 ^ n → Z.lor a (Z.shiftl b n) = a + b * 2 ^ n.
Proof.
  intros Hn Ha. rw -Z.shiftl_mul_pow2; [|done]. rw -Z.add_lor_land.
  assert (Z.land a (Z.shiftl b n) = 0) as ->; [|lia]. apply Z.bits_inj'. intros i Hi. rw Z.land_spec Z.bits_0.
  destruct (decide (i < n)); [by rw Z.shiftl_spec_low ?andb_false_r|].
  rw -(Z.mod_small a (2 ^ n)); [|done]. by rw Z.mod_pow2_bits_high; [|lia].
Qed.

Lemma u8_land_id v : Z.land (u8 v) 0xff = u8 v.
Proof. change 0xff with (Z.ones 8). rw Z.land_ones; [|lia]. unfold u8. apply Zmod_mod. Qed.

Lemma le16_value v : 0 ≤ v < 2 ^ 16 →
  Z.lor (Z.land (u8 v) 0xff) (Z.shiftl (Z.land (u8 (Z.shiftr v 8)) 0xff) 8) = v.
Proof.
  intros Hv. rw !u8_land_id lor_shiftl_add; [|lia|apply Z.mod_pos_bound; lia].
  unfold u8. rw Z.shiftr_div_pow2; [|lia]. dlia.
Qed.

Lemma store16_wp p v old (Q : unit → heapProp) : length old = 2%nat →
  bytes p old -∗ (bytes p (le16 v) -∗ Q tt) -∗ wp (store16 p v) Q.
Proof.
  destruct old as [|a [|b [|]]]; try done. iIntros (_) "H HQ". unfold store16, le16. rw !arr_cons.
  iDestruct "H" as "(Ha & Hb & _)". wp_store. wp_store. iApply "HQ". iFrame. by rw arr_nil.
Qed.

Lemma load16_wp p v Q : 0 ≤ v < 2 ^ 16 →
  bytes p (le16 v) -∗ (bytes p (le16 v) -∗ Q v) -∗ wp (load16 p) Q.
Proof.
  iIntros (Hv) "H HQ". unfold load16, le16. iEval (rw !arr_cons) in "H". iDestruct "H" as "(Ha & Hb & Hn)". wp_load. wp_load.
  rw le16_value; [|done]. iApply "HQ". rw !arr_cons. iFrame.
Qed.

Lemma store32_wp p v old (Q : unit → heapProp) : length old = 4%nat →
  bytes p old -∗ (bytes p (le32 v) -∗ Q tt) -∗ wp (store32 p v) Q.
Proof.
  destruct old as [|a [|b [|c [|d [|]]]]]; try done. iIntros (_) "H HQ". unfold store32, le32. rw !arr_cons.
  iDestruct "H" as "(Ha & Hb & Hc & Hd & Hn)".
  replace (p + 1 + 1 + 1) with (p + 3) by lia. replace (p + 1 + 1) with (p + 2) by lia.
  do 4 wp_store. iApply "HQ". iFrame.
Qed.

Lemma le32_app v : 0 ≤ v < 2 ^ 32 → le32 v = le16 (v mod 2 ^ 16) ++ le16 (Z.shiftr v 16).
Proof.
  intros Hv. unfold le32, le16, u8. cbn [app]. rw !Z.shiftr_div_pow2; [|lia..].
  rw (_ : v mod 2 ^ 16 mod 2 ^ 8 = v mod 2 ^ 8); [|dlia].
  rw (_ : v mod 2 ^ 16 / 2 ^ 8 mod 2 ^ 8 = v / 2 ^ 8 mod 2 ^ 8); [|dlia].
  by rw (_ : v / 2 ^ 16 / 2 ^ 8 = v / 2 ^ 24); [|dlia].
Qed.

Lemma load32_wp p v Q : 0 ≤ v < 2 ^ 32 →
  bytes p (le32 v) -∗ (bytes p (le32 v) -∗ Q v) -∗ wp (load32 p) Q.
Proof.
  iIntros (Hv) "H HQ". unfold load32. rw le32_app; [|done]. rw arr_app. iDestruct "H" as "[H1 H2]".
  change (p + 1 * length (le16 (v mod 2 ^ 16))) with (p + 2). iApply wp_bind.
  iApply (load16_wp with "H1"); [apply Z.mod_pos_bound; lia|]. iIntros "H1". iApply wp_bind.
  iApply (load16_wp with "H2"); [rw Z.shiftr_div_pow2; [|lia]; dlia|]. iIntros "H2". wp_pures.
  rw lor_shiftl_add; [|lia|apply Z.mod_pos_bound; lia]. rw Z.shiftr_div_pow2; [|lia].
  rw (_ : v mod 2 ^ 16 + v / 2 ^ 16 * 2 ^ 16 = v); [|dlia]. iApply ("HQ" with "[$H1 $H2]").
Qed.

(** ** Copying an inode *)

(** The part of an inode that is on disk: four 16-bit members and fourteen of 32 bits. *)
Definition dinode (inode : Z) (hs ws : list Z) : heapProp :=
  (⌜length hs = 4%nat ∧ length ws = 14%nat⌝ ∗ arr inode 2 hs ∗ arr (inode + i_flags) 4 ws)%I.

Definition inode_bytes (hs ws : list Z) : list Z := (hs ≫= le16) ++ (ws ≫= le32).

Definition inode_ok (hs ws : list Z) : Prop := Forall (λ v, 0 ≤ v < 2 ^ 16) hs ∧ Forall (λ v, 0 ≤ v < 2 ^ 32) ws.

Lemma bind_cons {A B} (f : A → list B) x xs : (x :: xs) ≫= f = f x ++ (xs ≫= f).
Proof. done. Qed.

Lemma length_le32s ws : length (ws ≫= le32) = (4 * length ws)%nat.
Proof. induction ws as [|w ws IH]; [done|]. rw bind_cons length_app IH. simpl. lia. Qed.

Lemma length_le16s ws : length (ws ≫= le16) = (2 * length ws)%nat.
Proof. induction ws as [|w ws IH]; [done|]. rw bind_cons length_app IH. simpl. lia. Qed.

Lemma data_to_disk_wp vs src dst old (Q : unit → heapProp) : length old = (4 * length vs)%nat →
  arr src 4 vs -∗ bytes dst old -∗ (arr src 4 vs -∗ bytes dst (vs ≫= le32) -∗ Q tt) -∗
  wp (data_to_disk src dst (length vs)) Q.
Proof.
  revert src dst old. induction vs as [|v vs IH]; intros src dst old Hl; iIntros "Hs Hd HQ"; cbn [data_to_disk length].
  - destruct old; [|done]. wp_pures. iApply ("HQ" with "Hs Hd").
  - rw -{1}(take_drop 4 old). iEval (rw arr_app length_take_le; [|simpl in Hl; lia]) in "Hd". iDestruct "Hd" as "[Hd1 Hd]".
    iEval (rw arr_cons) in "Hs". iDestruct "Hs" as "[Hv Hs]". wp_load. iApply wp_bind.
    iApply (store32_wp with "Hd1"); [rw length_take_le; simpl in Hl; lia|]. iIntros "Hd1".
    iApply (IH with "Hs Hd"); [rw length_drop; simpl in Hl; lia|]. iIntros "Hs Hd".
    iApply ("HQ" with "[Hv Hs] [Hd1 Hd]"); [rw arr_cons; iFrame|]. rw bind_cons arr_app. iFrame.
Qed.

Lemma data_from_disk_wp vs src dst old (Q : unit → heapProp) : Forall (λ v, 0 ≤ v < 2 ^ 32) vs → length old = length vs →
  bytes src (vs ≫= le32) -∗ arr dst 4 old -∗ (bytes src (vs ≫= le32) -∗ arr dst 4 vs -∗ Q tt) -∗
  wp (data_from_disk src dst (length vs)) Q.
Proof.
  intros Hvs. revert src dst old. induction Hvs as [|v vs Hv Hvs IH]; intros src dst [|o old] Hl; try done; iIntros "Hs Hd HQ"; cbn [data_from_disk length].
  - wp_pures. iApply ("HQ" with "Hs Hd").
  - iEval (rw bind_cons arr_app) in "Hs". iDestruct "Hs" as "[Hv Hs]". iEval (rw arr_cons) in "Hd". iDestruct "Hd" as "[Ho Hd]".
    iApply wp_bind. iApply (load32_wp with "Hv"); [done|]. iIntros "Hv". wp_store. change (1 * length (le32 v)) with 4.
    iApply (IH with "Hs Hd"); [by injection Hl|]. iIntros "Hs Hd".
    iApply ("HQ" with "[Hv Hs]"); [rw bind_cons arr_app; iFrame|]. rw arr_cons. iFrame.
Qed.

(** The members one by one. *)
Lemma bytes_members p (o1 o2 o3 o4 o5 o6 : list Z) :
  length o1 = 2%nat → length o2 = 2%nat → length o3 = 2%nat → length o4 = 2%nat → length o5 = 4%nat →
  bytes p (o1 ++ o2 ++ o3 ++ o4 ++ o5 ++ o6) ⊣⊢
  bytes (p + i_mode) o1 ∗ bytes (p + i_size) o2 ∗ bytes (p + i_start_sect) o3 ∗ bytes (p + i_nr_sects) o4 ∗
  bytes (p + i_flags) o5 ∗ bytes (p + i_data) o6.
Proof.
  intros H1 H2 H3 H4 H5. rw !arr_app H1 H2 H3 H4 H5.
  rw (_ : p + 1 * 2%nat + 1 * 2%nat + 1 * 2%nat + 1 * 2%nat + 1 * 4%nat = p + i_data); [|unfold i_data; lia].
  rw (_ : p + 1 * 2%nat + 1 * 2%nat + 1 * 2%nat + 1 * 2%nat = p + i_flags); [|unfold i_flags; lia].
  rw (_ : p + 1 * 2%nat + 1 * 2%nat + 1 * 2%nat = p + i_nr_sects); [|unfold i_nr_sects; lia].
  rw (_ : p + 1 * 2%nat + 1 * 2%nat = p + i_start_sect); [|unfold i_start_sect; lia].
  by rw (_ : p + i_mode = p); [|unfold i_mode; lia].
Qed.

Lemma split_members (old : list Z) : length old = 64%nat → ∃ o1 o2 o3 o4 o5 o6 : list Z, old = o1 ++ o2 ++ o3 ++ o4 ++ o5 ++ o6 ∧
  length o1 = 2%nat ∧ length o2 = 2%nat ∧ length o3 = 2%nat ∧ length o4 = 2%nat ∧ length o5 = 4%nat ∧ length o6 = 52%nat.
Proof.
  intros H. exists (take 2 old), (take 2 (drop 2 old)), (take 2 (drop 4 old)), (take 2 (drop 6 old)), (take 4 (drop 8 old)), (drop 12 old).
  split_and!; [|rw ?length_take ?length_drop; lia..].
  rw (_ : drop 12 old = drop 4 (drop 8 old)); [|by rw drop_drop]. rw take_drop.
  rw (_ : drop 8 old = drop 2 (drop 6 old)); [|by rw drop_drop]. rw take_drop.
  rw (_ : drop 6 old = drop 2 (drop 4 old)); [|by rw drop_drop]. rw take_drop.
  rw (_ : drop 4 old = drop 2 (drop 2 old)); [|by rw drop_drop]. by rw !take_drop.
Qed.

Lemma dinode_members inode h1 h2 h3 h4 fl ws : length ws = 13%nat →
  dinode inode [h1; h2; h3; h4] (fl :: ws) ⊣⊢
  (inode + i_mode) ↦ h1 ∗ (inode + i_size) ↦ h2 ∗ (inode + i_start_sect) ↦ h3 ∗ (inode + i_nr_sects) ↦ h4 ∗
  (inode + i_flags) ↦ fl ∗ arr (inode + i_data) 4 ws.
Proof.
  intros Hw. unfold dinode. rw !arr_cons arr_nil.
  rw (_ : inode + i_flags + 4 = inode + i_data); [|unfold i_data, i_flags; lia].
  rw (_ : inode + 2 + 2 + 2 = inode + i_nr_sects); [|unfold i_nr_sects; lia].
  rw (_ : inode + 2 + 2 = inode + i_start_sect); [|unfold i_start_sect; lia].
  rw (_ : inode + i_mode = inode); [|unfold i_mode; lia].
  iSplit; [iIntros "(_ & ($ & $ & $ & $ & _) & $ & $)"|iIntros "($ & $ & $ & $ & $ & $)"]. simpl. iPureIntro. by rw Hw.
Qed.

Lemma inode_to_disk_wp inode p hs ws old (Q : unit → heapProp) : length old = 64%nat →
  dinode inode hs ws -∗ bytes p old -∗ (dinode inode hs ws -∗ bytes p (inode_bytes hs ws) -∗ Q tt) -∗
  wp (inode_to_disk inode p) Q.
Proof.
  intros Ho. iIntros "Hi Hd HQ". iAssert ⌜length hs = 4%nat ∧ length ws = 14%nat⌝%I as %[Hlh Hlw]; [by iDestruct "Hi" as "[$ _]"|].
  destruct hs as [|h1 [|h2 [|h3 [|h4 [|]]]]]; try done. destruct ws as [|fl ws]; [done|]. injection Hlw as Hlw.
  destruct (split_members old Ho) as (o1 & o2 & o3 & o4 & o5 & o6 & -> & L1 & L2 & L3 & L4 & L5 & L6).
  iEval (rw dinode_members; [|done]) in "Hi". iDestruct "Hi" as "(I1 & I2 & I3 & I4 & I5 & I6)".
  iEval (rw bytes_members; [|done..]) in "Hd". iDestruct "Hd" as "(D1 & D2 & D3 & D4 & D5 & D6)". unfold inode_to_disk.
  wp_load. wp_focus. iApply (store16_wp with "D1"); [done|]. iIntros "D1".
  wp_load. wp_focus. iApply (store16_wp with "D2"); [done|]. iIntros "D2".
  wp_load. wp_focus. iApply (store16_wp with "D3"); [done|]. iIntros "D3".
  wp_load. wp_focus. iApply (store16_wp with "D4"); [done|]. iIntros "D4".
  wp_load. wp_focus. iApply (store32_wp with "D5"); [done|]. iIntros "D5". wp_pures. rw -Hlw.
  iApply (data_to_disk_wp with "I6 D6"); [lia|]. iIntros "I6 D6". iApply ("HQ" with "[I1 I2 I3 I4 I5 I6]").
  - rw dinode_members; [|done]. iFrame.
  - unfold inode_bytes. rw !bind_cons app_nil_r -!app_assoc bytes_members; [|done..]. iFrame.
Qed.

Lemma inode_from_disk_wp inode p hs ws hs0 ws0 (Q : unit → heapProp) : inode_ok hs ws → length hs = 4%nat → length ws = 14%nat →
  dinode inode hs0 ws0 -∗ bytes p (inode_bytes hs ws) -∗ (dinode inode hs ws -∗ bytes p (inode_bytes hs ws) -∗ Q tt) -∗
  wp (inode_from_disk inode p) Q.
Proof.
  intros [Hh Hw] Hlh Hlw. iIntros "Hi Hd HQ". iAssert ⌜length hs0 = 4%nat ∧ length ws0 = 14%nat⌝%I as %[Hl0 Hl1]; [by iDestruct "Hi" as "[$ _]"|].
  destruct hs0 as [|? [|? [|? [|? [|]]]]]; try done. destruct ws0 as [|? ws0]; [done|]. injection Hl1 as Hl1.
  destruct hs as [|h1 [|h2 [|h3 [|h4 [|]]]]]; try done. destruct ws as [|fl ws]; [done|]. injection Hlw as Hlw.
  decompose_Forall_hyps. iEval (rw dinode_members; [|done]) in "Hi". iDestruct "Hi" as "(I1 & I2 & I3 & I4 & I5 & I6)".
  iEval (unfold inode_bytes; rw !bind_cons app_nil_r -!app_assoc bytes_members; [|done..]) in "Hd".
  iDestruct "Hd" as "(D1 & D2 & D3 & D4 & D5 & D6)". unfold inode_from_disk.
  iApply wp_bind. iApply (load16_wp with "D1"); [done|]. iIntros "D1". wp_store.
  iApply wp_bind. iApply (load16_wp with "D2"); [done|]. iIntros "D2". wp_store.
  iApply wp_bind. iApply (load16_wp with "D3"); [done|]. iIntros "D3". wp_store.
  iApply wp_bind. iApply (load16_wp with "D4"); [done|]. iIntros "D4". wp_store.
  iApply wp_bind. iApply (load32_wp with "D5"); [done|]. iIntros "D5". wp_store. rw -Hlw.
  iApply (data_from_disk_wp with "D6 I6"); [done|lia|]. iIntros "D6 I6". iApply ("HQ" with "[I1 I2 I3 I4 I5 I6]").
  - rw dinode_members; [|done]. iFrame.
  - unfold inode_bytes. rw !bind_cons app_nil_r -!app_assoc bytes_members; [|done..]. iFrame.
Qed.

(** ** Writing and reading inodes *)

(** Where the inode [num] is: its sector, after those of the maps, and its place in it. *)
Definition inode_sector (k z num : Z) : Z := 2 + k + z + (num - 1) / 8.
Definition inode_offset (num : Z) : nat := Z.to_nat (64 * ((num - 1) mod 8)).

(** A sector with the bytes [xs] at the place of the inode [num]. *)
Definition put_inode (num : Z) (xs bs : list Z) : list Z :=
  take (inode_offset num) bs ++ xs ++ drop (inode_offset num + 64) bs.

Lemma inode_place_offset num : 1 ≤ num → inode_place num = Z.of_nat (inode_offset num) ∧ (inode_offset num + 64 ≤ 512)%nat.
Proof.
  intros Hn. unfold inode_place, inode_offset. change (Z.quot SECTOR_SIZE INODE_SIZE) with 8. rw Z.rem_mod_nonneg; [|lia..].
  unfold INODE_SIZE. dlia.
Qed.

Lemma length_inode_bytes hs ws : length hs = 4%nat → length ws = 14%nat → length (inode_bytes hs ws) = 64%nat.
Proof. intros H1 H2. unfold inode_bytes. by rw length_app length_le16s length_le32s H1 H2. Qed.

Lemma length_put_inode num xs bs : 1 ≤ num → length bs = 512%nat → length xs = 64%nat → length (put_inode num xs bs) = 512%nat.
Proof.
  intros Hn Hb Hx. destruct (inode_place_offset num Hn) as [_ Ho]. unfold put_inode.
  rw !length_app length_take length_drop Hx. lia.
Qed.

(** The three parts of a sector. *)
Lemma bytes_place d num xs bs : 1 ≤ num → length bs = 512%nat → length xs = 64%nat →
  bytes d (put_inode num xs bs) ⊣⊢ bytes d (take (inode_offset num) bs) ∗ bytes (d + inode_place num) xs ∗
    bytes (d + inode_place num + 64) (drop (inode_offset num + 64) bs).
Proof.
  intros Hn Hb Hx. destruct (inode_place_offset num Hn) as [-> Ho]. unfold put_inode.
  rw !arr_app length_take_le; [|lia]. rw Hx !Z.mul_1_l. done.
Qed.

Lemma put_inode_old num bs : (inode_offset num + 64 ≤ length bs)%nat →
  put_inode num (take 64 (drop (inode_offset num) bs)) bs = bs.
Proof.
  intros Ho. unfold put_inode. rw -(drop_drop bs 64 (inode_offset num)). by rw !take_drop.
Qed.

Lemma put_inode_twice num xs ys bs : 1 ≤ num → length bs = 512%nat → length xs = 64%nat →
  put_inode num ys (put_inode num xs bs) = put_inode num ys bs.
Proof.
  intros Hn Hb Hx. destruct (inode_place_offset num Hn) as [_ Ho]. unfold put_inode. f_equal; [|f_equal].
  - rw take_app_length'; [done|]. rw length_take_le; lia.
  - rw app_assoc drop_app_length'; [done|]. rw length_app length_take_le; lia.
Qed.


(** The members of an inode in memory that say which it is. *)
Definition inode_id (inode dev num : Z) : heapProp :=
  (⌜inode ≠ NULL⌝ ∗ (inode + i_dev) ↦ dev ∗ (inode + i_num) ↦ num)%I.

Section spec.
Context {getblk : Z → Z → M Z} {hd_rw : Z → Z → Z → Z → M Z} {brelse : Z → M unit} `{!BlockIO getblk hd_rw brelse}.
Context (super_block : Z).

Lemma inode_block_wp k z f num Q : 1 ≤ num →
  root_super super_block k z f -∗ (root_super super_block k z f -∗ Q (inode_sector k z num)) -∗
  wp (inode_block super_block num) Q.
Proof.
  intros Hn. iIntros "(H1 & H2 & H3 & H4) HQ". unfold inode_block. wp_load. wp_load.
  change (Z.quot SECTOR_SIZE INODE_SIZE) with 8. rw Z.quot_div_nonneg; [|lia..].
  change (1 + NR_SUPER_BLOCK_SECTS) with 2. iApply "HQ". iFrame.
Qed.

Lemma write_inode_wp inode num dirty hs ws k z f n bs Q : dirty ≠ 0 → 1 ≤ num →
  dinode inode hs ws -∗ inode_id inode ROOT_DEV num -∗ (inode + i_dirty) ↦ dirty -∗ root_super super_block k z f -∗
  bio_pool (S n) -∗ bio_sector ROOT_DEV (inode_sector k z num) bs -∗
  (dinode inode hs ws -∗ inode_id inode ROOT_DEV num -∗ (inode + i_dirty) ↦ 0 -∗ root_super super_block k z f -∗
   bio_pool (S n) -∗ ⌜length bs = 512%nat⌝ -∗
   bio_sector ROOT_DEV (inode_sector k z num) (put_inode num (inode_bytes hs ws) bs) -∗ Q 0) -∗
  wp (write_inode getblk hd_rw brelse super_block inode) Q.
Proof.
  intros Hd Hn. iIntros "Hi (%Hin & Hdev & Hnum) Hdirty Hsb Hp Hs HQ". unfold write_inode.
  rw (proj2 (Z.eqb_neq _ _) Hin). wp_load. rw (proj2 (Z.eqb_neq _ _) Hd). wp_load.
  change (ROOT_DEV =? 0) with false. wp_load. wp_load. iApply wp_bind. iApply (get_super_block_wp with "Hsb"). iIntros "Hsb".
  iApply wp_bind. iApply (inode_block_wp with "Hsb"); [done|]. iIntros "Hsb". iApply wp_bind.
  iApply (getblk_wp with "Hp"). iIntros (bh d old) "(%Hbh & %Hl) Hp Hb Hd H". rw (proj2 (Z.eqb_neq _ _) Hbh).
  iApply wp_bind. iApply (read_wp with "Hb Hd H Hs"); [done|]. iIntros "%Hlb Hb Hd H Hs". change (0 <? 0) with false. wp_load.
  destruct (inode_place_offset num Hn) as [_ Ho]. change (Z.to_nat SECTOR_SIZE) with 512%nat in Hlb.
  assert (length (take 64 (drop (inode_offset num) bs)) = 64%nat) as Hx by (rw length_take length_drop; lia).
  pose proof (bytes_place d num _ bs Hn Hlb Hx) as E. rw (put_inode_old num bs) in E; [|lia].
  iEval (rw E) in "H". iDestruct "H" as "(Ha & Hx & Hc)".
  iAssert ⌜length hs = 4%nat ∧ length ws = 14%nat⌝%I as %[Hlh Hlw]; [by iDestruct "Hi" as "[$ _]"|].
  iApply wp_bind. iApply (inode_to_disk_wp with "Hi Hx"); [done|]. iIntros "Hi Hx".
  assert (length (inode_bytes hs ws) = 64%nat) as Hlx by by apply length_inode_bytes.
  iApply wp_bind. iApply (write_wp _ _ _ _ (put_inode num (inode_bytes hs ws) bs) with "Hb Hd [Ha Hx Hc] Hs").
  { by apply length_put_inode. } { rw bytes_place; [|done..]. iFrame. }
  iIntros "Hb Hd H Hs". change (0 >? 0) with false. iApply wp_bind.
  iApply (brelse_wp with "Hb Hd H Hp"); [by apply length_put_inode|]. iIntros "Hp". wp_store.
  iApply ("HQ" with "Hi [$Hdev $Hnum //] Hdirty Hsb Hp [//] Hs").
Qed.

Lemma read_inode_wp inode num hs0 ws0 hs ws k z f n bs Q : inode_ok hs ws → length hs = 4%nat → length ws = 14%nat → 1 ≤ num →
  super_block ≠ NULL → length bs = 512%nat →
  dinode inode hs0 ws0 -∗ inode_id inode ROOT_DEV num -∗ root_super super_block k z f -∗
  bio_pool (S n) -∗ bio_sector ROOT_DEV (inode_sector k z num) (put_inode num (inode_bytes hs ws) bs) -∗
  (dinode inode hs ws -∗ inode_id inode ROOT_DEV num -∗ root_super super_block k z f -∗
   bio_pool (S n) -∗ bio_sector ROOT_DEV (inode_sector k z num) (put_inode num (inode_bytes hs ws) bs) -∗ Q 0) -∗
  wp (read_inode getblk hd_rw brelse super_block inode) Q.
Proof.
  intros Hok Hlh Hlw Hn Hsb Hlb. iIntros "Hi (%Hin & Hdev & Hnum) Hsb Hp Hs HQ". unfold read_inode.
  rw (proj2 (Z.eqb_neq _ _) Hin). wp_load. wp_load. iApply wp_bind. iApply (get_super_block_wp with "Hsb"). iIntros "Hsb".
  rw (proj2 (Z.eqb_neq _ _) Hsb). iApply wp_bind. iApply (inode_block_wp with "Hsb"); [done|]. iIntros "Hsb". iApply wp_bind.
  iApply (getblk_wp with "Hp"). iIntros (bh d old) "(%Hbh & %Hl) Hp Hb Hd H". rw (proj2 (Z.eqb_neq _ _) Hbh).
  iApply wp_bind. iApply (read_wp with "Hb Hd H Hs"); [done|]. iIntros "_ Hb Hd H Hs". change (0 <? 0) with false. wp_load.
  assert (length (inode_bytes hs ws) = 64%nat) as Hlx by by apply length_inode_bytes.
  iEval (rw bytes_place; [|done..]) in "H". iDestruct "H" as "(Ha & Hx & Hc)".
  iApply wp_bind. iApply (inode_from_disk_wp with "Hi Hx"); [done..|]. iIntros "Hi Hx". iApply wp_bind.
  iApply (brelse_wp _ _ (put_inode num (inode_bytes hs ws) bs) with "Hb Hd [Ha Hx Hc] Hp").
  { by apply length_put_inode. } { rw bytes_place; [|done..]. iFrame. }
  iIntros "Hp". wp_store. iApply ("HQ" with "Hi [$Hdev $Hnum //] Hsb Hp Hs").
Qed.

(** What [write_inode] writes to the disk, [read_inode] reads again into any other inode of the
    same number: all members that are on disk have the same values, the other seven inodes of the sector stay as
    they are, and all buffers are released. *)
Theorem inode_roundtrip a b num dirty hs ws hs0 ws0 k z f n bs :
  {{ ⌜dirty ≠ 0 ∧ 1 ≤ num ∧ inode_ok hs ws ∧ super_block ≠ NULL⌝ ∗ root_super super_block k z f ∗ bio_pool (S n) ∗
     bio_sector ROOT_DEV (inode_sector k z num) bs ∗
     dinode a hs ws ∗ inode_id a ROOT_DEV num ∗ (a + i_dirty) ↦ dirty ∗ dinode b hs0 ws0 ∗ inode_id b ROOT_DEV num }}
    (write_inode getblk hd_rw brelse super_block a;; read_inode getblk hd_rw brelse super_block b)
  {{ r, ⌜r = 0⌝ ∗ root_super super_block k z f ∗ bio_pool (S n) ∗
     bio_sector ROOT_DEV (inode_sector k z num) (put_inode num (inode_bytes hs ws) bs) ∗
     dinode a hs ws ∗ (a + i_dirty) ↦ 0 ∗ dinode b hs ws ∗ inode_id b ROOT_DEV num }}.
Proof.
  apply triple_wp. iIntros "((%Hd & %Hn & %Hok & %Hsb) & Hsb & Hp & Hs & Ha & Hia & Hda & Hb & Hib)".
  iAssert ⌜length hs = 4%nat ∧ length ws = 14%nat⌝%I as %[Hlh Hlw]; [by iDestruct "Ha" as "[$ _]"|].
  iApply wp_bind. iApply (write_inode_wp with "Ha Hia Hda Hsb Hp Hs"); [done..|]. iIntros "Ha Hia Hda Hsb Hp %Hlb Hs".
  iApply (read_inode_wp with "Hb Hib Hsb Hp Hs"); [done..|]. iIntros "Hb Hib Hsb Hp Hs". by iFrame.
Qed.

(** ** The list of inodes *)

Definition ino_link (x : Z * Z * Z) : Z := x.1.1 + i_list.

(** The inodes of the super block: address, device and number. *)
Definition inode_list (xs : list (Z * Z * Z)) : heapProp :=
  (dlist (super_block + s_inodes) (ino_link <$> xs) ∗ [∗ list] x ∈ xs, inode_id x.1.1 x.1.2 x.2)%I.

Definition is_inode (dev num : Z) (x : Z * Z * Z) : bool := (x.1.2 =? dev) && (x.2 =? num).

(** The first inode with the number, NULL when there is none. *)
Definition inode_of (dev num : Z) (xs : list (Z * Z * Z)) : Z :=
  from_option (λ x, x.1.1) NULL (head (filter (is_inode dev num) xs)).

Lemma inode_of_app dev num xs x ys : inode_of dev num xs = NULL → Forall (λ x, x.1.1 ≠ NULL) xs →
  inode_of dev num (xs ++ x :: ys) = if is_inode dev num x then x.1.1 else inode_of dev num ys.
Proof.
  intros H Hn. unfold inode_of in *. rw filter_app. destruct (filter (is_inode dev num) xs) as [|y l] eqn:E.
  - simpl. destruct (is_inode dev num x) eqn:Ex.
    + by rw filter_cons_True; [|by apply Is_true_true].
    + by rw filter_cons_False; [|by apply Is_true_false].
  - simpl in H. assert (y ∈ filter (is_inode dev num) xs) as [_ Hy]%list_elem_of_filter by (rw E; by left).
    by rw Forall_forall in Hn; destruct (Hn y Hy).
Qed.

Lemma find_inode_wp dev num xs Q :
  inode_list xs -∗ (inode_list xs -∗ Q (inode_of dev num xs)) -∗
  wp (find_inode (super_block + s_inodes) dev num) Q.
Proof.
  iIntros "[Hd H] HQ". iAssert ⌜Forall (λ x, x.1.1 ≠ NULL) xs⌝%I as %Hnn.
  { rw Forall_forall. iIntros (x Hx). apply list_elem_of_lookup in Hx as [i Hi].
    iDestruct (big_sepL_lookup _ _ i x with "H") as "[$ _]". done. }
  unfold find_inode. iApply wp_bind. iApply (wp_wand with "[Hd H]"); first iApply (list_for_each_safe_wp _ _
    (λ ds ys _, ∃ xs1 xs2, ⌜xs = xs1 ++ xs2 ∧ ds = ino_link <$> xs1 ∧ ys = ino_link <$> xs2 ∧
       inode_of dev num xs1 = NULL⌝ ∗ [∗ list] x ∈ xs, inode_id x.1.1 x.1.2 x.2)%I
    (λ r, match r with inl _ => ⌜inode_of dev num xs = NULL⌝ | inr r => ⌜r = inode_of dev num xs⌝ end ∗ inode_list xs)%I
    (ino_link <$> xs)).
  - intros ds p ys a. iIntros "[Hd (%xs1 & %xs2 & (-> & -> & %Hys & %Hno) & H)]".
    destruct xs2 as [|x xs2]; [done|]. rw fmap_cons in Hys. injection Hys as -> ->.
    apply Forall_app in Hnn as [Hnn _]. pose proof (inode_of_app dev num xs1 x xs2 Hno Hnn) as Hof.
    iDestruct (big_sepL_lookup_acc _ _ (length xs1) x with "H") as "[(%Hx & Hxd & Hxn) H]"; [by apply list_lookup_middle|].
    unfold ino_link at 1. rw Z.add_simpl_r. wp_load. iApply wp_bind.
    iApply (wp_wand _ (λ r, ⌜r = is_inode dev num x⌝ ∗ (x.1.1 + i_num) ↦ x.2)%I with "[Hxn]").
    { unfold is_inode. destruct (x.1.2 =? dev); [wp_load|wp_pures]; by iFrame. }
    iIntros (r) "[-> Hxn]". iDestruct ("H" with "[$Hxd $Hxn //]") as "H". rw -fmap_cons -fmap_app.
    destruct (is_inode dev num x) eqn:Ex; wp_pures.
    + iFrame. done.
    + iExists (ino_link <$> (xs1 ++ [x])). rw -fmap_app -app_assoc. iFrame "Hd". iExists (xs1 ++ [x]), xs2.
      iFrame. iPureIntro. split_and!; [by rw -app_assoc|done|done|]. by rw inode_of_app ?Ex.
  - intros ds a. iIntros "[Hd (%xs1 & %xs2 & (-> & -> & %Hys & %Hno) & H)]". destruct xs2; [|done].
    rw app_nil_r. by iFrame.
  - iFrame. by iExists [], xs.
  - iIntros ([a|r]) "[%Hr H]"; wp_pures; [rw -Hr|rw Hr]; by iApply "HQ".
Qed.

(** An inode that is in memory already is the one [iget] returns: nothing is read or allocated.  No
    count of users changes either, so that the second user's [iput] drops the inode the first one still has. *)
Theorem iget_cached k z f dev num x xs kmem_get_inode nr_inodes_count pfs :
  {{ ⌜dev = ROOT_DEV ∧ inode_of dev num (x :: xs) ≠ NULL⌝ ∗ root_super super_block k z f ∗ inode_list (x :: xs) }}
    iget getblk hd_rw brelse super_block kmem_get_inode nr_inodes_count pfs dev num
  {{ r, ⌜r = inode_of dev num (x :: xs)⌝ ∗ root_super super_block k z f ∗ inode_list (x :: xs) }}.
Proof.
  apply triple_wp. iIntros "((-> & %Hof) & Hsb & H)". unfold iget. change (ROOT_DEV =? 0) with false. iApply wp_bind.
  iApply (get_super_block_wp with "Hsb"). iIntros "Hsb". iDestruct "H" as "[Hd H]". iApply wp_bind.
  iApply (list_empty_careful_wp with "Hd"). iIntros "Hd". rw bool_decide_false; [|done]. iApply wp_bind.
  iApply (find_inode_wp with "[$Hd $H]"). iIntros "H". rw (proj2 (Z.eqb_neq _ _) Hof). wp_pures. by iFrame.
Qed.
End spec.

(** The masks of the file types: no mode is one of a block or of a character device, since the bits of
    these types are not all in [I_ALL]; a block device counts as a directory. *)
Theorem device_modes m : S_ISBLK m = false ∧ S_ISCHR m = false ∧ S_ISDIR I_BLOCK_SPECIAL = true.
Proof.
  assert (Z.testbit (Z.land m I_ALL) 9 = false) as Hb by (rw Z.land_spec; apply andb_false_r).
  split_and!; [apply Z.eqb_neq|apply Z.eqb_neq|done]; intros E; by rw E in Hb.
Qed.

Lemma inode_roundtrip_witness :
  let rd := ram_disk 100000 64 4096 in let hs := [I_DIRECTORY; 48; 0; 0] in let ws := 0 :: 517 :: replicate 12 0 in
  triple (⌜1 ≠ 0 ∧ 1 ≤ 1 ∧ inode_ok hs ws ∧ 8 ≠ NULL⌝ ∗ root_super 8 1 1 516 ∗ bio_pool 1 ∗
     bio_sector ROOT_DEV (inode_sector 1 1 1) (replicate 512 0) ∗
     dinode 8192 hs ws ∗ inode_id 8192 ROOT_DEV 1 ∗ (8192 + i_dirty) ↦ 1 ∗ dinode 12288 (replicate 4 0) (replicate 14 0) ∗ inode_id 12288 ROOT_DEV 1)%I
    (write_inode (ram_getblk 64) (ram_rw 100000) ram_brelse 8 8192;; read_inode (ram_getblk 64) (ram_rw 100000) ram_brelse 8 12288)
  (λ r, ⌜r = 0⌝ ∗ root_super 8 1 1 516 ∗ bio_pool 1 ∗
     bio_sector ROOT_DEV (inode_sector 1 1 1) (put_inode 1 (inode_bytes hs ws) (replicate 512 0)) ∗
     dinode 8192 hs ws ∗ (8192 + i_dirty) ↦ 0 ∗ dinode 12288 hs ws ∗ inode_id 12288 ROOT_DEV 1)%I.
Proof.
  intros rd hs ws. exact (inode_roundtrip (BlockIO0 := rd) 8 8192 12288 1 1 hs ws (replicate 4 0) (replicate 14 0) 1 1 516 0 (replicate 512 0)).
Defined.

Lemma iget_cached_witness :
  let x := (8192, ROOT_DEV, 1) in
  triple (⌜ROOT_DEV = ROOT_DEV ∧ inode_of ROOT_DEV 1 [x] ≠ NULL⌝ ∗ root_super 8 1 1 516 ∗ inode_list 8 [x])%I
    (iget (ram_getblk 64) (ram_rw 100000) ram_brelse 8 (mret NULL) 16 0 ROOT_DEV 1)
    (λ r, ⌜r = inode_of ROOT_DEV 1 [x]⌝ ∗ root_super 8 1 1 516 ∗ inode_list 8 [x])%I.
Proof. intros x. exact (iget_cached 8 1 1 516 ROOT_DEV 1 x [] (mret NULL) 16 0). Defined.
