(* ===== verification/Namei.v ===== *)
(** * Directories and path names: fs/namei.c, and [new_file] of fs/open.c

    A directory is an array of [struct dentry] in sectors: a number in its first two bytes and a name.
    The struct has 20 bytes, but [DENTRY_SIZE], with which entries are counted, is 16.  Variables whose
    address is taken are cells: [lk_de] is the variable of [lookup], [dn_inode] that of [dir_namei];
    [on_name], [on_namelen], [on_dir], [on_de] and [on_inode] are those of the functions that call it. *)

From S2P Require Export Inode.

(** struct dentry *)
Definition inode_num : Z := 0.
Definition file_name : Z := 2.
Definition sizeof_dentry : Z := 20.

Definition NAME_LEN : Z := 12.
Definition DE_MATCH : Z := 1.
Definition DE_DEL : Z := 2.
Definition DENTRY_SIZE : Z := 16.
Definition O_CREAT : Z := 0x0100.

Definition compare (de name namelen : Z) : M Z :=
  bad ← (if de =? NULL then mret true else
         n ← load16 (de + inode_num);
         mret ((n =? 0) || (namelen >? NAME_LEN)));
  if bad : bool then mret (-1) else
  other ← (if namelen <? NAME_LEN then l ← strlen (de + file_name); mret (negb (namelen =? l)) else mret false);
  if other : bool then mret (-1) else
  strncmp (de + file_name) name namelen.

Section namei.
Context (getblk : Z → Z → M Z) (hd_rw : Z → Z → Z → Z → M Z) (brelse : Z → M unit) (super_block : Z).
Context (kmem_get_inode : M Z) (nr_inodes_count root_inode pfs : Z).

(** The entries of one sector: [m] counts those seen before.  [inr (Some r)]: the function returns [r];
    [inr None]: the loop ends. *)
Definition entry_scan (dir sect nr_dentry bh name namelen res_de flag : Z) (s : Z * Z * Z) : M (Z * Z * Z + option Z) :=
  let '(j, m, de) := s in
  if j <? SECTOR_SIZE / DENTRY_SIZE then
    let m := m + 1 in
    if m >? nr_dentry then mret (inr (Some (-1))) else
    n ← load16 (de + inode_num);
    let next := (j + 1, m, de + sizeof_dentry) in
    if n =? 0 then mret (inl next) else
    ret ← compare de name namelen;
    if negb (ret =? 0) then mret (inl next) else
    if flag =? DE_MATCH then
      store res_de de;;
      brelse bh;;
      mret (inr (Some 0))
    else if flag =? DE_DEL then
      store res_de de;;
      memset de 0 DENTRY_SIZE;;
      dev ← load (dir + i_dev);
      hd_rw dev sect ATA_WRITE bh;;
      brelse bh;;
      mret (inr (Some 0))
    else mret (inl next)
  else mret (inr None).

(** The loop over the sectors returns in its first round. *)
Definition do_entry (dir name namelen res_de flag : Z) : M Z :=
  dir_start_sect ← get_first_block dir;
  size ← load (dir + i_size);
  let nr_dir_sects := Z.quot (size + SECTOR_SIZE - 1) SECTOR_SIZE in
  let nr_dentry := Z.quot size DENTRY_SIZE in
  let i := 0 in
  if i <? nr_dir_sects then
    dev ← load (dir + i_dev);
    bh ← getblk dev (dir_start_sect + i);
    dev ← load (dir + i_dev);
    hd_rw dev (dir_start_sect + i) ATA_READ bh;;
    de ← load (bh + b_data);
    r ← run (S (Z.to_nat (SECTOR_SIZE / DENTRY_SIZE)))
          (entry_scan dir (dir_start_sect + i) nr_dentry bh name namelen res_de flag) (0, 0, de);
    match r with
    | Some r => mret r
    | None => brelse bh;; mret 0
    end
  else mret (-2).

Definition find_entry (dir name namelen res_de : Z) : M Z := do_entry dir name namelen res_de DE_MATCH.
Definition del_entry (dir name namelen res_de : Z) : M Z := do_entry dir name namelen res_de DE_DEL.

(** The first free entry of a sector, NULL when there is none. *)
Definition free_entry (de : Z) : M Z :=
  run (S (Z.to_nat (SECTOR_SIZE / DENTRY_SIZE))) (λ '(j, de),
    if j <? SECTOR_SIZE / DENTRY_SIZE then
      n ← load16 (de + inode_num);
      if n =? 0 then mret (inr de) else mret (inl (j + 1, de + sizeof_dentry))
    else mret (inr NULL)) (0, de).

Definition add_entry (dir ino name : Z) : M Z :=
  if (dir =? NULL) || (name =? NULL) then mret (-1) else
  s ← get_first_block dir;
  s ← (if s =? 0 then
         dev ← load (dir + i_dev);
         set_block_nums getblk hd_rw brelse super_block load store dev dir NR_DEFAULT_SECTS;;
         get_first_block dir
       else mret s);
  if s =? 0 then mret (-3) else
  let dir_start_sect := s in
  r ← run (S (Z.to_nat NR_DEFAULT_SECTS)) (λ i,
    if i <? NR_DEFAULT_SECTS then
      dev ← load (dir + i_dev);
      bh ← getblk dev (dir_start_sect + i);
      dev ← load (dir + i_dev);
      r ← hd_rw dev (dir_start_sect + i) ATA_READ bh;
      if r <? 0 then mret (inr (inl (-2))) else
      de ← load (bh + b_data);
      new_de ← free_entry de;
      if negb (new_de =? NULL) then mret (inr (inr (i, bh, new_de))) else
      brelse bh;;
      mret (inl (i + 1))
    else panic) 0;
  match r with
  | inl e => mret e
  | inr (i, bh, new_de) =>
      store16 (new_de + inode_num) ino;;
      size ← load (dir + i_size);
      store (dir + i_size) (u16 (size + DENTRY_SIZE));;
      store (dir + i_dirty) 1;;
      l ← strlen name;
      strncpy (new_de + file_name) name l;;
      dev ← load (dir + i_dev);
      r ← hd_rw dev (dir_start_sect + i) ATA_WRITE bh;
      if r <? 0 then mret (-3) else
      brelse bh;;
      mret 0
  end.

Local Abbreviation iget := (iget getblk hd_rw brelse super_block kmem_get_inode nr_inodes_count pfs).
Local Abbreviation iput := (iput getblk hd_rw brelse super_block root_inode).

Context (lk_de dn_inode : Z).

(** [lookup] *)
Definition namei_lookup (base name namelen res_inode : Z) : M Z :=
  if (base =? NULL) || (name =? NULL) || (namelen <=? 0) || (res_inode =? NULL) then mret (-1) else
  ret ← do_entry base name namelen lk_de DE_MATCH;
  if ret <? 0 then mret (-2) else
  dev ← load (base + i_dev);
  de ← load lk_de;
  n ← load16 (de + inode_num);
  inode ← iget dev n;
  if inode =? NULL then mret (-3) else
  store res_inode inode;;
  mret 0.

(** [for(len = 0;(ch = *(pathname++)) && (ch != '/'); ++len)]: the pointer behind the component and its
    last character. *)
Definition component (pathname : Z) : M (Z * Z * Z) :=
  loop (λ '(p, len),
    ch ← load p;
    if negb (ch =? 0) && negb (ch =? 47) then mret (inl (p + 1, len + 1))
    else mret (inr (p + 1, len, ch))) (pathname, 0).

Definition dir_namei (pathname name namelen res_inode : Z) : M Z :=
  ch ← load pathname;
  '(baseinode, pathname) ← (if ch =? 47 then r ← load root_inode; mret (r, pathname + 1) else mret (NULL, pathname));
  store dn_inode NULL;;
  r ← loop (λ '(baseinode, pathname),
    let thisname := pathname in
    '(pathname, len, ch) ← component pathname;
    if ch =? 0 then mret (inr (Some (baseinode, pathname, thisname))) else
    ret ← namei_lookup baseinode thisname len dn_inode;
    if ret <? 0 then mret (inr None) else
    b ← load dn_inode;
    mret (inl (b, pathname))) (baseinode, pathname);
  match r with
  | None => mret (-3)
  | Some (baseinode, pathname, thisname) =>
      store namelen (pathname - thisname - 1);;
      store name thisname;;
      store res_inode baseinode;;
      mret 0
  end.

(** fs/open.c *)
Definition new_file (dir basename namelen mode flags : Z) : M Z :=
  dev ← load (dir + i_dev);
  inode_nr ← get_imap_bit getblk hd_rw brelse super_block dev;
  if inode_nr <=? 0 then mret NULL else
  dev ← load (dir + i_dev);
  inode ← iget dev inode_nr;
  if inode =? NULL then mret NULL else
  n ← load (inode + i_num);
  ret ← add_entry dir n basename;
  if ret <? 0 then mret NULL else
  store (inode + i_mode) (u16 mode);;
  store (inode + i_flags) (u32 flags);;
  store (inode + i_dirty) 1;;
  r ← write_inode getblk hd_rw brelse super_block dir;
  if r <? 0 then mret NULL else mret inode.

Context (on_name on_namelen on_dir on_de : Z).

Definition open_namei (pathname mode flags res_inode : Z) : M Z :=
  ret ← dir_namei pathname on_name on_namelen on_dir;
  if ret <? 0 then mret (-1) else
  namelen ← load on_namelen;
  dir ← load on_dir;
  if (namelen =? 0) || (dir =? NULL) then
    if negb (dir =? NULL) then store res_inode dir;; mret 0
    else iput dir;; mret (-2)
  else
  name ← load on_name;
  r ← find_entry dir name namelen on_de;
  if negb (r =? 0) then
    if negb (Z.land flags O_CREAT =? 0) then
      inode ← new_file dir name namelen mode flags;
      if negb (inode =? NULL) then store res_inode inode;; mret 0 else mret (-3)
    else iput dir;; mret (-4)
  else
    dev ← load (dir + i_dev);
    de ← load on_de;
    n ← load16 (de + inode_num);
    inode ← iget dev n;
    if inode =? NULL then mret (-5) else
    iput dir;;
    store res_inode inode;;
    mret 0.

Definition namei (pathname : Z) : M Z :=
  ret ← dir_namei pathname on_name on_namelen on_dir;
  if ret <? 0 then mret NULL else
  namelen ← load on_namelen;
  dir ← load on_dir;
  if namelen =? 0 then mret dir else
  basename ← load on_name;
  find_entry dir basename namelen on_de;;
  de ← load on_de;
  if de =? NULL then mret NULL else
  n ← load16 (de + inode_num);
  dev ← load (dir + i_dev);
  iget dev n.

(** ** fs/link.c *)
Definition ENOENT : Z := 2.
Definition EPERM : Z := 1.
Definition EMLINK : Z := 31.

Definition do_unlink (name : Z) : M Z :=
  ret ← dir_namei name on_name on_namelen on_dir;
  if ret <? 0 then mret (- ENOENT) else
  namelen ← load on_namelen;
  dir ← load on_dir;
  if namelen =? 0 then iput dir;; mret (- ENOENT) else
  basename ← load on_name;
  r ← del_entry dir basename namelen on_de;
  if negb (r =? 0) then iput dir;; mret (- ENOENT) else
  dev ← load (dir + i_dev);
  de ← load on_de;
  n ← load16 (de + inode_num);
  inode ← iget dev n;
  if inode =? NULL then iput dir;; mret (- ENOENT) else
  m ← load (inode + i_mode);
  if S_ISDIR m then iput inode;; iput dir;; mret (- EPERM) else
  c ← load (inode + i_count);
  store (inode + i_count) (s16 (c - 1));;
  if negb (s16 (c - 1) =? 0) then mret (- EMLINK) else
  store16 (de + inode_num) 0;;
  store (inode + i_dirty) 1;;
  iput inode;;
  iput dir;;
  mret 0.
End namei.
