(* ===== verification/NameiSpec.v ===== *)
(** * Searching a directory *)

From S2P Require Export Namei InodeSpec.

(** ** Comparing names *)

(** What [strncmp] compares: no more than the shorter of the two strings. *)
Definition same_prefix (len : nat) (s t : list Z) : bool :=
  let l := Nat.min len (Nat.min (length s) (length t)) in bool_decide (take l s = take l t).

Lemma take_eq_S {A} (s t : list A) i a b : s !! i = Some a → t !! i = Some b →
  take (S i) s = take (S i) t ↔ take i s = take i t ∧ a = b.
Proof.
  intros Hs Ht. rw (take_S_r s i a) // (take_S_r t i b) //. split; [|by intros [-> ->]].
  intros E. apply app_inj_tail in E. naive_solver.
Qed.

Lemma take_ne_le {A} (s t : list A) i n : (i ≤ n)%nat → take i s ≠ take i t → take n s ≠ take n t.
Proof.
  intros Hi Hne E. apply Hne. rw -(Nat.min_l i n Hi). by rw -!take_take E.
Qed.

Lemma strncmp_wp p q s t (len : nat) Q : (0 < len)%nat →
  cstr p s -∗ cstr q t -∗ (cstr p s -∗ cstr q t -∗ Q (if same_prefix len s t then 0 else -1)) -∗
  wp (strncmp p q (Z.of_nat len)) Q.
Proof.
  intros Hlen. iIntros "Hs Ht HQ". iAssert ⌜0 < p ∧ 0 < q⌝%I as %[Hp Hq].
  { iDestruct "Hs" as "[_ (_ & %Hp & _)]". by iDestruct "Ht" as "[_ (_ & %Hq & _)]". }
  unfold strncmp. iApply wp_bind. iApply (strlen_wp with "Hs"). iIntros "Hs". iApply wp_bind.
  iApply (strlen_wp with "Ht"). iIntros "Ht". rw (proj2 (Z.leb_gt _ _)); [|lia].
  rw !eqb_false; [|unfold NULL; lia..]. wp_pures.
  set (l := Nat.min len (Nat.min (length s) (length t))).
  assert ((if Z.of_nat len >? (if Z.of_nat (length s) >? Z.of_nat (length t) then Z.of_nat (length t) else Z.of_nat (length s))
    then (if Z.of_nat (length s) >? Z.of_nat (length t) then Z.of_nat (length t) else Z.of_nat (length s)) else Z.of_nat len) = Z.of_nat l) as ->.
  { unfold l. rw !Z.gtb_ltb. destruct (Z.ltb_spec (length t) (length s)); [destruct (Z.ltb_spec (length t) len)|destruct (Z.ltb_spec (length s) len)]; lia. }
  iDestruct "Hs" as "[Hs %Hcs]". iDestruct "Ht" as "[Ht %Hct]".
  iApply (wp_wand with "[Hs Ht]"); first iApply (wp_loop _ (λ (n : nat) '((i, a, b) : Z * Z * Z), ∃ j : nat,
    ⌜(j + n = l)%nat ∧ i = Z.of_nat j ∧ a = (p + j)%Z ∧ b = (q + j)%Z ∧ take j s = take j t⌝ ∗ bytes p (s ++ [0]) ∗ bytes q (t ++ [0]))%I
    (λ r, ⌜r = if same_prefix len s t then 0 else -1⌝ ∗ bytes p (s ++ [0]) ∗ bytes q (t ++ [0]))%I l).
  - iIntros "(%j & _ & Hs & _)". rw arr_cells. iApply (cells_le with "Hs"). rw length_app. unfold l. simpl. lia.
  - intros n [[i a] b]. iIntros "(%j & (%Hj & -> & -> & -> & %E) & Hs & Ht)". destruct n as [|n].
    + rw (proj2 (Z.ltb_ge _ _)); [|lia]. wp_pures. iFrame. iPureIntro. unfold same_prefix. fold l.
      rw bool_decide_true; [done|]. by replace l with j by lia.
    + rw (proj2 (Z.ltb_lt _ _)); [|lia].
      destruct (lookup_lt_is_Some_2 s j) as [c Hc]; [unfold l in Hj; lia|].
      destruct (lookup_lt_is_Some_2 t j) as [e He]; [unfold l in Hj; lia|].
      iApply wp_bind. iApply (arr_load _ _ _ j c with "Hs"); [by apply lookup_app_l_Some|lia|]. iIntros "Hs".
      iApply wp_bind. iApply (arr_load _ _ _ j e with "Ht"); [by apply lookup_app_l_Some|lia|]. iIntros "Ht".
      destruct (Z.eqb_spec c e) as [->|Hne]; wp_pures.
      * iExists n. iSplit; [iPureIntro; lia|]. iExists (S j). iFrame. iPureIntro. split_and!; [lia..|]. by apply (take_eq_S _ _ _ e e).
      * iFrame. iPureIntro. unfold same_prefix. fold l. rw bool_decide_false; [done|].
        apply (take_ne_le _ _ (S j)); [lia|]. rw (take_eq_S _ _ _ c e) //. by intros [_ ?].
  - iExists 0%nat. iFrame. iPureIntro. split_and!; [lia..|by rw !take_0].
  - iIntros (r) "(-> & Hs & Ht)". iApply ("HQ" with "[$Hs //] [$Ht //]").
Qed.

(** ** Entries *)

(** An entry: the number of the inode, the name, and the bytes behind its terminator. *)
Record dent := Dent { d_num : Z; d_name : list Z; d_rest : list Z }.

Definition dent_bytes (e : dent) : list Z := le16 (d_num e) ++ (d_name e ++ [0]) ++ d_rest e.

Definition dent_ok (e : dent) : Prop :=
  0 ≤ d_num e < 2 ^ 16 ∧ Forall (λ c, c ≠ 0) (d_name e) ∧ length (dent_bytes e) = Z.to_nat sizeof_dentry.

(** The entry has the name of [len] characters that [path] begins with. *)
Definition is_entry (path : list Z) (len : nat) (e : dent) : bool :=
  negb (d_num e =? 0) && bool_decide (d_name e = take len path).

Lemma dent_split p e : bytes p (dent_bytes e) ⊣⊢
  bytes p (le16 (d_num e)) ∗ bytes (p + file_name) (d_name e ++ [0]) ∗ bytes (p + file_name + S (length (d_name e))) (d_rest e).
Proof.
  unfold dent_bytes. rw !arr_app. change (p + 1 * length (le16 (d_num e))) with (p + file_name).
  by rw length_app /= Nat.add_1_r Z.mul_1_l.
Qed.

Lemma dent_load16 {B} p e (k : Z → M B) Q : dent_ok e →
  bytes p (dent_bytes e) -∗ (bytes p (dent_bytes e) -∗ wp (k (d_num e)) Q) -∗
  wp (n ← load16 (p + inode_num); k n) Q.
Proof.
  intros (Hn & _ & _). iIntros "H HQ". rw Z.add_0_r. iEval (rw dent_split) in "H". iDestruct "H" as "(Hn & Hr)".
  iApply wp_bind. iApply (load16_wp with "Hn"); [done|]. iIntros "Hn". iApply "HQ". rw dent_split. iFrame.
Qed.

(** The name of less than twelve characters that is compared, up to the end of the component. *)
Lemma compare_wp p e name path (len : nat) Q : dent_ok e → 0 < p → d_num e ≠ 0 → (0 < len < 12)%nat → (len ≤ length path)%nat →
  bytes p (dent_bytes e) -∗ cstr name path -∗
  (bytes p (dent_bytes e) -∗ cstr name path -∗ Q (if is_entry path len e then 0 else -1)) -∗
  wp (Namei.compare p name (Z.of_nat len)) Q.
Proof.
  intros He Hp Hn0 Hlen Hpath. pose proof He as (Hn & Hname & Hl). iIntros "H Hname HQ". unfold Namei.compare.
  rw eqb_false; [|unfold NULL; lia]. wp_pures.
  iApply (dent_load16 with "H"); [done|]. iIntros "H". rw eqb_false; [|done]. rw Z.gtb_ltb (proj2 (Z.ltb_ge NAME_LEN _)); [|unfold NAME_LEN; lia].
  wp_pures. rw (proj2 (Z.ltb_lt (Z.of_nat len) NAME_LEN)); [|unfold NAME_LEN; lia]. iEval (rw dent_split) in "H". iDestruct "H" as "(Hi & Hs & Hr)".
  assert (length (d_name e) < 18)%nat as Hl18 by (unfold dent_bytes, le16 in Hl; rw !length_app /= in Hl; change (Z.to_nat sizeof_dentry) with 20%nat in Hl; lia).
  iAssert (cstr (p + file_name) (d_name e)) with "[$Hs]" as "Hs"; [iPureIntro; split_and!; [done|unfold file_name; lia|lia]|].
  wp_focus. iApply (strlen_wp with "Hs"). iIntros "Hs". wp_pures.
  iAssert (∀ r, ⌜r = if is_entry path len e then 0 else -1⌝ -∗ cstr (p + file_name) (d_name e) -∗ cstr name path -∗ Q r)%I with "[Hi Hr HQ]" as "HQ".
  { iIntros (r) "-> [Hs _] Hname". iApply ("HQ" with "[Hi Hr Hs] Hname"). rw dent_split. iFrame. }
  unfold is_entry. rw eqb_false; [|done]. destruct (Z.eqb_spec len (length (d_name e))) as [Hlen'|Hlen']; wp_pures.
  - iApply (strncmp_wp with "Hs Hname"); [lia|]. iIntros "Hs Hname". iApply ("HQ" with "[%] Hs Hname"). simpl.
    unfold same_prefix. rw (_ : Nat.min len (Nat.min (length (d_name e)) (length path)) = len); [|lia].
    rw (take_ge (d_name e)); [done|lia].
  - iApply ("HQ" with "[%] Hs Hname"). simpl. rw bool_decide_false; [done|]. intros E. apply Hlen'.
    rw E length_take_le; lia.
Qed.

(** The entries of a sector and where they are. *)
Definition entries_bytes (es : list dent) (tail : list Z) : list Z := (es ≫= dent_bytes) ++ tail.

Lemma length_entries es : Forall dent_ok es → length (es ≫= dent_bytes) = (20 * length es)%nat.
Proof.
  induction 1 as [|e es (_ & _ & He) Hes IH]; [done|]. rw bind_cons length_app IH He. change (Z.to_nat sizeof_dentry) with 20%nat. simpl. lia.
Qed.

(** The entry behind the entries [xs]. *)
Lemma entry_acc d xs e ys tail : Forall dent_ok xs → dent_ok e → bytes d (entries_bytes (xs ++ e :: ys) tail) ⊢
  bytes (d + sizeof_dentry * length xs) (dent_bytes e) ∗
  (bytes (d + sizeof_dentry * length xs) (dent_bytes e) -∗ bytes d (entries_bytes (xs ++ e :: ys) tail)).
Proof.
  intros Hxs He. unfold entries_bytes. rw bind_app bind_cons. generalize (dent_bytes e) as b. intros b. rw -!app_assoc !arr_app length_entries //.
  replace (1 * (20 * length xs)%nat) with (sizeof_dentry * length xs) by (unfold sizeof_dentry; lia).
  iIntros "(H1 & H2 & H3 & H4)". iSplitL "H2"; [done|]. iIntros "H2". iFrame.
Qed.

(** What a search leaves: the first entry that matches, or none. *)
Definition search_result (path : list Z) (len : nat) (es : list dent) (d res_de old : Z) (r : option Z) : heapProp :=
  ((∃ xs e ys, ⌜r = Some 0 ∧ es = xs ++ e :: ys ∧ is_entry path len e = true ∧ Forall (λ x, is_entry path len x = false) xs⌝ ∗
      res_de ↦ (d + sizeof_dentry * length xs)) ∨
   (⌜r = Some (-1) ∧ Forall (λ x, is_entry path len x = false) es⌝ ∗ res_de ↦ old))%I.

(** The loop over the entries of a buffer.  Releasing the buffer takes [held] to [released]. *)
Section scan.
Context (hd_rw : Z → Z → Z → Z → M Z) (brelse : Z → M unit) (dir sect bh d name : Z) (path : list Z) (len : nat) (res_de old : Z).
Context (es : list dent) (tail : list Z) (held released : heapProp).
Hypothesis release : ∀ Q : unit → heapProp, bytes d (entries_bytes es tail) -∗ held -∗ (released -∗ Q tt) -∗ wp (brelse bh) Q.
Hypothesis Hd0 : 0 < d.

(** The entries [xs] before the current one do not match. *)
Definition scan_inv (m : nat) (s : Z * Z * Z) : heapProp :=
  (∃ xs ys, ⌜es = xs ++ ys ∧ m = length ys ∧ s = (Z.of_nat (length xs), Z.of_nat (length xs), d + sizeof_dentry * length xs)%Z ∧
     Forall (λ x, is_entry path len x = false) xs⌝ ∗
    (bytes d (entries_bytes es tail) ∗ held) ∗ cstr name path ∗ res_de ↦ old)%I.

Definition scan_post (r : option Z) : heapProp :=
  (cstr name path ∗ search_result path len es d res_de old r ∗
   (⌜r = Some 0⌝ ∗ released ∨ ⌜r = Some (-1)⌝ ∗ bytes d (entries_bytes es tail) ∗ held))%I.

Lemma entry_scan_step m s :
  Forall dent_ok es → (0 < len < 12)%nat → (len ≤ length path)%nat → (length es ≤ 25)%nat →
  scan_inv m s ⊢
  wp (entry_scan hd_rw brelse dir sect (length es) bh name len res_de DE_MATCH s) (λ r,
    match r with
    | inl s' => ∃ m', ⌜(m' < m)%nat⌝ ∗ scan_inv m' s'
    | inr r => scan_post r
    end).
Proof using release Hd0.
  intros Hes Hlen Hpath H25. iIntros "(%xs & %ys & (%E & -> & -> & %Hxs) & (H & Hheld) & Hname & Hres)".
  pose proof Hes as Hes'. rw E in Hes'. apply Forall_app in Hes' as [Hx Hy].
  assert (length es = (length xs + length ys)%nat) as Hle by (by rw E length_app).
  unfold entry_scan. change (SECTOR_SIZE / DENTRY_SIZE) with 32. rw (proj2 (Z.ltb_lt _ 32)); [|lia].
  destruct ys as [|e ys].
  - rw (_ : (length xs + 1 >? length es) = true); [|rw Z.gtb_ltb; apply Z.ltb_lt; simpl in Hle; lia]. wp_pures.
    iFrame "Hname". iSplitL "Hres"; [iRight; iFrame; iPureIntro; split; [done|by rw E app_nil_r]|]. iRight. by iFrame.
  - rw (_ : (length xs + 1 >? length es) = false); [|rw Z.gtb_ltb; apply Z.ltb_ge; simpl in Hle; lia].
    inversion Hy as [|? ? He Hys]; subst. wp_pures. iEval (rw E) in "H". iDestruct (entry_acc with "H") as "[He H]"; [done|done|]. rw -E.
    iApply (dent_load16 with "He"); [done|]. iIntros "He". set (p := d + sizeof_dentry * length xs) in *.
    iAssert (⌜is_entry path len e = false⌝ -∗ (bytes d (entries_bytes es tail) ∗ held) -∗ cstr name path -∗ res_de ↦ old -∗
      ∃ m', ⌜(m' < length (e :: ys))%nat⌝ ∗ scan_inv m' (length xs + 1, length xs + 1, p + sizeof_dentry)%Z)%I as "Hnext".
    { iIntros "%Hno H Hname Hres". iExists (length ys). iSplit; [simpl; iPureIntro; lia|]. iExists (xs ++ [e]), ys. iFrame "H Hname Hres".
      iPureIntro. rw -app_assoc length_app /=. split_and!; [done|done| |by apply Forall_app; auto].
      unfold p, sizeof_dentry. f_equal; [f_equal; lia|lia]. }
    destruct (Z.eqb_spec (d_num e) 0) as [H0|H0].
    { wp_pures. iDestruct ("H" with "He") as "H". iApply ("Hnext" with "[%] [$H $Hheld] Hname Hres"). unfold is_entry. by rw H0. }
    iApply wp_bind. iApply (compare_wp with "He Hname"); [done|unfold p, sizeof_dentry; lia|done..|]. iIntros "He Hname".
    iDestruct ("H" with "He") as "H". destruct (is_entry path len e) eqn:Hm; wp_pures.
    + wp_store. iApply wp_bind. iApply (release with "H Hheld"). iIntros "Hrel". wp_pures. iFrame "Hname".
      iSplitL "Hres"; [iLeft; iExists xs, e, ys; by iFrame|iLeft; by iFrame].
    + iApply ("Hnext" with "[//] [$H $Hheld] Hname Hres").
Qed.

Lemma entry_scan_wp Q :
  Forall dent_ok es → (0 < len < 12)%nat → (len ≤ length path)%nat → (length es ≤ 25)%nat →
  bytes d (entries_bytes es tail) -∗ held -∗ cstr name path -∗ res_de ↦ old -∗ (∀ r, scan_post r -∗ Q r) -∗
  wp (run (S (Z.to_nat (SECTOR_SIZE / DENTRY_SIZE))) (entry_scan hd_rw brelse dir sect (length es) bh name len res_de DE_MATCH) (0, 0, d)) Q.
Proof using release Hd0.
  iIntros (Hes Hlen Hpath H25) "H Hheld Hname Hres HQ". iApply (wp_wand with "[H Hheld Hname Hres]");
    first iApply (wp_run _ scan_inv scan_post _ (λ m s, entry_scan_step m s Hes Hlen Hpath H25) (length es)).
  - change (length es < 33)%nat. lia.
  - iExists [], es. iFrame. iPureIntro. split_and!; try done. simpl. by rw Z.mul_0_r Z.add_0_r.
  - iIntros (r) "H". by iApply "HQ".
Qed.
End scan.

(** C18: The search of a directory's sector in the buffer [bh], for a name of less than twelve characters among at most 25 entries: the loop of [do_entry] ends; it stores the
    address of the first entry in use with exactly this name and releases the buffer, or answers -1 when there is none, and then does not release the buffer. *)
Theorem entry_scan_finds sleep_on hd_rw turns dir sect bh d c name path (len : nat) res_de old es tail :
  {{ ⌜Forall dent_ok es ∧ (0 < len < 12)%nat ∧ (len ≤ length path)%nat ∧ (length es ≤ 25)%nat ∧ 0 < d ∧ bh ≠ NULL ∧ 0 < c < 256⌝ ∗
     bytes d (entries_bytes es tail) ∗ (bh + b_lock) ↦ 0 ∗ (bh + b_count) ↦ c ∗ cstr name path ∗ res_de ↦ old }}
    run (S (Z.to_nat (SECTOR_SIZE / DENTRY_SIZE))) (entry_scan hd_rw (Buffer.brelse sleep_on turns) dir sect (length es) bh name len res_de DE_MATCH) (0, 0, d)
  {{ r, bytes d (entries_bytes es tail) ∗ (bh + b_lock) ↦ 0 ∗ cstr name path ∗
     ((∃ xs e ys, ⌜r = Some 0 ∧ es = xs ++ e :: ys ∧ is_entry path len e = true ∧ Forall (λ x, is_entry path len x = false) xs⌝ ∗
         res_de ↦ (d + sizeof_dentry * length xs) ∗ (bh + b_count) ↦ (c - 1)) ∨
      (⌜r = Some (-1) ∧ Forall (λ x, is_entry path len x = false) es⌝ ∗ res_de ↦ old ∗ (bh + b_count) ↦ c)) }}.
Proof.
  apply triple_wp. iIntros "((%Hes & %Hlen & %Hpath & %H25 & %Hd & %Hbh & %Hc) & H & Hl & Hcount & Hname & Hres)".
  iApply (entry_scan_wp _ _ dir sect bh d name path len res_de old es tail ((bh + b_lock) ↦ 0 ∗ (bh + b_count) ↦ c)
    (bytes d (entries_bytes es tail) ∗ (bh + b_lock) ↦ 0 ∗ (bh + b_count) ↦ (c - 1)) with "H [$Hl $Hcount] Hname Hres"); [|done..|].
  { iIntros (Q) "H [Hl Hc] HQ". unfold Buffer.brelse, wait_on_buffer. rw (eqb_false bh NULL Hbh). cbn [run]. iApply wp_bind. iApply wp_bind. wp_load. wp_pures.
    wp_load. wp_store. rw u8_small; [|lia]. rw (eqb_false c 0); [|lia]. wp_pures. iApply "HQ". iFrame. }
  iIntros (r) "($ & Hr & Hs)". iDestruct "Hr" as "[(%xs & %e & %ys & (-> & %E & %He & %Hxs) & Hres)|((-> & %Hno) & Hres)]";
    iDestruct "Hs" as "[(%Hr & H & Hl & Hc)|(%Hr & H & Hl & Hc)]"; try done; iFrame "H Hl".
  - iLeft. iExists xs, e, ys. by iFrame.
  - iRight. by iFrame.
Qed.

Section search.
Context {getblk : Z → Z → M Z} {hd_rw : Z → Z → Z → Z → M Z} {brelse : Z → M unit} `{!BlockIO getblk hd_rw brelse}.

(** Looking up a name of less than twelve characters in a directory of at most 25 entries, as many as
    fit into a sector: [find_entry] returns the place of the first entry in use with exactly this name, in a
    buffer it has released, and -1 when there is none, with the buffer not released. *)
Theorem find_entry_correct dir sect size name path (len : nat) res_de old n es tail :
  {{ ⌜Forall dent_ok es ∧ (0 < len < 12 ∧ len ≤ length path)%nat ∧ Z.quot size DENTRY_SIZE = length es ∧ 0 < size ∧ (length es ≤ 25)%nat ∧ 0 ≤ sect < 2 ^ 31⌝ ∗
     (dir + i_data) ↦ sect ∗ (dir + i_size) ↦ size ∗ (dir + i_dev) ↦ ROOT_DEV ∗ cstr name path ∗ res_de ↦ old ∗
     bio_pool (S n) ∗ bio_sector ROOT_DEV sect (entries_bytes es tail) }}
    find_entry getblk hd_rw brelse dir name (Z.of_nat len) res_de
  {{ r, cstr name path ∗ bio_sector ROOT_DEV sect (entries_bytes es tail) ∗ (dir + i_size) ↦ size ∗
     ((∃ xs e ys d, ⌜r = 0 ∧ es = xs ++ e :: ys ∧ is_entry path len e = true ∧ Forall (λ x, is_entry path len x = false) xs⌝ ∗
         res_de ↦ (d + sizeof_dentry * length xs) ∗ bio_pool (S n)) ∨
      (⌜r = -1 ∧ Forall (λ x, is_entry path len x = false) es⌝ ∗ res_de ↦ old ∗ bio_pool n)) }}.
Proof.
  apply triple_wp. iIntros "((%Hes & (%Hlen & %Hpath) & %Hnr & %Hsize & %H25 & %Hsect) & Hsect & Hsize & Hdev & Hname & Hres & Hp & Hs)".
  unfold find_entry, do_entry, get_first_block. wp_load. rw s32_small; [|lia]. wp_load. change (0 + 0) with 0. rw Z.add_0_r Hnr.
  rw (proj2 (Z.ltb_lt _ _)); [|rw Z.quot_div_nonneg; [|unfold SECTOR_SIZE; lia..]; unfold SECTOR_SIZE; dlia].
  wp_load. iApply wp_bind. iApply (getblk_wp with "Hp"). iIntros (bh d o) "(%Hbh & %Hl) Hp Hb Hd H". wp_load.
  iApply wp_bind. iApply (read_wp with "Hb Hd H Hs"); [done|]. iIntros "%Hlb Hb Hd H Hs". wp_load. iApply wp_bind.
  iDestruct (bio_buf_data with "Hb") as %Hd0.
  iApply (entry_scan_wp _ _ dir sect bh d name path len res_de old es tail (bio_buf bh d ∗ (bh + b_data) ↦ d ∗ bio_pool n) (bio_pool (S n))
    with "H [$Hb $Hd $Hp] Hname Hres"); [|done..|].
  { iIntros (Q) "H (Hb & Hd & Hp) HQ". iApply (brelse_wp with "Hb Hd H Hp"); [done|]. iIntros "Hp". by iApply "HQ". }
  iIntros (r) "($ & Hr & Hp)". iDestruct "Hr" as "[(%xs & %e & %ys & (-> & %E & %He & %Hxs) & Hres)|((-> & %Hno) & Hres)]";
    iDestruct "Hp" as "[[%Hp Hp]|(%Hp & _ & _ & _ & Hp)]"; try done; wp_pures; iFrame.
  - iLeft. iExists xs, e, ys, d. by iFrame.
  - iRight. by iFrame.
Qed.
End search.

(** ** Two lookups that go wrong *)

(** A memory with the bytes [bs] at [p]. *)
Definition mem_bytes (p : Z) (bs : list Z) : mem := list_to_map (imap (λ i b, (p + Z.of_nat i, b)) bs).

(** A sector whose entries are all in use: 32 entries of 20 bytes are looked at, 128 bytes behind the end
    of the buffer are read. *)
Theorem free_entry_overruns : free_entry 4096 (mem_bytes 4096 (replicate 512 1)) = Fault.
Proof. vm_compute. reflexivity. Qed.

(** A name of twelve characters is found in every entry whose name it begins with: here [abcdefghijkl] in the
    entry [ab]. *)
Theorem compare_prefix :
  let m := mem_bytes 4096 (le16 5 ++ [97; 98; 0] ++ replicate 15 0) ∪
           mem_bytes 8192 [97; 98; 99; 100; 101; 102; 103; 104; 105; 106; 107; 108; 0] in
  Namei.compare 4096 8192 12 m = Ok 0 m.
Proof. vm_compute. reflexivity. Qed.

(** The lookup of the component "ab" of the path "ab/c" in a directory of two entries, "a" and "ab", on
    the disk in memory. *)
Lemma find_entry_correct_witness :
  let rd := ram_disk 100000 64 4096 in
  let es := [Dent 2 [97] (replicate 16 0); Dent 3 [97; 98] (replicate 15 0)] in
  let tail := replicate 472 0 in let path := [97; 98; 47; 99] in
  triple (⌜Forall dent_ok es ∧ (0 < 2 < 12 ∧ 2 ≤ length path)%nat ∧ Z.quot 32 DENTRY_SIZE = length es ∧ 0 < 32 ∧ (length es ≤ 25)%nat ∧ 0 ≤ 517 < 2 ^ 31⌝ ∗
     (8192 + i_data) ↦ 517 ∗ (8192 + i_size) ↦ 32 ∗ (8192 + i_dev) ↦ ROOT_DEV ∗ cstr 12288 path ∗ 16 ↦ 0 ∗
     bio_pool 1 ∗ bio_sector ROOT_DEV 517 (entries_bytes es tail))%I
    (find_entry (ram_getblk 64) (ram_rw 100000) ram_brelse 8192 12288 (Z.of_nat 2) 16)
    (λ r, cstr 12288 path ∗ bio_sector ROOT_DEV 517 (entries_bytes es tail) ∗ (8192 + i_size) ↦ 32 ∗
     ((∃ xs e ys d, ⌜r = 0 ∧ es = xs ++ e :: ys ∧ is_entry path 2 e = true ∧ Forall (λ x, is_entry path 2 x = false) xs⌝ ∗
         16 ↦ (d + sizeof_dentry * length xs) ∗ bio_pool 1) ∨
      (⌜r = -1 ∧ Forall (λ x, is_entry path 2 x = false) es⌝ ∗ 16 ↦ 0 ∗ bio_pool 0)))%I.
Proof. intros rd es tail path. exact (find_entry_correct (BlockIO0 := rd) 8192 517 32 12288 path 2 16 0 0 es tail). Defined.
