(* ===== verification/File.v ===== *)
(** * Open files: fs/open.c, fs/file.c, fs/read_write.c, fs/fcntl.c, fs/stat.c

    [current] is the variable that points to the running task; a file descriptor is an index into its
    table of open files. *)

From S2P Require Export Namei.

(** struct file *)
Definition f_mode : Z := 0.
Definition f_flag : Z := 2.
Definition f_count : Z := 4.
Definition f_pos : Z := 8.
Definition f_inode : Z := 16.
Definition f_list : Z := 20.
Definition f_op : Z := 28.

(** [filp] of struct task_struct *)
Definition filp (fd : Z) : Z := 424 + 4 * fd.

Definition NR_OPEN : Z := 0x20.
Definition O_APPEND : Z := 0x0400.
Definition EBADF : Z := 9.
Definition F_DUPFD : Z := 1.
Definition F_GETFD : Z := 2.
Definition F_SETFD : Z := 4.
Definition F_GETFL : Z := 8.
Definition F_SETFL : Z := 16.

(** [long long] *)
Definition s64 (z : Z) : Z := (z + 2 ^ 63) mod 2 ^ 64 - 2 ^ 63.

Section files.
Context (getblk : Z → Z → M Z) (hd_rw : Z → Z → Z → Z → M Z) (brelse : Z → M unit) (super_block : Z).
Context (kmem_get_inode kmem_get_file : M Z) (nr_inodes_count nr_file_count root_inode pfs general_fop current : Z).
(** The variables whose address is taken. *)
Context (lk_de dn_inode on_name on_namelen on_dir on_de op_inode : Z).

Local Abbreviation open_namei := (open_namei getblk hd_rw brelse super_block kmem_get_inode nr_inodes_count root_inode pfs lk_de dn_inode on_name on_namelen on_dir on_de).
Local Abbreviation namei := (namei getblk hd_rw brelse super_block kmem_get_inode nr_inodes_count root_inode pfs lk_de dn_inode on_name on_namelen on_dir on_de).
Local Abbreviation iput := (iput getblk hd_rw brelse super_block root_inode).

(** The answer and the value of the variable [fd], which is [fd0] before. *)
Definition get_empty_fd (fd0 : Z) : M (Z * Z) :=
  '(i, fd) ← run (Z.to_nat NR_OPEN) (λ i,
    if i <? NR_OPEN then
      cur ← load current;
      f ← load (cur + filp i);
      if f =? NULL then mret (inr (i, i)) else mret (inl (i + 1))
    else mret (inr (i, fd0))) 1;
  if (i <=? 0) || (i >? NR_OPEN) then mret (-1, fd) else mret (0, fd).

Definition get_empty_filp : M Z :=
  c ← load nr_file_count;
  store nr_file_count (u16 (c + 1));;
  if c >=? NR_OPEN then mret NULL else kmem_get_file.

Definition open (fd0 filename mode flag : Z) : M Z :=
  if filename =? NULL then mret (-1) else
  '(r, fd) ← get_empty_fd fd0;
  if r <? 0 then mret (-2) else
  fp ← get_empty_filp;
  if fp =? NULL then mret (-3) else
  ret ← open_namei filename mode flag op_inode;
  if ret <? 0 then
    cur ← load current;
    store (cur + filp fd) NULL;;
    store (fp + f_count) 0;;
    mret (-4)
  else
  inode ← load op_inode;
  dev ← load (inode + i_dev);
  sb ← get_super_block super_block dev;
  store (fp + f_inode) inode;;
  store (fp + f_count) 1;;
  store (fp + f_flag) (u16 flag);;
  store (fp + f_mode) (u16 mode);;
  store (fp + f_pos) 0;;
  store (fp + f_op) general_fop;;
  c ← load (fp + f_count);
  store (fp + f_count) (u16 (c + 1));;
  cur ← load current;
  store (cur + filp fd) fp;;
  list_add (fp + f_list) (sb + s_files);;
  mret fd.

Definition mkdir (fd0 filename mode flag : Z) : M Z :=
  if filename =? NULL then mret (-1) else
  '(r, fd) ← get_empty_fd fd0;
  if r <? 0 then mret (-2) else
  fp ← get_empty_filp;
  if fp =? NULL then mret (-3) else
  cur ← load current;
  store (cur + filp fd) fp;;
  c ← load (fp + f_count);
  store (fp + f_count) (u16 (c + 1));;
  ret ← open_namei filename mode flag op_inode;
  if ret <? 0 then
    cur ← load current;
    store (cur + filp fd) NULL;;
    store (fp + f_count) 0;;
    mret ret
  else
  inode ← load op_inode;
  store (fp + f_inode) inode;;
  store (fp + f_count) 1;;
  store (fp + f_flag) (u16 flag);;
  store (fp + f_mode) (u16 mode);;
  store (fp + f_pos) 0;;
  store (fp + f_op) general_fop;;
  mret fd.

Definition close (fd : Z) : M Z :=
  if (fd <=? 0) || (fd >=? NR_OPEN) then mret (-1) else
  cur ← load current;
  fp ← load (cur + filp fd);
  if fp =? NULL then mret (-2) else
  c ← load (fp + f_count);
  if c =? 0 then panic else
  inode ← load (fp + f_inode);
  iput inode;;
  c ← load (fp + f_count);
  store (fp + f_count) (u16 (c - 1));;
  if negb (u16 (c - 1) =? 0) then mret 0 else
  cur ← load current;
  store (cur + filp fd) NULL;;
  mret 0.

Definition sys_close (fd : Z) : M Z := close fd.

(** ** fs/file.c *)

(** [while(c-- > 0)] of [general_file_read]: bytes that are 0 are passed over. *)
Fixpoint copy_nonzero (p buf : Z) (c : nat) : M Z :=
  match c with
  | O => mret buf
  | S c =>
      b ← load p;
      if b =? 0 then copy_nonzero (p + 1) buf c else
      store buf b;;
      copy_nonzero (p + 1) (buf + 1) c
  end.

(** [i0] is the value of the variable [i], which is not initialised. *)
Definition general_file_read (i0 inode fp buf count : Z) : M Z :=
  if (inode =? NULL) || (fp =? NULL) then mret (- EINVAL) else
  if (buf =? NULL) || (count <=? 0) then mret 0 else
  get_first_block inode;;
  pos ← load (fp + f_pos);
  loop (λ '(i, pos, buf),
    if i <? count then
      block_nr ← get_pos_block inode pos;
      let c := SECTOR_SIZE - Z.rem pos SECTOR_SIZE in
      let c := if c >? count then count - i else c in
      dev ← load (inode + i_dev);
      bh ← getblk dev block_nr;
      dev ← load (inode + i_dev);
      hd_rw dev block_nr ATA_READ bh;;
      d ← load (bh + b_data);
      fpos ← load (fp + f_pos);
      store (fp + f_pos) (s64 (fpos + c));;
      buf ← copy_nonzero (d + pos) buf (Z.to_nat c);
      brelse bh;;
      mret (inl (i + c, pos + c, buf))
    else mret (inr 0)) (i0, s32 pos, buf).

(** [while(c-- > 0) *(p++) = *(buf++)] *)
Fixpoint copy_bytes (p buf : Z) (c : nat) : M unit :=
  match c with
  | O => mret tt
  | S c => b ← load buf; store p b;; copy_bytes (p + 1) (buf + 1) c
  end.

(** One turn of the loop of [general_file_write]. *)
Definition write_step (inode count : Z) (s : Z * Z * Z) : M (Z * Z * Z + unit) :=
  let '(i, pos, buf) := s in
  if i <? count then
    block_nr ← get_pos_block inode pos;
    dev ← load (inode + i_dev);
    bh ← getblk dev block_nr;
    let c := Z.rem pos SECTOR_SIZE in
    d ← load (bh + b_data);
    let p := d + c in
    let c := SECTOR_SIZE - c in
    let c := if c >? count then count - i else c in
    let pos := pos + c in
    let i := i + c in
    size ← load (inode + i_size);
    (if pos >? size then store (inode + i_size) (u16 pos) else mret tt);;
    copy_bytes p buf (Z.to_nat c);;
    dev ← load (inode + i_dev);
    hd_rw dev block_nr ATA_WRITE bh;;
    brelse bh;;
    mret (inl (i, pos, buf + Z.max 0 c))
  else mret (inr tt).

Definition general_file_write (inode fp buf count : Z) : M Z :=
  if (inode =? NULL) || (fp =? NULL) || (buf =? NULL) || (count <? 0) then mret (- EINVAL) else
  s ← get_first_block inode;
  s ← (if s =? 0 then
         dev ← load (inode + i_dev);
         set_block_nums getblk hd_rw brelse super_block load store dev inode NR_DEFAULT_SECTS;;
         get_first_block inode
       else mret s);
  if s =? 0 then mret (-3) else
  flag ← load (fp + f_flag);
  pos ← (if negb (Z.land flag O_APPEND =? 0) then load (inode + i_size) else p ← load (fp + f_pos); mret (s32 p));
  loop (write_step inode count) (0, pos, buf);;
  store (inode + i_dirty) 1;;
  mret 0.

Definition general_file_lseek (fd offset origin : Z) : M Z :=
  bad ← (if (fd <=? 0) || (fd >=? NR_OPEN) then mret true else
         cur ← load current;
         fp ← load (cur + filp fd);
         if fp =? NULL then mret true else
         inode ← load (fp + f_inode);
         mret (inode =? NULL));
  if bad : bool then mret (- EBADF) else
  cur ← load current;
  fp ← load (cur + filp fd);
  let done := (p ← load (fp + f_pos); mret (s32 p)) in
  if origin =? 0 then
    if offset <? 0 then mret (- EINVAL) else store (fp + f_pos) offset;; done
  else if origin =? 1 then
    p ← load (fp + f_pos);
    if p + offset <? 0 then mret (- EINVAL) else
    p ← load (fp + f_pos);
    store (fp + f_pos) (s64 (p + offset));; done
  else if origin =? 2 then
    inode ← load (fp + f_inode);
    size ← load (inode + i_size);
    let tmp := s32 (size + offset) in
    if tmp <? 0 then mret (- EINVAL) else store (fp + f_pos) tmp;; done
  else mret (- EINVAL).

(** ** fs/read_write.c *)

Definition sys_read (i0 fd buf count : Z) : M Z :=
  if (fd >=? NR_OPEN) || (count <? 0) then mret (- EINVAL) else
  cur ← load current;
  fp ← load (cur + filp fd);
  if fp =? NULL then mret (- EINVAL) else
  inode ← load (fp + f_inode);
  mode ← load (inode + i_mode);
  if S_ISDIR mode || S_ISREG mode then
    r ← general_file_read i0 inode fp buf count;
    if r <? 0 then mret (-3) else mret 0
  else mret (-4).

Definition sys_write (fd buf count : Z) : M Z :=
  if (fd <=? 0) || (fd >=? NR_OPEN) || (count <? 0) then mret (- EINVAL) else
  cur ← load current;
  fp ← load (cur + filp fd);
  if fp =? NULL then mret (- EINVAL) else
  inode ← load (fp + f_inode);
  mode ← load (inode + i_mode);
  if S_ISDIR mode || S_ISREG mode then
    r ← general_file_write inode fp buf count;
    if r <? 0 then mret (-3) else mret 0
  else mret (-4).

Definition sys_lseek (fd offset origin : Z) : M Z := general_file_lseek fd offset origin.

(** ** fs/fcntl.c: the arguments are unsigned *)

Definition dupfd (oldfd newfd : Z) : M Z :=
  bad ← (if oldfd >=? NR_OPEN then mret true else
         cur ← load current; f ← load (cur + filp oldfd); mret (f =? NULL));
  if bad : bool then mret (-1) else
  if newfd >=? NR_OPEN then mret (-1) else
  newfd ← run (S (Z.to_nat NR_OPEN)) (λ newfd,
    if newfd <? NR_OPEN then
      cur ← load current;
      f ← load (cur + filp newfd);
      if negb (f =? NULL) then mret (inl (newfd + 1)) else mret (inr newfd)
    else mret (inr newfd)) newfd;
  if newfd >=? NR_OPEN then mret (-1) else
  cur ← load current;
  f ← load (cur + filp oldfd);
  store (cur + filp newfd) f;;
  c ← load (f + f_count);
  store (f + f_count) (u16 (c + 1));;
  mret newfd.

Definition sys_dup2 (oldfd newfd : Z) : M Z :=
  sys_close (s32 newfd);;
  dupfd oldfd newfd.

Definition sys_fcntl (fd cmd arg : Z) : M Z :=
  if fd >=? NR_OPEN then mret (-1) else
  cur ← load current;
  fp ← load (cur + filp fd);
  if fp =? NULL then mret (-1) else
  if cmd =? F_DUPFD then dupfd fd arg
  else if (cmd =? F_GETFD) || (cmd =? F_SETFD) || (cmd =? F_GETFL) then load (fp + f_flag)
  else if cmd =? F_SETFL then
    v ← load (fp + f_flag);
    store (fp + f_flag) (u16 (Z.lor v arg));;
    mret (u16 (Z.lor v arg))
  else mret (-1).

(** ** fs/stat.c: [cp_stat] fills a local variable and leaves the buffer of the caller as it is. *)

Definition cp_stat (inode statbuf : Z) : M unit :=
  load (inode + i_dev);; load (inode + i_num);; load (inode + i_mode);; load (inode + i_size);; mret tt.

Definition sys_stat (filename statbuf : Z) : M Z :=
  inode ← namei filename;
  if inode =? NULL then mret (-1) else
  cp_stat inode statbuf;;
  iput inode;;
  mret 0.
End files.
