(* ===== verification/FileSpec.v ===== *)
(** * Reading, writing and positions of files *)

From S2P Require Export File NameiSpec.

(** The [k]th sector of a file. *)
Definition chunk (k : nat) (data : list Z) : list Z := take 512 (drop (512 * k) data).

Lemma length_chunk k q data : (k < q)%nat → length data = (512 * q)%nat → length (chunk k data) = 512%nat.
Proof. intros Hk Hl. unfold chunk. rw length_take length_drop Hl. lia. Qed.

Lemma copy_bytes_wp p buf vs old (Q : unit → heapProp) : length old = length vs →
  bytes p old -∗ bytes buf vs -∗ (bytes p vs -∗ bytes buf vs -∗ Q tt) -∗ wp (copy_bytes p buf (length vs)) Q.
Proof.
  revert p buf old. induction vs as [|v vs IH]; intros p buf [|o old] Hl; try done; iIntros "Hp Hb HQ"; cbn [copy_bytes length].
  - wp_pures. iApply ("HQ" with "Hp Hb").
  - iEval (rw arr_cons) in "Hp". iEval (rw arr_cons) in "Hb". iDestruct "Hp" as "[Ho Hp]". iDestruct "Hb" as "[Hv Hb]".
    wp_load. wp_store. iApply (IH with "Hp Hb"); [by injection Hl|]. iIntros "Hp Hb".
    iApply ("HQ" with "[Ho Hp]"); rw arr_cons; iFrame.
Qed.

(** The bytes of one sector of the user's buffer. *)
Lemma chunk_acc buf k q data : (k < q)%nat → length data = (512 * q)%nat → bytes buf data ⊢
  bytes (buf + 512 * k) (chunk k data) ∗ (bytes (buf + 512 * k) (chunk k data) -∗ bytes buf data).
Proof.
  intros Hk Hl. assert (data = take (512 * k) data ++ chunk k data ++ drop 512 (drop (512 * k) data)) as E.
  { unfold chunk. by rw !take_drop. }
  assert (bytes buf data ⊣⊢ bytes buf (take (512 * k) data) ∗ bytes (buf + 512 * k) (chunk k data) ∗
    bytes (buf + 512 * k + length (chunk k data)) (drop 512 (drop (512 * k) data))) as Eq.
  { rw {1}E !arr_app length_take_le; [|lia]. by replace (1 * (512 * k)%nat) with (512 * k) by lia; rw Z.mul_1_l. }
  rw Eq. iIntros "(H1 & H2 & H3)". iFrame "H2". iIntros "H2". iFrame.
Qed.

Section spec.
Context {getblk : Z → Z → M Z} {hd_rw : Z → Z → Z → Z → M Z} {brelse : Z → M unit} `{!BlockIO getblk hd_rw brelse}.

(** The sectors [blks] of a file of which the first [k] are written. *)
Definition written (k : nat) (blks : list Z) (data : list Z) : heapProp :=
  (([∗ list] j ↦ b ∈ take k blks, bio_sector ROOT_DEV b (chunk j data)) ∗
   ([∗ list] b ∈ drop k blks, ∃ old, bio_sector ROOT_DEV b old))%I.

Lemma written_next k blks b data : blks !! k = Some b → written k blks data ⊢
  ∃ old, bio_sector ROOT_DEV b old ∗ (bio_sector ROOT_DEV b (chunk k data) -∗ written (S k) blks data).
Proof.
  intros Hb. pose proof (lookup_lt_Some _ _ _ Hb). unfold written. iIntros "[H1 H2]".
  iEval (rw (drop_S _ _ _ Hb)) in "H2". iDestruct "H2" as "[(%old & Hb) H2]". iExists old. iFrame "Hb H2".
  iIntros "Hb". rw (take_S_r _ _ _ Hb) big_sepL_snoc length_take_le; [|lia]. iFrame.
Qed.

(** ** Writing *)

Lemma get_pos_block_wp inode (k : nat) pos blks b Q : blks !! k = Some b → 0 ≤ b < 2 ^ 31 → pos = 512 * Z.of_nat k →
  arr (inode + i_data) 4 blks -∗ (arr (inode + i_data) 4 blks -∗ Q b) -∗ wp (get_pos_block inode pos) Q.
Proof.
  intros Hb Hr ->. iIntros "H HQ". unfold get_pos_block. rw (_ : Z.quot (512 * k) SECTOR_SIZE = k);
    [|unfold SECTOR_SIZE; rw Z.mul_comm Z.quot_mul; lia]. rw Z.geb_leb (proj2 (Z.leb_le _ _)); [|lia]. wp_pures.
  iApply wp_bind. iApply (arr_load _ _ _ k b with "H"); [done|lia|]. iIntros "H". wp_pures. rw s32_small; [|lia]. by iApply "HQ".
Qed.

(** The file while it is written: [k] sectors are done. *)
Definition write_inv (inode buf : Z) (q : nat) (blks data : list Z) n (m : nat) (s : Z * Z * Z) : heapProp :=
  (∃ k : nat, ⌜(k + m = q)%nat ∧ s = (512 * Z.of_nat k, 512 * Z.of_nat k, buf + 512 * Z.of_nat k)%Z⌝ ∗
   arr (inode + i_data) 4 blks ∗ (inode + i_dev) ↦ ROOT_DEV ∗ (inode + i_size) ↦ (512 * Z.of_nat k) ∗ bytes buf data ∗
   written k blks data ∗ bio_pool (S n))%I.

Lemma write_step_wp inode buf count (q : nat) blks data n m s :
  (q ≤ length blks)%nat → (q ≤ 100)%nat → Forall (λ b, 0 ≤ b < 2 ^ 31) blks → length data = (512 * q)%nat → 512 < count → 512 * (q - 1) < count ≤ 512 * q →
  write_inv inode buf q blks data n m s ⊢ wp (write_step getblk hd_rw brelse inode count s) (λ r,
    match r with inl s' => ∃ m', ⌜(m' < m)%nat⌝ ∗ write_inv inode buf q blks data n m' s' | inr _ => write_inv inode buf q blks data n 0 (512 * q, 512 * q, buf + 512 * q)%Z end).
Proof.
  intros Hq H100 Hblks Hdata Hc Hq2. iIntros "(%k & (%Hk & ->) & Hblk & Hdev & Hsize & Hbuf & Hw & Hp)". unfold write_step.
  destruct m as [|m].
  { rw Nat.add_0_r in Hk. subst k. rw (proj2 (Z.ltb_ge _ _)); [|lia]. wp_pures. iExists q. iFrame. iPureIntro. by rw Nat.add_0_r. }
  rw (proj2 (Z.ltb_lt _ _)); [|lia]. destruct (lookup_lt_is_Some_2 blks k) as [b Hb]; [lia|].
  iApply wp_bind. iApply (get_pos_block_wp with "Hblk"); [done|by apply (Forall_lookup_1 _ _ _ _ Hblks Hb)|done|]. iIntros "Hblk".
  wp_load. iApply wp_bind. iApply (getblk_wp with "Hp"). iIntros (bh d o) "(%Hbh & %Hl) Hp Hb Hd H". wp_load.
  rw (_ : Z.rem (512 * k) SECTOR_SIZE = 0); [|unfold SECTOR_SIZE; rw Z.mul_comm; apply Z.rem_mul; lia].
  rw Z.sub_0_r Z.add_0_r (_ : (SECTOR_SIZE >? count) = false); [|rw Z.gtb_ltb; apply Z.ltb_ge; unfold SECTOR_SIZE; lia].
  change SECTOR_SIZE with 512 at 1 2 3 4 5. wp_load. rw (_ : (512 * k + 512 >? 512 * k) = true); [|rw Z.gtb_ltb; apply Z.ltb_lt; lia].
  wp_store. iDestruct (chunk_acc _ k q with "Hbuf") as "[Hc Hbuf]"; [lia|done|]. iApply wp_bind.
  rw (_ : Z.to_nat 512 = length (chunk k data)); [|by rw (length_chunk k q); [|lia|]].
  iApply (copy_bytes_wp with "H Hc"); [by rw Hl (length_chunk k q); [|lia|]|]. iIntros "H Hc". iDestruct ("Hbuf" with "Hc") as "Hbuf". wp_load.
  iDestruct (written_next with "Hw") as "(%old & Hs & Hw)"; [done|]. iApply wp_bind.
  iApply (write_wp with "Hb Hd H Hs"); [by rw (length_chunk k q); [|lia|]|]. iIntros "Hb Hd H Hs". iDestruct ("Hw" with "Hs") as "Hw".
  iApply wp_bind. iApply (brelse_wp with "Hb Hd H Hp"); [by rw (length_chunk k q); [|lia|]|]. iIntros "Hp". wp_pures.
  iExists m. iSplit; [iPureIntro; lia|]. iExists (S k). iFrame. rw (_ : u16 (512 * k + 512) = 512 * S k); [|unfold u16; rw Z.mod_small; lia].
  iFrame. iPureIntro. split; [lia|]. f_equal; [f_equal; lia|lia].
Qed.

(** Writing more than one sector from the start of an empty file whose blocks are there already.
    Whole sectors are written, as many as hold the [count] bytes: the bytes of the caller's memory behind its buffer get
    into the file, and the size is rounded up to a multiple of 512. *)
Theorem general_file_write_rounds super_block inode fp buf flag dirty count (q : nat) b0 blks data n :
  {{ ⌜(q ≤ S (length blks) ∧ q ≤ 100)%nat ∧ Forall (λ b, 0 ≤ b < 2 ^ 31) (b0 :: blks) ∧ length data = (512 * q)%nat ∧ 512 < count ∧ 512 * (q - 1) < count ≤ 512 * q ∧
      b0 ≠ 0 ∧ inode ≠ NULL ∧ fp ≠ NULL ∧ buf ≠ NULL ∧ Z.land flag O_APPEND = 0⌝ ∗
     (fp + f_flag) ↦ flag ∗ (fp + f_pos) ↦ 0 ∗ (inode + i_dirty) ↦ dirty ∗
     arr (inode + i_data) 4 (b0 :: blks) ∗ (inode + i_dev) ↦ ROOT_DEV ∗ (inode + i_size) ↦ 0 ∗ bytes buf data ∗
     written 0 (b0 :: blks) data ∗ bio_pool (S n) }}
    general_file_write getblk hd_rw brelse super_block inode fp buf count
  {{ r, ⌜r = 0⌝ ∗ (inode + i_size) ↦ (512 * Z.of_nat q) ∗ bytes buf data ∗ written q (b0 :: blks) data ∗ (fp + f_pos) ↦ 0 ∗
        (inode + i_dirty) ↦ 1 ∗ bio_pool (S n) }}.
Proof.
  apply triple_wp. iIntros "((%Hq & %Hblks & %Hdata & %Hc & %Hq2 & %Hb0 & %Hi & %Hf & %Hb & %Hfl) & Hflag & Hpos & Hdirty & Hblk & Hdev & Hsize & Hbuf & Hw & Hp)".
  unfold general_file_write, get_first_block. rw !eqb_false; [|done..]. rw (proj2 (Z.ltb_ge _ _)); [|lia]. wp_pures.
  iApply wp_bind. iApply (arr_load _ _ _ 0 b0 with "Hblk"); [done|lia|]. iIntros "Hblk". wp_pures.
  rw s32_small; [|inversion Hblks; lia]. rw eqb_false; [|done]. wp_pures. rw eqb_false; [|done]. wp_load. rw Hfl. wp_load.
  change (s32 0) with 0. iApply wp_bind.
  iApply (wp_wand with "[-Hdirty Hpos Hflag]"); first iApply (wp_loop _ (write_inv inode buf q (b0 :: blks) data n) _ q).
  - iIntros "(%k & _ & _ & _ & _ & H & _)". rw arr_cells. iApply (cells_le with "H"). lia.
  - intros m s. iApply write_step_wp; [simpl; lia|lia|done..].
  - iExists 0%nat. iFrame. iPureIntro. split; [lia|]. f_equal; lia.
  - iIntros (r) "(%k & (%Hk & %E) & Hblk & Hdev & Hsize & Hbuf & Hw & Hp)". wp_store. rw Nat.add_0_r in Hk. subst k. by iFrame.
Qed.
End spec.

Lemma general_file_write_rounds_witness :
  let rd := ram_disk 100000 64 4096 in let data := replicate 1024 65 in
  triple (⌜(2 ≤ 2 ∧ 2 ≤ 100)%nat ∧ Forall (λ b, 0 ≤ b < 2 ^ 31) [600; 601] ∧ length data = 1024%nat ∧ 512 < 600 ∧ 512 * (2%nat - 1) < 600 ≤ 512 * 2%nat ∧
      600 ≠ 0 ∧ 8192 ≠ NULL ∧ 12288 ≠ NULL ∧ 16384 ≠ NULL ∧ Z.land 0 O_APPEND = 0⌝ ∗
     (12288 + f_flag) ↦ 0 ∗ (12288 + f_pos) ↦ 0 ∗ (8192 + i_dirty) ↦ 0 ∗
     arr (8192 + i_data) 4 [600; 601] ∗ (8192 + i_dev) ↦ ROOT_DEV ∗ (8192 + i_size) ↦ 0 ∗ bytes 16384 data ∗
     written 0 [600; 601] data ∗ bio_pool 1)%I
    (general_file_write (ram_getblk 64) (ram_rw 100000) ram_brelse 8 8192 12288 16384 600)
  (λ r, ⌜r = 0⌝ ∗ (8192 + i_size) ↦ (512 * Z.of_nat 2) ∗ bytes 16384 data ∗ written 2 [600; 601] data ∗ (12288 + f_pos) ↦ 0 ∗
        (8192 + i_dirty) ↦ 1 ∗ bio_pool 1)%I.
Proof. intros rd data. exact (general_file_write_rounds (BlockIO0 := rd) 8 8192 12288 16384 0 0 600 2 600 [601] data 0). Defined.

(** ** File descriptors *)

Section fds.
Context (current : Z).

(** The table of open files of the running task. *)
Definition fd_table (cur : Z) (fs : list Z) : heapProp :=
  (⌜length fs = Z.to_nat NR_OPEN⌝ ∗ current ↦ cur ∗ arr (cur + filp 0) 4 fs)%I.

Lemma fd_acc cur fs (fd : nat) f : fs !! fd = Some f → fd_table cur fs ⊢
  current ↦ cur ∗ (cur + filp fd) ↦ f ∗ (current ↦ cur -∗ (cur + filp fd) ↦ f -∗ fd_table cur fs).
Proof.
  intros Hf. iIntros "(%Hl & Hc & H)". iDestruct (arr_read _ _ _ fd with "H") as "[Hf H]"; [done|].
  rw (_ : cur + filp 0 + 4 * fd = cur + filp fd); [|unfold filp; lia]. iFrame. iIntros "$ Hf". iSplit; [done|]. by iApply "H".
Qed.

(** The position that [lseek] sets, or the error. *)
Definition seek (pos size offset origin : Z) : Z + Z :=
  let new := if origin =? 0 then Some offset else if origin =? 1 then Some (pos + offset)
             else if origin =? 2 then Some (size + offset) else None in
  match new with
  | Some p => if p <? 0 then inr (- EINVAL) else inl p
  | None => inr (- EINVAL)
  end.

(** [lseek] on an open file: from the start, from the position or from the end; a position before the
    start and an origin that is none of these are refused and the position stays. *)
Theorem lseek_correct cur fs (fd : nat) fp inode pos size offset origin :
  {{ ⌜(0 < fd)%nat ∧ fs !! fd = Some fp ∧ fp ≠ NULL ∧ inode ≠ NULL ∧ 0 ≤ pos < 2 ^ 30 ∧ 0 ≤ size < 2 ^ 16 ∧ - 2 ^ 30 ≤ offset < 2 ^ 30⌝ ∗
     fd_table cur fs ∗ (fp + f_inode) ↦ inode ∗ (fp + f_pos) ↦ pos ∗ (inode + i_size) ↦ size }}
    general_file_lseek current (Z.of_nat fd) offset origin
  {{ r, match seek pos size offset origin with
        | inl p => ⌜r = p⌝ ∗ (fp + f_pos) ↦ p
        | inr e => ⌜r = e⌝ ∗ (fp + f_pos) ↦ pos
        end ∗ fd_table cur fs }}.
Proof.
  apply triple_wp. iIntros "((%Hfd & %Hf & %Hfp & %Hin & %Hpos & %Hsize & %Hoff) & Ht & Hi & Hp & Hs)".
  iAssert ⌜length fs = 32%nat⌝%I as %Hl; [by iDestruct "Ht" as "[$ _]"|]. pose proof (lookup_lt_Some _ _ _ Hf).
  unfold general_file_lseek. rw (proj2 (Z.leb_gt _ _)); [|lia]. rw Z.geb_leb (proj2 (Z.leb_gt _ _)); [|unfold NR_OPEN; lia].
  iDestruct (fd_acc with "Ht") as "(Hc & Hf & Ht)"; [done|]. wp_load. wp_load. rw (eqb_false fp NULL Hfp). wp_load. rw (eqb_false inode NULL Hin).
  wp_load. wp_load. iDestruct ("Ht" with "Hc Hf") as "Ht". unfold seek. destruct (origin =? 0); [|destruct (origin =? 1); [|destruct (origin =? 2)]].
  - destruct (Z.ltb_spec offset 0); wp_pures; [by iFrame|]. wp_store. wp_load. rw s32_small; [|lia]. by iFrame.
  - wp_load. destruct (Z.ltb_spec (pos + offset) 0); wp_pures; [by iFrame|]. wp_load.
    rw (_ : s64 (pos + offset) = pos + offset); [|unfold s64; rw Z.mod_small; lia]. wp_store. wp_load. rw s32_small; [|lia]. by iFrame.
  - wp_load. wp_load. rw (s32_small (size + offset)); [|lia]. destruct (Z.ltb_spec (size + offset) 0); wp_pures; [by iFrame|].
    wp_store. wp_load. rw s32_small; [|lia]. by iFrame.
  - wp_pures. by iFrame.
Qed.

Lemma fd_scan_wp cur fs (fd k F : nat) Q : (fd + k ≤ 32)%nat → (k < F)%nat → (∀ j, (fd ≤ j < fd + k)%nat → ∃ f, fs !! j = Some f ∧ f ≠ NULL) →
  (∀ f, fs !! (fd + k)%nat = Some f → f = NULL) →
  fd_table cur fs -∗ (fd_table cur fs -∗ Q (Z.of_nat (fd + k))) -∗
  wp (run F (λ newfd,
    if newfd <? NR_OPEN then
      cur ← load current;
      f ← load (cur + filp newfd);
      if negb (f =? NULL) then mret (inl (newfd + 1)) else mret (inr newfd)
    else mret (inr newfd)) (Z.of_nat fd)) Q.
Proof.
  revert fd F. induction k as [|k IH]; intros fd [|F] Hle HF Hall Hend; try lia; iIntros "Ht HQ"; rw run_one.
  - rw Nat.add_0_r in Hend |- *. iAssert ⌜length fs = 32%nat⌝%I as %Hl; [by iDestruct "Ht" as "[$ _]"|].
    destruct (Z.ltb_spec fd NR_OPEN) as [Hlt|Hge]; [|wp_pures; by iApply "HQ"].
    destruct (lookup_lt_is_Some_2 fs fd) as [f Hf]; [unfold NR_OPEN in Hlt; lia|]. pose proof (Hend f Hf) as ->.
    iDestruct (fd_acc with "Ht") as "(Hc & Hf & Ht)"; [done|]. wp_load. wp_load. iApply "HQ". iApply ("Ht" with "Hc Hf").
  - rw (proj2 (Z.ltb_lt _ _)); [|unfold NR_OPEN; lia]. destruct (Hall fd) as (f & Hf & Hn); [lia|].
    iDestruct (fd_acc with "Ht") as "(Hc & Hf & Ht)"; [done|]. wp_load. wp_load. iDestruct ("Ht" with "Hc Hf") as "Ht".
    rw eqb_false; [|done]. wp_pures. rw (_ : Z.of_nat fd + 1 = Z.of_nat (S fd)); [|lia].
    iApply (IH (S fd) F with "Ht"); [lia|lia|intros j Hj; apply Hall; lia|by rw Nat.add_succ_comm|]. by rw Nat.add_succ_comm.
Qed.

(** The lowest descriptor from [fd] on that is free: at most [NR_OPEN]. *)
Fixpoint lowest_free (fs : list Z) (n : nat) : nat :=
  match fs with
  | [] => n
  | f :: fs => if f =? NULL then n else lowest_free fs (S n)
  end.

Lemma lowest_free_spec fs n : ∃ k, lowest_free fs n = (n + k)%nat ∧ (k ≤ length fs)%nat ∧
  (∀ j, (j < k)%nat → ∃ f, fs !! j = Some f ∧ f ≠ NULL) ∧ (∀ f, fs !! k = Some f → f = NULL).
Proof.
  revert n. induction fs as [|f fs IH]; intros n; simpl; [exists 0%nat; split_and!; [lia|lia|lia|done]|].
  destruct (Z.eqb_spec f NULL) as [->|Hf].
  - exists 0%nat. split_and!; [lia|lia|lia|by intros ? [= <-]].
  - destruct (IH (S n)) as (k & -> & Hk & Hall & Hend). exists (S k). split_and!; [lia|lia| |done].
    intros [|j] Hj; [by exists f|]. apply Hall. lia.
Qed.

(** [dupfd] gives the open file [oldfd] the lowest free descriptor that is not below [newfd], and the
    file one user more; when there is none it answers -1 and changes nothing. *)
Theorem dupfd_correct cur fs (oldfd newfd : nat) f c :
  let k := lowest_free (drop newfd fs) newfd in
  {{ ⌜fs !! oldfd = Some f ∧ f ≠ NULL ∧ (newfd < 32)%nat⌝ ∗ fd_table cur fs ∗ (f + f_count) ↦ c }}
    dupfd current (Z.of_nat oldfd) (Z.of_nat newfd)
  {{ r, if decide (k < 32)%nat then ⌜r = Z.of_nat k ∧ fs !! k = Some NULL⌝ ∗ fd_table cur (<[k := f]> fs) ∗ (f + f_count) ↦ u16 (c + 1)
        else ⌜r = -1⌝ ∗ fd_table cur fs ∗ (f + f_count) ↦ c }}.
Proof.
  intros k. apply triple_wp. iIntros "((%Hf & %Hfn & %Hnew) & Ht & Hcnt)".
  iAssert ⌜length fs = 32%nat⌝%I as %Hl; [by iDestruct "Ht" as "[$ _]"|]. pose proof (lookup_lt_Some _ _ _ Hf) as Hold.
  destruct (lowest_free_spec (drop newfd fs) newfd) as (j & Hk & Hj & Hall & Hend). fold k in Hk.
  rw length_drop in Hj. unfold dupfd. rw (geb_false oldfd); [|unfold NR_OPEN; lia].
  iDestruct (fd_acc with "Ht") as "(Hc & Hf & Ht)"; [done|]. wp_load. wp_load. rw (eqb_false f NULL Hfn).
  iDestruct ("Ht" with "Hc Hf") as "Ht". rw (geb_false newfd); [|unfold NR_OPEN; lia]. wp_pures.
  iApply wp_bind. iApply (fd_scan_wp _ _ newfd j with "Ht"); [lia|change (Z.to_nat NR_OPEN) with 32%nat; lia| |by intros g; rw -lookup_drop; apply Hend|].
  { intros i Hi. destruct (Hall (i - newfd)%nat) as (g & Hg & Hgn); [lia|]. exists g. split; [|done].
    rw lookup_drop in Hg. by replace (newfd + (i - newfd))%nat with i in Hg by lia. }
  iIntros "Ht". rw -Hk. case_decide as Hk32.
  - destruct (lookup_lt_is_Some_2 fs k) as [g Hg]; [lia|]. assert (g = NULL) as ->; [apply Hend; rw lookup_drop -Hk; done|].
    rw (geb_false k); [|unfold NR_OPEN; lia]. iDestruct "Ht" as "(_ & Hc & H)". wp_load.
    iApply wp_bind. iApply (arr_load _ _ _ oldfd f with "H"); [done|unfold filp; lia|]. iIntros "H".
    iApply wp_bind. iApply (arr_store _ _ _ k NULL with "H"); [done|unfold filp; lia|]. iIntros "H".
    wp_load. wp_store. iFrame. iPureIntro. by rw length_insert.
  - rw Z.geb_leb (proj2 (Z.leb_le _ _)); [|unfold NR_OPEN; lia]. wp_pures. by iFrame.
Qed.
End fds.

(** When the task has no free descriptor, [get_empty_fd] still reports success and leaves the variable [fd] as
    it was: [open] stores the file at an index that is not initialised. *)
Definition full_table : mem :=
  <[8 := 4096]> (list_to_map (imap (λ i f, (4096 + filp (Z.of_nat i), f)) (replicate 32 1))).

Theorem get_empty_fd_full fd0 : get_empty_fd 8 fd0 full_table = Ok (0, fd0) full_table.
Proof. vm_compute. reflexivity. Qed.
