(* ===== verification/SkBuff.v ===== *)
(** * Queues of packets: net/inet/skbuff.c

    A [struct sk_buff] begins, as its [struct sk_buff_head] does, with the links of a ring, at the
    offsets of those of a [struct list_head]: [dlist] describes the queues.  A packet that is in no queue has null
    links. *)

From S2P Require Export CList.

(** struct sk_buff and struct sk_buff_head: the links. *)
Definition sk_next : Z := 0.
Definition sk_prev : Z := 4.

Definition skb_queue_head_init (list : Z) : M unit :=
  store (list + sk_prev) list;;
  store (list + sk_next) list.

Definition skb_dequeue (list : Z) : M Z :=
  rst ← load (list + sk_next);
  if rst =? list then mret NULL else
  n ← load (rst + sk_next);
  store (list + sk_next) n;;
  n ← load (rst + sk_next);
  store (n + sk_prev) list;;
  store (rst + sk_prev) NULL;;
  store (rst + sk_next) NULL;;
  mret rst.

Definition dev_kfree_free (skb mode : Z) : M unit := mret tt.

Definition alloc_skb (size priority : Z) : M Z := mret NULL.

Definition skb_queue_head (list skb : Z) : M unit :=
  n ← load (list + sk_next);
  store (skb + sk_next) n;;
  store (skb + sk_prev) list;;
  n ← load (skb + sk_next);
  store (n + sk_prev) skb;;
  p ← load (skb + sk_prev);
  store (p + sk_next) skb.

Definition skb_queue_tail (list skb : Z) : M unit :=
  store (skb + sk_next) list;;
  p ← load (list + sk_prev);
  store (skb + sk_prev) p;;
  p ← load (skb + sk_prev);
  store (p + sk_next) skb;;
  n ← load (skb + sk_next);
  store (n + sk_prev) skb.

Definition skb_unlink (skb : Z) : M unit :=
  linked ← (p ← load (skb + sk_prev);
            if p =? NULL then mret false else
            n ← load (skb + sk_next); mret (negb (n =? NULL)));
  if linked : bool then
    p ← load (skb + sk_prev);
    n ← load (skb + sk_next);
    store (p + sk_next) n;;
    n ← load (skb + sk_next);
    p ← load (skb + sk_prev);
    store (n + sk_prev) p;;
    store (skb + sk_next) NULL;;
    store (skb + sk_prev) NULL
  else mret tt.

(** ** Specifications *)

(** A packet in no queue. *)
Definition lclear (x : Z) : heapProp := (x + list_next) ↦ NULL ∗ (x + list_prev) ↦ NULL ∗ ⌜x ≠ NULL⌝.

Section specs.
Implicit Types (head x : Z) (xs ys : list Z).

Lemma lclear_lnode x : lclear x ⊢ lnode x.
Proof. iIntros "(H1 & H2 & $)". iFrame. Qed.

Lemma skb_queue_head_init_wp x Q : lnode x -∗ (dlist x [] -∗ Q tt) -∗ wp (skb_queue_head_init x) Q.
Proof.
  iIntros "((%v & Hn) & (%w & Hp) & %Hx) HQ". unfold skb_queue_head_init.
  wp_store. wp_store. iApply "HQ". iFrame. simpl. auto.
Qed.

Lemma skb_dequeue_wp head xs Q :
  dlist head xs -∗
  (match xs with
   | [] => dlist head [] -∗ Q NULL
   | x :: xs' => dlist head xs' -∗ lclear x -∗ Q x
   end) -∗
  wp (skb_dequeue head) Q.
Proof.
  iIntros "Hd HQ". unfold skb_dequeue. destruct xs as [|x xs].
  - iDestruct "Hd" as "(Hn & Hp & %)". simpl. wp_load. iApply "HQ". by iFrame.
  - iDestruct (dlist_ne _ _ x with "Hd") as %[Hx Hx0]; [set_solver|].
    iDestruct "Hd" as "(Hn & Hp & %Hall)".
    iDestruct (nexts_unlink _ [] with "Hn") as "(Hh & Hxn & Hn)".
    iDestruct (prevs_unlink _ [] with "Hp") as "(Hf & Hxp & Hp)". unfold last_or; simpl.
    wp_load. rw (eqb_false x head Hx). wp_load. wp_store. wp_load. wp_store. wp_store. wp_store.
    iApply ("HQ" with "[Hn Hh Hp Hf] [$Hxn $Hxp //]"). iDestruct ("Hn" with "Hh") as "$".
    iDestruct ("Hp" with "Hf") as "$". iPureIntro. by inversion_clear Hall as [|?? ? Hr]; inversion_clear Hr; constructor.
Qed.

Lemma Forall_insert (P : Z → Prop) xs x ys : Forall P (xs ++ ys) → P x → Forall P (xs ++ x :: ys).
Proof. rw !Forall_app Forall_cons. tauto. Qed.

Lemma dlist_open head xs ys :
  dlist head (xs ++ ys) ⊢ (last_or head xs + list_next) ↦ first_or head ys ∗ (first_or head ys + list_prev) ↦ last_or head xs ∗
    ∀ x, ⌜x ≠ NULL⌝ -∗ (last_or head xs + list_next) ↦ x -∗ (x + list_next) ↦ first_or head ys -∗
      (first_or head ys + list_prev) ↦ x -∗ (x + list_prev) ↦ last_or head xs -∗ dlist head (xs ++ x :: ys).
Proof.
  iIntros "(Hn & Hp & %Hall)". iDestruct (nexts_link with "Hn") as "[$ Hn]".
  iDestruct (prevs_link with "Hp") as "[$ Hp]". iIntros (x Hx) "H1 H2 H3 H4".
  iDestruct ("Hn" with "H1 H2") as "$". iDestruct ("Hp" with "H3 H4") as "$". iPureIntro.
  inversion_clear Hall. constructor; [done|]. by apply Forall_insert.
Qed.

Lemma skb_queue_head_wp head xs x Q :
  dlist head xs -∗ lclear x -∗ (dlist head (x :: xs) -∗ Q tt) -∗ wp (skb_queue_head head x) Q.
Proof.
  iIntros "Hd (Hxn & Hxp & %Hx) HQ". unfold skb_queue_head. iDestruct (dlist_open head [] xs with "Hd") as "(Hl & Hf & Hd)".
  unfold last_or; simpl. wp_load. wp_store. wp_store. wp_load. wp_store. wp_load. wp_store.
  iApply "HQ". iApply ("Hd" with "[//] Hl Hxn Hf Hxp").
Qed.

Lemma skb_queue_tail_wp head xs x Q :
  dlist head xs -∗ lclear x -∗ (dlist head (xs ++ [x]) -∗ Q tt) -∗ wp (skb_queue_tail head x) Q.
Proof.
  iIntros "Hd (Hxn & Hxp & %Hx) HQ". unfold skb_queue_tail. rw -{1}(app_nil_r xs).
  iDestruct (dlist_open head xs [] with "Hd") as "(Hl & Hf & Hd)". unfold first_or; simpl.
  wp_store. wp_load. wp_store. wp_load. wp_store. wp_load. wp_store.
  iApply "HQ". iApply ("Hd" with "[//] Hl Hxn Hf Hxp").
Qed.

Lemma last_or_in head xs : last_or head xs ∈ head :: xs.
Proof. unfold last_or. destruct (last xs) eqn:E; [right; by apply last_Some_elem_of|left]. Qed.

Lemma first_or_in head xs : first_or head xs ∈ head :: xs.
Proof. destruct xs; [left|right; left]. Qed.

(** A node of the ring, wherever it is, with its neighbours. *)
Lemma dlist_node head xs x ys :
  dlist head (xs ++ x :: ys) ⊢ ⌜x ≠ NULL ∧ last_or head xs ≠ NULL ∧ first_or head ys ≠ NULL⌝ ∗
    (x + list_prev) ↦ last_or head xs ∗ (x + list_next) ↦ first_or head ys ∗
    (last_or head xs + list_next) ↦ x ∗ (first_or head ys + list_prev) ↦ x ∗
    ((last_or head xs + list_next) ↦ first_or head ys -∗ (first_or head ys + list_prev) ↦ last_or head xs -∗ dlist head (xs ++ ys)).
Proof.
  iIntros "(Hn & Hp & %Hall)". iDestruct (nexts_unlink with "Hn") as "($ & $ & Hn)".
  iDestruct (prevs_unlink with "Hp") as "($ & $ & Hp)". rw Forall_forall in Hall.
  iSplit.
  { iPureIntro. split_and!; apply Hall; [set_solver| |].
    - pose proof (last_or_in head xs). set_solver.
    - pose proof (first_or_in head ys). set_solver. }
  iIntros "H1 H2". iDestruct ("Hn" with "H1") as "$". iDestruct ("Hp" with "H2") as "$".
  iPureIntro. apply Forall_forall. set_solver.
Qed.

Lemma skb_unlink_wp head xs x ys Q :
  dlist head (xs ++ x :: ys) -∗ (dlist head (xs ++ ys) -∗ lclear x -∗ Q tt) -∗ wp (skb_unlink x) Q.
Proof.
  iIntros "Hd HQ". iDestruct (dlist_node with "Hd") as "((%Hx & %Hl & %Hf) & Hxp & Hxn & H1 & H2 & Hd)". unfold skb_unlink.
  wp_load. rw (eqb_false _ _ Hl). wp_load. rw (eqb_false _ _ Hf). wp_pures.
  wp_load. wp_load. wp_store. wp_load. wp_load. wp_store. wp_store. wp_store.
  iApply ("HQ" with "[Hd H1 H2] [$Hxn $Hxp //]"). iApply ("Hd" with "H1 H2").
Qed.

Lemma skb_unlink_clear_wp x Q : lclear x -∗ (lclear x -∗ Q tt) -∗ wp (skb_unlink x) Q.
Proof. iIntros "(Hn & Hp & %Hx) HQ". unfold skb_unlink. wp_load. iApply "HQ". by iFrame. Qed.
End specs.

(** ** A queue of packets is a deque *)

Inductive skb_op :=
  | QueueHead (x : Z)
  | QueueTail (x : Z)
  | Unlink (x : Z)
  | Pop.

(** One operation on the deque [q] of packets: its answer, if it has one, and the deque afterwards. *)
Definition deque_step (op : skb_op) (q : list Z) : option Z * list Z :=
  match op with
  | QueueHead x => (None, x :: q)
  | QueueTail x => (None, q ++ [x])
  | Unlink x => (None, filter (λ y, y ≠ x) q)
  | Pop => match q with [] => (Some NULL, []) | x :: q => (Some x, q) end
  end.

Fixpoint deque_model (q : list Z) (ops : list skb_op) : list Z * list Z :=
  match ops with
  | [] => ([], q)
  | op :: ops =>
      let '(a, q) := deque_step op q in
      let '(r, q) := deque_model q ops in
      (from_option (λ a, [a]) [] a ++ r, q)
  end.

(** The packets are among [nodes], and none is put into a queue it is in already. *)
Definition op_ok (nodes : gset Z) (q : list Z) (op : skb_op) : bool :=
  match op with
  | QueueHead x | QueueTail x => bool_decide (x ∈ nodes ∧ x ∉ q)
  | Unlink x => bool_decide (x ∈ nodes)
  | Pop => true
  end.

Fixpoint ops_ok (nodes : gset Z) (q : list Z) (ops : list skb_op) : bool :=
  match ops with
  | [] => true
  | op :: ops => op_ok nodes q op && ops_ok nodes (deque_step op q).2 ops
  end.

Definition skb_do (head : Z) (op : skb_op) : M (option Z) :=
  match op with
  | QueueHead x => skb_queue_head head x;; mret None
  | QueueTail x => skb_queue_tail head x;; mret None
  | Unlink x => skb_unlink x;; mret None
  | Pop => x ← skb_dequeue head; mret (Some x)
  end.

Fixpoint skb_run (head : Z) (ops : list skb_op) : M (list Z) :=
  match ops with
  | [] => mret []
  | op :: ops =>
      a ← skb_do head op;
      r ← skb_run head ops;
      mret (from_option (λ a, [a]) [] a ++ r)
  end.

(** The packets [nodes]: those of [q] are in the queue, the others in none. *)
Definition packets (head : Z) (nodes : gset Z) (q : list Z) : heapProp :=
  (⌜NoDup q ∧ list_to_set q ⊆ nodes⌝ ∗ dlist head q ∗ outside lclear nodes (list_to_set q))%I.

Lemma filter_other (x : Z) (q : list Z) : x ∉ q → filter (λ y, y ≠ x) q = q.
Proof.
  induction q as [|y q IH]; intros H; [done|]. rw filter_cons_True; [f_equal; apply IH|]; set_solver.
Qed.

Lemma skb_do_wp head nodes q op Q : op_ok nodes q op = true →
  packets head nodes q -∗ (packets head nodes (deque_step op q).2 -∗ Q (deque_step op q).1) -∗ wp (skb_do head op) Q.
Proof.
  intros Hok. iIntros "((%Hnd & %Hsub) & Hd & Hc) HQ". destruct op as [x|x|x|]; simpl in *.
  - apply bool_decide_eq_true in Hok as [Hx Hq]. iDestruct (outside_take _ _ _ x with "Hc") as "[Hx Hc]"; [done|set_solver|].
    wp_focus. iApply (skb_queue_head_wp with "Hd Hx"). iIntros "Hd". wp_pures. iApply "HQ". iFrame.
    iPureIntro. split; [by constructor|set_solver].
  - apply bool_decide_eq_true in Hok as [Hx Hq]. iDestruct (outside_take _ _ _ x with "Hc") as "[Hx Hc]"; [done|set_solver|].
    wp_focus. iApply (skb_queue_tail_wp with "Hd Hx"). iIntros "Hd". wp_pures. iApply "HQ". iFrame.
    rw list_to_set_app_L /= right_id_L (comm_L (∪) _ {[x]}). iFrame. iPureIntro. split; [|set_solver].
    apply NoDup_app. split_and!; [done|set_solver|apply NoDup_singleton].
  - apply bool_decide_eq_true in Hok. wp_focus. destruct (decide (x ∈ q)) as [Hq|Hq].
    + apply list_elem_of_split in Hq as (q1 & q2 & ->). pose proof Hnd as (Hn1 & Hn12 & Hn2)%NoDup_app. apply NoDup_cons in Hn2 as [Hx2 Hn2].
      assert (x ∉ q1) as Hx1 by (intros H; apply (Hn12 x H); left).
      iApply (skb_unlink_wp with "Hd"). iIntros "Hd Hx". wp_pures. iApply "HQ".
      rw filter_app filter_cons_False; [|by intros H]. rw !filter_other; [|done..]. iFrame "Hd".
      iSplit; [iPureIntro; split; [apply NoDup_app; set_solver|set_solver]|].
      iApply (outside_give _ _ _ x); [done|set_solver|]. iFrame "Hx".
      by rw (_ : {[x]} ∪ list_to_set (q1 ++ q2) = list_to_set (q1 ++ x :: q2) :> gset Z); [|set_solver].
    + unfold outside. rw (big_sepS_delete _ _ x); [|set_solver]. iDestruct "Hc" as "[Hx Hc]".
      iApply (skb_unlink_clear_wp with "Hx"). iIntros "Hx". wp_pures. iApply "HQ". rw filter_other; [|done].
      iFrame "Hd". iSplit; [done|]. iApply (big_sepS_delete _ _ x); [set_solver|]. iFrame.
  - wp_focus. iApply (skb_dequeue_wp with "Hd"). destruct q as [|x q]; iIntros "Hd".
    + wp_pures. iApply "HQ". by iFrame.
    + iIntros "Hx". wp_pures. iApply "HQ". apply NoDup_cons in Hnd as [Hx Hnd]. iFrame "Hd".
      iSplit; [iPureIntro; split; [done|set_solver]|]. iApply (outside_give _ _ _ x); [set_solver..|]. iFrame.
Qed.

Lemma skb_run_wp head nodes ops q Q : ops_ok nodes q ops = true →
  packets head nodes q -∗ (packets head nodes (deque_model q ops).2 -∗ Q (deque_model q ops).1) -∗ wp (skb_run head ops) Q.
Proof.
  revert q Q. induction ops as [|op ops IH]; intros q Q Hok; iIntros "H HQ"; simpl; [wp_pures; by iApply "HQ"|].
  simpl in Hok. apply andb_true_iff in Hok as [Hop Hok]. iApply wp_bind. iApply (skb_do_wp with "H"); [done|]. iIntros "H".
  simpl. destruct (deque_step op q) as [a q']. simpl in *. iApply wp_bind. iApply (IH with "H"); [done|]. iIntros "H".
  destruct (deque_model q' ops) as [r q'']. wp_pures. by iApply "HQ".
Qed.

(** C19: refinement.  A queue of packets is a deque: every sequence of [skb_queue_head],
    [skb_queue_tail], [skb_unlink] and [skb_dequeue] in which no packet is queued twice returns what the deque of
    mathematical lists returns (NULL exactly when it is empty), and ends with the ring of the packets that are left;
    all other packets have null links again, so that [skb_unlink] tells them from those in a queue. *)
Theorem skb_queue_deque head nodes q ops :
  {{ ⌜ops_ok nodes q ops = true⌝ ∗ packets head nodes q }}
    skb_run head ops
  {{ r, ⌜r = (deque_model q ops).1⌝ ∗ packets head nodes (deque_model q ops).2 }}.
Proof. apply triple_wp. iIntros "[%Hok H]". iApply (skb_run_wp with "H"); [done|]. auto. Qed.
