(* ===== verification/Chain.v ===== *)
(** * Singly linked lists behind a pointer

    The network code keeps its tables in lists that begin in a variable and are linked by one member,
    and changes them through a pointer to the link that is looked at ([struct rtable **rtp]).  The loops of this kind
    differ in the member, in the test and in what is done with a node that was taken out. *)

From S2P Require Export CList.

(** [while((x = *pp) != NULL) if(drop x) { *pp = x->next; freed x; } else pp = &x->next;] *)
Definition unlink_if (next : Z) (drop : Z → M bool) (freed : Z → M unit) (pp : Z) : M unit :=
  loop (λ pp,
    x ← load pp;
    if x =? NULL then mret (inr tt) else
    d ← drop x;
    if d : bool then
      n ← load (x + next);
      store pp n;;
      freed x;;
      mret (inl pp)
    else mret (inl (x + next))) pp.

(** [for(x = *pp; x != NULL; x = x->next) if(test x) break;] *)
Definition find_link (next : Z) (test : Z → M bool) (pp : Z) : M Z :=
  x ← load pp;
  loop (λ x,
    if x =? NULL then mret (inr NULL) else
    t ← test x;
    if t : bool then mret (inr x) else
    x ← load (x + next);
    mret (inl x)) x.

(** The list of nodes [xs] that the cell [c] points to. *)
Fixpoint slist (next c : Z) (xs : list Z) : heapProp :=
  match xs with
  | [] => c ↦ NULL
  | x :: xs => ⌜x ≠ NULL⌝ ∗ c ↦ x ∗ slist next (x + next) xs
  end.

Lemma slist_cells next c xs : slist next c xs ⊢ cells (S (length xs)).
Proof.
  revert c. induction xs as [|x xs IH]; intros c; simpl; [apply pt_cells|].
  rw pt_cells IH. iIntros "(_ & H1 & H2)". iApply (cells_add with "H1 H2").
Qed.

(** The first link: any cell that has its value points to the list. *)
Lemma slist_first next c xs : slist next c xs ⊢ c ↦ first_or NULL xs ∗ (∀ c', c' ↦ first_or NULL xs -∗ slist next c' xs).
Proof. destruct xs; simpl; iIntros "H"; [iFrame; auto|]. iDestruct "H" as "($ & $ & $)". auto. Qed.

(** The pointer behind the nodes [xs]. *)
Definition behind (next c : Z) (xs : list Z) : Z := from_option (λ x, x + next) c (last xs).

Lemma behind_snoc next c xs x : behind next c (xs ++ [x]) = x + next.
Proof. unfold behind. by rw last_snoc. Qed.

Lemma slist_app next c xs ys :
  slist next c (xs ++ ys) ⊢ slist next (behind next c xs) ys ∗
    ∀ zs, slist next (behind next c xs) zs -∗ slist next c (xs ++ zs).
Proof.
  revert c. induction xs as [|x xs IH]; intros c; simpl; [iIntros "$"; auto|].
  iIntros "($ & $ & H)". iDestruct (IH with "H") as "H". unfold behind. rw last_cons.
  by destruct (last xs).
Qed.

Lemma slist_ne {A} (addr : A → Z) next c xs : slist next c (addr <$> xs) ⊢ ⌜Forall (λ x, addr x ≠ NULL) xs⌝.
Proof.
  revert c. induction xs as [|x xs IH]; intros c; simpl; [auto|]. iIntros "(%Hx & _ & H)".
  iDestruct (IH with "H") as %Hxs. iPureIntro. by constructor.
Qed.

Section chain.
Context {A : Type} (next : Z) (addr : A → Z) (R : A → heapProp).

Lemma find_link_wp (test : Z → M bool) (t : A → bool) pp xs (Q : Z → heapProp) :
  (∀ x, R x ⊢ wp (test (addr x)) (λ b, ⌜b = t x⌝ ∗ R x)) →
  slist next pp (addr <$> xs) -∗ ([∗ list] x ∈ xs, R x) -∗
  (slist next pp (addr <$> xs) -∗ ([∗ list] x ∈ xs, R x) -∗ Q (from_option addr NULL (head (filter t xs)))) -∗
  wp (find_link next test pp) Q.
Proof.
  intros Ht. iIntros "Hc HR HQ". unfold find_link. iDestruct (slist_first with "Hc") as "[Hpp Hc]". wp_load.
  iDestruct ("Hc" with "Hpp") as "Hc".
  iApply (wp_wand with "[Hc HR]"); first iApply (wp_loop _ (λ (n : nat) p, ∃ xs1 xs2, ⌜xs = xs1 ++ xs2 ∧ n = length xs2 ∧
    filter t xs1 = [] ∧ p = first_or NULL (addr <$> xs2)⌝ ∗ slist next pp (addr <$> xs) ∗ [∗ list] x ∈ xs, R x)%I
    (λ r, ⌜r = from_option addr NULL (head (filter t xs))⌝ ∗ slist next pp (addr <$> xs) ∗ [∗ list] x ∈ xs, R x)%I (length xs)).
  - iIntros "(%xs1 & %xs2 & (-> & _) & H & _)". rw slist_cells. iApply (cells_le with "H"). rw length_fmap !length_app. lia.
  - intros n p. iIntros "(%xs1 & %xs2 & (-> & -> & %H1 & ->) & Hc & HR)". destruct xs2 as [|x xs2]; simpl.
    + wp_pures. rw app_nil_r. iFrame. iPureIntro. by rw H1.
    + rw fmap_app fmap_cons. unfold first_or at 1; simpl. iDestruct (slist_app with "Hc") as "[(%Hx & Hp & Hn) Hc]".
      rw (eqb_false (addr x)); [|done]. iDestruct "HR" as "(HR1 & Hx & HR2)". iApply wp_bind.
      iApply (wp_wand with "[Hx]"); [by iApply Ht|]. iIntros (b) "[-> Hx]".
      destruct (t x) eqn:Etx; wp_pures.
      * iFrame. rw filter_app H1 filter_cons_True; [|by apply Is_true_true]. iSplit; [done|].
        iApply ("Hc" $! (addr x :: (addr <$> xs2))). by iFrame.
      * iDestruct (slist_first with "Hn") as "[Hp2 Hn]". wp_load. iDestruct ("Hn" with "Hp2") as "Hn".
        iDestruct ("Hc" $! (addr x :: (addr <$> xs2)) with "[$Hp $Hn //]") as "Hc".
        iExists (length xs2). iSplit; [iPureIntro; lia|]. iExists (xs1 ++ [x]), xs2. rw -assoc_L. iFrame. iPureIntro.
        split_and!; [done|done| |done]. by rw filter_app H1 filter_cons_False; [|by apply Is_true_false].
  - iExists [], xs. by iFrame.
  - iIntros (r) "(-> & Hc & HR)". iApply ("HQ" with "Hc HR").
Qed.

(** [T l] is what the nodes [l] have become that were taken out so far. *)
Lemma unlink_if_wp (drop : Z → M bool) (freed : Z → M unit) (d : A → bool) (T : list A → heapProp) pp xs l (Q : unit → heapProp) :
  (∀ x, R x ⊢ wp (drop (addr x)) (λ b, ⌜b = d x⌝ ∗ R x)) →
  (∀ x l, x ∈ xs → R x ∗ T l ⊢ wp (freed (addr x)) (λ _, T (l ++ [x]))) →
  slist next pp (addr <$> xs) -∗ ([∗ list] x ∈ xs, R x) -∗ T l -∗
  (slist next pp (addr <$> filter (λ x, negb (d x)) xs) -∗ ([∗ list] x ∈ filter (λ x, negb (d x)) xs, R x) -∗
   T (l ++ filter d xs) -∗ Q tt) -∗
  wp (unlink_if next drop freed pp) Q.
Proof.
  intros Hd Hf. iIntros "Hc HR HT HQ". unfold unlink_if.
  iApply (wp_wand with "[Hc HR HT]"); first iApply (wp_loop _ (λ (n : nat) p, ∃ xs1 xs2, ⌜xs = xs1 ++ xs2 ∧ n = length xs2⌝ ∗
    slist next p (addr <$> xs2) ∗ (∀ zs, slist next p zs -∗ slist next pp ((addr <$> filter (λ x, negb (d x)) xs1) ++ zs)) ∗
    ([∗ list] x ∈ xs2, R x) ∗ ([∗ list] x ∈ filter (λ x, negb (d x)) xs1, R x) ∗ T (l ++ filter d xs1))%I
    (λ _, slist next pp (addr <$> filter (λ x, negb (d x)) xs) ∗ ([∗ list] x ∈ filter (λ x, negb (d x)) xs, R x) ∗ T (l ++ filter d xs))%I (length xs)).
  - iIntros "(%xs1 & %xs2 & (_ & ->) & H & _)". rw slist_cells. iApply (cells_le with "H"). rw length_fmap. lia.
  - intros n p. iIntros "(%xs1 & %xs2 & (-> & ->) & Hc & Hw & HR & HR1 & HT)". destruct xs2 as [|x xs2]; simpl.
    + wp_load. wp_pures. rw !app_nil_r. iFrame. iDestruct ("Hw" $! [] with "Hc") as "Hw". by rw app_nil_r.
    + iDestruct "Hc" as "(%Hx & Hp & Hn)". iDestruct "HR" as "[Hx HR]". wp_load. rw (eqb_false (addr x)); [|done].
      iApply wp_bind. iApply (wp_wand with "[Hx]"); [by iApply Hd|]. iIntros (b) "[-> Hx]".
      destruct (d x) eqn:Edx; wp_pures.
      * iDestruct (slist_first with "Hn") as "[Hp2 Hn]". wp_load. wp_store. iApply wp_bind.
        iApply (wp_wand with "[Hx HT]"); [iApply (Hf x (l ++ filter d xs1)); [set_solver|iFrame]|]. iIntros (_) "HT". wp_pures. iExists (length xs2).
        iSplit; [iPureIntro; lia|]. iExists (xs1 ++ [x]), xs2. rw !filter_app.
        rw (filter_cons_False (λ x, negb (d x))); [|rw Edx; by intros []]. rw (filter_cons_True d); [|by rw Edx].
        rw !filter_nil app_nil_r (assoc_L (++) l). iFrame. iSplit; [by rw -assoc_L|]. by iApply "Hn".
      * iExists (length xs2). iSplit; [iPureIntro; lia|]. iExists (xs1 ++ [x]), xs2. rw !filter_app.
        rw (filter_cons_True (λ x, negb (d x))); [|by rw Edx]. rw (filter_cons_False d); [|rw Edx; by intros []].
        rw !filter_nil app_nil_r fmap_app. iFrame. iSplit; [by rw -assoc_L|]. iSplitL "Hw Hp"; [|done].
        iIntros (zs) "Hz". rw -assoc_L /=. iApply "Hw". by iFrame.
  - iExists [], xs. iFrame. rw !filter_nil app_nil_r. iFrame. simpl. auto.
  - iIntros (r) "(Hc & HR & HF)". destruct r. iApply ("HQ" with "Hc HR HF").
Qed.
End chain.
