(* ===== verification/Mmap.v ===== *)
(** * Mapping and unmapping of memory areas: the rest of mm/mmap.c, mm/kmalloc.c

    The areas of the running task are in the list and in the tree of its [mm_struct].  Operations of an area or of a file that are
    called through a pointer are parameters: [call_area f area], [call_unmap f area start len] and [call_mmap f inode file vma], with the
    pointer [f]. *)

From S2P Require Export Avl Pgtable Memory.

(** struct vm_area_struct, its other members, and struct vm_operation_struct *)
Definition vm_flags : Z := 18.
Definition vm_ops : Z := 40.
Definition vm_offset : Z := 44.
Definition vm_pte : Z := 52.
Definition sizeof_vm_area_struct : Z := 56.
Definition vo_open : Z := 0.
Definition vo_close : Z := 4.
Definition vo_unmap : Z := 12.

(** struct file, struct m_inode and struct file_operations *)
Definition mf_mode : Z := 0.
Definition mf_inode : Z := 16.
Definition mf_op : Z := 28.
Definition mi_count : Z := 66.
Definition fo_mmap : Z := 20.

Definition EACCES : Z := 13.
Definition ENODEV : Z := 19.
Definition ETXTBSY : Z := 26.
Definition MAP_TYPE : Z := 0x0f.
Definition MAP_SHARED : Z := 0x01.
Definition MAP_PRIVATE : Z := 0x02.
Definition MAP_FIXED : Z := 0x04.
Definition MAP_DENYWRITE : Z := 0x08.
Definition PROT_WRITE : Z := 0x02.
Definition FILE_READ : Z := 0x01.
Definition FILE_WRITE : Z := 0x02.
Definition VM_READ : Z := 0x0001.
Definition VM_WRITE : Z := 0x0002.
Definition VM_EXEC : Z := 0x0004.
Definition VM_SHARED : Z := 0x0008.
Definition VM_MAYREAD : Z := 0x0010.
Definition VM_MAYWRITE : Z := 0x0020.
Definition VM_MAYEXEC : Z := 0x0040.
Definition VM_MAYSHARE : Z := 0x0080.
Definition VM_GROWSDOWN : Z := 0x0100.
Definition VM_SHM : Z := 0x0400.
Definition VM_DENYWRITE : Z := 0x0800.
Definition VM_EXECUTABLE : Z := 0x1000.

(** [addr] and the page size are unsigned long. *)
Definition PAGE_ALIGN (addr : Z) : Z := Z.land (u32 (addr + PAGE_SIZE - 1)) PAGE_MASK.

(** ** mm/kmalloc.c *)
Definition kmalloc_init : M Z := mret 0.
Definition kmalloc (size priority : Z) : M Z := mret NULL.
Definition kfree_s (obj size : Z) : M Z := mret NULL.
Definition kfree (x : Z) : M Z := kfree_s x 0.

(** ** The checks of the tree

    They print a message for each node that is wrong; here they return the number of messages.  [n] bounds the
    depth of the recursion. *)
Definition complain (b : bool) : Z := if b then 0 else 1.

Fixpoint avl_checkheights (n : nat) (tree : Z) : M Z :=
  match n with
  | O => timeout
  | S n =>
      if tree =? avl_empty then mret 0 else
      l ← load (tree + vm_avl_left); a ← avl_checkheights n l;
      r ← load (tree + vm_avl_right); b ← avl_checkheights n r;
      h ← load (tree + vm_avl_height);
      l ← load (tree + vm_avl_left); hl ← heightof l;
      r ← load (tree + vm_avl_right); hr ← heightof r;
      mret (a + b + complain (((h =? hl + 1) && (hr <=? hl) && (hl <=? hr + 1)) || ((h =? hr + 1) && (hl <=? hr) && (hr <=? hl + 1))))
  end.

(** [avl_checkleft] and [avl_checkright] differ in the comparison. *)
Fixpoint avl_checkside (good : Z → Z → bool) (n : nat) (tree key : Z) : M Z :=
  match n with
  | O => timeout
  | S n =>
      if tree =? avl_empty then mret 0 else
      l ← load (tree + vm_avl_left); a ← avl_checkside good n l key;
      r ← load (tree + vm_avl_right); b ← avl_checkside good n r key;
      k ← load (tree + vm_avl_key);
      mret (a + b + complain (good k key))
  end.
Definition avl_checkleft : nat → Z → Z → M Z := avl_checkside Z.ltb.
Definition avl_checkright : nat → Z → Z → M Z := avl_checkside Z.gtb.

Fixpoint avl_checkorder (n : nat) (tree : Z) : M Z :=
  match n with
  | O => timeout
  | S n' =>
      if tree =? avl_empty then mret 0 else
      l ← load (tree + vm_avl_left); a ← avl_checkorder n' l;
      r ← load (tree + vm_avl_right); b ← avl_checkorder n' r;
      l ← load (tree + vm_avl_left); k ← load (tree + vm_avl_key); c ← avl_checkleft n' l k;
      r ← load (tree + vm_avl_right); k ← load (tree + vm_avl_key); d ← avl_checkright n' r k;
      mret (a + b + c + d)
  end.

Definition avl_check (n : nat) (mm : Z) : M Z :=
  t ← load (mm + mm_mmap_avl); a ← avl_checkheights n t;
  t ← load (mm + mm_mmap_avl); b ← avl_checkorder n t;
  mret (a + b).

Section mmap.
Context (call_area : Z → Z → M unit) (call_unmap : Z → Z → Z → Z → M unit) (call_mmap : Z → Z → Z → Z → M Z).
Context (iput : Z → M Z).
Context (buddy_list mem_map main_memory_end current nr_swapfiles swap_files nr_swap_pages : Z).

(** [if(area->vm_ops && area->vm_ops->f) area->vm_ops->f(area)] *)
Definition call_op (f area : Z) : M unit :=
  o ← load (area + vm_ops);
  if o =? NULL then mret tt else
  o ← load (area + vm_ops); c ← load (o + f);
  if c =? NULL then mret tt else
  o ← load (area + vm_ops); c ← load (o + f);
  call_area c area.

(** [mm->mmap_avl] and [mm->mmap] of a task *)
Definition mm_of (task : Z) : M Z := load (task + task_mm).

(** [p->i_count++] of the inode of an area that has one *)
Definition count_inode (area : Z) : M unit :=
  i ← load (area + vm_inode);
  if negb (i =? NULL) then
    i ← load (area + vm_inode); c ← load (i + mi_count); store (i + mi_count) (s16 (c + 1))
  else mret tt.

(** ** Merging *)

(** The tests of the loop of [merge_segments], up to the merging. *)
Definition mergeable (prev mpnt : Z) : M bool :=
  a ← load (mpnt + vm_inode); b ← load (prev + vm_inode);
  if negb (a =? b) then mret false else
  a ← load (mpnt + vm_pte); b ← load (prev + vm_pte);
  if negb (a =? b) then mret false else
  a ← load (mpnt + vm_ops); b ← load (prev + vm_ops);
  if negb (a =? b) then mret false else
  a ← load (mpnt + vm_flags); b ← load (prev + vm_flags);
  if negb (a =? b) then mret false else
  a ← load (mpnt + vm_start); b ← load (prev + vm_end);
  if negb (a =? b) then mret false else
  i ← load (mpnt + vm_inode);
  f ← load (mpnt + vm_flags);
  if negb (i =? NULL) || truth (Z.land f VM_SHM) then
    o ← load (prev + vm_offset); e ← load (prev + vm_end); s ← load (prev + vm_start);
    o' ← load (mpnt + vm_offset);
    mret (u32 (o + e - s) =? o')
  else mret true.

Definition merge_into (mm prev mpnt : Z) : M unit :=
  avl_remove mpnt (mm + mm_mmap_avl);;
  e ← load (mpnt + vm_end); store (prev + vm_end) e;;
  n ← load (mpnt + vm_next); store (prev + vm_next) n;;
  o ← load (mpnt + vm_ops);
  c ← (if o =? NULL then mret NULL else load (o + vo_close));
  (if negb (c =? NULL) then
     o ← load (mpnt + vm_offset); e ← load (mpnt + vm_end); s ← load (mpnt + vm_start);
     store (mpnt + vm_offset) (u32 (o + (e - s)));;
     e ← load (mpnt + vm_end); store (mpnt + vm_start) e;;
     call_area c mpnt
   else mret tt);;
  remove_shared_vm_struct mpnt;;
  count_inode mpnt;;
  kfree_s mpnt sizeof_vm_area_struct;; mret tt.

Definition merge_segments (task start_addr end_addr : Z) : M unit :=
  mm ← mm_of task;
  mpnt ← find_vma (mm + mm_mmap_avl) start_addr;
  if mpnt =? NULL then mret tt else
  mm ← mm_of task; t ← load (mm + mm_mmap_avl);
  '(prev, next) ← avl_neighbours mpnt t;
  let '(prev, mpnt) := if prev =? NULL then (mpnt, next) else (prev, mpnt) in
  loop (λ '(prev, mpnt),
    if mpnt =? NULL then mret (inr tt) else
    s ← load (prev + vm_start);
    if negb (s <? end_addr) then mret (inr tt) else
    next ← load (mpnt + vm_next);
    b ← mergeable prev mpnt;
    if b : bool then
      mm ← mm_of task;
      merge_into mm prev mpnt;;
      mret (inl (prev, next))
    else mret (inl (mpnt, next))) (prev, mpnt).

(** ** Unmapping *)

Definition anon_map (ino file vma : Z) : M Z :=
  s ← load (vma + vm_start); e ← load (vma + vm_end); p ← load (vma + vm_page_prot);
  r ← zeromap_page_range s (u32 (e - s)) p;
  if negb (r =? 0) then mret (- ENOMEM) else mret 0.

(** [*mpnt = *area], member by member *)
Definition area_members : list Z :=
  [vm_start; vm_end; vm_task; vm_page_prot; vm_avl_height; vm_flags; vm_avl_left; vm_avl_right; vm_next; vm_next_share; vm_prev_share;
   vm_ops; vm_offset; vm_inode; vm_pte].
Definition copy_area (dst src : Z) : M unit := copy_members area_members dst src.

(** [insert_vm_struct(current, area)] *)
Definition insert_current (area : Z) : M unit := t ← load current; mm ← mm_of t; insert_vm_struct mm area.

(** The upper part of an area whose middle is unmapped; false when there is no memory for it. *)
Definition fixup_upper (area end_ : Z) : M bool :=
  mpnt ← kmalloc sizeof_vm_area_struct GFP_KERNEL;
  if mpnt =? NULL then mret false else
  copy_area mpnt area;;
  o ← load (mpnt + vm_offset); s ← load (area + vm_start);
  store (mpnt + vm_offset) (u32 (o + (end_ - s)));;
  store (mpnt + vm_start) end_;;
  count_inode mpnt;;
  call_op vo_open mpnt;;
  insert_current mpnt;;
  mret true.

(** The lower part: the end of [unmap_fixup]. *)
Definition fixup_lower (area addr : Z) : M unit :=
  mpnt ← kmalloc sizeof_vm_area_struct GFP_KERNEL;
  if mpnt =? NULL then mret tt else
  copy_area mpnt area;;
  store (mpnt + vm_end) addr;;
  call_op vo_open mpnt;;
  o ← load (area + vm_ops);
  c ← (if o =? NULL then mret NULL else load (o + vo_close));
  (if negb (c =? NULL) then
     s ← load (area + vm_start); store (area + vm_end) s;;
     call_area c area
   else mret tt);;
  insert_current mpnt.

Definition unmap_fixup (area addr len : Z) : M unit :=
  let end_ := u32 (addr + len) in
  s ← load (area + vm_start); e ← load (area + vm_end);
  if (addr <? s) || (addr >=? e) || (end_ <=? s) || (end_ >? e) || (end_ <? addr) then mret tt else
  if (addr =? s) && (end_ =? e) then
    call_op vo_close area;;
    i ← load (area + vm_inode);
    if negb (i =? NULL) then i ← load (area + vm_inode); iput i;; mret tt else mret tt
  else
    go ← (if end_ =? e then store (area + vm_end) addr;; mret true
          else if addr =? s then
            o ← load (area + vm_offset); store (area + vm_offset) (u32 (o + (end_ - s)));;
            store (area + vm_start) end_;; mret true
          else fixup_upper area end_);
    if negb go then mret tt else fixup_lower area addr.

(** [for(vma = current->mm->mmap; ; vma = vma->vm_next)] has no end but a bad pointer. *)
Definition get_unmmapped_area (len : Z) : M Z :=
  t ← load current; mm ← mm_of t;
  vma ← load (mm + mm_mmap);
  loop (λ vma, n ← load (vma + vm_next); mret (inl n)) vma.

(** The first loop of [do_munmap], from the area that the link [npp] points to. *)
Definition munmap_step (mm lim npp : Z) (s : Z * Z) : M (Z * Z + Z) :=
  let '(mpnt, free) := s in
  if mpnt =? NULL then mret (inr free) else
  s ← load (mpnt + vm_start);
  if negb (s <? lim) then mret (inr free) else
  n ← load (mpnt + vm_next);
  store npp n;;
  store (mpnt + vm_next) free;;
  avl_remove mpnt (mm + mm_mmap_avl);;
  mpnt' ← load npp;
  mret (inl (mpnt', mpnt)).

(** From [find_vma] to the end of this loop: the areas that were taken out. *)
Definition munmap_unlink (mm addr lim : Z) : M Z :=
  mpnt ← find_vma (mm + mm_mmap_avl) addr;
  if mpnt =? NULL then mret NULL else
  t ← load (mm + mm_mmap_avl);
  '(prev, next) ← avl_neighbours mpnt t;
  let npp := if negb (prev =? NULL) then prev + vm_next else mm + mm_mmap in
  loop (munmap_step mm lim npp) (mpnt, NULL).

(** The second loop. *)
Definition munmap_release (addr lim free : Z) : M unit :=
  loop (λ free,
    if free =? NULL then mret (inr tt) else
    let mpnt := free in
    free ← load (free + vm_next);
    remove_shared_vm_struct mpnt;;
    s ← load (mpnt + vm_start);
    let st := if addr <? s then s else addr in
    e ← load (mpnt + vm_end);
    let end_ := if lim >? e then e else lim in
    o ← load (mpnt + vm_ops);
    c ← (if o =? NULL then mret NULL else load (o + vo_unmap));
    (if negb (c =? NULL) then call_unmap c mpnt st (u32 (end_ - st)) else mret tt);;
    unmap_fixup mpnt st (u32 (end_ - st));;
    kfree mpnt;;
    mret (inl free)) free.

(** [len] is an int. *)
Definition do_munmap (addr len : Z) : M Z :=
  if truth (Z.land addr (u32 (Z.lnot PAGE_MASK))) || (addr >? PAGE_OFFSET) || (u32 (addr + len) >? PAGE_OFFSET) then mret (u32 (- EINVAL)) else
  let len := s32 (PAGE_ALIGN (u32 len)) in
  if len =? 0 then mret 0 else
  t ← load current; mm ← mm_of t;
  free ← munmap_unlink mm addr (u32 (addr + len));
  if free =? NULL then mret 0 else
  munmap_release addr (u32 (addr + len)) free;;
  unmap_page_range buddy_list mem_map main_memory_end current nr_swapfiles swap_files nr_swap_pages addr (u32 len);;
  mret 0.

(** ** Mapping *)

(** The checks of [do_mmap] on the file; [Some e] is a [return e].  The tests on a missing file read through it. *)
Definition mmap_check_file (file prot flags : Z) : M (option Z) :=
  if file =? NULL then
    let ty := Z.land flags MAP_TYPE in
    r ← (if ty =? MAP_SHARED then
           bad ← (if truth (Z.land prot PROT_WRITE) then m ← load (file + mf_mode); mret (truth (Z.land m FILE_WRITE)) else mret false);
           mret (if bad : bool then Some (- EACCES) else None)
         else if ty =? MAP_PRIVATE then
           m ← load (file + mf_mode);
           mret (Some (if negb (truth (Z.land m FILE_READ)) then - EACCES else - EINVAL))
         else mret (Some (- EINVAL)));
    match r with
    | Some e => mret (Some e)
    | None =>
        i ← load (file + mf_inode); c ← load (i + mi_count);
        mret (if (c >? 0) && truth (Z.land flags MAP_DENYWRITE) then Some (- ETXTBSY) else None)
    end
  else mret (if negb (Z.land flags MAP_TYPE =? MAP_PRIVATE) then Some (- EINVAL) else None).

(** The flags of the new area. *)
Definition mmap_flags (file prot flags : Z) : M Z :=
  let f := Z.land prot (Z.lor (Z.lor VM_READ VM_WRITE) VM_EXEC) in
  let f := Z.lor f (Z.land flags (Z.lor (Z.lor VM_GROWSDOWN VM_DENYWRITE) VM_EXECUTABLE)) in
  let may := Z.lor (Z.lor VM_MAYREAD VM_MAYWRITE) VM_MAYEXEC in
  if negb (file =? NULL) then
    m ← load (file + mf_mode);
    let f := if truth (Z.land m FILE_READ) then Z.lor f may else f in
    let f := if truth (Z.land flags MAP_SHARED) then Z.lor f (Z.lor VM_SHARED VM_MAYSHARE) else f in
    m ← load (file + mf_mode);
    mret (if truth (Z.land m FILE_WRITE) then Z.land f (Z.lnot (Z.lor VM_MAYWRITE VM_SHARED)) else f)
  else mret (Z.lor f may).

(** The part of [do_mmap] behind its checks. *)
Definition mmap_area (file addr len prot flags off : Z) : M Z :=
  vma ← kmalloc sizeof_vm_area_struct GFP_KERNEL;
  t ← load current;
  store (vma + vm_task) t;;
  store (vma + vm_start) addr;;
  store (vma + vm_end) (u32 (addr + len));;
  f ← mmap_flags file prot flags;
  store (vma + vm_flags) (u16 f);;
  store (vma + vm_ops) NULL;;
  store (vma + vm_offset) off;;
  store (vma + vm_inode) NULL;;
  store (vma + vm_pte) 0;;
  do_munmap addr (s32 len);;
  error ← (if negb (file =? NULL) then
             o ← load (file + mf_op); c ← load (o + fo_mmap); i ← load (file + mf_inode);
             call_mmap c i file vma
           else anon_map NULL NULL vma);
  if negb (error =? 0) then kfree vma;; mret (u32 error) else
  t ← load current; mm ← mm_of t;
  insert_vm_struct mm vma;;
  s ← load (vma + vm_start); e ← load (vma + vm_end);
  t ← load current;
  merge_segments t s e;;
  mret addr.

Definition do_mmap (file addr len prot flags off : Z) : M Z :=
  if len <=? 0 then mret (u32 (- EINVAL)) else
  let len := PAGE_ALIGN len in
  if len =? 0 then mret addr else
  if (addr >? PAGE_OFFSET) || (len >? PAGE_OFFSET) || (u32 (addr + len) >? PAGE_OFFSET) then mret (u32 (- EINVAL)) else
  r ← mmap_check_file file prot flags;
  match r with
  | Some e => mret (u32 e)
  | None =>
      r ← (if truth (Z.land flags MAP_FIXED) then
             if truth (Z.land addr (u32 (Z.lnot PAGE_MASK))) then mret (inl (- EINVAL))
             else if (len >? PAGE_OFFSET) || (u32 (addr + len) >? PAGE_OFFSET) then mret (inl (- EINVAL))
             else mret (inr addr)
           else
             addr ← get_unmmapped_area len;
             mret (if addr =? 0 then inl (- ENOMEM) else inr addr));
      match r with
      | inl e => mret (u32 e)
      | inr addr =>
          nodev ← (if negb (file =? NULL) then
                     o ← load (file + mf_op);
                     if o =? NULL then mret true else o ← load (file + mf_op); c ← load (o + fo_mmap); mret (c =? NULL)
                   else mret false);
          if nodev : bool then mret (u32 (- ENODEV)) else
          mmap_area file addr len prot flags off
      end
  end.
End mmap.
