(* ===== verification/MmapSpec.v ===== *)
(** * What mapping and unmapping of areas do *)

From Stdlib Require Import Sorting.Sorted.
From S2P Require Export Mmap AvlRemove Chain.

(** ** Neighbours in the tree *)

Lemma head_ptr_app xs ys : xs ≠ [] → head_ptr (xs ++ ys) = head_ptr xs.
Proof. by destruct xs. Qed.

Lemma last_ptr_app xs ys : ys ≠ [] → last_ptr (xs ++ ys) = last_ptr ys.
Proof. intros Hys. destruct ys as [|y ys _] using rev_ind; [done|]. by rw assoc_L !last_ptr_snoc. Qed.

Lemma nodes_nil t : nodes t = [] → t = E.
Proof. destruct t as [|l p k r]; [done|]. simpl. by destruct (nodes l). Qed.

Lemma walk_right_wp root t : t ≠ E →
  tree_at root t ⊢ wp (walk_down vm_avl_right (ptr t)) (λ r, ⌜r = last_ptr (nodes t)⌝ ∗ tree_at root t).
Proof.
  intros Ht. iIntros "H". unfold walk_down.
  iApply (wp_loop _ (λ n p, ∃ c t' pl stack, ⌜t = plug c t' ∧ n = length (nodes t') ∧ t' ≠ E ∧ p = ptr t' ∧
      last_ptr (nodes t) = last_ptr (nodes t')⌝ ∗ tree_at pl t' ∗ ctx_at root c (height t') pl stack)%I _ (length (nodes t))).
  - iIntros "(%c & %t' & %pl & %stack & (_ & %Hn & _) & [_ H] & _)". rw sub_cells. iApply (cells_le with "H"). lia.
  - clear Ht. intros n p. iIntros "(%c & %t' & %pl & %stack & (-> & -> & %Ht & -> & %Hl) & H & Hc)".
    destruct t' as [|l q k r]; [done|]. cbn [ptr]. iDestruct (tree_at_parts with "H") as "(%Hq & Hk & Hl & Hr & H)". wp_load.
    cbn [nodes] in Hl. destruct r as [|rl rp rk rr] eqn:Er.
    + cbn [ptr nodes]. change (NULL =? avl_empty) with true. wp_pures. iDestruct ("H" with "Hk Hl Hr") as "H".
      iSplit; [iPureIntro; by rw Hl last_ptr_snoc|]. iApply ctx_plug. iFrame.
    + rw -Er in Hl |- *. iAssert ⌜ptr r ≠ NULL⌝%I as %Hr.
      { iDestruct ("H" with "Hk Hl Hr") as "[_ H]". rw sub_T. iDestruct "H" as "(_ & _ & _ & _ & [_ H])". rw Er sub_T. by iDestruct "H" as "[$ _]". }
      rw (eqb_false _ avl_empty Hr). wp_load. iDestruct ("H" with "Hk Hl Hr") as "H".
      iDestruct (tree_at_open_r with "[$H $Hc]") as "[H Hc]". iExists (length (nodes r)). cbn [nodes]. rw length_app /=.
      iSplit; [iPureIntro; lia|]. iExists (FR l q k :: c), r, _, _. iFrame. iPureIntro. split_and!; [done|done|by subst r|done|].
      rw Hl. change ((q, k) :: nodes r) with ([(q, k)] ++ nodes r). assert (nodes r ≠ []) as Hne.
      { intros H%nodes_nil. by subst r. }
      by rw assoc_L last_ptr_app.
  - iExists [], t, root, []. iFrame. simpl. iPureIntro. done.
Qed.

Lemma walk_left_wp root t : t ≠ E →
  tree_at root t ⊢ wp (walk_down vm_avl_left (ptr t)) (λ r, ⌜r = head_ptr (nodes t)⌝ ∗ tree_at root t).
Proof.
  intros Ht. iIntros "H". unfold walk_down.
  iApply (wp_loop _ (λ n p, ∃ c t' pl stack, ⌜t = plug c t' ∧ n = length (nodes t') ∧ t' ≠ E ∧ p = ptr t' ∧
      head_ptr (nodes t) = head_ptr (nodes t')⌝ ∗ tree_at pl t' ∗ ctx_at root c (height t') pl stack)%I _ (length (nodes t))).
  - iIntros "(%c & %t' & %pl & %stack & (_ & %Hn & _) & [_ H] & _)". rw sub_cells. iApply (cells_le with "H"). lia.
  - clear Ht. intros n p. iIntros "(%c & %t' & %pl & %stack & (-> & -> & %Ht & -> & %Hl) & H & Hc)".
    destruct t' as [|l q k r]; [done|]. cbn [ptr]. iDestruct (tree_at_parts with "H") as "(%Hq & Hk & Hl & Hr & H)". wp_load.
    cbn [nodes] in Hl. destruct l as [|ll lp lk lr] eqn:El.
    + cbn [ptr nodes]. change (NULL =? avl_empty) with true. wp_pures. iDestruct ("H" with "Hk Hl Hr") as "H".
      iSplit; [iPureIntro; by rw Hl|]. iApply ctx_plug. iFrame.
    + rw -El in Hl |- *. iAssert ⌜ptr l ≠ NULL⌝%I as %Hlne.
      { iDestruct ("H" with "Hk Hl Hr") as "[_ H]". rw sub_T. iDestruct "H" as "(_ & _ & _ & [_ H] & _)". rw El sub_T. by iDestruct "H" as "[$ _]". }
      rw (eqb_false _ avl_empty Hlne). wp_load. iDestruct ("H" with "Hk Hl Hr") as "H".
      iDestruct (tree_at_open_l with "[$H $Hc]") as "[H Hc]". iExists (length (nodes l)). cbn [nodes]. rw length_app /=.
      iSplit; [iPureIntro; lia|]. iExists (FL q k r :: c), l, _, _. iFrame. iPureIntro. split_and!; [done|done|by subst l|done|].
      rw Hl head_ptr_app; [done|]. intros H%nodes_nil. by subst l.
  - iExists [], t, root, []. iFrame. simpl. iPureIntro. done.
Qed.

(** Areas with strictly ascending ends. *)
Definition strict (xs : list (Z * Z)) : Prop := StronglySorted Z.lt xs.*2.

Lemma strict_app xs ys : strict (xs ++ ys) ↔
  strict xs ∧ strict ys ∧ ∀ x y, x ∈ xs → y ∈ ys → x.2 < y.2.
Proof.
  unfold strict. rw fmap_app. induction xs as [|x xs IH]; simpl.
  - split; [intros H; split_and!; [constructor|done|set_solver]|by intros (_ & H & _)].
  - split.
    + intros H. inversion H as [|? ? H1 H2]; subst. apply IH in H1 as (H3 & H4 & H5). apply Forall_app in H2 as [H2 H6].
      split_and!; [by constructor|done|]. intros a b Ha Hb. apply elem_of_cons in Ha as [->|Ha]; [|by apply H5].
      rw Forall_forall in H6. apply H6. by apply list_elem_of_fmap_2.
    + intros (H1 & H2 & H3). inversion H1 as [|? ? H4 H5]; subst. constructor.
      * apply IH. split_and!; [done|done|]. intros a b Ha Hb. apply H3; [by right|done].
      * apply Forall_app. split; [done|]. apply Forall_forall. intros b Hb. apply list_elem_of_fmap in Hb as (y & -> & Hy). apply H3; [by left|done].
Qed.

Lemma strict_ascending xs : strict xs → ascending xs.
Proof.
  unfold strict, ascending. induction 1 as [|k ks H1 IH H2]; constructor; [done|].
  eapply Forall_impl; [exact H2|]. simpl. lia.
Qed.

Lemma strict_distinct xs : strict xs → distinct_ends xs.
Proof.
  intros H x y Hx Hy Hxy. apply list_elem_of_split in Hx as (l1 & l2 & ->). apply strict_app in H as (_ & H2 & H3).
  apply (strict_app [x] l2) in H2 as (_ & _ & H2). apply elem_of_app in Hy as [Hy|Hy].
  - specialize (H3 y x Hy). assert (y.2 < x.2); [apply H3; by left|lia].
  - apply elem_of_cons in Hy as [->|Hy]; [done|]. assert (x.2 < y.2); [apply H2; [by left|done]|lia].
Qed.

Lemma strict_skip xs zs ys : strict (xs ++ zs ++ ys) → strict (xs ++ ys).
Proof.
  intros (H1 & H2 & H3)%strict_app. apply strict_app in H2 as (_ & H2 & _). apply strict_app. split_and!; [done|done|].
  intros x y Hx Hy. apply H3; [done|]. apply elem_of_app. by right.
Qed.

(** An area stands at one place only. *)
Lemma strict_unique x xs ys xs' ys' : strict (xs ++ x :: ys) → xs ++ x :: ys = xs' ++ x :: ys' → xs = xs' ∧ ys = ys'.
Proof.
  revert xs'. induction xs as [|a xs IH]; intros xs' Hs Heq; destruct xs' as [|b xs']; simpl in *.
  - by injection Heq.
  - injection Heq as -> ->. apply (strict_app [b]) in Hs as (_ & _ & Hs). assert (b.2 < b.2); [|lia]. apply Hs; [by left|]. set_solver.
  - injection Heq as -> Heq. apply (strict_app [x]) in Hs as (_ & _ & Hs). assert (x.2 < x.2); [|lia]. apply Hs; [by left|]. set_solver.
  - injection Heq as -> Heq. apply (strict_app [b]) in Hs as (_ & Hs & _). destruct (IH xs' Hs Heq) as [-> ->]. done.
Qed.

(** The search of [avl_neighbours] stops at the node, with the neighbours outside its subtree. *)
Lemma neighbours_search_wp root t p key xs ys Q : strict (nodes t) → nodes t = xs ++ (p, key) :: ys →
  tree_at root t -∗
  (∀ c l r pl stack, ⌜t = plug c (T l p key r)⌝ -∗ tree_at pl (T l p key r) -∗ ctx_at root c (height (T l p key r)) pl stack -∗
     Q (true, p, last_ptr (lefts c), head_ptr (rights c))) -∗
  wp (loop (λ '(tree, to_the_left, to_the_right),
    if tree =? avl_empty then mret (inr (false, tree, to_the_left, to_the_right)) else
    k ← load (tree + vm_avl_key);
    if key =? k then mret (inr (true, tree, to_the_left, to_the_right))
    else if key <? k then l ← load (tree + vm_avl_left); mret (inl (l, to_the_left, tree))
    else r ← load (tree + vm_avl_right); mret (inl (r, tree, to_the_right))) (ptr t, NULL, NULL)) Q.
Proof.
  intros Hs Hn. iIntros "Ht HQ". iApply (wp_wand with "[Ht]").
  - iApply (wp_loop _ (λ (n : nat) (s : Z * Z * Z), ∃ c t' pl stack, ⌜t = plug c t' ∧ n = length (nodes t') ∧ (p, key) ∈ nodes t' ∧
      s = (ptr t', last_ptr (lefts c), head_ptr (rights c))⌝ ∗ tree_at pl t' ∗ ctx_at root c (height t') pl stack)%I
      (λ s, ∃ c l r pl stack, ⌜t = plug c (T l p key r) ∧ s = (true, p, last_ptr (lefts c), head_ptr (rights c))⌝ ∗
        tree_at pl (T l p key r) ∗ ctx_at root c (height (T l p key r)) pl stack)%I (length (nodes t))).
    + iIntros "(%c & %t' & %pl & %stack & (-> & %Hl & _) & [_ Ht] & _)". rw sub_cells. iApply (cells_le with "Ht"). lia.
    + clear Hn. intros n s. iIntros "(%c & %t' & %pl & %stack & (-> & -> & %Hin & ->) & Ht & Hc)".
      destruct t' as [|l q k r]; [by apply not_elem_of_nil in Hin|]. cbn [ptr].
      iDestruct (tree_at_parts with "Ht") as "(%Hq & Hk & Hl & Hr & Ht)". rw (eqb_false _ avl_empty Hq). wp_load.
      rw plug_lefts_rights in Hs. apply strict_app in Hs as (_ & Hs & _). apply strict_app in Hs as (Hs & _ & _).
      cbn [nodes] in Hs, Hin |- *. apply strict_app in Hs as (_ & Hr' & Hl'). apply (strict_app [(q, k)]) in Hr' as (_ & _ & Hr').
      destruct (Z.eqb_spec key k) as [<-|Hne]; [|destruct (Z.ltb_spec key k) as [Hlt|Hge]].
      * wp_pures. iDestruct ("Ht" with "Hk Hl Hr") as "Ht". iExists c, l, r, pl, stack.
        assert (q = p) as ->; [|by iFrame]. apply elem_of_app in Hin as [Hin|Hin].
        { assert (key < key); [|lia]. apply (Hl' (p, key) (q, key)); [done|by left]. }
        apply elem_of_cons in Hin as [[= ->]|Hin]; [done|]. assert (key < key); [|lia]. apply (Hr' (q, key) (p, key)); [by left|done].
      * wp_load. iDestruct ("Ht" with "Hk Hl Hr") as "Ht". iDestruct (tree_at_open_l with "[$Ht $Hc]") as "[Ht Hc]".
        iExists (length (nodes l)). rw length_app /=. iSplit; [iPureIntro; lia|]. iExists (FL q k r :: c), l, _, _. iFrame. iPureIntro.
        split_and!; [done|done| |done]. apply elem_of_app in Hin as [Hin|Hin]; [done|]. apply elem_of_cons in Hin as [[= _ ->]|Hin]; [lia|].
        assert (k < key); [|lia]. apply (Hr' (q, k) (p, key)); [by left|done].
      * wp_load. iDestruct ("Ht" with "Hk Hl Hr") as "Ht". iDestruct (tree_at_open_r with "[$Ht $Hc]") as "[Ht Hc]".
        iExists (length (nodes r)). rw length_app /=. iSplit; [iPureIntro; lia|]. iExists (FR l q k :: c), r, _, _. iFrame. iPureIntro.
        split_and!; [done|done| |].
        -- apply elem_of_app in Hin as [Hin|Hin]; [|apply elem_of_cons in Hin as [[= _ ->]|Hin]; [lia|done]].
           assert (key < k); [|lia]. apply (Hl' (p, key) (q, k)); [done|by left].
        -- cbn [lefts]. by rw assoc_L last_ptr_snoc.
    + iExists [], t, root, []. iFrame. simpl. iPureIntro. split_and!; try done. rw Hn. set_solver.
  - iIntros (s) "(%c & %l & %r & %pl & %stack & (-> & ->) & Ht & Hc)". iApply ("HQ" with "[//] Ht Hc").
Qed.

Lemma slist_ne_at next link xs x ys : slist next link (xs ++ x :: ys) ⊢ ⌜x ≠ NULL⌝.
Proof. iIntros "H". iDestruct (slist_app with "H") as "[H _]". by iDestruct "H" as "[$ _]". Qed.

(** A link of a list read: the next of a node. *)
Lemma slist_next link xs x ys : slist vm_next link (xs ++ x :: ys) ⊢
  (x + vm_next) ↦ first_or NULL ys ∗ ((x + vm_next) ↦ first_or NULL ys -∗ slist vm_next link (xs ++ x :: ys)).
Proof.
  iIntros "H". iDestruct (slist_app with "H") as "[H Hw]". cbn [slist]. iDestruct "H" as "(%Hx & Hl & H)".
  iDestruct (slist_first with "H") as "[$ H]". iIntros "Hx". iApply ("Hw" $! (x :: ys)). iFrame. iSplit; [done|]. by iApply "H".
Qed.

(** A neighbour inside a subtree, or the one found on the way when the subtree is empty. *)
Lemma walk_or_right_wp root l xs (Q : Z → heapProp) :
  tree_at root l -∗ (tree_at root l -∗ Q (last_ptr (xs ++ nodes l))) -∗
  wp (if if ptr l =? avl_empty then false else true then walk_down vm_avl_right (ptr l) else mret (last_ptr xs)) Q.
Proof.
  iIntros "H HQ". destruct l as [|ll p k lr] eqn:El.
  - cbn [ptr nodes]. change (NULL =? avl_empty) with true. rw app_nil_r. wp_pures. by iApply "HQ".
  - rw -El. iAssert ⌜ptr l ≠ NULL⌝%I as %Hne; [rw El /tree_at sub_T; by iDestruct "H" as "(_ & $ & _)"|].
    rw (eqb_false _ avl_empty Hne). iApply (wp_wand with "[H]"); [iApply walk_right_wp; [by subst l|iFrame]|].
    iIntros (r) "[-> H]". rw last_ptr_app; [by iApply "HQ"|]. intros H%nodes_nil. by subst l.
Qed.

Lemma walk_or_left_wp root r ys (Q : Z → heapProp) :
  tree_at root r -∗ (tree_at root r -∗ Q (head_ptr (nodes r ++ ys))) -∗
  wp (if if ptr r =? avl_empty then false else true then walk_down vm_avl_left (ptr r) else mret (head_ptr ys)) Q.
Proof.
  iIntros "H HQ". destruct r as [|rl p k rr] eqn:Er.
  - cbn [ptr nodes]. change (NULL =? avl_empty) with true. wp_pures. by iApply "HQ".
  - rw -Er. iAssert ⌜ptr r ≠ NULL⌝%I as %Hne; [rw Er /tree_at sub_T; by iDestruct "H" as "(_ & $ & _)"|].
    rw (eqb_false _ avl_empty Hne). iApply (wp_wand with "[H]"); [iApply walk_left_wp; [by subst r|iFrame]|].
    iIntros (x) "[-> H]". rw head_ptr_app; [by iApply "HQ"|]. intros H%nodes_nil. by subst r.
Qed.

Lemma avl_neighbours_wp root t p key xs ys link Q : strict (nodes t) → nodes t = xs ++ (p, key) :: ys →
  tree_at root t -∗ slist vm_next link (nodes t).*1 -∗
  (tree_at root t -∗ slist vm_next link (nodes t).*1 -∗ Q (last_ptr xs, head_ptr ys)) -∗
  wp (avl_neighbours p (ptr t)) Q.
Proof.
  iIntros (Hs Hn) "Ht Hl HQ". unfold avl_neighbours. iDestruct "Ht" as "[Hroot Ht]".
  iDestruct (sub_key _ p key with "Ht") as "[Hk Ht]"; [rw Hn; set_solver|]. wp_load. iDestruct ("Ht" with "Hk") as "Ht".
  iApply wp_bind. iApply (neighbours_search_wp root t p key xs ys with "[$Hroot $Ht]"); [done|done|].
  iIntros (c l r pl stack) "-> Ht Hc". wp_pures.
  rw plug_lefts_rights in Hs Hn. cbn [nodes] in Hs, Hn.
  rw -(assoc_L (++)) (assoc_L (++) (lefts c)) in Hs Hn. cbn [app] in Hs, Hn. destruct (strict_unique _ _ _ _ _ Hs Hn) as [<- <-].
  iEval (unfold tree_at; rw sub_T) in "Ht". iDestruct "Ht" as "(Hpl & %Hp & Hk & Hh & [Hlp Hls] & [Hrp Hrs])". wp_load.
  iApply wp_bind. iApply (walk_or_right_wp (p + vm_avl_left) with "[$Hlp $Hls]"). iIntros "[Hlp Hls]". wp_load.
  iApply wp_bind. iApply (walk_or_left_wp (p + vm_avl_right) with "[$Hrp $Hrs]"). iIntros "[Hrp Hrs]".
  iDestruct (ctx_plug root c (T l p key r) pl stack with "[Hpl Hk Hh Hlp Hls Hrp Hrs $Hc]") as "Ht"; [by iFrame|].
  rw plug_lefts_rights. cbn [nodes]. rw -(assoc_L (++)) (assoc_L (++) (lefts c)). cbn [app].
  set (xs := lefts c ++ nodes l) in *. set (ys := nodes r ++ rights c) in *. clearbody xs ys.
  iApply wp_bind. iApply (wp_wand _ (λ _, slist vm_next link (xs ++ (p, key) :: ys).*1) with "[Hl]").
  - destruct xs as [|x xs _] using rev_ind; [change (last_ptr [] =? NULL) with true; by wp_pures|]. rw last_ptr_snoc -(assoc_L (++)) fmap_app fmap_cons.
    iDestruct (slist_ne_at with "Hl") as %Hx. rw (eqb_false _ _ Hx).
    iDestruct (slist_next with "Hl") as "[Hx Hl]". wp_load. wp_pures. by iApply "Hl".
  - iIntros (bad) "Hl". rw fmap_app fmap_cons. iApply wp_bind. iApply (wp_wand _ (λ _, slist vm_next link (xs.*1 ++ p :: ys.*1)) with "[Hl]").
    + destruct bad; wp_pures; [iFrame|]. iDestruct (slist_next with "Hl") as "[Hx Hl]". wp_load. wp_pures. by iApply "Hl".
    + iIntros ([]) "Hl". wp_pures. iApply ("HQ" with "Ht Hl").
Qed.

(** ** Taking areas out *)

(** The areas that a value points to, linked by [vm_next]. *)
Fixpoint vchain (v : Z) (xs : list Z) : heapProp :=
  match xs with
  | [] => ⌜v = NULL⌝
  | x :: xs => ⌜v = x ∧ x ≠ NULL⌝ ∗ ∃ n, (x + vm_next) ↦ n ∗ vchain n xs
  end.

Lemma splits_exists addr xs : ascending xs → ∃ a b, xs = a ++ b ∧ splits addr a b.
Proof.
  unfold ascending. induction xs as [|x xs IH]; intros H; [exists [], []; split; [done|split; constructor]|].
  simpl in H. inversion H as [|? ? H1 H2]; subst. destruct (IH H1) as (a & b & -> & [Ha Hb]).
  destruct (Z.le_gt_cases x.2 addr) as [Hle|Hgt].
  - exists (x :: a), b. split; [done|]. split; [by constructor|done].
  - destruct a as [|y a].
    + exists [], (x :: b). split; [done|]. split; [constructor|by constructor].
    + exfalso. inversion Ha; subst. inversion H2; subst. lia.
Qed.

(** The areas that have a part between [addr] and [lim]. *)
Definition hit (st : Z → Z) (addr lim : Z) (x : Z * Z) : bool := (addr <? x.2) && (st x.1 <? lim).

Lemma filter_hit st addr lim xs zs ys :
  Forall (λ x, x.2 ≤ addr) xs → Forall (λ z, addr < z.2 ∧ st z.1 < lim) zs → Forall (λ y, lim ≤ st y.1) ys →
  filter (hit st addr lim) (xs ++ zs ++ ys) = zs ∧ filter (λ x, negb (hit st addr lim x)) (xs ++ zs ++ ys) = xs ++ ys.
Proof.
  intros Hx Hz Hy. rw !filter_app.
  assert (filter (hit st addr lim) xs = [] ∧ filter (λ x, negb (hit st addr lim x)) xs = xs) as [-> ->].
  { induction Hx as [|x xs Hx Hxs [IH1 IH2]]; [done|]. assert (hit st addr lim x = false) as E.
    { unfold hit. by rw (proj2 (Z.ltb_ge _ _) Hx). }
    rw (filter_cons_False (hit st addr lim)); [|by rw E; intros []]. rw (filter_cons_True (λ x, negb _)); [|by rw E]. by rw IH1 IH2. }
  assert (filter (hit st addr lim) ys = [] ∧ filter (λ x, negb (hit st addr lim x)) ys = ys) as [-> ->].
  { induction Hy as [|y ys Hy Hys [IH1 IH2]]; [done|]. assert (hit st addr lim y = false) as E.
    { unfold hit. by rw (proj2 (Z.ltb_ge _ _) Hy) andb_false_r. }
    rw (filter_cons_False (hit st addr lim)); [|by rw E; intros []]. rw (filter_cons_True (λ x, negb _)); [|by rw E]. by rw IH1 IH2. }
  assert (filter (hit st addr lim) zs = zs ∧ filter (λ x, negb (hit st addr lim x)) zs = []) as [-> ->].
  { induction Hz as [|z zs [Hz1 Hz2] Hzs [IH1 IH2]]; [done|]. assert (hit st addr lim z = true) as E.
    { unfold hit. by rw (proj2 (Z.ltb_lt _ _) Hz1) (proj2 (Z.ltb_lt _ _) Hz2). }
    rw (filter_cons_True (hit st addr lim)); [|by rw E]. rw (filter_cons_False (λ x, negb _)); [|by rw E; intros []]. by rw IH1 IH2. }
  simpl. by rw app_nil_r.
Qed.

Lemma head_ptr_first xs : head_ptr xs = first_or NULL xs.*1.
Proof. by destruct xs. Qed.

(** The link that points behind the areas [xs]. *)
Lemma link_behind mm xs : Forall (λ x : Z * Z, x.1 ≠ NULL) xs →
  (if if last_ptr xs =? NULL then false else true then last_ptr xs + vm_next else mm + mm_mmap) = behind vm_next (mm + mm_mmap) xs.*1.
Proof.
  intros H. destruct xs as [|x xs _] using rev_ind; [done|]. rw last_ptr_snoc fmap_app behind_snoc.
  apply Forall_app in H as [_ H]. inversion H; subst. by rw eqb_false.
Qed.

(** What an area is outside the tree. *)
Definition removed (zs : list (Z * Z)) : heapProp := [∗ list] z ∈ zs, new_area z.1 z.2.

(** Areas have a start below their end and do not overlap. *)
Definition areas_ok (st : Z → Z) (xs : list (Z * Z)) : Prop :=
  strict xs ∧ disjoint_areas st xs ∧ ∀ x, x ∈ xs → st x.1 < x.2.

(** The areas behind one that starts behind [lim] do so too. *)
Lemma areas_behind st lim xs y ys : areas_ok st (xs ++ y :: ys) → lim ≤ st y.1 → Forall (λ y, lim ≤ st y.1) (y :: ys).
Proof.
  intros (_ & Hd & Hne) Hy. constructor; [done|]. apply Forall_forall. intros z Hz. apply list_elem_of_split in Hz as (a & b & ->).
  assert (y.2 ≤ st z.1) as H.
  { apply (Hd (xs ++ y :: a) z b); [by rw -(assoc_L (++))|set_solver]. }
  assert (st y.1 < y.2); [apply Hne; set_solver|]. lia.
Qed.

(** The state of the loop: the areas [zs1] are out, [zs2] are still to be looked at. *)
Definition unlinking (mm lim : Z) (st : Z → Z) (xs ws : list (Z * Z)) (n : nat) (s : Z * Z) : heapProp :=
  ∃ zs1 zs2 t', ⌜ws = zs1 ++ zs2 ∧ n = length zs2 ∧ nodes t' = xs ++ zs2 ∧ balanced t' ∧ AvlModel.size t' < 2 ^ 20 ∧
      s.1 = head_ptr zs2 ∧ Forall (λ z, st z.1 < lim) zs1⌝ ∗
    tree_at (mm + mm_mmap_avl) t' ∗ slist vm_next (mm + mm_mmap) (xs ++ zs2).*1 ∗ starts st (xs ++ ws) ∗
    vchain s.2 (reverse zs1).*1 ∗ removed zs1.

(** One area out of the list and out of the tree. *)
Lemma unlink_one_wp mm xs zs1 p k zs2 t' free (Q : Z → heapProp) :
  strict (nodes t') → nodes t' = xs ++ (p, k) :: zs2 → balanced t' → AvlModel.size t' < 2 ^ 20 →
  tree_at (mm + mm_mmap_avl) t' -∗ slist vm_next (mm + mm_mmap) (xs ++ (p, k) :: zs2).*1 -∗ vchain free (reverse zs1).*1 -∗ removed zs1 -∗
  (∀ t'', ⌜nodes t'' = xs ++ zs2 ∧ balanced t'' ∧ AvlModel.size t'' < 2 ^ 20⌝ -∗ tree_at (mm + mm_mmap_avl) t'' -∗
     slist vm_next (mm + mm_mmap) (xs ++ zs2).*1 -∗ vchain p (reverse (zs1 ++ [(p, k)])).*1 -∗ removed (zs1 ++ [(p, k)]) -∗ Q (head_ptr zs2)) -∗
  wp (let npp := behind vm_next (mm + mm_mmap) xs.*1 in
      n ← load (p + vm_next); store npp n;; store (p + vm_next) free;; avl_remove p (mm + mm_mmap_avl);; load npp) Q.
Proof.
  intros Hs Hn Hb Hsz. iIntros "Ht Hl Hf Hrm HQ". cbn zeta. rw !fmap_app !fmap_cons. cbn [fst].
  iDestruct (slist_app with "Hl") as "[(%Hp & Hnpp & Hl) Hw]". iDestruct (slist_first with "Hl") as "[Hpn Hl]".
  wp_load. wp_store. wp_store. iApply wp_bind. iApply (wp_wand with "[Ht]").
  { iApply (avl_remove_wp p k (mm + mm_mmap_avl) t'); [rw Hn; set_solver|done|done|by apply strict_ascending|by apply strict_distinct|iExact "Ht"]. }
  iIntros ([]) "(%xs' & %ys' & %t'' & (%Hn' & %Hn'' & %Hb') & Ht & Hnew)". rw Hn in Hs Hn'.
  destruct (strict_unique _ _ _ _ _ Hs Hn') as [<- <-]. iDestruct ("Hl" with "Hnpp") as "Hl".
  iDestruct (slist_first with "Hl") as "[Hnpp Hl]". wp_load. iDestruct ("Hl" with "Hnpp") as "Hl". rw -head_ptr_first.
  iApply ("HQ" $! t'' with "[] Ht [Hw Hl] [Hf Hpn] [Hrm Hnew]").
  - iPureIntro. split_and!; [done|done|]. rw size_nodes Hn in Hsz. rw size_nodes Hn''. rw !length_app /= in Hsz |- *. lia.
  - by iApply "Hw".
  - rw reverse_snoc. cbn. iSplit; [done|]. iExists free. iFrame.
  - unfold removed. rw big_sepL_app big_sepL_singleton. iFrame.
Qed.

Lemma munmap_loop_wp mm lim st xs ws t : areas_ok st (xs ++ ws) → nodes t = xs ++ ws → balanced t → AvlModel.size t < 2 ^ 20 →
  tree_at (mm + mm_mmap_avl) t ∗ slist vm_next (mm + mm_mmap) (xs ++ ws).*1 ∗ starts st (xs ++ ws) ⊢
  wp (loop (munmap_step mm lim (behind vm_next (mm + mm_mmap) xs.*1)) (head_ptr ws, NULL)) (λ free, ∃ zs ys t',
    ⌜ws = zs ++ ys ∧ nodes t' = xs ++ ys ∧ balanced t' ∧ Forall (λ z, st z.1 < lim) zs ∧ Forall (λ y, lim ≤ st y.1) ys⌝ ∗
    tree_at (mm + mm_mmap_avl) t' ∗ slist vm_next (mm + mm_mmap) (xs ++ ys).*1 ∗ starts st (xs ++ ws) ∗
    vchain free (reverse zs).*1 ∗ removed zs).
Proof.
  intros Hok Hn Hb Hsz. iIntros "(Ht & Hl & Hst)". iApply (wp_loop _ (unlinking mm lim st xs ws) _ (length ws)).
  - iIntros "(%zs1 & %zs2 & %t' & (_ & %Hl & %Hn' & _) & [_ Ht] & _)". rw sub_cells. iApply (cells_le with "Ht"). rw Hn' length_app. lia.
  - clear Hn Hb Hsz t. intros n [mpnt free].
    iIntros "(%zs1 & %zs2 & %t & (-> & -> & %Hn & %Hb & %Hsz & %Hm & %Hz) & Ht & Hl & Hst & Hf & Hrm)". cbn in Hm. subst mpnt. cbn [snd].
    unfold munmap_step at 1. destruct zs2 as [|[p k] zs2].
    { change (head_ptr [] =? NULL) with true. wp_pures. iExists zs1, [], t. iFrame. iPureIntro. by rw app_nil_r in Hn |- *. }
    change (head_ptr ((p, k) :: zs2)) with p. iDestruct (slist_ne with "Hl") as %Hnn. apply Forall_app in Hnn as [_ Hnn]. inversion Hnn as [|? ? Hp _]; subst.
    cbn in Hp. rw (eqb_false p NULL Hp). unfold starts at 1.
    iDestruct (big_sepL_elem_of_acc _ _ (p, k) with "Hst") as "[Hs Hst]"; [set_solver|]. cbn [fst]. wp_load. iDestruct ("Hst" with "Hs") as "Hst".
    destruct (Z.ltb_spec (st p) lim) as [Hlt|Hge].
    + wp_pures.
      iApply (wp_ext ((let npp := behind vm_next (mm + mm_mmap) xs.*1 in
        n ← load (p + vm_next); store npp n;; store (p + vm_next) free;; avl_remove p (mm + mm_mmap_avl);; load npp) ≫= λ m, mret (inl (m, p)))).
      { intros m. unfold mbind, M_bind. repeat case_match; congruence. }
      iApply wp_bind. iApply (unlink_one_wp mm xs zs1 p k zs2 t with "Ht Hl Hf Hrm"); [|done|done|done|].
      { rw Hn. destruct Hok as (Hs & _). by eapply strict_skip. }
      iIntros (t') "(%Hn' & %Hb' & %Hsz') Ht Hl Hf Hrm". wp_pures. iExists (length zs2). iSplit; [iPureIntro; simpl; lia|].
      iExists (zs1 ++ [(p, k)]), zs2, t'. rw -!(assoc_L (++)). iFrame. iPureIntro. split_and!; try done. apply Forall_app. split; [done|by constructor].
    + wp_pures. iExists zs1, ((p, k) :: zs2), t. iFrame. iPureIntro. split_and!; try done.
      apply (areas_behind st lim (xs ++ zs1)); [by rw -(assoc_L (++))|done].
  - iExists [], ws, t. iFrame. unfold removed. simpl. iPureIntro. split_and!; try done.
Qed.

Lemma munmap_unlink_wp mm addr lim t st : balanced t → AvlModel.size t < 2 ^ 20 → areas_ok st (nodes t) →
  tree_at (mm + mm_mmap_avl) t ∗ slist vm_next (mm + mm_mmap) (nodes t).*1 ∗ starts st (nodes t) ⊢
  wp (munmap_unlink mm addr lim) (λ free, ∃ t', ⌜nodes t' = filter (λ x, negb (hit st addr lim x)) (nodes t) ∧ balanced t'⌝ ∗
    tree_at (mm + mm_mmap_avl) t' ∗ slist vm_next (mm + mm_mmap) (nodes t').*1 ∗ starts st (nodes t) ∗
    vchain free (reverse (filter (hit st addr lim) (nodes t))).*1 ∗ removed (filter (hit st addr lim) (nodes t))).
Proof.
  intros Hb Hsz Hok. pose proof Hok as (Hs & Hd & Hne). iIntros "(Ht & Hl & Hst)". unfold munmap_unlink. iApply wp_bind.
  iApply (wp_wand with "[Ht Hst]"); [iApply (find_vma_wp _ addr t st); [by apply strict_ascending|done|iFrame]|].
  iIntros (r) "(-> & Ht & Hst)". destruct (splits_exists addr (nodes t)) as (xs & ws & Hn & Hsp); [by apply strict_ascending|].
  rw Hn in Hok. rw Hn splits_first //. pose proof Hsp as [Hxs Hws]. iDestruct (slist_ne with "Hl") as %Hnn. apply Forall_app in Hnn as [Hnx Hnw].
  destruct ws as [|[p k] ws].
  { change (head_ptr [] =? NULL) with true. iApply wp_ret. iExists t. destruct (filter_hit st addr lim xs [] []) as [H1 H2]; [done|done|done|].
    cbn [app] in H1, H2. rw H1 H2 Hn. iFrame. iSplit; [done|]. unfold removed. simpl. auto. }
  change (head_ptr ((p, k) :: ws)) with p. inversion Hnw as [|? ? Hp _]; subst. cbn in Hp. rw (eqb_false p NULL Hp).
  iDestruct "Ht" as "[Hroot Ht]". iApply wp_bind. iApply (wp_load with "Hroot"). iIntros "Hroot".
  iApply wp_bind. iApply (avl_neighbours_wp (mm + mm_mmap_avl) t p k xs ws (mm + mm_mmap) with "[$Hroot $Ht] [Hl]"); [done|done|by rw Hn|].
  iIntros "Ht Hl". rw Hn. rw (link_behind mm xs Hnx : (if negb (last_ptr xs =? NULL) then _ else _) = _).
  iApply (wp_wand with "[Ht Hl Hst]"); [iApply (munmap_loop_wp mm lim st xs ((p, k) :: ws) t); [done..|iFrame]|].
  iIntros (free) "(%zs & %ys & %t' & (%Hw & %Hn' & %Hb' & %Hz & %Hy) & Ht & Hl & Hst & Hf & Hrm)". rw Hw in Hws |- *.
  destruct (filter_hit st addr lim xs zs ys) as [H1 H2]; [done| |done|].
  { apply Forall_app in Hws as [Hws _]. apply Forall_and. done. }
  rw H1. iExists t'. rw Hn'. iFrame. iPureIntro. split; [exact (eq_sym H2)|done].
Qed.

(** C25: The first half of [do_munmap] takes exactly the areas that have a part between [addr] and [lim] out of the tree and out of the
    list, which keep agreeing with each other; the other areas stay in their order and the tree stays balanced.  The
    areas taken out are linked in reverse order. *)
Theorem munmap_unlink_correct mm addr lim t st :
  {{ tree_at (mm + mm_mmap_avl) t ∗ slist vm_next (mm + mm_mmap) (nodes t).*1 ∗ starts st (nodes t) ∗
     ⌜balanced t ∧ AvlModel.size t < 2 ^ 20 ∧ areas_ok st (nodes t)⌝ }}
    munmap_unlink mm addr lim
  {{ free, ∃ t', ⌜nodes t' = filter (λ x, negb (hit st addr lim x)) (nodes t) ∧ balanced t'⌝ ∗
     tree_at (mm + mm_mmap_avl) t' ∗ slist vm_next (mm + mm_mmap) (nodes t').*1 ∗ starts st (nodes t) ∗
     vchain free (reverse (filter (hit st addr lim) (nodes t))).*1 ∗ removed (filter (hit st addr lim) (nodes t)) }}.
Proof. apply triple_wp. iIntros "(Ht & Hl & Hst & (%Hb & %Hs & %Hok))". iApply munmap_unlink_wp; [done..|iFrame]. Qed.

(** ** Mapping fails *)

Section fails.
Context (call_area : Z → Z → M unit) (call_unmap : Z → Z → Z → Z → M unit) (call_mmap : Z → Z → Z → Z → M Z) (iput : Z → M Z).
Context (buddy_list mem_map main_memory_end current nr_swapfiles swap_files nr_swap_pages : Z).

(** A loop whose body never answers [inr] does not return. *)
Lemma loop_never {S R} (body : S → M (S + R)) s m r m' : (∀ s m r m', body s m ≠ Ok (inr r) m') → loop body s m ≠ Ok r m'.
Proof.
  intros Hb H. refine (loop_inv body (λ _ _, True) (λ _ _, False) s m r m' _ _ H); [|done]. intros s1 m1 [s2|r1] m2 _ E; [done|]. by apply Hb in E.
Qed.

Lemma get_unmmapped_area_never len m r m' : get_unmmapped_area current len m ≠ Ok r m'.
Proof.
  unfold get_unmmapped_area, mm_of, mbind, M_bind. destruct (load current m) as [t m1| | |]; try done.
  destruct (load (t + task_mm) m1) as [mm m2| | |]; try done. destruct (load (mm + mm_mmap) m2) as [v m3| | |]; try done.
  apply loop_never. intros s m4 r' m5. unfold mbind, M_bind. by destruct (load (s + vm_next) m4).
Qed.

(** No object lives where the members of a structure at the null pointer would be. *)
Definition no_null (m : mem) : Prop := ∀ a, 0 ≤ a < 64 → m !! a = None.

Lemma load_ok p m v m' : load p m = Ok v m' → m' = m.
Proof. unfold load. destruct (m !! p); [|done]. by intros [= _ <-]. Qed.

Lemma load_null p m v m' : no_null m → 0 ≤ p < 64 → load p m ≠ Ok v m'.
Proof. intros Hm Hp. unfold load. by rw (Hm p Hp). Qed.

Lemma mmap_area_never file addr len prot flags off m r m' : no_null m →
  mmap_area call_area call_unmap call_mmap iput buddy_list mem_map main_memory_end current nr_swapfiles swap_files nr_swap_pages
    file addr len prot flags off m ≠ Ok r m'.
Proof.
  intros Hm. unfold mmap_area, kmalloc, mbind, M_bind, mret, M_ret. destruct (load current m) as [t m1| | |] eqn:E; try done.
  apply load_ok in E as ->. unfold store. by rw (Hm (NULL + vm_task)).
Qed.

(** The errors of [do_mmap]. *)
Definition mmap_error (r : Z) : Prop := r ∈ (λ e, u32 (- e)) <$> [EINVAL; EACCES; ENODEV; ENOMEM; ETXTBSY].

Lemma check_file_result file prot flags m o m' : no_null m → mmap_check_file file prot flags m = Ok o m' →
  m' = m ∧ match o with Some e => e = - EACCES ∨ e = - EINVAL | None => file ≠ NULL end.
Proof.
  intros Hm. unfold mmap_check_file, mbind, M_bind, mret, M_ret. destruct (Z.eqb_spec file NULL) as [->|Hf].
  - destruct (Z.land flags MAP_TYPE =? MAP_SHARED).
    + destruct (truth (Z.land prot PROT_WRITE)).
      * destruct (load _ m) as [v m1| | |] eqn:E; try done. by apply load_null in E.
      * destruct (load (NULL + mf_inode) m) as [v m1| | |] eqn:E; try done. by apply load_null in E.
    + destruct (Z.land flags MAP_TYPE =? MAP_PRIVATE).
      * destruct (load _ m) as [v m1| | |] eqn:E; try done. by apply load_null in E.
      * intros [= <- <-]. split; [done|by right].
  - destruct (negb _); intros [= <- <-]; split; try done. by right.
Qed.

(** [do_mmap] never maps anything: in a memory that has no object at the null pointer, a call that returns has changed nothing, and the
    result is an error, or the address when the rounded length overflows to zero.  Without a free area to be found or memory for
    a new one, the other calls do not return. *)
Theorem do_mmap_never_maps file addr len prot flags off m r m' : no_null m →
  do_mmap call_area call_unmap call_mmap iput buddy_list mem_map main_memory_end current nr_swapfiles swap_files nr_swap_pages
    file addr len prot flags off m = Ok r m' →
  m' = m ∧ (mmap_error r ∨ (r = addr ∧ PAGE_ALIGN len = 0)).
Proof.
  intros Hm. unfold do_mmap. destruct (len <=? 0); [intros [= <- <-]; split; [done|left; by left]|].
  destruct (Z.eqb_spec (PAGE_ALIGN len) 0) as [Hl|Hl]; [intros [= <- <-]; split; [done|by right]|].
  destruct (_ || _ || _); [intros [= <- <-]; split; [done|left; by left]|].
  unfold mbind, M_bind at 1. destruct (mmap_check_file file prot flags m) as [o m1| | |] eqn:E; try done.
  apply check_file_result in E as [-> Ho]; [|done]. destruct o as [e|].
  { intros [= <- <-]. split; [done|]. left. destruct Ho as [->| ->]; [right; by left|by left]. }
  destruct (truth (Z.land flags MAP_FIXED)).
  - destruct (truth (Z.land addr _)); [intros [= <- <-]; split; [done|left; by left]|].
    destruct (_ || _); [intros [= <- <-]; split; [done|left; by left]|]. unfold mret, M_ret. cbn beta iota.
    rw (eqb_false file NULL Ho). cbn [negb]. unfold M_bind.
    destruct (load (file + mf_op) m) as [o m2| | |] eqn:E; try done. pose proof (load_ok _ _ _ _ E) as ->.
    destruct (o =? NULL); [intros [= <- <-]; split; [done|left; right; right; by left]|]. rw E.
    destruct (load (o + fo_mmap) m) as [c m3| | |] eqn:E2; try done. pose proof (load_ok _ _ _ _ E2) as ->.
    destruct (c =? NULL); [intros [= <- <-]; split; [done|left; right; right; by left]|].
    intros H. by apply mmap_area_never in H.
  - unfold M_bind. destruct (get_unmmapped_area current (PAGE_ALIGN len) m) as [a m2| | |] eqn:E; try done.
    by apply get_unmmapped_area_never in E.
Qed.

(** When a part of an area is unmapped, [unmap_fixup] has no memory for the parts that remain and puts none of them back: after
    [do_munmap] the task has lost the whole area. *)
Theorem unmap_fixup_partial area addr len s e o :
  {{ (area + vm_start) ↦ s ∗ (area + vm_end) ↦ e ∗ (area + vm_offset) ↦ o ∗
     ⌜s ≤ addr ∧ 0 < len ∧ addr + len ≤ e ∧ 0 ≤ s ∧ e < 2 ^ 32 ∧ ¬ (addr = s ∧ (addr + len)%Z = e)⌝ }}
    unmap_fixup call_area iput current area addr len
  {{ _, ((area + vm_start) ↦ s ∗ (area + vm_end) ↦ (if addr + len =? e then addr else e) ∗ (area + vm_offset) ↦ o ∗
           ⌜(addr + len)%Z = e ∨ s < addr⌝) ∨
        ((area + vm_start) ↦ (addr + len) ∗ (area + vm_end) ↦ e ∗ (area + vm_offset) ↦ u32 (o + len) ∗ ⌜addr = s⌝) }}.
Proof.
  apply triple_wp. iIntros "(Hs & He & Ho & (%H1 & %H2 & %H3 & %H4 & %H5 & %H6))". unfold unmap_fixup. rw u32_small; [|lia]. wp_load. wp_load.
  rw (proj2 (Z.ltb_ge _ _)); [|lia]. rw geb_false; [|lia]. rw (proj2 (Z.leb_gt _ _)); [|lia]. rw (Z.gtb_ltb _ e) (proj2 (Z.ltb_ge e _)); [|lia].
  rw (proj2 (Z.ltb_ge (addr + len) addr)); [|lia]. destruct (Z.eqb_spec (addr + len) e) as [He|He]; destruct (Z.eqb_spec addr s) as [Ha|Ha].
  - by destruct H6.
  - wp_pures. wp_store. unfold fixup_lower, kmalloc. wp_pures. iLeft. iFrame. iPureIntro. by left.
  - wp_pures. wp_load. wp_store. wp_store. unfold fixup_lower, kmalloc. wp_pures. iRight. rw (_ : o + (addr + len - s) = o + len); [|lia]. by iFrame.
  - unfold fixup_upper, kmalloc. wp_pures. iLeft. iFrame. iPureIntro. right. lia.
Qed.
End fails.

(** A request without a file is refused. *)
Lemma do_mmap_never_maps_witness :
  no_null ∅ ∧
  do_mmap (λ _ _, mret tt) (λ _ _ _ _, mret tt) (λ _ _ _ _, mret 0) (λ _, mret 0) 64 65 66 67 68 69 70 0 0x8000 4096 3 MAP_FIXED 0 ∅ =
    Ok (u32 (- EINVAL)) ∅ ∧
  (∅ : mem) = ∅ ∧ (mmap_error (u32 (- EINVAL)) ∨ (u32 (- EINVAL) = 0x8000 ∧ PAGE_ALIGN 4096 = 0)).
Proof.
  split; [done|]. split; [reflexivity|].
  apply (do_mmap_never_maps (λ _ _, mret tt) (λ _ _ _ _, mret tt) (λ _ _ _ _, mret 0) (λ _, mret 0) 64 65 66 67 68 69 70 0 0x8000 4096 3 MAP_FIXED 0 ∅);
    [done|reflexivity].
Defined.

(** ** The checks of the tree *)

(** A tree whose nodes hold any heights: the node [p] holds [ht p]. *)
Fixpoint stored (ht : Z → Z) (t : tree) : heapProp :=
  match t with
  | E => emp
  | T l p k r =>
      ⌜p ≠ NULL⌝ ∗ (p + vm_avl_key) ↦ k ∗ (p + vm_avl_height) ↦ ht p ∗
      ((p + vm_avl_left) ↦ ptr l ∗ stored ht l) ∗ ((p + vm_avl_right) ↦ ptr r ∗ stored ht r)
  end.

Definition stored_height (ht : Z → Z) (t : tree) : Z := match t with E => 0 | T _ p _ _ => ht p end.

(** Every node holds the height of its subtree. *)
Fixpoint heights_ok (ht : Z → Z) (t : tree) : Prop :=
  match t with
  | E => True
  | T l p k r => heights_ok ht l ∧ heights_ok ht r ∧ ht p = height t
  end.

Lemma stored_sub ht t : heights_ok ht t → stored ht t ⊣⊢ sub t.
Proof. induction t as [|l IHl p k r IHr]; [done|]. intros (Hl & Hr & Hp). cbn [stored sub]. by rw Hp IHl // IHr. Qed.

Lemma heights_ok_top ht t : heights_ok ht t → stored_height ht t = height t.
Proof. destruct t; [done|]. by intros (_ & _ & ?). Qed.

Lemma stored_T ht l p k r : stored ht (T l p k r) ⊣⊢
  ⌜p ≠ NULL⌝ ∗ (p + vm_avl_key) ↦ k ∗ (p + vm_avl_height) ↦ ht p ∗
  ((p + vm_avl_left) ↦ ptr l ∗ stored ht l) ∗ ((p + vm_avl_right) ↦ ptr r ∗ stored ht r).
Proof. done. Qed.

Lemma heightof_stored_wp ht t Q : stored ht t -∗ (stored ht t -∗ Q (stored_height ht t)) -∗ wp (heightof (ptr t)) Q.
Proof.
  iIntros "H HQ". unfold heightof. destruct t as [|l p k r].
  - change (ptr E =? avl_empty) with true. wp_pures. by iApply "HQ".
  - rw stored_T. iDestruct "H" as "(%Hp & Hk & Hh & Hl & Hr)". cbn [ptr].
    rw (proj2 (Z.eqb_neq p avl_empty)) //. wp_load. iApply "HQ". by iFrame.
Qed.

(** The test of [avl_checkheights] at a node, and the number of nodes at which it fails. *)
Definition node_test (h hl hr : Z) : bool := ((h =? hl + 1) && (hr <=? hl) && (hl <=? hr + 1)) || ((h =? hr + 1) && (hl <=? hr) && (hr <=? hl + 1)).

Fixpoint unbalanced (ht : Z → Z) (t : tree) : Z :=
  match t with
  | E => 0
  | T l p _ r => unbalanced ht l + unbalanced ht r + complain (node_test (ht p) (stored_height ht l) (stored_height ht r))
  end.

Lemma unbalanced_nonneg ht t : 0 ≤ unbalanced ht t.
Proof. induction t; simpl; [done|]. unfold complain. destruct (node_test _ _ _); lia. Qed.

Lemma node_test_true h hl hr : node_test h hl hr = true ↔ h = 1 + Z.max hl hr ∧ - 1 ≤ hl - hr ≤ 1.
Proof. unfold node_test. rw orb_true_iff !andb_true_iff !Z.eqb_eq !Z.leb_le. lia. Qed.

Lemma unbalanced_zero ht t : unbalanced ht t = 0 ↔ heights_ok ht t ∧ balanced t.
Proof.
  induction t as [|l IHl p k r IHr]; [done|]. cbn [unbalanced heights_ok balanced height].
  pose proof (unbalanced_nonneg ht l). pose proof (unbalanced_nonneg ht r).
  assert (unbalanced ht l = 0 ∧ unbalanced ht r = 0 → (complain (node_test (ht p) (stored_height ht l) (stored_height ht r)) = 0 ↔
    ht p = 1 + Z.max (height l) (height r) ∧ - 1 ≤ height l - height r ≤ 1)) as Ht.
  { intros [[Hl _]%IHl [Hr _]%IHr]. rw (heights_ok_top _ _ Hl) (heights_ok_top _ _ Hr) -node_test_true. unfold complain. by destruct (node_test _ _ _). }
  assert (0 ≤ complain (node_test (ht p) (stored_height ht l) (stored_height ht r))) by (unfold complain; destruct (node_test _ _ _); lia).
  split.
  - intros H'. assert (unbalanced ht l = 0 ∧ unbalanced ht r = 0) as Hlr by lia. apply Ht in Hlr as Ht'. destruct Hlr as [Hl%IHl Hr%IHr].
    assert (complain (node_test (ht p) (stored_height ht l) (stored_height ht r)) = 0) as Hc%Ht' by lia. naive_solver.
  - intros ((Hl & Hr & Hp) & Hbl & Hbr & Hb). assert (unbalanced ht l = 0) as El by (by apply IHl). assert (unbalanced ht r = 0) as Er by (by apply IHr).
    rw El Er. by rw (proj2 (Ht (conj El Er))).
Qed.

Lemma avl_checkheights_wp ht n t (Q : Z → heapProp) : height t < Z.of_nat n →
  stored ht t -∗ (stored ht t -∗ Q (unbalanced ht t)) -∗ wp (avl_checkheights n (ptr t)) Q.
Proof.
  revert t Q. induction n as [|n IH]; intros t Q Hn; [pose proof (height_nonneg t); lia|]. iIntros "H HQ". cbn [avl_checkheights].
  destruct t as [|l p k r]; cbn [ptr]; [change (NULL =? avl_empty) with true; wp_pures; by iApply "HQ"|].
  rw stored_T. iDestruct "H" as "(%Hp & Hk & Hh & [Hl Hls] & [Hr Hrs])". cbn [height] in Hn.
  rw (eqb_false p avl_empty Hp). wp_load. iApply wp_bind. iApply (IH with "Hls"); [lia|]. iIntros "Hls".
  wp_load. iApply wp_bind. iApply (IH with "Hrs"); [lia|]. iIntros "Hrs". wp_load. wp_load.
  iApply wp_bind. iApply (heightof_stored_wp with "Hls"). iIntros "Hls". wp_load. iApply wp_bind. iApply (heightof_stored_wp with "Hrs"). iIntros "Hrs". iApply wp_ret.
  iApply "HQ". by iFrame.
Qed.

(** The number of nodes of a list that fail a test against a key. *)
Definition failing (good : Z → Z → bool) (key : Z) (xs : list (Z * Z)) : Z :=
  Z.of_nat (length (filter (λ x, negb (good x.2 key)) xs)).

Lemma failing_app good key xs ys : failing good key (xs ++ ys) = failing good key xs + failing good key ys.
Proof. unfold failing. rw filter_app length_app. lia. Qed.

Lemma failing_one good p k key : failing good key [(p, k)] = complain (good k key).
Proof.
  unfold failing. destruct (good k key) eqn:Eg.
  - rw filter_cons_False; [done|]. simpl. rw Eg. by intros [].
  - rw filter_cons_True; [done|]. simpl. by rw Eg.
Qed.

Lemma failing_zero good key xs : failing good key xs = 0 ↔ Forall (λ x, good x.2 key = true) xs.
Proof.
  induction xs as [|[p k] xs IH]; [split; [constructor|done]|]. rw (failing_app good key [(p, k)] xs) failing_one Forall_cons -IH.
  assert (0 ≤ failing good key xs) by (unfold failing; lia). simpl. unfold complain. destruct (good k key); split; try lia; by intros [].
Qed.

Lemma avl_checkside_wp ht good n t key (Q : Z → heapProp) : height t < Z.of_nat n →
  stored ht t -∗ (stored ht t -∗ Q (failing good key (nodes t))) -∗ wp (avl_checkside good n (ptr t) key) Q.
Proof.
  revert t Q. induction n as [|n IH]; intros t Q Hn; [pose proof (height_nonneg t); lia|]. iIntros "H HQ". cbn [avl_checkside].
  destruct t as [|l p k r]; cbn [ptr]; [change (NULL =? avl_empty) with true; wp_pures; by iApply "HQ"|].
  rw stored_T. iDestruct "H" as "(%Hp & Hk & Hh & [Hl Hls] & [Hr Hrs])". cbn [height] in Hn.
  rw (eqb_false p avl_empty Hp). wp_load. iApply wp_bind. iApply (IH with "Hls"); [lia|]. iIntros "Hls".
  wp_load. iApply wp_bind. iApply (IH with "Hrs"); [lia|]. iIntros "Hrs". wp_load.
  iSpecialize ("HQ" with "[Hk Hh Hl Hls Hr Hrs]"); [by iFrame|]. cbn [nodes]. rw failing_app (failing_app good key [(p, k)]) failing_one.
  by rw (_ : failing good key (nodes l) + (complain (good k key) + failing good key (nodes r)) =
    failing good key (nodes l) + failing good key (nodes r) + complain (good k key)); [|lia].
Qed.

(** The number of pairs of a node and one in its subtrees that are in the wrong order. *)
Fixpoint disordered (t : tree) : Z :=
  match t with
  | E => 0
  | T l _ k r => disordered l + disordered r + failing Z.ltb k (nodes l) + failing Z.gtb k (nodes r)
  end.

Lemma disordered_nonneg t : 0 ≤ disordered t.
Proof. induction t as [|l IHl p k r IHr]; simpl; [done|]. unfold failing. lia. Qed.

Lemma disordered_zero t : disordered t = 0 ↔ strict (nodes t).
Proof.
  induction t as [|l IHl p k r IHr]; [split; [constructor|done]|]. cbn [disordered nodes].
  rw strict_app (strict_app [(p, k)] (nodes r)) -IHl -IHr. pose proof (disordered_nonneg l). pose proof (disordered_nonneg r).
  pose proof (failing_zero Z.ltb k (nodes l)) as Hl. pose proof (failing_zero Z.gtb k (nodes r)) as Hr.
  assert (0 ≤ failing Z.ltb k (nodes l)) by (unfold failing; lia). assert (0 ≤ failing Z.gtb k (nodes r)) by (unfold failing; lia).
  split.
  - intros H'. assert (Forall (λ x, (x.2 <? k) = true) (nodes l)) as Hl' by (apply Hl; lia).
    assert (Forall (λ x, (x.2 >? k) = true) (nodes r)) as Hr' by (apply Hr; lia).
    assert (∀ y, y ∈ nodes r → k < y.2) as Hky. { intros y Hy. rw Forall_forall in Hr'. specialize (Hr' y Hy). lia. }
    split_and!; [lia|repeat constructor|lia| |].
    + intros x y Hx%list_elem_of_singleton Hy. subst x. by apply Hky.
    + intros x y Hx Hy. rw Forall_forall in Hl'. specialize (Hl' x Hx). apply elem_of_cons in Hy as [->|Hy]; [simpl; lia|].
      specialize (Hky y Hy). lia.
  - intros (Hdl & (_ & Hdr & Hkr) & Hlk). rw (proj2 Hl); [rw (proj2 Hr); [lia|]|].
    + apply Forall_forall. intros y Hy. assert (k < y.2); [|lia]. apply (Hkr (p, k) y); [by left|done].
    + apply Forall_forall. intros x Hx. assert (x.2 < k); [|lia]. apply (Hlk x (p, k)); [done|by left].
Qed.

Lemma avl_checkorder_wp ht n t (Q : Z → heapProp) : height t < Z.of_nat n →
  stored ht t -∗ (stored ht t -∗ Q (disordered t)) -∗ wp (avl_checkorder n (ptr t)) Q.
Proof.
  revert t Q. induction n as [|n IH]; intros t Q Hn; [pose proof (height_nonneg t); lia|]. iIntros "H HQ". cbn [avl_checkorder].
  destruct t as [|l p k r]; cbn [ptr]; [change (NULL =? avl_empty) with true; wp_pures; by iApply "HQ"|].
  rw stored_T. iDestruct "H" as "(%Hp & Hk & Hh & [Hl Hls] & [Hr Hrs])". cbn [height] in Hn.
  rw (eqb_false p avl_empty Hp). wp_load. iApply wp_bind. iApply (IH with "Hls"); [lia|]. iIntros "Hls".
  wp_load. iApply wp_bind. iApply (IH with "Hrs"); [lia|]. iIntros "Hrs". wp_load. wp_load.
  iApply wp_bind. iApply (avl_checkside_wp with "Hls"); [lia|]. iIntros "Hls". wp_load. wp_load.
  iApply wp_bind. iApply (avl_checkside_wp with "Hrs"); [lia|]. iIntros "Hrs". iApply wp_ret. iApply "HQ". by iFrame.
Qed.

(** C26: [avl_check] is silent about a tree, with whatever heights its nodes hold, exactly when every node holds the height of its subtree, the tree is balanced
    and its ends ascend strictly; it leaves the tree as it is. *)
Theorem avl_check_decides n mm ht t :
  {{ (mm + mm_mmap_avl) ↦ ptr t ∗ stored ht t ∗ ⌜height t < Z.of_nat n⌝ }}
    avl_check n mm
  {{ c, ⌜c = 0 ↔ heights_ok ht t ∧ balanced t ∧ strict (nodes t)⌝ ∗ (mm + mm_mmap_avl) ↦ ptr t ∗ stored ht t }}.
Proof.
  apply triple_wp. iIntros "(Hroot & Ht & %Hn)". unfold avl_check. wp_load. iApply wp_bind. iApply (avl_checkheights_wp with "Ht"); [done|].
  iIntros "Ht". wp_load. iApply wp_bind. iApply (avl_checkorder_wp with "Ht"); [done|]. iIntros "Ht". wp_pures. iFrame. iPureIntro.
  rw assoc -unbalanced_zero -disordered_zero. pose proof (unbalanced_nonneg ht t). pose proof (disordered_nonneg t). lia.
Qed.
