(* ===== verification/Net.v ===== *)
(** * Network devices and addresses: include/linux/netdevice.h, in.h, if.h and net/inet/devinet.c

    The byte order macros of the kernel are the identity.  The devices are the array that the variable
    [dev_base] points to: the functions here step through it with [dev++]. *)

From S2P Require Export Chain CStringSpec.

(** struct net_device *)
Definition nd_family : Z := 0.
Definition nd_start : Z := 2.
Definition nd_tbusy : Z := 3.
Definition nd_mtu : Z := 4.
Definition nd_name : Z := 8.
Definition nd_next : Z := 32.
Definition nd_addr_len : Z := 36.
Definition nd_type : Z := 38.
Definition pa_addr : Z := 40.
Definition pa_broadcast : Z := 44.
Definition pa_mask : Z := 48.
Definition hard_header_len : Z := 64.
Definition nd_buffs : Z := 76.
Definition nd_flags : Z := 100.
Definition nd_broadcast : Z := 101.
Definition nd_dev_addr : Z := 108.
Definition sizeof_net_device : Z := 116.

(** include/asm-i386/byteorder.h *)
Definition htons (x : Z) : Z := x.
Definition htonl (x : Z) : Z := x.
Definition ntohl (x : Z) : Z := x.
Definition ntohs (x : Z) : Z := x.

Definition IFF_DOWN : Z := 0x0.
Definition IFF_UP : Z := 0x1.
Definition IFF_BROADCAST : Z := 0x2.
Definition IFF_LOOPBACK : Z := 0x08.
Definition IFF_RUNNING : Z := 0x40.
Definition IFF_NOARP : Z := 0x80.

Definition IS_MYADDR : Z := 1.
Definition IS_BROADCAST : Z := 3.
Definition IS_MULTICAST : Z := 4.

Definition INADDR_LOOPBACK : Z := 0x7f000001.
Definition INADDR_ANY : Z := 0x00000000.
Definition INADDR_BROADCAST : Z := 0xffffffff.
Definition IN_IPCLASSA (addr : Z) : bool := Z.land addr 0x80000000 =? 0.
Definition IN_IPCLASSB (addr : Z) : bool := Z.land addr 0x40000000 =? 0.
Definition IN_IPCLASSC (addr : Z) : bool := Z.land addr 0x20000000 =? 0.
Definition IN_IPCLASSA_NET : Z := 0x7f000000.
Definition IN_IPCLASSB_NET : Z := 0xbf000000.
Definition IN_IPCLASSC_NET : Z := 0xdf000000.
Definition IN_IPCLASSA_NET_MASK : Z := 0xff000000.
Definition IN_IPCLASSB_NET_MASK : Z := 0xffff0000.
Definition IN_IPCLASSC_NET_MASK : Z := 0xffffff00.

Definition ip_get_mask (addr : Z) : Z :=
  if addr =? 0 then 0 else
  let dst := ntohl addr in
  if IN_IPCLASSA dst then IN_IPCLASSA_NET_MASK
  else if IN_IPCLASSB dst then IN_IPCLASSB_NET_MASK
  else if IN_IPCLASSC dst then IN_IPCLASSC_NET_MASK
  else 0.

Section devices.
(** The variable [dev_base]. *)
Context (dev_base : Z).

(** [for(dev = dev_base; dev != NULL; dev++)]: the body answers [Some r] when it returns. *)
Definition for_devices {R} (body : Z → M (option R)) (other : R) : M R :=
  dev ← load dev_base;
  loop (λ dev,
    if dev =? NULL then mret (inr other) else
    r ← body dev;
    match r with
    | Some r => mret (inr r)
    | None => mret (inl (u32 (dev + sizeof_net_device)))
    end) dev.

Definition ip_chk_addr (addr : Z) : M Z :=
  if (addr =? INADDR_ANY) || (addr =? INADDR_BROADCAST) || (addr =? htons 0x7fffffff) then mret IS_BROADCAST else
  let mask := ip_get_mask addr in
  if Z.land addr mask =? htonl 0x7f000000 then mret IS_MYADDR else
  for_devices (λ dev,
    f ← load (dev + nd_flags);
    if Z.land f IFF_UP =? 0 then mret None else
    a ← load (dev + pa_addr);
    if a =? 0 then mret (Some IS_MYADDR) else
    a ← load (dev + pa_addr);
    if addr =? a then mret (Some IS_MYADDR) else
    f ← load (dev + nd_flags);
    if Z.land f IFF_BROADCAST =? 0 then mret None else
    b ← load (dev + pa_broadcast);
    if addr =? b then mret (Some IS_BROADCAST) else mret None) 0.

Definition ip_my_addr : M Z :=
  for_devices (λ dev,
    f ← load (dev + nd_flags);
    if Z.land f IFF_LOOPBACK =? 0 then mret None else
    a ← load (dev + pa_addr);
    mret (Some a)) 0.

Definition ip_dev_check (addr : Z) : M Z :=
  for_devices (λ dev,
    f ← load (dev + nd_flags);
    if Z.land f IFF_UP =? 0 then mret None else
    a ← load (dev + pa_addr);
    m ← load (dev + pa_mask);
    if negb (Z.land (Z.lxor addr a) m =? 0) then mret None else mret (Some dev)) NULL.
End devices.

(** ** What the functions find *)

(** What the functions read of a device. *)
Record netdev := Netdev { dv_flags : Z; dv_addr : Z; dv_bcast : Z; dv_mask : Z }.

Definition dev_cells (p : Z) (d : netdev) : heapProp :=
  (p + nd_flags) ↦ dv_flags d ∗ (p + pa_addr) ↦ dv_addr d ∗ (p + pa_broadcast) ↦ dv_bcast d ∗ (p + pa_mask) ↦ dv_mask d.

Fixpoint dev_array (p : Z) (ds : list netdev) : heapProp :=
  match ds with
  | [] => emp
  | d :: ds => dev_cells p d ∗ dev_array (p + sizeof_net_device) ds
  end.

Definition devices (dev_base p : Z) (ds : list netdev) : heapProp :=
  (⌜0 < p ∧ p + sizeof_net_device * Z.of_nat (length ds) < 2 ^ 32⌝ ∗ dev_base ↦ p ∗ dev_array p ds)%I.

(** The answer of the first device that has one. *)
Fixpoint first_answer {R} (g : Z → netdev → option R) (p : Z) (ds : list netdev) : option R :=
  match ds with
  | [] => None
  | d :: ds => match g p d with Some r => Some r | None => first_answer g (p + sizeof_net_device) ds end
  end.

Section search.
Context (dev_base : Z).

Lemma dev_array_cells p ds : dev_array p ds ⊢ cells (length ds).
Proof.
  revert p. induction ds as [|d ds IH]; intros p; simpl; [iIntros "_"; iApply cells_0|].
  rw IH. iIntros "[(H1 & _) H2]". rw pt_cells. iApply (cells_add with "H1 H2").
Qed.

Lemma for_devices_wp {R} (body : Z → M (option R)) (g : Z → netdev → option R) other p ds r Q :
  (∀ q d, dev_cells q d ⊢ wp (body q) (λ a, ⌜a = g q d⌝ ∗ dev_cells q d)) →
  first_answer g p ds = Some r →
  devices dev_base p ds -∗ (devices dev_base p ds -∗ Q r) -∗ wp (for_devices dev_base body other) Q.
Proof.
  intros Hbody Hr. iIntros "(%Hp & Hb & Ha) HQ". unfold for_devices. wp_load.
  iApply (wp_wand with "[Ha]"); first iApply (wp_loop _ (λ (n : nat) q, ∃ ds2, ⌜n = length ds2 ∧ 0 < q ∧
      q + sizeof_net_device * Z.of_nat (length ds2) < 2 ^ 32 ∧ first_answer g q ds2 = Some r⌝ ∗ dev_array q ds2 ∗ (dev_array q ds2 -∗ dev_array p ds))%I
    (λ a, ⌜a = r⌝ ∗ dev_array p ds)%I (length ds)).
  - iIntros "(%ds2 & (-> & _) & H & _)". by iApply dev_array_cells.
  - intros n q. iIntros "(%ds2 & (-> & %Hq & %Hq2 & %Hf) & Ha & Hw)". destruct ds2 as [|d ds2]; [done|].
    simpl in Hf |- *. iDestruct "Ha" as "[Hd Ha]". rw (eqb_false q); [|unfold NULL; lia]. iApply wp_bind.
    iApply (wp_wand with "[Hd]"); [by iApply Hbody|]. iIntros (a) "[-> Hd]". destruct (g q d) as [r'|] eqn:E; wp_pures.
    + iSplit; [by injection Hf|]. iApply "Hw". iFrame.
    + unfold sizeof_net_device in Hq2. simpl in Hq2. rw u32_small; [|unfold sizeof_net_device; lia]. iExists (length ds2). iSplit; [iPureIntro; lia|].
      iExists ds2. iFrame "Ha". iSplit; [iPureIntro; split_and!; [done|unfold sizeof_net_device; lia..|done]|].
      iIntros "Ha". iApply "Hw". iFrame.
  - iExists ds. iFrame. iSplit; [iPureIntro; tauto|]. auto.
  - iIntros (a) "[-> Ha]". iApply "HQ". by iFrame.
Qed.

(** What a device says of an address: its own, its broadcast address, or nothing. *)
Definition chk_dev (addr p : Z) (d : netdev) : option Z :=
  if Z.land (dv_flags d) IFF_UP =? 0 then None
  else if (dv_addr d =? 0) || (addr =? dv_addr d) then Some IS_MYADDR
  else if negb (Z.land (dv_flags d) IFF_BROADCAST =? 0) && (addr =? dv_bcast d) then Some IS_BROADCAST
  else None.

(** The addresses that need no device: all zeros and ones, and the network 127. *)
Definition chk_known (addr : Z) : option Z :=
  if (addr =? 0) || (addr =? 2 ^ 32 - 1) || (addr =? 2 ^ 31 - 1) then Some IS_BROADCAST
  else if addr / 2 ^ 24 =? 127 then Some IS_MYADDR else None.

Lemma land_class_a addr : Z.land addr IN_IPCLASSA_NET_MASK = (addr / 2 ^ 24 mod 2 ^ 8) * 2 ^ 24.
Proof.
  change IN_IPCLASSA_NET_MASK with (Z.shiftl (Z.ones 8) 24). rw -(Z.shiftr_div_pow2 addr 24); [|lia].
  rw -Z.land_ones; [|lia]. rw -(Z.shiftl_mul_pow2 _ 24); [|lia]. apply Z.bits_inj_iff'. intros n Hn.
  rw Z.land_spec !Z.shiftl_spec; [|lia..]. rw Z.land_spec. destruct (Z.ltb_spec n 24).
  - rw (Z.testbit_neg_r (Z.ones 8)); [|lia]. by rw !andb_false_r.
  - rw Z.shiftr_spec; [|lia]. by rw Z.sub_add.
Qed.

Lemma testbit_land_false addr n : Z.testbit addr n = false → 0 ≤ n → Z.land addr (2 ^ n) = 0.
Proof.
  intros H Hn. apply Z.bits_inj_iff'. intros m Hm. rw Z.land_spec Z.bits_0. destruct (decide (m = n)) as [->|Hne]; [by rw H|].
  by rw Z.pow2_bits_false; [apply andb_false_r|].
Qed.

Lemma testbit_land_true addr n : Z.testbit addr n = true → 0 ≤ n → Z.land addr (2 ^ n) ≠ 0.
Proof.
  intros H Hn E. assert (Z.testbit (Z.land addr (2 ^ n)) n = false) as Hf by (by rw E Z.bits_0).
  by rw Z.land_spec H Z.pow2_bits_true in Hf.
Qed.

Lemma class_a_iff addr : 0 ≤ addr < 2 ^ 32 → IN_IPCLASSA addr = (addr <? 2 ^ 31).
Proof.
  intros H. unfold IN_IPCLASSA. change 0x80000000 with (2 ^ 31).
  pose proof (Z.testbit_spec' addr 31 ltac:(lia)) as Hb. destruct (Z.testbit addr 31) eqn:E; simpl in Hb.
  - rw (eqb_false _ _ (testbit_land_true _ _ E ltac:(lia))). symmetry. apply Z.ltb_ge. dlia.
  - rw (testbit_land_false _ _ E); [|lia]. symmetry. apply Z.ltb_lt. dlia.
Qed.

(** The test for the loopback network. *)
Lemma loopback_iff addr : 0 ≤ addr < 2 ^ 32 →
  (Z.land addr (ip_get_mask addr) =? 0x7f000000) = (addr / 2 ^ 24 =? 127).
Proof.
  intros H. unfold ip_get_mask, ntohl. destruct (Z.eqb_spec addr 0) as [->|H0]; [done|]. rw class_a_iff; [|done].
  destruct (Z.ltb_spec addr (2 ^ 31)) as [Ha|Ha].
  - rw land_class_a Z.mod_small; [|dlia]. destruct (Z.eqb_spec (addr / 2 ^ 24) 127) as [->|Hne]; [done|].
    apply Z.eqb_neq. lia.
  - rw (eqb_false (addr / 2 ^ 24)); [|dlia]. apply Z.eqb_neq. intros E.
    assert (Z.testbit addr 31 = true) as Hb.
    { apply Z.testbit_true; [lia|]. dlia. }
    assert (∀ m, Z.testbit m 31 = true → Z.land addr m ≠ 0x7f000000) as Hm.
    { intros m Hm1 Hm2. assert (Z.testbit (Z.land addr m) 31 = true) as Ht by (by rw Z.land_spec Hb Hm1). by rw Hm2 in Ht. }
    destruct (IN_IPCLASSB addr); [by apply (Hm IN_IPCLASSB_NET_MASK eq_refl E)|]. destruct (IN_IPCLASSC addr); [by apply (Hm IN_IPCLASSC_NET_MASK eq_refl E)|].
    by rw Z.land_0_r in E.
Qed.

(** [ip_chk_addr] tells what an address is to this host: broadcast when it is all zeros or ones, its own
    when it is in the network 127, otherwise what the first device in use says to which it is the own or the broadcast
    address (a device without address claims every address). *)
Theorem ip_chk_addr_correct addr p ds r :
  {{ ⌜0 ≤ addr < 2 ^ 32 ∧ (match chk_known addr with Some r => Some r | None => first_answer (chk_dev addr) p ds end) = Some r⌝ ∗ devices dev_base p ds }}
    ip_chk_addr dev_base addr
  {{ v, ⌜v = r⌝ ∗ devices dev_base p ds }}.
Proof.
  apply triple_wp. iIntros "[(%Ha & %Hr) H]". unfold ip_chk_addr, htons, htonl, chk_known in *.
  change (2 ^ 32 - 1) with INADDR_BROADCAST in Hr. change (2 ^ 31 - 1) with 0x7fffffff in Hr. unfold INADDR_ANY.
  destruct ((addr =? 0) || (addr =? INADDR_BROADCAST) || (addr =? 0x7fffffff)); [injection Hr as <-; wp_pures; by iFrame|].
  rw loopback_iff; [|done]. destruct (addr / 2 ^ 24 =? 127); [injection Hr as <-; wp_pures; by iFrame|].
  iApply (for_devices_wp _ (chk_dev addr) with "H"); [|done|by iIntros "$"].
  clear. intros q d. iIntros "(H1 & H2 & H3 & H4)". wp_load. unfold chk_dev.
  destruct (Z.land (dv_flags d) IFF_UP =? 0); [wp_pures; by iFrame|]. wp_load.
  destruct (dv_addr d =? 0); [wp_pures; by iFrame|]. wp_load. destruct (addr =? dv_addr d); [wp_pures; by iFrame|]. wp_load.
  destruct (Z.land (dv_flags d) IFF_BROADCAST =? 0); [wp_pures; by iFrame|]. wp_load.
  destruct (addr =? dv_bcast d); wp_pures; by iFrame.
Qed.
End search.

(** An address that belongs to no device: the walk does not stop behind the last one. *)
Theorem ip_chk_addr_overruns :
  ip_chk_addr 8 0x0a000005 (list_to_map [(8, 4096); (4096 + nd_flags, IFF_UP); (4096 + pa_addr, 0x0a000001); (4096 + pa_broadcast, 0)]) = Fault.
Proof. vm_compute. reflexivity. Qed.
