(* ===== verification/Route.v ===== *)
(** * The routing table: net/inet/route.c

    [rt_base] and [rt_loopback] are the variables of that name.  [ip_rt_add] uses two pointers that are not
    initialised: [rt], since the allocation is commented out, and [prev] when the new entry comes first; their
    values are the parameters [rt0] and [prev0].  Disabling interrupts has no effect in the model. *)

From S2P Require Export Net.

(** struct rtable *)
Definition rt_next : Z := 0.
Definition rt_dst : Z := 4.
Definition rt_mask : Z := 8.
Definition rt_gateway : Z := 12.
Definition rt_flags : Z := 16.
Definition rt_metric : Z := 17.
Definition ft_refcnt : Z := 18.
Definition rt_use : Z := 20.
Definition rt_mss : Z := 24.
Definition rt_window : Z := 28.
Definition rt_dev : Z := 32.

Definition RTF_UP : Z := 0x0001.
Definition RTF_GATEWAY : Z := 0x0002.
Definition RTF_HOST : Z := 0x0004.
Definition RTF_MSS : Z := 0x0040.
Definition RTF_WINDOW : Z := 0x0080.

Definition default_netmask (dst : Z) : Z :=
  let dst := ntohl dst in
  if IN_IPCLASSA dst then htonl IN_IPCLASSA_NET
  else if IN_IPCLASSB dst then htonl IN_IPCLASSB_NET
  else if IN_IPCLASSC dst then htonl IN_IPCLASSC_NET
  else 0.

Definition guess_mask (dst dev : Z) : M Z :=
  if dst =? 0 then mret 0 else
  let mask := default_netmask dst in
  a ← load (dev + pa_addr);
  if negb (Z.land (Z.lxor dst a) mask =? 0) then mret mask else
  load (dev + pa_mask).

(** 1 when [addr] has bits outside of [mask], or [mask] is not a row of ones followed by zeros. *)
Definition bad_mask (mask addr : Z) : Z :=
  let mask := u32 (Z.lnot mask) in
  if negb (Z.land addr mask =? 0) then 1 else
  let mask := ntohl mask in
  if negb (Z.land mask (u32 (mask + 1)) =? 0) then 1 else 0.

Section route.
Context (rt_base rt_loopback : Z).

Definition rt_del (dst devname : Z) : M unit :=
  unlink_if rt_next (λ rt,
    d ← load (rt + rt_dst);
    keep ← (if negb (d =? dst) then mret true else
            if negb (devname =? NULL) then
              dev ← load (rt + rt_dev);
              name ← load (dev + nd_name);
              r ← strcmp name devname;
              mret (negb (r =? 0))
            else mret false);
    mret (negb keep)) (λ _, mret tt) rt_base.

Definition ip_rt_flush (dev : Z) : M unit :=
  unlink_if rt_next (λ rt, d ← load (rt + rt_dev); mret (d =? dev)) (λ _, mret tt) rt_base.

(** [(addr & rt->rt_mask) ^ rt->rt_dst] is zero. *)
Definition rt_matches (addr rt : Z) : M bool :=
  m ← load (rt + rt_mask);
  d ← load (rt + rt_dst);
  mret (Z.lxor (Z.land addr m) d =? 0).

Definition get_gw_dev (gw : Z) : M Z :=
  rt ← find_link rt_next (rt_matches gw) rt_base;
  if rt =? NULL then mret NULL else
  f ← load (rt + rt_flags);
  if negb (Z.land f RTF_GATEWAY =? 0) then mret NULL else
  load (rt + rt_dev).

(** [memset] of a struct rtable *)
Definition clear_rtable (rt : Z) : M unit :=
  store (rt + rt_next) 0;;
  store (rt + rt_dst) 0;;
  store (rt + rt_mask) 0;;
  store (rt + rt_gateway) 0;;
  store (rt + rt_flags) 0;;
  store (rt + rt_metric) 0;;
  store (rt + ft_refcnt) 0;;
  store (rt + rt_use) 0;;
  store (rt + rt_mss) 0;;
  store (rt + rt_window) 0;;
  store (rt + rt_dev) 0.

(** The mask, the destination and the flags that are entered. *)
Definition rt_normalize (flags dst mask dev : Z) : M (Z * Z * Z) :=
  if negb (Z.land flags RTF_HOST =? 0) then mret (flags, dst, 0xffffffff) else
  if mask =? 0 then
    a ← load (dev + pa_addr);
    m ← load (dev + pa_mask);
    '(mask, flags) ← (if Z.land (Z.lxor dst a) m =? 0 then
                        mask ← load (dev + pa_mask);
                        mret (mask, Z.land flags (Z.lnot RTF_GATEWAY))
                      else mask ← guess_mask dst dev; mret (mask, flags));
    mret (flags, Z.land dst mask, mask)
  else mret (flags, dst, mask).

(** The entry is put behind the last one of those at the front whose mask includes [mask]. *)
Definition rt_insert (rt dst mask prev0 : Z) : M unit :=
  unlink_if rt_next (λ r,
    d ← load (r + rt_dst);
    other ← (if negb (d =? dst) then mret true else m ← load (r + rt_mask); mret (negb (m =? mask)));
    mret (negb other)) (λ _, mret tt) rt_base;;
  '(r, prev) ← loop (λ '(rtp, prev),
    r ← load rtp;
    if r =? NULL then mret (inr (r, prev)) else
    m ← load (r + rt_mask);
    if negb (Z.land m mask =? mask) then mret (inr (r, prev)) else
    mret (inl (r + rt_next, r))) (rt_base, prev0);
  store (rt + rt_next) r;;
  store (prev + rt_next) rt.

Definition ip_rt_add (rt0 prev0 flags dst mask gw dev mtu window : Z) : M unit :=
  '(flags, dst, mask) ← rt_normalize flags dst mask dev;
  a ← load (dev + pa_addr);
  let flags := if gw =? a then Z.land flags (Z.lnot RTF_GATEWAY) else flags in
  r ← (if negb (Z.land flags RTF_GATEWAY =? 0) then
         d ← get_gw_dev gw;
         if negb (dev =? d) then mret None else mret (Some (Z.lor flags RTF_GATEWAY, gw))
       else mret (Some (flags, 0)));
  match r with
  | None => mret tt
  | Some (flags, gw) =>
      let rt := rt0 in
      if rt =? NULL then mret tt else
      clear_rtable rt;;
      store (rt + rt_flags) (u8 (Z.lor flags RTF_UP));;
      store (rt + rt_dst) dst;;
      store (rt + rt_dev) dev;;
      store (rt + rt_gateway) gw;;
      store (rt + rt_mask) mask;;
      store (rt + rt_window) 0;;
      f ← load (rt + rt_flags);
      (if negb (Z.land f RTF_MSS =? 0) then store (rt + rt_mss) (u16 mtu) else mret tt);;
      f ← load (rt + rt_flags);
      (if negb (Z.land f RTF_WINDOW =? 0) then store (rt + rt_window) window else mret tt);;
      rt_insert rt dst mask prev0
  end.

(** The end of [ip_rt_route] and of [ip_rt_local]. *)
Definition rt_found (rt daddr src_addr : Z) : M Z :=
  (if negb (src_addr =? NULL) then
     dev ← load (rt + rt_dev);
     a ← load (dev + pa_addr);
     store src_addr a
   else mret tt);;
  dev ← load (rt + rt_dev);
  a ← load (dev + pa_addr);
  rt ← (if daddr =? a then load rt_loopback else mret rt);
  if rt =? NULL then mret NULL else
  u ← load (rt + rt_use);
  store (rt + rt_use) (u32 (u + 1));;
  mret rt.

(** An entry that does not match is left behind whether it is a gateway or not. *)
Definition ip_rt_route (daddr opt src_addr : Z) : M Z :=
  rt ← find_link rt_next (λ rt,
    b ← rt_matches daddr rt;
    if b : bool then mret true else
    load (rt + rt_flags);;
    mret false) rt_base;
  rt_found rt daddr src_addr.

Definition ip_rt_local (daddr opt src_addr : Z) : M Z :=
  rt ← find_link rt_next (λ rt,
    f ← load (rt + rt_flags);
    if negb (Z.land f RTF_GATEWAY =? 0) then mret false else rt_matches daddr rt) rt_base;
  rt_found rt daddr src_addr.
End route.
