(* ===== verification/RouteSpec.v ===== *)
(** * What the routing table does *)

From Stdlib Require Export Sorting.Sorted.
From S2P Require Export Route.

(** ** Network masks *)

(** The mask of a network whose hosts have [k] bits. *)
Definition prefix_mask (k : Z) : Z := 2 ^ 32 - 2 ^ k.

Definition is_prefix (m : Z) : Prop := ∃ k, 0 ≤ k ≤ 32 ∧ m = prefix_mask k.

Lemma prefix_mask_shift k : 0 ≤ k ≤ 32 → prefix_mask k = Z.shiftl (Z.ones (32 - k)) k.
Proof.
  intros Hk. unfold prefix_mask. rw Z.shiftl_mul_pow2; [|lia]. rw Z.ones_equiv -Z.sub_1_r Z.mul_sub_distr_r -Z.pow_add_r; [|lia..].
  rw Z.sub_add. lia.
Qed.

Lemma prefix_mask_testbit k n : 0 ≤ k ≤ 32 → 0 ≤ n → Z.testbit (prefix_mask k) n = (k <=? n) && (n <? 32).
Proof.
  intros Hk Hn. rw prefix_mask_shift; [|done]. rw Z.shiftl_spec; [|done]. rw Z.testbit_ones; [|lia].
  apply eq_true_iff_eq. rw !andb_true_iff !Z.leb_le !Z.ltb_lt. lia.
Qed.

Lemma land_prefix j k : 0 ≤ j ≤ 32 → 0 ≤ k ≤ 32 → Z.land (prefix_mask j) (prefix_mask k) = prefix_mask (Z.max j k).
Proof.
  intros Hj Hk. apply Z.bits_inj_iff'. intros n Hn. rw Z.land_spec !prefix_mask_testbit; [|lia..].
  apply eq_true_iff_eq. rw !andb_true_iff !Z.leb_le !Z.ltb_lt. lia.
Qed.

Lemma prefix_mask_le j k : 0 ≤ j → 0 ≤ k → prefix_mask j ≤ prefix_mask k ↔ k ≤ j.
Proof. intros Hj Hk. unfold prefix_mask. rw (Z.pow_le_mono_r_iff 2 k j); [|lia..]. split; lia. Qed.

(** A mask includes another exactly when it is not less. *)
Lemma prefix_includes m n : is_prefix m → is_prefix n → Z.land m n = n ↔ n ≤ m.
Proof.
  intros (j & Hj & ->) (k & Hk & ->). rw land_prefix; [|done..]. rw prefix_mask_le; [|lia..]. split; intros H.
  - assert (prefix_mask k ≤ prefix_mask (Z.max j k)) as Hle by (rw H; lia). rw prefix_mask_le in Hle; [|lia..]. lia.
  - f_equal. lia.
Qed.

Lemma land_succ_div2 m : Z.div2 (Z.land m (m + 1)) = Z.land (Z.div2 m) (Z.div2 (m + 1)).
Proof. by rw !Z.div2_spec Z.shiftr_land. Qed.

(** A number that shares no bit with its successor is all ones. *)
Lemma land_succ_ones (n : nat) m : 0 ≤ m < 2 ^ Z.of_nat n → Z.land m (m + 1) = 0 → ∃ k, 0 ≤ k ≤ Z.of_nat n ∧ m = 2 ^ k - 1.
Proof.
  revert m. induction n as [|n IH]; intros m Hm H; [exists 0; split; [lia|]; simpl in *; lia|].
  rw (Nat2Z.inj_succ n) Z.pow_succ_r in Hm; [|lia]. pose proof (land_succ_div2 m) as Hd. rw H in Hd. change (Z.div2 0) with 0 in Hd.
  rw !Z.div2_div in Hd. destruct (decide (m mod 2 = 0)) as [He|Ho].
  - replace ((m + 1) / 2) with (m / 2) in Hd by dlia. rw Z.land_diag in Hd. exists 0. split; [lia|]. simpl. dlia.
  - replace ((m + 1) / 2) with (m / 2 + 1) in Hd by dlia. destruct (IH (m / 2)) as (k & Hk & E); [dlia|done|].
    exists (k + 1). split; [lia|]. rw Z.pow_add_r; [|lia..]. change (2 ^ 1) with 2. dlia.
Qed.

(** C20: The bit tricks of [bad_mask] decide what they are meant to: the mask is accepted for an address
    exactly when it is a row of ones followed by zeros and the address has no bit behind the ones. *)
Theorem bad_mask_correct mask addr : 0 ≤ mask < 2 ^ 32 →
  bad_mask mask addr = 0 ↔ ∃ k, 0 ≤ k ≤ 32 ∧ mask = prefix_mask k ∧ addr mod 2 ^ k = 0.
Proof.
  intros Hm. unfold bad_mask, ntohl. assert (u32 (Z.lnot mask) = 2 ^ 32 - 1 - mask) as ->.
  { unfold u32, Z.lnot. rw -(Z.mod_add (Z.pred (- mask)) 1); [|lia]. rw Z.mod_small; lia. }
  split.
  - destruct (Z.eqb_spec (Z.land addr (2 ^ 32 - 1 - mask)) 0) as [Ha|]; [|done]. simpl.
    destruct (Z.eqb_spec (Z.land (2 ^ 32 - 1 - mask) (u32 (2 ^ 32 - 1 - mask + 1))) 0) as [Hs|]; [|done]. intros _.
    assert (∃ k, 0 ≤ k ≤ 32 ∧ 2 ^ 32 - 1 - mask = 2 ^ k - 1) as (k & Hk & E).
    { destruct (decide (mask = 0)) as [->|H0]; [exists 32; lia|].
      rw u32_small in Hs; [|lia]. apply (land_succ_ones 32 (2 ^ 32 - 1 - mask)); [lia|done]. }
    exists k. split_and!; [lia|lia|unfold prefix_mask; lia|]. rw E in Ha. rw Z.sub_1_r -Z.ones_equiv Z.land_ones in Ha; [done|lia].
  - intros (k & Hk & -> & Ha). unfold prefix_mask.
    replace (2 ^ 32 - 1 - (2 ^ 32 - 2 ^ k)) with (Z.pred (2 ^ k)) by lia. rw -Z.ones_equiv.
    rw Z.land_ones; [|lia]. rw Ha. simpl. rw (_ : Z.land (Z.ones k) (u32 (Z.ones k + 1)) = 0); [done|].
    rw Z.land_comm Z.land_ones; [|lia]. rw Z.ones_equiv. replace (Z.pred (2 ^ k) + 1) with (2 ^ k) by lia.
    destruct (decide (k = 32)) as [->|Hk32]; [done|]. rw u32_small; [by apply Z.mod_same; lia|].
    pose proof (Z.pow_lt_mono_r 2 k 32). lia.
Qed.

Lemma bad_mask_correct_witness :
  0 ≤ 0xffffff00 < 2 ^ 32 ∧ ∃ k, 0 ≤ k ≤ 32 ∧ 0xffffff00 = prefix_mask k ∧ 0xc0a80100 mod 2 ^ k = 0.
Proof. split; [lia|]. apply (proj1 (bad_mask_correct 0xffffff00 0xc0a80100 ltac:(lia))). vm_compute. reflexivity. Defined.

(** ** The table *)

Record route := Route { r_at : Z; r_dst : Z; r_mask : Z; r_gw : Z; r_flags : Z; r_use : Z; r_dev : Z }.

Definition rt_cells (r : route) : heapProp :=
  (r_at r + rt_dst) ↦ r_dst r ∗ (r_at r + rt_mask) ↦ r_mask r ∗ (r_at r + rt_gateway) ↦ r_gw r ∗
  (r_at r + rt_flags) ↦ r_flags r ∗ (r_at r + rt_use) ↦ r_use r ∗ (r_at r + rt_dev) ↦ r_dev r.

Definition rt_match (addr : Z) (r : route) : bool := Z.land addr (r_mask r) =? r_dst r.

(** Longer prefixes come first. *)
Definition by_prefix (rs : list route) : Prop :=
  StronglySorted (λ r1 r2, r_mask r2 ≤ r_mask r1) rs ∧ Forall (λ r, is_prefix (r_mask r)) rs.

Lemma lxor_eqb a b : (Z.lxor a b =? 0) = (a =? b).
Proof.
  destruct (Z.eqb_spec a b) as [->|H]; [by rw Z.lxor_nilpotent|]. apply Z.eqb_neq. by intros E%Z.lxor_eq.
Qed.

Lemma rt_matches_wp addr r : rt_cells r ⊢ wp (rt_matches addr (r_at r)) (λ b, ⌜b = rt_match addr r⌝ ∗ rt_cells r).
Proof. iIntros "(H1 & H2 & H)". unfold rt_matches. wp_load. wp_load. rw lxor_eqb. by iFrame. Qed.

(** The first entry that matches; in a table in which longer prefixes come first it has the longest one. *)
Lemma first_match addr rs r : head (filter (rt_match addr) rs) = Some r →
  ∃ xs ys, rs = xs ++ r :: ys ∧ rt_match addr r = true ∧ Forall (λ x, rt_match addr x = false) xs.
Proof.
  induction rs as [|x rs IH]; [done|]. destruct (rt_match addr x) eqn:E.
  - rw filter_cons_True; [|by apply Is_true_true]. intros [= ->]. by exists [], rs.
  - rw filter_cons_False; [|by apply Is_true_false]. intros Hh. destruct (IH Hh) as (xs & ys & -> & Hm & Hall).
    exists (x :: xs), ys. split_and!; [done|done|by constructor].
Qed.

Lemma first_match_longest addr xs r ys : by_prefix (xs ++ r :: ys) → Forall (λ x, rt_match addr x = false) xs →
  ∀ r', r' ∈ xs ++ r :: ys → rt_match addr r' = true → r_mask r' ≤ r_mask r.
Proof.
  intros [Hs _] Hx r' [Hr'|[->|Hr']%elem_of_cons]%elem_of_app Hm; [|lia|].
  - rw Forall_forall in Hx. specialize (Hx r' Hr'). congruence.
  - clear Hx. induction xs as [|x xs IH]; apply StronglySorted_inv in Hs as [Hs Hr]; [|by apply IH]. rw Forall_forall in Hr. by apply Hr.
Qed.

(** ** Entering a route *)

(** The new route behind those at the front whose mask includes its mask. *)
Fixpoint enter (new : route) (rs : list route) : list route :=
  match rs with
  | [] => [new]
  | r :: rs => if Z.land (r_mask r) (r_mask new) =? r_mask new then r :: enter new rs else new :: r :: rs
  end.

Definition same_net (dst mask : Z) (r : route) : bool := (r_dst r =? dst) && (r_mask r =? mask).

(** The table with the route [new] in place of one with the same network. *)
Definition replace_route (new : route) (rs : list route) : list route :=
  enter new (filter (λ r, negb (same_net (r_dst new) (r_mask new) r)) rs).

Lemma land_clear_gateway flags : Z.land (Z.land flags (Z.lnot RTF_GATEWAY)) RTF_GATEWAY = 0.
Proof. by rw -Z.land_assoc (Z.land_comm (Z.lnot _)) Z.land_lnot_diag Z.land_0_r. Qed.

Lemma same_net_wp dst mask r : rt_cells r ⊢
  wp (d ← load (r_at r + rt_dst);
      other ← (if negb (d =? dst) then mret true else m ← load (r_at r + rt_mask); mret (negb (m =? mask)));
      mret (negb other)) (λ b, ⌜b = same_net dst mask r⌝ ∗ rt_cells r).
Proof.
  iIntros "(H1 & H2 & H)". unfold same_net. wp_load. destruct (r_dst r =? dst); [|wp_pures; by iFrame].
  wp_load. destruct (r_mask r =? mask); by iFrame.
Qed.

Lemma enter_app new front rest : Forall (λ r, Z.land (r_mask r) (r_mask new) = r_mask new) front →
  (∀ r, head rest = Some r → Z.land (r_mask r) (r_mask new) ≠ r_mask new) →
  enter new (front ++ rest) = front ++ new :: rest.
Proof.
  intros Hf Hr. induction Hf as [|r front Hm Hf IH]; simpl.
  - destruct rest as [|r rest]; [done|]. simpl. by rw (eqb_false _ _ (Hr r eq_refl)).
  - by rw Hm Z.eqb_refl IH.
Qed.

Lemma Forall_filter_l {A} (P : A → bool) (Q : A → Prop) xs : Forall Q xs → Forall Q (filter P xs).
Proof. rw !Forall_forall. intros H x [_ Hx]%list_elem_of_filter. by apply H. Qed.

Lemma by_prefix_filter (P : route → bool) rs : by_prefix rs → by_prefix (filter P rs).
Proof.
  intros [Hs Hp]. split; [|by apply Forall_filter_l]. clear Hp. induction Hs as [|r rs Hs IH Hr]; [by constructor|].
  destruct (P r) eqn:E; [rw filter_cons_True|rw filter_cons_False]; rw ?E; try done; [|by intros []].
  constructor; [done|]. by apply Forall_filter_l.
Qed.

Lemma by_prefix_enter new rs : is_prefix (r_mask new) → by_prefix rs → by_prefix (enter new rs).
Proof.
  intros Hn [Hs Hp]. induction Hs as [|r rs Hs IH Hr]; [split; [repeat constructor|by constructor]|].
  inversion_clear Hp as [|?? Hpr Hprs]. destruct (IH Hprs) as [IHs IHp]. simpl.
  destruct (Z.eqb_spec (Z.land (r_mask r) (r_mask new)) (r_mask new)) as [E|E]; rw prefix_includes in E; try done.
  - split; [constructor; [done|]|by constructor]. clear IHs IHp IH Hs.
    induction rs as [|r' rs IH]; simpl; [by constructor|]. inversion_clear Hr. inversion_clear Hprs.
    destruct (Z.land (r_mask r') (r_mask new) =? r_mask new); constructor; try done; [by apply IH|by constructor].
  - split; [|by repeat constructor]. constructor; [by constructor|]. constructor; [lia|].
    eapply Forall_impl; [exact Hr|]. simpl. intros. lia.
Qed.

Section table.
Context (rt_base rt_loopback : Z).

Definition table (rs : list route) : heapProp :=
  slist rt_next rt_base (r_at <$> rs) ∗ [∗ list] r ∈ rs, rt_cells r.

(** [ip_rt_flush] takes exactly the routes of a device out of the table, and [rt_del] without a
    device name exactly those with a destination; the others stay in their order. *)
Theorem ip_rt_flush_correct dev dst rs :
  {{ table rs }} (ip_rt_flush rt_base dev;; rt_del rt_base dst NULL)
  {{ _, table (filter (λ r, negb (r_dst r =? dst)) (filter (λ r, negb (r_dev r =? dev)) rs)) }}.
Proof.
  apply triple_wp. iIntros "[Hc HR]". iApply wp_bind. unfold ip_rt_flush.
  iApply (unlink_if_wp rt_next r_at rt_cells _ _ (λ r, r_dev r =? dev) (λ _, emp)%I _ _ [] with "Hc HR []").
  { intros r. iIntros "(H1 & H2 & H3 & H4 & H5 & H6)". wp_load. by iFrame. }
  { intros r l _. iIntros "H". wp_pures. done. }
  { done. }
  iIntros "Hc HR _". unfold rt_del.
  iApply (unlink_if_wp rt_next r_at rt_cells _ _ (λ r, r_dst r =? dst) (λ _, emp)%I _ _ [] with "Hc HR []").
  { intros r. iIntros "(H1 & H)". wp_load. destruct (r_dst r =? dst); wp_pures; by iFrame. }
  { intros r l _. iIntros "H". wp_pures. done. }
  { done. }
  iIntros "Hc HR _". iFrame.
Qed.

(** The devices and their addresses. *)
Definition dev_addrs (D : gmap Z Z) : heapProp := [∗ map] dev ↦ a ∈ D, (dev + pa_addr) ↦ a.

Definition used (r : route) : route :=
  Route (r_at r) (r_dst r) (r_mask r) (r_gw r) (r_flags r) (u32 (r_use r + 1)) (r_dev r).

Lemma table_split xs r ys : table (xs ++ r :: ys) ⊢ rt_cells r ∗
  ∀ r', ⌜r_at r' = r_at r⌝ -∗ rt_cells r' -∗ table (xs ++ r' :: ys).
Proof.
  unfold table. iIntros "[Hc (Hxs & $ & Hys)]". iIntros (r' E) "Hr". iFrame. by rw !fmap_app !fmap_cons E.
Qed.

Lemma rt_found_wp xs r ys D a daddr src s0 Q : D !! r_dev r = Some a → r_at r ≠ NULL → src ≠ NULL →
  table (xs ++ r :: ys) -∗ dev_addrs D -∗ rt_loopback ↦ NULL -∗ src ↦ s0 -∗
  (table (xs ++ (if daddr =? a then r else used r) :: ys) -∗ dev_addrs D -∗ rt_loopback ↦ NULL -∗ src ↦ a -∗
   Q (if daddr =? a then NULL else r_at r)) -∗
  wp (rt_found rt_loopback (r_at r) daddr src) Q.
Proof.
  intros HD Hr Hsrc. iIntros "Ht HD Hl Hs HQ". unfold rt_found. rw (eqb_false src NULL Hsrc).
  iDestruct (table_split with "Ht") as "[(H1 & H2 & H3 & H4 & H5 & H6) Ht]".
  iDestruct (big_sepM_lookup_acc with "HD") as "[Ha HD]"; [done|]. wp_load. wp_load. wp_store. wp_load. wp_load.
  iDestruct ("HD" with "Ha") as "HD". destruct (daddr =? a).
  - wp_load. iApply ("HQ" with "[-HD Hl Hs] HD Hl Hs"). iApply "Ht"; [done|]. iFrame.
  - wp_pures. rw (eqb_false (r_at r) NULL Hr). wp_load. wp_store.
    iApply ("HQ" with "[-HD Hl Hs] HD Hl Hs"). iApply ("Ht" $! (used r)); [done|]. iFrame.
Qed.

(** C21: Routing, when some entry of the table matches (otherwise the code reads through NULL): [ip_rt_route] takes the first entry that matches the destination, stores the
    address of its device as the source address, returns the entry and counts its use.  In a table in which longer prefixes come first no other match has a longer one.  For a destination
    that is the address of the device it returns NULL and counts nothing, since no loopback entry exists. *)
Theorem ip_rt_route_first_match rs D daddr src s0 :
  {{ ⌜Forall (λ r, r_dev r ∈ dom D) rs ∧ (∃ r, r ∈ rs ∧ rt_match daddr r = true) ∧ src ≠ NULL⌝ ∗
     table rs ∗ dev_addrs D ∗ rt_loopback ↦ NULL ∗ src ↦ s0 }}
    ip_rt_route rt_base rt_loopback daddr NULL src
  {{ v, ∃ xs r ys a, ⌜rs = xs ++ r :: ys ∧ rt_match daddr r = true ∧ Forall (λ x, rt_match daddr x = false) xs ∧
          (by_prefix rs → ∀ r', r' ∈ rs → rt_match daddr r' = true → r_mask r' ≤ r_mask r) ∧
          D !! r_dev r = Some a ∧ v = if daddr =? a then NULL else r_at r⌝ ∗
        table (xs ++ (if daddr =? a then r else used r) :: ys) ∗ dev_addrs D ∗ rt_loopback ↦ NULL ∗ src ↦ a }}.
Proof.
  apply triple_wp. iIntros "((%HD & %Hex & %Hsrc) & [Hc HR] & HD & Hl & Hsrc)". unfold ip_rt_route.
  iDestruct (slist_ne with "Hc") as %Hne. iApply wp_bind.
  iApply (find_link_wp rt_next r_at rt_cells _ (rt_match daddr) with "Hc HR").
  { intros r. iIntros "H". iApply wp_bind. iApply (wp_wand with "[H]"); [by iApply rt_matches_wp|]. iIntros (b) "[-> H]".
    destruct (rt_match daddr r); wp_pures; [by iFrame|]. iDestruct "H" as "(H1 & H2 & H3 & H4 & H)". wp_load. by iFrame. }
  iIntros "Hc HR". destruct (head (filter (rt_match daddr) rs)) as [r|] eqn:E; simpl.
  - destruct (first_match _ _ _ E) as (xs & ys & -> & Hm & Hall). rw !Forall_app !Forall_cons in HD Hne.
    destruct HD as (_ & [a HDa]%elem_of_dom & _). destruct Hne as (_ & Hr & _).
    iApply (rt_found_wp xs r ys D a with "[$Hc $HR] HD Hl Hsrc"); [done..|]. iIntros "Ht HD Hl Hsrc". iExists xs, r, ys, a. iFrame. iPureIntro.
    split_and!; try done. intros Hs. by apply first_match_longest.
  - exfalso. destruct Hex as (r & Hr & Hm). destruct (filter (rt_match daddr) rs) eqn:E2; [|done].
    assert (r ∈ filter (rt_match daddr) rs) as Hin by (apply list_elem_of_filter; split; [by apply Is_true_true|done]).
    rw E2 in Hin. by apply not_elem_of_nil in Hin.
Qed.

Lemma rt_walk_wp mask rs prev0 Q :
  table rs -∗
  (∀ front rest, ⌜rs = front ++ rest ∧ Forall (λ r, Z.land (r_mask r) mask = mask) front ∧
      ∀ r, head rest = Some r → Z.land (r_mask r) mask ≠ mask⌝ -∗
     table rs -∗ Q (first_or NULL (r_at <$> rest), last_or prev0 (r_at <$> front))) -∗
  wp (loop (λ '(rtp, prev),
    r ← load rtp;
    if r =? NULL then mret (inr (r, prev)) else
    m ← load (r + rt_mask);
    if negb (Z.land m mask =? mask) then mret (inr (r, prev)) else
    mret (inl (r + rt_next, r))) (rt_base, prev0)) Q.
Proof.
  iIntros "Ht HQ". iApply (wp_wand with "[Ht]"); first iApply (wp_loop _ (λ (n : nat) '((rtp, prev) : Z * Z), ∃ front rest,
      ⌜rs = front ++ rest ∧ n = length rest ∧ Forall (λ r, Z.land (r_mask r) mask = mask) front ∧
       rtp = behind rt_next rt_base (r_at <$> front) ∧ prev = last_or prev0 (r_at <$> front)⌝ ∗ table rs)%I
    (λ v, ∃ front rest, ⌜rs = front ++ rest ∧ Forall (λ r, Z.land (r_mask r) mask = mask) front ∧
      (∀ r, head rest = Some r → Z.land (r_mask r) mask ≠ mask) ∧ v = (first_or NULL (r_at <$> rest), last_or prev0 (r_at <$> front))⌝ ∗ table rs)%I (length rs)).
  - iIntros "(%front & %rest & _ & [H _])". rw slist_cells. iApply (cells_le with "H"). rw length_fmap. lia.
  - intros n [rtp prev]. iIntros "(%front & %rest & (-> & -> & %Hf & -> & ->) & [Hc HR])". rw fmap_app.
    iDestruct (slist_app with "Hc") as "[Hc Hw]". destruct rest as [|r rest]; simpl.
    + wp_load. wp_pures. iExists front, []. iDestruct ("Hw" $! [] with "Hc") as "Hc". unfold table. rw fmap_app. iFrame. iPureIntro. by split_and!.
    + iDestruct "Hc" as "(%Hr & Hp & Hc)". iDestruct "HR" as "(HR1 & (H1 & H2 & H) & HR2)".
      wp_load. rw (eqb_false (r_at r) NULL Hr). wp_load.
      iDestruct ("Hw" $! (r_at r :: (r_at <$> rest)) with "[$Hp $Hc //]") as "Hc".
      destruct (Z.eqb_spec (Z.land (r_mask r) mask) mask) as [E|E]; wp_pures.
      * iExists (length rest). iSplit; [iPureIntro; lia|]. iExists (front ++ [r]), rest. rw -assoc_L /=. unfold table. rw !fmap_app. iFrame.
        iPureIntro. split_and!; [done|done|by apply Forall_app; auto|..]; [by rw behind_snoc|by rw last_or_snoc].
      * iExists front, (r :: rest). unfold table. rw !fmap_app. iFrame. iPureIntro. split_and!; [done|done| |done].
        by intros ? [= <-].
  - iExists [], rs. iFrame. done.
  - iIntros (v) "(%front & %rest & (%E & %Hf & %Hr & ->) & Ht)". iApply ("HQ" with "[//] Ht").
Qed.

Lemma rt_insert_wp new rs r0 rs1 n0 prev0 Q :
  filter (λ r, negb (same_net (r_dst new) (r_mask new) r)) rs = r0 :: rs1 → Z.land (r_mask r0) (r_mask new) = r_mask new → r_at new ≠ NULL →
  table rs -∗ rt_cells new -∗ (r_at new + rt_next) ↦ n0 -∗ (table (replace_route new rs) -∗ Q tt) -∗
  wp (rt_insert rt_base (r_at new) (r_dst new) (r_mask new) prev0) Q.
Proof.
  intros E0 Hm0 Hn. iIntros "[Hc HR] Hnew Hnn HQ". unfold rt_insert, replace_route. iApply wp_bind.
  iApply (unlink_if_wp rt_next r_at rt_cells _ _ (same_net (r_dst new) (r_mask new)) (λ _, emp)%I _ _ [] with "Hc HR []").
  { intros r. apply same_net_wp. }
  { intros r l _. iIntros "H". wp_pures. done. }
  { done. }
  rw E0. iIntros "Hc HR _". iApply wp_bind. iApply (rt_walk_wp (r_mask new) (r0 :: rs1) with "[$Hc $HR]").
  iIntros (front rest (E & Hf & Hr)) "[Hc HR]". wp_store. destruct front as [|r1 front] using rev_ind.
  { simpl in E. subst rest. by destruct (Hr r0 eq_refl). }
  rw fmap_app last_or_snoc E enter_app; [|done..]. rw !fmap_app. iDestruct (slist_app with "Hc") as "[Hc Hw]".
  rw (behind_snoc rt_next rt_base (r_at <$> front) (r_at r1)).
  iDestruct (slist_first with "Hc") as "[Hp Hc]". wp_store. iApply "HQ". unfold table. rw !fmap_app.
  iDestruct "HR" as "[HR1 HR2]". iFrame "HR1 HR2 Hnew". iApply ("Hw" $! (r_at new :: (r_at <$> rest))). simpl. iFrame "Hp".
  iSplit; [done|]. by iApply "Hc".
Qed.
(** The memory of an entry that is not in the table. *)
Definition rt_node (rt : Z) : heapProp :=
  ⌜rt ≠ NULL⌝ ∗ [∗ list] o ∈ [rt_next; rt_dst; rt_mask; rt_gateway; rt_flags; rt_metric; ft_refcnt; rt_use; rt_mss; rt_window; rt_dev],
    ∃ v, (rt + o) ↦ v.

(** The flags and the gateway that are entered; [None]: the gateway cannot be reached through the device, the
    route is refused. *)
Definition gateway_of (rs : list route) (flags gw a dev : Z) : option (Z * Z) :=
  if (gw =? a) || (Z.land flags RTF_GATEWAY =? 0) then Some (if gw =? a then Z.land flags (Z.lnot RTF_GATEWAY) else flags, 0) else
  match head (filter (rt_match gw) rs) with
  | Some r => if (Z.land (r_flags r) RTF_GATEWAY =? 0) && (r_dev r =? dev) then Some (Z.lor flags RTF_GATEWAY, gw) else None
  | None => None
  end.

Lemma get_gw_dev_wp gw rs Q :
  table rs -∗
  (table rs -∗ Q (from_option (λ r, if Z.land (r_flags r) RTF_GATEWAY =? 0 then r_dev r else NULL) NULL (head (filter (rt_match gw) rs)))) -∗
  wp (get_gw_dev rt_base gw) Q.
Proof.
  iIntros "[Hc HR] HQ". iDestruct (slist_ne with "Hc") as %Hne. unfold get_gw_dev. iApply wp_bind.
  iApply (find_link_wp rt_next r_at rt_cells _ (rt_match gw) with "Hc HR"); [intros r; apply rt_matches_wp|]. iIntros "Hc HR".
  destruct (head (filter (rt_match gw) rs)) as [r|] eqn:E; simpl; [|wp_pures; iApply "HQ"; iFrame].
  assert (r ∈ rs) as (i & Hi)%list_elem_of_lookup.
  { destruct (filter (rt_match gw) rs) as [|r' l] eqn:E2; [done|]. injection E as ->.
    assert (r ∈ filter (rt_match gw) rs) as Hin by (rw E2; by left). by apply list_elem_of_filter in Hin as [_ ?]. }
  rw (eqb_false (r_at r) NULL); [|exact (Forall_lookup_1 _ _ _ _ Hne Hi)]. iDestruct (big_sepL_lookup_acc with "HR") as "[(H1 & H2 & H3 & H4 & H5 & H6) HR]"; [done|].
  wp_load. destruct (Z.land (r_flags r) RTF_GATEWAY =? 0); [wp_load|wp_pures]; iApply "HQ"; iFrame; iApply "HR"; iFrame.
Qed.

(** The route that [ip_rt_add] enters. *)
Definition new_route (rt dst mask flags gw dev : Z) : route := Route rt dst mask gw (u8 (Z.lor flags RTF_UP)) 0 dev.

(** The rest of [ip_rt_add], when the flags and the gateway are known. *)
Lemma rt_fill_wp rt dst mask flags gw dev mtu window prev0 Q :
  rt_node rt -∗
  (⌜rt ≠ NULL⌝ -∗ rt_cells (new_route rt dst mask flags gw dev) -∗ (rt + rt_next) ↦ 0 -∗ wp (rt_insert rt_base rt dst mask prev0) Q) -∗
  wp (if rt =? NULL then mret tt else
      clear_rtable rt;;
      store (rt + rt_flags) (u8 (Z.lor flags RTF_UP));;
      store (rt + rt_dst) dst;;
      store (rt + rt_dev) dev;;
      store (rt + rt_gateway) gw;;
      store (rt + rt_mask) mask;;
      store (rt + rt_window) 0;;
      f ← load (rt + rt_flags);
      (if negb (Z.land f RTF_MSS =? 0) then store (rt + rt_mss) (u16 mtu) else mret tt);;
      f ← load (rt + rt_flags);
      (if negb (Z.land f RTF_WINDOW =? 0) then store (rt + rt_window) window else mret tt);;
      rt_insert rt_base rt dst mask prev0) Q.
Proof.
  iIntros "(%Hrt & Hn) HQ". rw (eqb_false rt NULL Hrt).
  iDestruct "Hn" as "((%v1 & H1) & (%v2 & H2) & (%v3 & H3) & (%v4 & H4) & (%v5 & H5) & (%v6 & H6) & (%v7 & H7) & (%v8 & H8) & (%v9 & H9) & (%v10 & H10) & (%v11 & H11) & _)".
  unfold clear_rtable. do 17 wp_store. wp_load. iApply wp_bind.
  iApply (wp_wand _ (λ _, ∃ v, (rt + rt_mss) ↦ v)%I with "[H9]").
  { destruct (Z.land (u8 (Z.lor flags RTF_UP)) RTF_MSS =? 0); [wp_pures|wp_store]; by iFrame. }
  iIntros (_) "_". wp_load. iApply wp_bind. iApply (wp_wand _ (λ _, ∃ v, (rt + rt_window) ↦ v)%I with "[H10]").
  { destruct (Z.land (u8 (Z.lor flags RTF_UP)) RTF_WINDOW =? 0); [wp_pures|wp_store]; by iFrame. }
  iIntros (_) "_". iApply ("HQ" with "[//] [H2 H3 H4 H5 H8 H11] H1"). iFrame.
Qed.

(** Entering a route to a host, or to a network whose mask is given, when an entry with at least as
    long a prefix is in front.  A route through a gateway that cannot be reached directly over the device is
    refused and the table stays as it is; otherwise the route takes the place of one to the same network, and the table
    still has longer prefixes first.  A table gets its first entry in another way than by this code ([ip_rt_add_first_lost]). *)
Theorem ip_rt_add_correct rt prev0 flags dst mask gw dev mtu window rs D a r0 rs1 :
  let mask' := if Z.land flags RTF_HOST =? 0 then mask else 0xffffffff in
  {{ ⌜by_prefix rs ∧ is_prefix mask' ∧ mask ≠ 0 ∧ dev ≠ NULL ∧ D !! dev = Some a ∧
      filter (λ r, negb (same_net dst mask' r)) rs = r0 :: rs1 ∧ mask' ≤ r_mask r0⌝ ∗ table rs ∗ dev_addrs D ∗ rt_node rt }}
    ip_rt_add rt_base rt prev0 flags dst mask gw dev mtu window
  {{ _, dev_addrs D ∗
     match gateway_of rs flags gw a dev with
     | None => table rs
     | Some (flags', gw') => ∃ rs', ⌜rs' = replace_route (new_route rt dst mask' flags' gw' dev) rs ∧ by_prefix rs'⌝ ∗ table rs'
     end }}.
Proof.
  intros mask'. apply triple_wp. iIntros "((%Hs & %Hm & %Hm0 & %Hdev & %HD & %E0 & %Hle) & Ht & HD & Hn)". unfold ip_rt_add.
  iApply wp_bind. iApply (wp_wand _ (λ v, ⌜v = (flags, dst, mask')⌝)%I).
  { unfold rt_normalize, mask'. destruct (Z.land flags RTF_HOST =? 0); [rw (eqb_false mask 0 Hm0)|]; wp_pures; done. }
  iIntros (v) "->". iDestruct (big_sepM_lookup_acc with "HD") as "[Ha HD]"; [done|]. wp_load.
  iDestruct ("HD" with "Ha") as "$". iApply wp_bind.
  iApply (wp_wand _ (λ v, ⌜v = gateway_of rs flags gw a dev⌝ ∗ table rs)%I with "[Ht]").
  { unfold gateway_of. destruct (Z.eqb_spec gw a) as [->|Hgw].
    - rw land_clear_gateway. wp_pures. by iFrame.
    - destruct (Z.land flags RTF_GATEWAY =? 0); wp_pures; [by iFrame|]. iApply wp_bind. iApply (get_gw_dev_wp with "Ht"). iIntros "Ht".
      destruct (head (filter (rt_match gw) rs)) as [r|]; simpl; [|rw (eqb_false dev NULL Hdev); wp_pures; by iFrame].
      destruct (Z.land (r_flags r) RTF_GATEWAY =? 0); simpl; [|rw (eqb_false dev NULL Hdev); wp_pures; by iFrame].
      rw (Z.eqb_sym dev). destruct (r_dev r =? dev); wp_pures; by iFrame. }
  iIntros (v) "[-> Ht]". destruct (gateway_of rs flags gw a dev) as [[flags' gw']|]; wp_pures; [|done].
  iApply (rt_fill_wp with "Hn"). iIntros (Hrt) "Hnew Hnn".
  iApply (rt_insert_wp (new_route rt dst mask' flags' gw' dev) rs r0 rs1 with "Ht Hnew Hnn"); [done| |done|].
  { apply prefix_includes; [|done|done]. destruct Hs as [_ Hp]. rw Forall_forall in Hp. apply Hp.
    assert (r0 ∈ filter (λ r, negb (same_net dst mask' r)) rs) as Hin by (rw E0; by left).
    by apply list_elem_of_filter in Hin as [_ ?]. }
  iIntros "Ht". iExists _. iFrame "Ht". iPureIntro. split; [done|]. apply by_prefix_enter; [done|]. by apply by_prefix_filter.
Qed.

(** The first route is lost: [prev] is not initialised when the new entry comes first, and [rt_base] is
    not changed.  A table that is empty, as it is when the kernel starts, stays empty whatever is entered; the word
    at the address that [prev] happens to be is overwritten. *)
Theorem ip_rt_add_first_lost rt prev0 flags dst mask gw dev mtu window a v :
  {{ ⌜mask ≠ 0 ∧ dev ≠ NULL ∧ gateway_of [] flags gw a dev ≠ None⌝ ∗ table [] ∗ (dev + pa_addr) ↦ a ∗ rt_node rt ∗ (prev0 + rt_next) ↦ v }}
    ip_rt_add rt_base rt prev0 flags dst mask gw dev mtu window
  {{ _, table [] ∗ (prev0 + rt_next) ↦ rt }}.
Proof.
  apply triple_wp. iIntros "((%Hm0 & %Hdev & %Hg) & Ht & Ha & Hn & Hp)". unfold ip_rt_add.
  iApply wp_bind. iApply (wp_wand _ (λ v, ∃ m, ⌜v = (flags, dst, m)⌝)%I).
  { unfold rt_normalize. destruct (Z.land flags RTF_HOST =? 0); [rw (eqb_false mask 0 Hm0)|]; wp_pures; auto. }
  iIntros (x) "(%m & ->)". wp_load. iApply wp_bind. iApply (wp_wand _ (λ x, ∃ y, ⌜x = Some y⌝)%I).
  { unfold gateway_of in Hg. simpl in Hg. destruct (Z.eqb_spec gw a) as [->|Hgw].
    - rw land_clear_gateway. wp_pures. auto.
    - destruct (Z.land flags RTF_GATEWAY =? 0); [wp_pures; auto|done]. }
  iIntros (x) "(%y & ->)". destruct y as [flags' gw']. wp_pures.
  iApply (rt_fill_wp with "Hn"). iIntros (Hrt) "_ Hnn". unfold rt_insert. iDestruct "Ht" as "[Hc HR]". iApply wp_bind.
  iApply (unlink_if_wp rt_next r_at rt_cells _ _ (same_net dst m) (λ _, emp)%I _ [] [] with "Hc HR []").
  { intros r. apply same_net_wp. }
  { intros r l _. iIntros "H". wp_pures. done. }
  { done. }
  iIntros "Hc HR _". iApply wp_bind. iApply (rt_walk_wp m [] with "[$Hc $HR]").
  iIntros (front rest (E & _ & _)) "Ht". symmetry in E. apply app_eq_nil in E as [-> ->]. wp_store. wp_store. iFrame.
Qed.
End table.
