(* ===== verification/NetDev.v ===== *)
(** * Devices, packet types and notifiers: net/inet/dev.c, include/linux/notifier.h

    Functions that are reached through pointers in the structures (of the driver of a device, of a protocol, of a notifier)
    are parameters; those of protocols and notifiers get the pointer they are called through.  The variables of
    the file are cells. *)

From S2P Require Export SkBuff Net.

(** struct sk_buff *)
Definition pkt_type : Z := 8.
Definition skb_len : Z := 12.
Definition skb_dev : Z := 16.
Definition skb_free : Z := 20.
Definition skb_arp : Z := 21.
Definition skb_saddr : Z := 24.
Definition skb_raddr : Z := 32.
Definition skb_h : Z := 44.
Definition skb_when : Z := 48.
Definition skb_ip_hdr : Z := 52.
Definition skb_sk : Z := 60.
Definition skb_localroute : Z := 64.
Definition skb_cache_next : Z := 68.
Definition skb_data : Z := 72.

(** struct net_device: pointers to functions. *)
Definition nd_init : Z := 12.
Definition nd_open : Z := 68.
Definition nd_stop : Z := 72.

(** struct packet_type *)
Definition pt_type : Z := 0.
Definition pt_dev : Z := 4.
Definition pt_func : Z := 8.
Definition pt_next : Z := 16.

(** struct notifier_block *)
Definition notifier_call : Z := 0.
Definition nb_next : Z := 4.
Definition nb_priority : Z := 8.

Definition DEV_NUMBUFFS : Z := 3.
Definition NETDEV_UP : Z := 0x001.
Definition NETDEV_DOWN : Z := 0x002.
Definition NETDEV_STOP_MASK : Z := 0x004.
Definition NOTIFY_DONE : Z := 0.

(** The queue of a device for the packets of a priority. *)
Definition buffs (dev pri : Z) : Z := dev + nd_buffs + 8 * pri.

(** ** Notifiers *)

(** [prev0] is the value of [prev], which is not initialised. *)
Definition notifier_chain_register (prev0 list n : Z) : M Z :=
  '(list, prev) ← loop (λ '(list, prev),
    x ← load list;
    if x =? NULL then mret (inr (list, prev)) else
    p ← load (n + nb_priority);
    q ← load (x + nb_priority);
    if p <? q then mret (inr (list, prev)) else
    mret (inl (x + nb_next, x))) (list, prev0);
  x ← load list;
  store (n + nb_next) x;;
  store list n;;
  store (prev + nb_next) n;;
  mret 0.

(** The loop that walks through the links [pp] until one of them points to [x], and takes [x] out there. *)
Definition unlink_node (next pp x : Z) : M unit :=
  loop (λ pp,
    y ← load pp;
    if y =? NULL then mret (inr tt) else
    if y =? x then n ← load (x + next); store pp n;; mret (inr tt) else
    mret (inl (y + next))) pp.

Definition notifier_chain_unregister (list n : Z) : M Z := unlink_node nb_next list n;; mret 0.

Definition notifier_call_chain (call : Z → Z → Z → M Z) (list val arg : Z) : M Z :=
  nb ← load list;
  loop (λ '(nb, ret),
    if nb =? NULL then mret (inr ret) else
    f ← load (nb + notifier_call);
    ret ← call f val arg;
    if negb (Z.land ret NETDEV_STOP_MASK =? 0) then mret (inr ret) else
    nb ← load (nb + nb_next);
    mret (inl (nb, ret))) (nb, NETDEV_DOWN).

(** ** Packet types *)

Definition dev_add_pack (ptype_base pt : Z) : M unit :=
  b ← load ptype_base;
  store (pt + pt_next) b;;
  store ptype_base pt.

Definition dev_remove_pack (ptype_base packet_t : Z) : M unit := unlink_node pt_next ptype_base packet_t.

(** ** Devices *)

Section dev.
Context (dev_base netdev_chain ptype_base backlog backlog_size dropping in_bh : Z).
(** The functions of the driver, the notifiers and the protocols; [arp_device_down] is declared only. *)
Context (dev_init_fn dev_open_fn dev_stop_fn : Z → M Z) (hard_start_xmit type_trans : Z → Z → M Z) (rebuild_header : Z → Z → Z → Z → M Z).
Context (call : Z → Z → Z → M Z) (func : Z → Z → Z → Z → M Z) (arp_device_down : Z → M Z).

Definition dev_get (name : Z) : M Z :=
  for_devices dev_base (λ dev,
    s ← load (dev + nd_name);
    l ← strlen s;
    r ← strncmp s name l;
    if r =? 0 then mret (Some dev) else mret None) NULL.

Definition dev_open (dev : Z) : M Z :=
  o ← load (dev + nd_open);
  ret ← (if negb (o =? NULL) then dev_open_fn dev else mret 0);
  (if ret =? 0 then
     f ← load (dev + nd_flags);
     store (dev + nd_flags) (u8 (Z.lor f (Z.lor IFF_UP IFF_RUNNING)));;
     notifier_call_chain call netdev_chain NETDEV_UP dev;;
     mret tt
   else mret tt);;
  mret ret.

(** The two loops that empty the queues: [ct] counts in the inner one only. *)
Definition close_queue (dev ct : Z) : M Z :=
  loop (λ ct,
    skb ← skb_dequeue (buffs dev ct);
    if skb =? NULL then mret (inr ct) else
    f ← load (skb + skb_free);
    mret (inl (if negb (f =? 0) then ct + 1 else ct))) ct.

Definition close_queues (dev : Z) : M unit :=
  loop (λ ct, if ct <? DEV_NUMBUFFS then ct ← close_queue dev ct; mret (inl ct) else mret (inr tt)) 0.

Definition dev_close (dev : Z) : M Z :=
  f ← load (dev + nd_flags);
  (if negb (f =? IFF_DOWN) then
     s ← load (dev + nd_stop);
     (if negb (s =? NULL) then dev_stop_fn dev;; mret tt else mret tt);;
     notifier_call_chain call netdev_chain NETDEV_DOWN dev;;
     arp_device_down dev;;
     store (dev + pa_addr) 0;;
     store (dev + pa_broadcast) 0;;
     store (dev + pa_mask) 0;;
     close_queues dev
   else mret tt);;
  mret 0.

Definition register_netdevice_notifier (prev0 nb : Z) : M Z := notifier_chain_register prev0 netdev_chain nb.
Definition unregister_netdevice_notifier (nb : Z) : M Z := notifier_chain_unregister netdev_chain nb.

Definition dev_queue_xmit (skb dev pri : Z) : M unit :=
  if dev =? NULL then mret tt else
  n ← load (skb + sk_next);
  if negb (n =? NULL) then hard_start_xmit NULL dev;; mret tt else
  let '(pri, again) := if pri <? 0 then (- pri - 1, true) else (pri, false) in
  let pri := if pri >? DEV_NUMBUFFS then 1 else pri in
  a ← load (skb + skb_arp);
  r ← (if a =? 0 then raddr ← load (skb + skb_raddr); rebuild_header (skb + skb_data) dev raddr skb else mret 0);
  if negb (r =? 0) then mret tt else
  skb ← (if again : bool then mret skb else
         skb_queue_tail (buffs dev pri) skb;;
         skb_dequeue (buffs dev pri));
  r ← hard_start_xmit skb dev;
  if r =? 0 then mret tt else skb_queue_head (buffs dev pri) skb.

(** [!backlog_size > 300] compares a truth value. *)
Definition netif_rx (skb : Z) : M unit :=
  store (skb + skb_sk) NULL;;
  store (skb + skb_free) 1;;
  n ← load backlog_size;
  (if n =? 0 then store dropping 0 else
   n ← load backlog_size;
   if b2z (n =? 0) >? 300 then store dropping 1 else mret tt);;
  d ← load dropping;
  if negb (d =? 0) then mret tt else
  skb_queue_tail backlog skb;;
  n ← load backlog_size;
  store backlog_size (s32 (n + 1)).

Definition dev_tint (dev : Z) : M unit :=
  run (S (Z.to_nat DEV_NUMBUFFS)) (λ i,
    if i <? DEV_NUMBUFFS then
      busy ← loop (λ _ : unit,
        skb ← skb_dequeue (buffs dev i);
        if skb =? NULL then mret (inr false) else
        dev_queue_xmit skb dev (- i - 1);;
        t ← load (dev + nd_tbusy);
        if negb (t =? 0) then mret (inr true) else mret (inl tt)) tt;
      if busy : bool then mret (inr tt) else mret (inl (i + 1))
    else mret (inr tt)) 0.

Definition dev_transmit : M unit :=
  dev ← load dev_base;
  loop (λ dev,
    if dev =? NULL then mret (inr tt) else
    f ← load (dev + nd_flags);
    busy ← (if negb (f =? 0) then t ← load (dev + nd_tbusy); mret (negb (t =? 0)) else mret false);
    (if busy : bool then dev_tint dev else mret tt);;
    dev ← load (dev + nd_next);
    mret (inl dev)) dev.

Definition in_net_bh : M Z := b ← load in_bh; mret (if b =? 0 then 0 else 1).

(** kernel/bitmap.c: the operand of the instruction is the parameter [addr] itself; what it points to is neither read nor
    changed. *)
Definition set_bit (nr addr : Z) : M Z := mret (if Z.testbit addr nr then -1 else 0).

(** The handlers of the packet: each of them is called when the next one, or the end of the list, is found. *)
Definition deliver (skb type : Z) : M unit :=
  p ← load ptype_base;
  pt_prev ← loop (λ '(ptype, pt_prev),
    if ptype =? NULL then mret (inr pt_prev) else
    t ← load (ptype + pt_type);
    hit ← (if t =? type then
             d ← load (ptype + pt_dev);
             if d =? NULL then mret true else
             d ← load (ptype + pt_dev);
             sd ← load (skb + skb_dev);
             mret (d =? sd)
           else mret false);
    pt_prev ← (if hit : bool then
                 (if negb (pt_prev =? NULL) then
                    f ← load (pt_prev + pt_func);
                    sd ← load (skb + skb_dev);
                    func f skb sd pt_prev;;
                    mret tt
                  else mret tt);;
                 mret ptype
               else mret pt_prev);
    p ← load (ptype + pt_next);
    mret (inl (p, pt_prev))) (p, NULL);
  if negb (pt_prev =? NULL) then
    f ← load (pt_prev + pt_func);
    sd ← load (skb + skb_dev);
    func f skb sd pt_prev;;
    mret tt
  else mret tt.

Definition net_bh : M unit :=
  b ← set_bit 1 in_bh;
  if negb (b =? 0) then mret tt else
  dev_transmit;;
  loop (λ _ : unit,
    skb ← skb_dequeue backlog;
    if skb =? NULL then mret (inr tt) else
    n ← load backlog_size;
    store backlog_size (s32 (n - 1));;
    d ← load (skb + skb_dev);
    l ← load (d + hard_header_len);
    store (skb + skb_h) (u32 (skb + skb_data + l));;
    d ← load (skb + skb_dev);
    l ← load (d + hard_header_len);
    store (skb + skb_len) l;;
    d ← load (skb + skb_dev);
    type ← type_trans skb d;
    deliver skb (u16 type);;
    dev_transmit;;
    mret (inl tt)) tt;;
  store in_bh 0;;
  dev_transmit.

Definition dev_ioctl (cmd arg : Z) : Z := 0.

(** The local variable [dev_prev] is the only one that changes when a device that is not the first fails. *)
Definition dev_init : M unit :=
  dev ← load dev_base;
  loop (λ '(dev, dev_prev),
    if dev =? NULL then mret (inr tt) else
    i ← load (dev + nd_init);
    r ← (if negb (i =? NULL) then dev_init_fn dev else mret 0);
    dev_prev ← (if negb (r =? 0) then
                  n ← load (dev + nd_next);
                  if dev_prev =? NULL then store dev_base n;; mret dev_prev else mret n
                else mret dev);
    mret (inl (u32 (dev + sizeof_net_device), dev_prev))) (dev, NULL).
End dev.
