(* ===== verification/NetDevSpec.v ===== *)
(** * Packets on their way through the devices *)

From S2P Require Export NetDev.

(** What the driver promises: a device that is [ready] takes every packet, one that is not takes none; [sent]
    are the packets taken so far. *)
Class Driver (hard_start_xmit : Z → Z → M Z) := {
  sent : bool → list Z → heapProp;
  xmit_wp skb dev ready l Q : skb ≠ NULL →
    sent ready l -∗ (∀ r, ⌜r = 0 ↔ ready = true⌝ -∗ sent ready (if ready then l ++ [skb] else l) -∗ Q r) -∗
    wp (hard_start_xmit skb dev) Q;
}.

(** What the protocols and the driver promise for packets that come in: each call of a handler is logged, and the
    driver finds the type of a packet in its data. *)
Class Receiver (func : Z → Z → Z → Z → M Z) (type_trans : Z → Z → M Z) (ty : Z → Z) := {
  handled : list (Z * Z) → heapProp;
  func_wp f skb dev pt l Q : handled l -∗ (∀ r, handled (l ++ [(pt, skb)]) -∗ Q r) -∗ wp (func f skb dev pt) Q;
  type_trans_wp skb dev l Q : handled l -∗ (handled l -∗ Q (ty skb)) -∗ wp (type_trans skb dev) Q;
}.

(** ** Sending *)
Section send.
Context {hard_start_xmit : Z → Z → M Z} `{!Driver hard_start_xmit} (rebuild_header : Z → Z → Z → Z → M Z).

(** A packet whose hardware address is known. *)
Definition resolved (skb : Z) : heapProp := (skb + skb_arp) ↦ 1.

(** A packet from a protocol goes to the end of its queue, and the first of the queue to the driver; when it is refused
    it becomes the first again. *)
Lemma xmit_new_wp dev pri q skb ready l Q : dev ≠ NULL → 0 ≤ pri < DEV_NUMBUFFS →
  dlist (buffs dev pri) q -∗ lclear skb -∗ resolved skb -∗ sent ready l -∗
  (∀ q' x, ⌜if ready then q ++ [skb] = x :: q' else q' = q ++ [skb]⌝ -∗ dlist (buffs dev pri) q' -∗
     sent ready (if ready then l ++ [x] else l) -∗ Q tt) -∗
  wp (dev_queue_xmit hard_start_xmit rebuild_header skb dev pri) Q.
Proof.
  intros Hdev Hpri. iIntros "Hq Hs Ha Hsent HQ". unfold dev_queue_xmit. rw (eqb_false dev NULL Hdev).
  iDestruct "Hs" as "(Hn & Hp & %Hs)". wp_load. rw (proj2 (Z.ltb_ge pri 0)); [|lia].
  rw Z.gtb_ltb (proj2 (Z.ltb_ge DEV_NUMBUFFS pri)); [|lia]. wp_load. wp_focus.
  iApply (skb_queue_tail_wp with "Hq [$Hn $Hp //]"). iIntros "Hq". wp_focus. iApply (skb_dequeue_wp with "Hq").
  destruct (q ++ [skb]) as [|x q'] eqn:E; [by apply app_eq_nil in E as [_ ?]|]. iIntros "Hq Hx".
  iAssert ⌜x ≠ NULL⌝%I as %Hx; [by iDestruct "Hx" as "(_ & _ & $)"|]. wp_focus.
  iApply (xmit_wp with "Hsent"); [done|]. iIntros (r Hr) "Hsent". destruct ready.
  - rw (proj2 Hr eq_refl). wp_pures. iApply ("HQ" $! q' x with "[//] Hq Hsent").
  - rw (eqb_false r 0); [|naive_solver]. iApply (skb_queue_head_wp with "Hq Hx"). iIntros "Hq".
    iApply ("HQ" $! (x :: q') x with "[//] Hq Hsent").
Qed.

(** C22: invariant.  [dev_queue_xmit] keeps the order of the packets of a priority: what the driver has
    taken, followed by what is in the queue, is the sequence of before with the new packet at its end, whether the
    driver takes a packet or not; a driver that is ready takes exactly one. *)
Theorem dev_queue_xmit_order dev pri q skb ready l :
  {{ ⌜dev ≠ NULL ∧ 0 ≤ pri < DEV_NUMBUFFS⌝ ∗ dlist (buffs dev pri) q ∗ lclear skb ∗ resolved skb ∗ sent ready l }}
    dev_queue_xmit hard_start_xmit rebuild_header skb dev pri
  {{ _, ∃ l' q', ⌜l' ++ q' = l ++ q ++ [skb] ∧ length l' = (length l + if ready then 1 else 0)%nat⌝ ∗
       dlist (buffs dev pri) q' ∗ sent ready l' }}.
Proof.
  apply triple_wp. iIntros "((%Hdev & %Hpri) & Hq & Hs & Ha & Hsent)".
  iApply (xmit_new_wp with "Hq Hs Ha Hsent"); [done..|]. iIntros (q' x E) "Hq Hsent". destruct ready.
  - iExists (l ++ [x]), q'. iFrame. iPureIntro. rw E length_app -assoc_L. done.
  - iExists l, q'. iFrame. iPureIntro. rw E. split; [done|lia].
Qed.

(** A packet that was taken from the queue. *)
Lemma xmit_again_wp dev i skb l Q : dev ≠ NULL → 0 ≤ i < DEV_NUMBUFFS →
  lclear skb -∗ resolved skb -∗ sent true l -∗ (sent true (l ++ [skb]) -∗ Q tt) -∗
  wp (dev_queue_xmit hard_start_xmit rebuild_header skb dev (- i - 1)) Q.
Proof.
  intros Hdev Hi. iIntros "(Hn & Hp & %Hs) Ha Hsent HQ". unfold dev_queue_xmit. rw (eqb_false dev NULL Hdev).
  wp_load. rw (proj2 (Z.ltb_lt (- i - 1) 0)); [|lia]. wp_load. wp_focus.
  iApply (xmit_wp with "Hsent"); [done|]. iIntros (r Hr) "Hsent". rw (proj2 Hr eq_refl). wp_pures. by iApply "HQ".
Qed.

Lemma tint_queue_wp dev i q l (Q : bool → heapProp) : dev ≠ NULL → 0 ≤ i < DEV_NUMBUFFS →
  dlist (buffs dev i) q -∗ ([∗ list] skb ∈ q, resolved skb) -∗ sent true l -∗ (dev + nd_tbusy) ↦ 0 -∗
  (dlist (buffs dev i) [] -∗ sent true (l ++ q) -∗ (dev + nd_tbusy) ↦ 0 -∗ Q false) -∗
  wp (loop (λ _ : unit,
        skb ← skb_dequeue (buffs dev i);
        if skb =? NULL then mret (inr false) else
        dev_queue_xmit hard_start_xmit rebuild_header skb dev (- i - 1);;
        t ← load (dev + nd_tbusy);
        if negb (t =? 0) then mret (inr true) else mret (inl tt)) tt) Q.
Proof.
  intros Hdev Hi. iIntros "Hq Ha Hs Ht HQ".
  iApply (wp_wand with "[Hq Ha Hs Ht]"); first iApply (wp_loop _ (λ (n : nat) (_ : unit), ∃ q1 q2, ⌜q = q1 ++ q2 ∧ n = length q2⌝ ∗
      dlist (buffs dev i) q2 ∗ ([∗ list] skb ∈ q2, resolved skb) ∗ sent true (l ++ q1) ∗ (dev + nd_tbusy) ↦ 0)%I
    (λ r, ⌜r = false⌝ ∗ dlist (buffs dev i) [] ∗ sent true (l ++ q) ∗ (dev + nd_tbusy) ↦ 0)%I (length q)).
  - iIntros "(%q1 & %q2 & (-> & %E) & [H _] & _)". rw nexts_cells. iApply (cells_le with "H"). lia.
  - intros n []. iIntros "(%q1 & %q2 & (-> & ->) & Hq & Ha & Hs & Ht)". iAssert ⌜Forall (λ x, x ≠ NULL) q2⌝%I as %Hnn.
    { iDestruct "Hq" as "(_ & _ & %H)". by inversion_clear H. }
    wp_focus. iApply (skb_dequeue_wp with "Hq"). destruct q2 as [|x q2]; iIntros "Hq".
    + wp_pures. rw app_nil_r. by iFrame.
    + iIntros "Hx". inversion_clear Hnn. rw (eqb_false x NULL); [|done]. iDestruct "Ha" as "[Hxa Ha]". iApply wp_bind.
      iApply (xmit_again_wp with "Hx Hxa Hs"); [done..|]. iIntros "Hs". wp_load. iExists (length q2). iSplit; [iPureIntro; simpl; lia|].
      iExists (q1 ++ [x]), q2. rw -!assoc_L. by iFrame.
  - iExists [], q. rw app_nil_r. by iFrame.
  - iIntros (r) "(-> & Hq & Hs & Ht)". iApply ("HQ" with "Hq Hs Ht").
Qed.

(** liveness.  When the device is ready, [dev_tint] ends with all queues of the device empty: the driver has got
    every packet, those of a higher priority first and those of one priority in their order. *)
Theorem dev_tint_drains dev q0 q1 q2 l :
  {{ ⌜dev ≠ NULL⌝ ∗ dlist (buffs dev 0) q0 ∗ dlist (buffs dev 1) q1 ∗ dlist (buffs dev 2) q2 ∗
     ([∗ list] skb ∈ (q0 ++ q1 ++ q2), resolved skb) ∗ sent true l ∗ (dev + nd_tbusy) ↦ 0 }}
    dev_tint hard_start_xmit rebuild_header dev
  {{ _, dlist (buffs dev 0) [] ∗ dlist (buffs dev 1) [] ∗ dlist (buffs dev 2) [] ∗ sent true (l ++ q0 ++ q1 ++ q2) ∗ (dev + nd_tbusy) ↦ 0 }}.
Proof.
  apply triple_wp. iIntros "(%Hdev & H0 & H1 & H2 & (Ha0 & Ha1 & Ha2) & Hs & Ht)". unfold dev_tint.
  change (S (Z.to_nat DEV_NUMBUFFS)) with 4%nat. simpl. iApply wp_bind. iApply wp_bind.
  iApply (tint_queue_wp with "H0 Ha0 Hs Ht"); [done|done|]. iIntros "H0 Hs Ht". wp_pures. iApply wp_bind.
  change (0 + 1) with 1. change (1 <? DEV_NUMBUFFS) with true. iApply wp_bind.
  iApply (tint_queue_wp with "H1 Ha1 Hs Ht"); [done|done|]. iIntros "H1 Hs Ht". wp_pures. iApply wp_bind.
  change (1 + 1) with 2. change (2 <? DEV_NUMBUFFS) with true. iApply wp_bind.
  iApply (tint_queue_wp with "H2 Ha2 Hs Ht"); [done|done|]. iIntros "H2 Hs Ht". wp_pures.
  change (2 + 1 <? DEV_NUMBUFFS) with false. wp_pures. rw -!assoc_L. iFrame.
Qed.
End send.

(** ** Receiving *)
Section receive.
Context {func : Z → Z → Z → Z → M Z} {type_trans : Z → Z → M Z} {ty : Z → Z} `{!Receiver func type_trans ty}.
Context (dev_base ptype_base backlog backlog_size dropping in_bh : Z).
Context (hard_start_xmit : Z → Z → M Z) (rebuild_header : Z → Z → Z → Z → M Z).

(** A packet type: where it is, its protocol number and its device, NULL for all. *)
Record ptype := Ptype { p_at : Z; p_ty : Z; p_dev : Z }.

Definition p_cells (p : ptype) : heapProp :=
  (p_at p + pt_type) ↦ p_ty p ∗ (p_at p + pt_dev) ↦ p_dev p ∗ ∃ f, (p_at p + pt_func) ↦ f.

Definition ptypes (ps : list ptype) : heapProp := slist pt_next ptype_base (p_at <$> ps) ∗ [∗ list] p ∈ ps, p_cells p.

Definition wants (type dev : Z) (p : ptype) : bool := (p_ty p =? type) && ((p_dev p =? NULL) || (p_dev p =? dev)).

(** The calls for one packet. *)
Definition calls (ps : list ptype) (skb type dev : Z) : list (Z * Z) := (λ p, (p_at p, skb)) <$> filter (wants type dev) ps.

Lemma p_call_wp ps p skb dev l (Q : unit → heapProp) : p ∈ ps →
  ptypes ps -∗ (skb + skb_dev) ↦ dev -∗ handled l -∗
  (ptypes ps -∗ (skb + skb_dev) ↦ dev -∗ handled (l ++ [(p_at p, skb)]) -∗ Q tt) -∗
  wp (f ← load (p_at p + pt_func); sd ← load (skb + skb_dev); func f skb sd (p_at p);; mret tt) Q.
Proof.
  intros (i & Hi)%list_elem_of_lookup. iIntros "[Hc HR] Hd Hl HQ".
  iDestruct (big_sepL_lookup_acc with "HR") as "[(H1 & H2 & %f & H3) HR]"; [done|]. wp_load. wp_load. iApply wp_bind.
  iApply (func_wp with "Hl"). iIntros (r) "Hl". wp_pures. iApply ("HQ" with "[-Hd Hl] Hd Hl"). iFrame "Hc". iApply "HR". iFrame.
Qed.

(** The members of a packet type in the list. *)
Lemma ptypes_acc ps1 p ps2 : ptypes (ps1 ++ p :: ps2) ⊢ ⌜p_at p ≠ NULL⌝ ∗ (p_at p + pt_type) ↦ p_ty p ∗ (p_at p + pt_dev) ↦ p_dev p ∗
  (p_at p + pt_next) ↦ first_or NULL (p_at <$> ps2) ∗
  ((p_at p + pt_type) ↦ p_ty p -∗ (p_at p + pt_dev) ↦ p_dev p -∗ (p_at p + pt_next) ↦ first_or NULL (p_at <$> ps2) -∗ ptypes (ps1 ++ p :: ps2)).
Proof.
  unfold ptypes. rw fmap_app fmap_cons. iIntros "[Hc (HR1 & (H1 & H2 & H3) & HR2)]". iDestruct (slist_app with "Hc") as "[(%Hp & Hcp & Hcn) Hw]".
  iDestruct (slist_first with "Hcn") as "[Hn Hcn]". iFrame "H1 H2 Hn". iSplit; [done|]. iIntros "H1 H2 Hn". iFrame.
  iApply ("Hw" $! (p_at p :: (p_at <$> ps2))). iFrame. iSplit; [done|]. by iApply "Hcn".
Qed.

(** The handlers [hs] want the packet; the last of them, [prev], is not called yet. *)
Definition pending (hs : list ptype) (skb prev : Z) (l : list (Z * Z)) : heapProp :=
  (⌜hs = [] ∧ prev = NULL⌝ ∗ handled l ∨
   ∃ hs' h, ⌜hs = hs' ++ [h] ∧ prev = p_at h⌝ ∗ handled (l ++ ((λ p, (p_at p, skb)) <$> hs')))%I.

Lemma pending_call_wp ps hs skb dev prev l (Q : unit → heapProp) : hs ⊆ ps →
  ptypes ps -∗ (skb + skb_dev) ↦ dev -∗ pending hs skb prev l -∗
  (ptypes ps -∗ (skb + skb_dev) ↦ dev -∗ handled (l ++ ((λ p, (p_at p, skb)) <$> hs)) -∗ Q tt) -∗
  wp (if negb (prev =? NULL) then f ← load (prev + pt_func); sd ← load (skb + skb_dev); func f skb sd prev;; mret tt else mret tt) Q.
Proof.
  intros Hsub. iIntros "Hps Hd [((-> & ->) & Hl)|(%hs' & %h & (-> & ->) & Hl)] HQ".
  - wp_pures. iApply ("HQ" with "Hps Hd"). by rw fmap_nil app_nil_r.
  - assert (h ∈ ps) as Hh by (apply Hsub; set_solver). pose proof Hh as (ps1 & ps2 & E)%list_elem_of_split.
    iAssert ⌜p_at h ≠ NULL⌝%I as %Hn. { rw E. iDestruct (ptypes_acc with "Hps") as "[$ _]". }
    rw (eqb_false (p_at h) NULL Hn). iApply (p_call_wp with "Hps Hd Hl"); [done|]. iIntros "Hps Hd Hl".
    iApply ("HQ" with "Hps Hd"). by rw fmap_app assoc_L.
Qed.

Lemma filter_sub (P : ptype → bool) (ps qs : list ptype) : ps ⊆ qs → filter P ps ⊆ qs.
Proof. intros H x [_ Hx]%list_elem_of_filter. by apply H. Qed.

(** All handlers that want the packet are called, in the order of the list, each exactly once. *)
Lemma deliver_wp ps skb type dev l Q :
  ptypes ps -∗ (skb + skb_dev) ↦ dev -∗ handled l -∗
  (ptypes ps -∗ (skb + skb_dev) ↦ dev -∗ handled (l ++ calls ps skb type dev) -∗ Q tt) -∗
  wp (deliver ptype_base func skb type) Q.
Proof.
  iIntros "[Hc HR] Hd Hl HQ". unfold deliver. iDestruct (slist_first with "Hc") as "[Hp Hc]". wp_load. iDestruct ("Hc" with "Hp") as "Hc".
  iApply wp_bind. iApply (wp_wand with "[Hc HR Hd Hl]"); first iApply (wp_loop _ (λ (n : nat) '((p, prev) : Z * Z), ∃ ps1 ps2,
      ⌜ps = ps1 ++ ps2 ∧ n = length ps2 ∧ p = first_or NULL (p_at <$> ps2)⌝ ∗ ptypes ps ∗ (skb + skb_dev) ↦ dev ∗
      pending (filter (wants type dev) ps1) skb prev l)%I
    (λ prev, ptypes ps ∗ (skb + skb_dev) ↦ dev ∗ pending (filter (wants type dev) ps) skb prev l)%I (length ps)).
  - iIntros "(%ps1 & %ps2 & (-> & %E & _) & [H _] & _)". rw slist_cells. iApply (cells_le with "H"). rw length_fmap. lia.
  - intros n [p prev]. iIntros "(%ps1 & %ps2 & (-> & -> & ->) & Hps & Hd & Hl)". destruct ps2 as [|p ps2]; simpl.
    { wp_pures. rw app_nil_r. iFrame. }
    iDestruct (ptypes_acc with "Hps") as "(%Hp & H1 & H2 & H3 & Hps)". unfold first_or at 1; simpl. rw (eqb_false (p_at p) NULL Hp).
    wp_load. iApply wp_bind. iApply (wp_wand _ (λ b, ⌜b = wants type dev p⌝ ∗ (p_at p + pt_dev) ↦ p_dev p ∗ (skb + skb_dev) ↦ dev)%I with "[H2 Hd]").
    { unfold wants. destruct (p_ty p =? type); [|wp_pures; by iFrame]. wp_load. destruct (p_dev p =? NULL); [wp_pures; by iFrame|].
      wp_load. wp_load. by iFrame. }
    iIntros (b) "(-> & H2 & Hd)". iDestruct ("Hps" with "H1 H2 H3") as "Hps".
    iApply wp_bind. iApply (wp_wand _ (λ prev', ptypes (ps1 ++ p :: ps2) ∗ (skb + skb_dev) ↦ dev ∗ pending (filter (wants type dev) (ps1 ++ [p])) skb prev' l)%I with "[Hps Hd Hl]").
    { rw filter_app. destruct (wants type dev p) eqn:Ew.
      - iApply wp_bind. iApply (pending_call_wp with "Hps Hd Hl"); [apply filter_sub; set_solver|]. iIntros "Hps Hd Hl". wp_pures.
        rw filter_cons_True; [|by rw Ew]. rw filter_nil. iFrame. iRight. iExists _, p. by iFrame.
      - wp_pures. rw filter_cons_False; [|rw Ew; by intros []]. rw filter_nil app_nil_r. iFrame. }
    iIntros (prev') "(Hps & Hd & Hl)". iDestruct (ptypes_acc with "Hps") as "(_ & H1 & H2 & H3 & Hps)". wp_load.
    iDestruct ("Hps" with "H1 H2 H3") as "Hps". iExists (length ps2). iSplit; [iPureIntro; lia|]. iExists (ps1 ++ [p]), ps2.
    rw -assoc_L. by iFrame.
  - iExists [], ps. iFrame. iSplit; [done|]. iLeft. by iFrame.
  - iIntros (prev) "(Hps & Hd & Hl)". iApply (pending_call_wp with "Hps Hd Hl"); [by apply filter_sub|]. iApply "HQ".
Qed.
(** Devices that have nothing to send. *)
Definition idle (d : Z) : heapProp :=
  (∃ f, (d + nd_flags) ↦ f) ∗ (d + nd_tbusy) ↦ 0 ∗ ∃ h, (d + hard_header_len) ↦ h.

Definition idle_devs (ds : list Z) : heapProp := slist nd_next dev_base ds ∗ [∗ list] d ∈ ds, idle d.

Lemma dev_transmit_idle_wp ds Q : idle_devs ds -∗ (idle_devs ds -∗ Q tt) -∗ wp (dev_transmit dev_base hard_start_xmit rebuild_header) Q.
Proof.
  iIntros "[Hc HR] HQ". unfold dev_transmit. iDestruct (slist_first with "Hc") as "[Hp Hc]". wp_load. iDestruct ("Hc" with "Hp") as "Hc".
  iApply (wp_wand with "[Hc HR]"); first iApply (wp_loop _ (λ (n : nat) d, ∃ ds1 ds2, ⌜ds = ds1 ++ ds2 ∧ n = length ds2 ∧ d = first_or NULL ds2⌝ ∗ idle_devs ds)%I
    (λ _, idle_devs ds) (length ds)).
  - iIntros "(%ds1 & %ds2 & (-> & %E & _) & [H _])". rw slist_cells. iApply (cells_le with "H"). lia.
  - intros n d. iIntros "(%ds1 & %ds2 & (-> & -> & ->) & [Hc HR])". destruct ds2 as [|d ds2]; simpl; [wp_pures; iFrame|].
    iDestruct (slist_app with "Hc") as "[(%Hd & Hcp & Hcn) Hw]". unfold first_or at 1; simpl. rw (eqb_false d NULL Hd).
    iDestruct "HR" as "(HR1 & ((%f & Hf) & Ht & Hh) & HR2)". wp_load. iApply wp_bind.
    iApply (wp_wand _ (λ b, ⌜b = false⌝ ∗ (d + nd_tbusy) ↦ 0)%I with "[Ht]"). { destruct (f =? 0); [wp_pures|wp_load]; by iFrame. }
    iIntros (b) "[-> Ht]". iDestruct (slist_first with "Hcn") as "[Hn Hcn]". wp_load. iDestruct ("Hcn" with "Hn") as "Hcn".
    iDestruct ("Hw" $! (d :: ds2) with "[$Hcp $Hcn //]") as "Hc". iExists (length ds2). iSplit; [iPureIntro; lia|].
    iExists (ds1 ++ [d]), ds2. rw -assoc_L. by iFrame.
  - iExists [], ds. by iFrame.
  - iIntros ([]) "H". by iApply "HQ".
Qed.

Lemma netif_rx_wp skb q n Q :
  dlist backlog q -∗ backlog_size ↦ n -∗ dropping ↦ 0 -∗ lclear skb -∗ (∃ v, (skb + skb_sk) ↦ v) -∗ (∃ v, (skb + skb_free) ↦ v) -∗
  (dlist backlog (q ++ [skb]) -∗ backlog_size ↦ s32 (n + 1) -∗ dropping ↦ 0 -∗ Q tt) -∗
  wp (netif_rx backlog backlog_size dropping skb) Q.
Proof.
  iIntros "Hq Hn Hd Hs (%v1 & H1) (%v2 & H2) HQ". unfold netif_rx. wp_store. wp_store. wp_load. iApply wp_bind.
  iApply (wp_wand _ (λ _, backlog_size ↦ n ∗ dropping ↦ 0)%I with "[Hn Hd]").
  { destruct (n =? 0) eqn:E; [wp_store; iFrame|]. wp_load. rw E. change (b2z false >? 300) with false. wp_pures. iFrame. }
  iIntros (_) "[Hn Hd]". wp_load. iApply wp_bind. iApply (skb_queue_tail_wp with "Hq Hs"). iIntros "Hq". wp_load. wp_store.
  iApply ("HQ" with "Hq Hn Hd").
Qed.

Fixpoint rx_all (skbs : list Z) : M unit :=
  match skbs with
  | [] => mret tt
  | skb :: skbs => netif_rx backlog backlog_size dropping skb;; rx_all skbs
  end.

(** What a driver has to set up before it hands a packet over, and what of it is used afterwards. *)
Definition fresh (skb : Z) : heapProp := lclear skb ∗ (∃ v, (skb + skb_sk) ↦ v) ∗ (∃ v, (skb + skb_free) ↦ v).
Definition packet (skb dev : Z) : heapProp := (skb + skb_dev) ↦ dev ∗ (∃ v, (skb + skb_h) ↦ v) ∗ (∃ v, (skb + skb_len) ↦ v).

Lemma rx_all_wp skbs q Q : (length q + length skbs < 2 ^ 31)%Z →
  dlist backlog q -∗ backlog_size ↦ Z.of_nat (length q) -∗ dropping ↦ 0 -∗ ([∗ list] skb ∈ skbs, fresh skb) -∗
  (dlist backlog (q ++ skbs) -∗ backlog_size ↦ Z.of_nat (length (q ++ skbs)) -∗ dropping ↦ 0 -∗ Q tt) -∗ wp (rx_all skbs) Q.
Proof.
  revert q. induction skbs as [|skb skbs IH]; intros q Hlen; iIntros "Hq Hn Hd Hf HQ"; simpl.
  - wp_pures. rw app_nil_r. iApply ("HQ" with "Hq Hn Hd").
  - simpl in Hlen. iDestruct "Hf" as "[(Hs & H1 & H2) Hf]". iApply wp_bind. iApply (netif_rx_wp with "Hq Hn Hd Hs H1 H2"). iIntros "Hq Hn Hd".
    rw s32_small; [|lia]. iApply (IH (q ++ [skb]) with "Hq [Hn] Hd Hf"); [rw length_app /=; lia| |].
    + by rw length_app Nat2Z.inj_add.
    + rw -assoc_L. iExact "HQ".
Qed.

(** One packet of the backlog. *)
Definition bh_inv (ds : list Z) (ps : list ptype) (xs : list (Z * Z)) (l : list (Z * Z)) (n : nat) (_ : unit) : heapProp :=
  (∃ xs1 xs2, ⌜xs = xs1 ++ xs2 ∧ n = length xs2⌝ ∗ dlist backlog xs2.*1 ∗ backlog_size ↦ Z.of_nat (length xs2) ∗
    idle_devs ds ∗ ptypes ps ∗ ([∗ list] x ∈ xs2, packet x.1 x.2) ∗
    handled (l ++ (xs1 ≫= λ x, calls ps x.1 (u16 (ty x.1)) x.2)))%I.

Lemma net_bh_step ds ps xs l n s : (length xs < 2 ^ 31)%Z → Forall (λ x, x.2 ∈ ds) xs →
  bh_inv ds ps xs l n s ⊢ wp (
    skb ← skb_dequeue backlog;
    if skb =? NULL then mret (inr tt) else
    n ← load backlog_size;
    store backlog_size (s32 (n - 1));;
    d ← load (skb + skb_dev);
    l ← load (d + hard_header_len);
    store (skb + skb_h) (u32 (skb + skb_data + l));;
    d ← load (skb + skb_dev);
    l ← load (d + hard_header_len);
    store (skb + skb_len) l;;
    d ← load (skb + skb_dev);
    type ← type_trans skb d;
    deliver ptype_base func skb (u16 type);;
    dev_transmit dev_base hard_start_xmit rebuild_header;;
    mret (inl tt)) (λ r,
    match r with
    | inl s' => ∃ n', ⌜(n' < n)%nat⌝ ∗ bh_inv ds ps xs l n' s'
    | inr _ => dlist backlog [] ∗ backlog_size ↦ 0 ∗ idle_devs ds ∗ ptypes ps ∗ handled (l ++ (xs ≫= λ x, calls ps x.1 (u16 (ty x.1)) x.2))
    end).
Proof.
  intros Hlen Hds. iIntros "(%xs1 & %xs2 & (-> & ->) & Hq & Hn & Hdev & Hps & Hp & Hl)".
  iAssert ⌜Forall (λ x, x ≠ NULL) xs2.*1⌝%I as %Hnn. { iDestruct "Hq" as "(_ & _ & %H)". by inversion_clear H. }
  iApply wp_bind. iApply (skb_dequeue_wp with "Hq"). destruct xs2 as [|[skb dev] xs2]; simpl; iIntros "Hq".
  - wp_pures. rw app_nil_r. iFrame.
  - iIntros "_". inversion_clear Hnn. rw (eqb_false skb NULL); [|done]. wp_load. wp_store.
    iDestruct "Hp" as "[(Hd & (%v1 & H1) & (%v2 & H2)) Hp]". wp_load. rw Forall_app Forall_cons in Hds. destruct Hds as (_ & Hdev & _).
    apply list_elem_of_lookup in Hdev as (i & Hi). iDestruct "Hdev" as "[Hc HR]".
    iDestruct (big_sepL_lookup_acc with "HR") as "[(Hf & Ht & %h & Hh) HR]"; [done|].
    wp_load. wp_store. wp_load. wp_load. wp_store. wp_load. iDestruct ("HR" with "[Hf Ht Hh]") as "HR"; [iFrame|].
    iApply wp_bind. iApply (type_trans_wp with "Hl"). iIntros "Hl". iApply wp_bind.
    iApply (deliver_wp with "Hps Hd Hl"). iIntros "Hps Hd Hl". iApply wp_bind.
    iApply (dev_transmit_idle_wp with "[$Hc $HR]"). iIntros "Hdev". wp_pures.
    iExists (length xs2). iSplit; [iPureIntro; lia|]. iExists (xs1 ++ [(skb, dev)]), xs2. rw bind_app /= app_nil_r (assoc_L (++) l).
    rw length_app /= in Hlen. rw (_ : s32 (S (length xs2) - 1) = Z.of_nat (length xs2)); [|rw s32_small; lia]. iFrame.
    iPureIntro. by rw -assoc_L.
Qed.

End receive.

(** ** A driver and a protocol that keep a record in one cell *)

Definition log_push (n : Z) (v x : Z) : Z := v * 2 ^ n + x.

Definition log_xmit (c : Z) (skb dev : Z) : M Z :=
  r ← load c;
  if r =? 0 then mret 1 else
  v ← load (c + 4);
  store (c + 4) (log_push 32 v skb);;
  mret 0.

#[global, program] Instance log_driver c : Driver (log_xmit c) := {|
  sent ready l := (c ↦ b2z ready ∗ (c + 4) ↦ foldl (log_push 32) 0 l)%I;
|}.
Next Obligation.
  iIntros (c skb dev ready l Q Hs) "[Hc Hl] HQ". unfold log_xmit. wp_load. destruct ready; simpl.
  - wp_load. wp_store. iApply ("HQ" $! 0 with "[//]"). rw foldl_app. iFrame.
  - wp_pures. iApply ("HQ" $! 1 with "[//]"). iFrame.
Qed.

Definition log_func (c : Z) (f skb dev pt : Z) : M Z := v ← load c; store c (log_push 64 v (log_push 32 pt skb));; mret 0.
Definition ip_type (skb dev : Z) : M Z := mret 0x0800.

#[global, program] Instance log_receiver c : Receiver (log_func c) ip_type (λ _, 0x0800) := {|
  handled l := (c ↦ foldl (λ v x, log_push 64 v (log_push 32 x.1 x.2)) 0 l)%I;
|}.
Next Obligation. iIntros (c f skb dev pt l Q) "H HQ". unfold log_func. wp_load. wp_store. iApply "HQ". rw foldl_app. iFrame. Qed.
Next Obligation. iIntros (c skb dev l Q) "H HQ". unfold ip_type. wp_pures. by iApply "HQ". Qed.

Lemma dev_queue_xmit_order_witness :
  triple (⌜4096 ≠ NULL ∧ 0 ≤ 1 < DEV_NUMBUFFS⌝ ∗ dlist (buffs 4096 1) [8192] ∗ lclear 12288 ∗ resolved 12288 ∗ sent (Driver := log_driver 8) true [])%I
    (dev_queue_xmit (log_xmit 8) (λ _ _ _ _, mret 0) 12288 4096 1)
    (λ _, ∃ l' q', ⌜l' ++ q' = [] ++ [8192] ++ [12288] ∧ length l' = 1%nat⌝ ∗ dlist (buffs 4096 1) q' ∗ sent (Driver := log_driver 8) true l')%I.
Proof. exact (dev_queue_xmit_order (Driver0 := log_driver 8) (λ _ _ _ _, mret 0) 4096 1 [8192] 12288 true []). Defined.

Lemma dev_tint_drains_witness :
  triple (⌜4096 ≠ NULL⌝ ∗ dlist (buffs 4096 0) [] ∗ dlist (buffs 4096 1) [8192; 12288] ∗ dlist (buffs 4096 2) [16384] ∗
     ([∗ list] skb ∈ [8192; 12288; 16384], resolved skb) ∗ sent (Driver := log_driver 8) true [] ∗ (4096 + nd_tbusy) ↦ 0)%I
    (dev_tint (log_xmit 8) (λ _ _ _ _, mret 0) 4096)
    (λ _, dlist (buffs 4096 0) [] ∗ dlist (buffs 4096 1) [] ∗ dlist (buffs 4096 2) [] ∗ sent (Driver := log_driver 8) true [8192; 12288; 16384] ∗ (4096 + nd_tbusy) ↦ 0)%I.
Proof. exact (dev_tint_drains (Driver0 := log_driver 8) (λ _ _ _ _, mret 0) 4096 [] [8192; 12288] [16384] []). Defined.

