(* ===== verification/Arp.v ===== *)
(** * Address resolution: net/inet/arp.c

    The table has 17 lists of entries, [arp_tables]; the timers, the devices and the drivers are those of the other
    files, reached through parameters.  The requests of user programs ([arp_ioctl]) are not modelled. *)

From S2P Require Export NetDev Timer Inode.

(** struct arp_table *)
Definition at_next : Z := 0.
Definition at_last_used : Z := 4.
Definition at_flags : Z := 8.
Definition at_ip : Z := 12.
Definition at_mask : Z := 16.
Definition at_ha : Z := 20.
Definition at_hlen : Z := 27.
Definition at_htype : Z := 28.
Definition at_dev : Z := 32.
Definition at_timer : Z := 36.
Definition at_retries : Z := 56.
Definition at_skh : Z := 60.
Definition sizeof_arp_table : Z := 68.

Definition ARP_TIMEOUT : Z := 600 * HZ.
Definition ARP_RES_TIME : Z := 250 * (HZ / 10).
Definition ARP_TABLE_SIZE : Z := 16.
Definition FULL_ARP_TABLE_SIZE : Z := ARP_TABLE_SIZE + 1.
Definition ARP_CHECK_INTERVA : Z := 60 * HZ.
Definition HASH (addr : Z) : Z := Z.land addr (ARP_TABLE_SIZE - 1).

Definition ATF_COM : Z := 0x02.
Definition ATF_PERM : Z := 0x04.
Definition ARPOP_REQUEST : Z := 0x01.
Definition ARPOP_REPLY : Z := 0x02.
Definition ARPHRD_ETHER : Z := 0x01.
Definition ARPHRD_AX25 : Z := 0x03.
Definition ETH_P_IP : Z := 0x0800.
Definition ETH_P_ARP : Z := 0x0806.
Definition IP_ALEN : Z := 4.

(** struct arphdr, in the bytes of a packet *)
Definition ar_hwt : Z := 0.
Definition ar_prot : Z := 2.
Definition ar_hlen : Z := 4.
Definition ar_plen : Z := 5.
Definition ar_op : Z := 6.
Definition sizeof_arphdr : Z := 8.

(** struct sock *)
Definition sk_priority : Z := 20.

(** lib/klibc.c; [memncpy] is a macro for it. *)
Definition u_phys_copy (dst src size : Z) : M Z := phys_copy dst src size.

Section arp.
Context (arp_tables arp_timer jiffies dev_base : Z) (del_timer add_timer : Z → M Z).
Context (hard_start_xmit : Z → Z → M Z) (rebuild_header : Z → Z → Z → Z → M Z) (hard_header : Z → Z → Z → Z → Z → Z → Z → M Z).
(** [dev_kfree_skb] is declared only. *)
Context (dev_kfree_skb : Z → M unit).

Definition bucket (i : Z) : Z := arp_tables + 4 * i.

(** [for(i = 0; i < FULL_ARP_TABLE_SIZE; i++)] over the lists of the table. *)
Fixpoint for_buckets (body : Z → M unit) (i : Z) (n : nat) : M unit :=
  match n with
  | O => mret tt
  | S n => body (bucket i);; for_buckets body (i + 1) n
  end.

Definition arp_check_expire (dummy : Z) : M unit :=
  now ← load jiffies;
  for_buckets (unlink_if at_next
    (λ entry, u ← load (entry + at_last_used); mret (u32 (now - u) >? ARP_TIMEOUT))
    (λ entry, del_timer (entry + at_timer);; mret tt)) 0 (Z.to_nat FULL_ARP_TABLE_SIZE);;
  del_timer arp_timer;;
  store (arp_timer + expires) ARP_CHECK_INTERVA;;
  add_timer arp_timer;;
  mret tt.

Definition arp_release_entry (entry : Z) : M unit :=
  loop (λ _ : unit,
    skb ← skb_dequeue (entry + at_skh);
    if skb =? NULL then mret (inr tt) else dev_kfree_skb skb;; mret (inl tt)) tt;;
  del_timer (entry + at_timer);;
  mret tt.

Definition arp_device_event (event ptr : Z) : M Z :=
  if negb (event =? NETDEV_DOWN) then mret NOTIFY_DONE else
  for_buckets (unlink_if at_next
    (λ entry, d ← load (entry + at_dev); mret (d =? ptr))
    (λ entry, del_timer (entry + at_timer);; mret tt)) 0 (Z.to_nat FULL_ARP_TABLE_SIZE);;
  mret NOTIFY_DONE.

(** [alloc_skb] of this kernel gives no packet. *)
Definition arp_send (type ptype dest_ip dev src_ip dest_hw src_hw : Z) : M unit :=
  f ← load (dev + nd_flags);
  if negb (Z.land f IFF_NOARP =? 0) then mret tt else
  al ← load (dev + nd_addr_len);
  hl ← load (dev + hard_header_len);
  skb ← alloc_skb (sizeof_arphdr + 2 * (al + IP_ALEN) + hl) 0;
  if skb =? NULL then mret tt else
  store (skb + skb_len) (sizeof_arphdr + hl + 2 * (al + IP_ALEN));;
  store (skb + skb_arp) 1;;
  store (skb + skb_dev) dev;;
  store (skb + skb_free) 1;;
  l ← load (skb + skb_len);
  hard_header (skb + skb_data) dev ptype (if negb (dest_hw =? NULL) then dest_hw else dev + nd_broadcast) src_hw l skb;;
  let arph := skb + skb_data + hl in
  ty ← load (dev + nd_type);
  store16 (arph + ar_hwt) (htons ty);;
  store16 (arph + ar_prot) (htons ETH_P_IP);;
  store (arph + ar_hlen) al;;
  store (arph + ar_plen) IP_ALEN;;
  store (arph + ar_op) (u8 (htons type));;
  let p := arph + sizeof_arphdr in
  u_phys_copy p src_hw al;;
  let p := p + al in
  store32 p src_ip;; store (p + IP_ALEN) 0;;
  let p := p + IP_ALEN in
  (if negb (dest_hw =? NULL) then u_phys_copy p dest_hw al else memset p 0 al);;
  let p := p + al in
  store32 p dest_ip;; store (p + IP_ALEN) 0.

Definition arp_expire_request (entry : Z) : M unit :=
  f ← load (entry + at_flags);
  if negb (Z.land f ATF_COM =? 0) then mret tt else
  r ← load (entry + at_retries);
  store (entry + at_retries) (u32 (r - 1));;
  if u32 (r - 1) >? 0 then
    ip ← load (entry + at_ip);
    dev ← load (entry + at_dev);
    del_timer (entry + at_timer);;
    store (entry + at_timer + expires) ARP_RES_TIME;;
    add_timer (entry + at_timer);;
    a ← load (dev + pa_addr);
    arp_send ARPOP_REQUEST ETH_P_ARP ip dev a NULL (dev + nd_dev_addr)
  else
    ip ← load (entry + at_ip);
    loop (λ pentry,
      x ← load pentry;
      if x =? NULL then mret (inr tt) else
      if x =? entry then
        n ← load (entry + at_next);
        store pentry n;;
        del_timer (entry + at_timer);;
        arp_release_entry entry;;
        mret (inr tt)
      else mret (inl (x + at_next))) (bucket (HASH ip)).

Definition arp_send_q (entry hw_dest : Z) : M unit :=
  f ← load (entry + at_flags);
  if Z.land f ATF_COM =? 0 then mret tt else
  loop (λ _ : unit,
    skb ← skb_dequeue (entry + at_skh);
    if skb =? NULL then mret (inr tt) else
    dev ← load (skb + skb_dev);
    raddr ← load (skb + skb_raddr);
    r ← rebuild_header (skb + skb_data) dev raddr skb;
    (if r =? 0 then
       store (skb + skb_arp) 1;;
       sk ← load (skb + skb_sk);
       dev ← load (skb + skb_dev);
       if sk =? NULL then dev_queue_xmit hard_start_xmit rebuild_header skb dev 0
       else p ← load (sk + sk_priority); dev_queue_xmit hard_start_xmit rebuild_header skb dev p
     else mret tt);;
    mret (inl tt)) tt.

(** The pointer is moved on only when the entry is taken out. *)
Definition arp_destory_step (ip_addr force pentry : Z) : M (Z + unit) :=
  entry ← load pentry;
  if entry =? NULL then mret (inr tt) else
  ip ← load (entry + at_ip);
  if ip =? ip_addr then
    f ← load (entry + at_flags);
    if negb (Z.land f ATF_PERM =? 0) && (force =? 0) then mret (inr tt) else
    n ← load (entry + at_next);
    store pentry n;;
    del_timer (entry + at_timer);;
    arp_release_entry entry;;
    mret (inl pentry)
  else mret (inl pentry).

Definition arp_destory (ip_addr force : Z) : M unit :=
  loop (arp_destory_step ip_addr force) (bucket (HASH ip_addr)).

(** [entry++] steps over the memory behind the entry. *)
Definition arp_lookup (paddr : Z) : M Z :=
  e ← load (bucket (HASH paddr));
  loop (λ entry,
    if entry =? NULL then mret (inr entry) else
    ip ← load (entry + at_ip);
    if ip =? paddr then mret (inr entry) else mret (inl (u32 (entry + sizeof_arp_table)))) e.

Definition arp_find (haddr paddr dev saddr skb : Z) : M Z :=
  c ← ip_chk_addr dev_base paddr;
  let broadcast :=
    al ← load (dev + nd_addr_len);
    u_phys_copy haddr (dev + nd_broadcast) al;;
    store (skb + skb_arp) 1;;
    mret 0 in
  if c =? IS_MYADDR then
    al ← load (dev + nd_addr_len);
    u_phys_copy haddr (dev + nd_dev_addr) al;;
    store (skb + skb_arp) 1;;
    mret 0
  else if c =? IS_MULTICAST then
    ty ← load (dev + nd_type);
    if ty =? ARPHRD_ETHER then
      store haddr 0x01;;
      store (haddr + 1) 0x00;;
      store (haddr + 2) 0x5e;;
      let daddr := ntohl paddr in
      store (haddr + 5) (Z.land daddr 0xff);;
      let daddr := Z.shiftr daddr 8 in
      store (haddr + 4) (Z.land daddr 0xff);;
      let daddr := Z.shiftr daddr 8 in
      store (haddr + 3) (Z.land daddr 0x7f);;
      mret 0
    else broadcast
  else if c =? IS_BROADCAST then broadcast
  else
  entry ← arp_lookup paddr;
  if negb (entry =? NULL) then
    f ← load (entry + at_flags);
    if Z.land f ATF_COM =? 0 then
      (if negb (skb =? NULL) then skb_queue_tail (entry + at_skh) skb else mret tt);;
      mret 0
    else
      now ← load jiffies;
      store (entry + at_last_used) now;;
      al ← load (dev + nd_addr_len);
      u_phys_copy haddr (entry + at_ha) al;;
      (if negb (skb =? NULL) then store (skb + skb_arp) 1 else mret tt);;
      mret 0
  else
    arp_send ARPOP_REQUEST ETH_P_ARP paddr dev saddr NULL (dev + nd_dev_addr);;
    mret 0.
End arp.
