(* ===== verification/ArpSpec.v ===== *)
(** * What happens to the table of hardware addresses *)

From S2P Require Export Arp.

(** What is read of an entry. *)
Record arp := Arp { a_at : Z; a_used : Z; a_dev : Z }.

Definition arp_cells (a : arp) : heapProp := (a_at a + at_last_used) ↦ a_used a ∗ (a_at a + at_dev) ↦ a_dev a.

Definition a_timer (a : arp) : Z := a_at a + at_timer.

Section spec.
Context (arp_tables arp_timer jiffies : Z) {del_timer add_timer : Z → M Z} `{!TimerQueue jiffies del_timer add_timer}.
Implicit Types (bs : list (list arp)).

(** The lists from the [i]-th on. *)
Fixpoint buckets (i : Z) (bs : list (list arp)) : heapProp :=
  match bs with
  | [] => emp
  | b :: bs => slist at_next (bucket arp_tables i) (a_at <$> b) ∗ ([∗ list] a ∈ b, arp_cells a) ∗ buckets (i + 1) bs
  end.

(** The entries [l] are out of the table and their timers not armed. *)
Definition dropped (now : Z) (s : gset Z) (l : list arp) : heapProp :=
  armed now (s ∖ list_to_set (a_timer <$> l)) ∗ [∗ list] a ∈ l, arp_cells a.

Lemma drop_entry_wp now s a l : a_timer a ∈ s →
  arp_cells a ∗ dropped now s l ⊢ wp (del_timer (a_at a + at_timer);; mret tt) (λ _, dropped now s (l ++ [a])).
Proof.
  intros Ha. iIntros "((H1 & H2) & Hs & Hl)". iAssert ⌜a_timer a ∉ a_timer <$> l⌝%I as %Hnew.
  { iIntros (Hin). apply list_elem_of_fmap in Hin as (a' & E & Ha'). assert (a_at a = a_at a') as E' by (unfold a_timer in E; lia).
    rw (big_sepL_elem_of _ _ _ Ha'). iDestruct "Hl" as "(H3 & _)". rw E'. iApply (pt_excl with "H1 H3"). }
  iApply wp_bind. iApply (del_timer_wp with "Hs").
  { apply elem_of_difference. split; [done|]. by rw elem_of_list_to_set. }
  iIntros (r) "Hs _". wp_pures. unfold dropped. rw fmap_app list_to_set_app_L /= right_id_L difference_difference_l_L.
  by iFrame.
Qed.

(** A walk over all lists that drops the entries for which [d] holds. *)
Lemma for_buckets_wp (drop : Z → M bool) (d : arp → bool) now s bs i l Q :
  (∀ a, arp_cells a ⊢ wp (drop (a_at a)) (λ b, ⌜b = d a⌝ ∗ arp_cells a)) →
  Forall (Forall (λ a, a_timer a ∈ s)) bs →
  buckets i bs -∗ dropped now s l -∗
  (buckets i (filter (λ a, negb (d a)) <$> bs) -∗ dropped now s (l ++ (bs ≫= filter d)) -∗ Q tt) -∗
  wp (for_buckets arp_tables (unlink_if at_next drop (λ entry, del_timer (entry + at_timer);; mret tt)) i (length bs)) Q.
Proof.
  intros Hd. revert i l. induction bs as [|b bs IH]; intros i l Hs; iIntros "Hb Hl HQ"; simpl.
  - wp_pures. rw app_nil_r. iApply ("HQ" with "Hb Hl").
  - inversion_clear Hs as [|?? Hsb Hs']. iDestruct "Hb" as "(Hc & HR & Hb)". iApply wp_bind.
    iApply (unlink_if_wp at_next a_at arp_cells _ _ d (dropped now s) with "Hc HR Hl"); [done| |].
    { intros a l' Ha. apply drop_entry_wp. rw Forall_forall in Hsb. by apply Hsb. }
    iIntros "Hc HR Hl". iApply (IH with "Hb Hl"); [done|]. iIntros "Hb Hl". rw -assoc_L. iApply ("HQ" with "[$Hc $HR $Hb] Hl").
Qed.

(** An entry that was not used for [ARP_TIMEOUT] ticks. *)
Definition expired (now : Z) (a : arp) : bool := u32 (now - a_used a) >? ARP_TIMEOUT.

(** [arp_check_expire] takes exactly the entries out of the table that have not been used for the timeout
    (counted with wrap-around) and disarms their timers and no others; the timer of the check itself is armed again. *)
Theorem arp_check_expire_correct dummy now s bs :
  {{ ⌜length bs = Z.to_nat FULL_ARP_TABLE_SIZE ∧ Forall (Forall (λ a, a_timer a ∈ s ∖ {[arp_timer]})) bs ∧ arp_timer ∈ s⌝ ∗
     buckets 0 bs ∗ armed now s }}
    arp_check_expire arp_tables arp_timer jiffies del_timer add_timer dummy
  {{ _, buckets 0 (filter (λ a, negb (expired now a)) <$> bs) ∗
        armed now (s ∖ list_to_set (a_timer <$> (bs ≫= filter (expired now)))) }}.
Proof.
  apply triple_wp. iIntros "((%Hlen & %Hs & %Ht) & Hb & Ha)". unfold arp_check_expire.
  iDestruct (armed_now with "Ha") as "[Hj Ha]". wp_load. iDestruct ("Ha" with "Hj") as "Ha". iApply wp_bind. rw -Hlen.
  assert (arp_timer ∉ a_timer <$> (bs ≫= filter (expired now))) as Hnt.
  { intros (a & E & Ha)%list_elem_of_fmap. apply list_elem_of_bind in Ha as (b & Ha & Hb). apply list_elem_of_filter in Ha as [_ Ha].
    rw Forall_forall in Hs. specialize (Hs b Hb). rw Forall_forall in Hs. specialize (Hs a Ha). rw -E in Hs. set_solver. }
  iApply (for_buckets_wp _ (expired now) now s bs 0 [] with "Hb [Ha]").
  { intros a. iIntros "(H1 & H2)". wp_load. by iFrame. }
  { eapply Forall_impl; [exact Hs|]. intros b Hb. eapply Forall_impl; [exact Hb|]. simpl. set_solver. }
  { unfold dropped. rw difference_empty_L. by iFrame. }
  iIntros "$ [Ha _]". iApply wp_bind. iApply (del_timer_wp with "Ha").
  { apply elem_of_difference. split; [done|]. by rw elem_of_list_to_set. }
  iIntros (r) "Ha (Hl & %e & He)". wp_store. iApply wp_bind. iApply (add_timer_wp with "Ha [$Hl He]"); [by iExists _|].
  iIntros (r') "Ha". wp_pures. rw -union_difference_singleton_L; [done|].
  apply elem_of_difference. split; [done|]. by rw elem_of_list_to_set.
Qed.

(** When a device goes down, [arp_device_event] takes exactly its entries out of the table and disarms their timers;
    other events change nothing. *)
Theorem arp_device_event_correct event dev now s bs :
  {{ ⌜length bs = Z.to_nat FULL_ARP_TABLE_SIZE ∧ Forall (Forall (λ a, a_timer a ∈ s)) bs⌝ ∗ buckets 0 bs ∗ armed now s }}
    arp_device_event arp_tables del_timer event dev
  {{ r, ⌜r = NOTIFY_DONE⌝ ∗
     if event =? NETDEV_DOWN then
       buckets 0 (filter (λ a, negb (a_dev a =? dev)) <$> bs) ∗ armed now (s ∖ list_to_set (a_timer <$> (bs ≫= filter (λ a, a_dev a =? dev))))
     else buckets 0 bs ∗ armed now s }}.
Proof.
  apply triple_wp. iIntros "((%Hlen & %Hs) & Hb & Ha)". unfold arp_device_event. destruct (event =? NETDEV_DOWN); wp_pures; [|by iFrame].
  iApply wp_bind. rw -Hlen. iApply (for_buckets_wp _ (λ a, a_dev a =? dev) now s bs 0 [] with "Hb [Ha]"); [|done| |].
  { intros a. iIntros "(H1 & H2)". wp_load. by iFrame. }
  { unfold dropped. rw difference_empty_L. by iFrame. }
  iIntros "$ [Ha _]". wp_pures. by iFrame.
Qed.
End spec.

Lemma arp_check_expire_correct_witness :
  let bs := [Arp 4096 0 8192; Arp 8192 90000 8192] :: replicate 16 [] in let s := {[64; 4132; 8228]} : gset Z in
  triple (⌜length bs = Z.to_nat FULL_ARP_TABLE_SIZE ∧ Forall (Forall (λ a, a_timer a ∈ s ∖ {[64]})) bs ∧ 64 ∈ s⌝ ∗
     buckets 128 0 bs ∗ armed (TimerQueue := timer_ring 32 16) 100000 s)%I
    (arp_check_expire 128 64 16 (del_timer 32 16) (add_timer 32 16) 0)
    (λ _, buckets 128 0 (filter (λ a, negb (expired 100000 a)) <$> bs) ∗
        armed (TimerQueue := timer_ring 32 16) 100000 (s ∖ list_to_set (a_timer <$> (bs ≫= filter (expired 100000)))))%I.
Proof. intros bs s. exact (arp_check_expire_correct (TimerQueue0 := timer_ring 32 16) 128 64 16 0 100000 s bs). Defined.

Lemma arp_device_event_correct_witness :
  let bs := [Arp 4096 0 8192] :: replicate 16 [] in let s := {[64; 4132]} : gset Z in
  triple (⌜length bs = Z.to_nat FULL_ARP_TABLE_SIZE ∧ Forall (Forall (λ a, a_timer a ∈ s)) bs⌝ ∗
     buckets 128 0 bs ∗ armed (TimerQueue := timer_ring 32 16) 100000 s)%I
    (arp_device_event 128 (del_timer 32 16) NETDEV_DOWN 8192)
    (λ r, ⌜r = NOTIFY_DONE⌝ ∗ buckets 128 0 (filter (λ a, negb (a_dev a =? 8192)) <$> bs) ∗
       armed (TimerQueue := timer_ring 32 16) 100000 (s ∖ list_to_set (a_timer <$> (bs ≫= filter (λ a, a_dev a =? 8192)))))%I.
Proof. intros bs s. exact (arp_device_event_correct (TimerQueue0 := timer_ring 32 16) 128 16 NETDEV_DOWN 8192 100000 s bs). Defined.

(** ** Loops that do not end *)

(** [arp_destory] never gets past an entry with another address: it looks at the same entry again and again. *)
Theorem arp_destory_hangs arp_tables del_timer dev_kfree_skb ip force e ip' m n :
  m !! bucket arp_tables (HASH ip) = Some e → e ≠ NULL → m !! (e + at_ip) = Some ip' → ip' ≠ ip →
  run n (arp_destory_step del_timer dev_kfree_skb ip force) (bucket arp_tables (HASH ip)) m = Timeout.
Proof.
  intros Hb He Hi Hne. induction n as [|n IH]; [done|]. cbn [run]. unfold mbind at 1, M_bind at 1.
  unfold arp_destory_step, load. unfold mbind at 1, M_bind at 1. rw Hb (eqb_false e NULL He). unfold mbind at 1, M_bind at 1.
  rw Hi (eqb_false ip' ip Hne). exact IH.
Qed.

(** [dev_close] counts the queues only when it takes a packet out: on a device whose first queue is empty it does not end. *)
Theorem dev_close_hangs dev m :
  m !! (buffs dev 0 + sk_next) = Some (buffs dev 0) → close_queues dev m = Timeout.
Proof.
  intros Hq. unfold close_queues, loop. generalize (S (size m)) as n. intros n.
  assert (close_queue dev 0 m = Ok 0 m) as Hc.
  { assert (skb_dequeue (buffs dev 0) m = Ok NULL m) as Hd.
    { assert (load (buffs dev 0 + sk_next) m = Ok (buffs dev 0) m) as Hl by (unfold load; by rw Hq).
      unfold skb_dequeue, mbind at 1, M_bind at 1. by rw Hl Z.eqb_refl. }
    unfold close_queue, loop. cbn [run]. unfold mbind at 1, M_bind at 1, mbind at 1, M_bind at 1. by rw Hd. }
  induction n as [|n IH]; [done|]. cbn [run]. unfold mbind at 1, M_bind at 1. change (0 <? DEV_NUMBUFFS) with true.
  unfold mbind at 1, M_bind at 1. rw Hc. exact IH.
Qed.
