(* ===== verification/Ip.v ===== *)
(** * The internet protocol: net/inet/ip.c and net/inet/protocol.c

    Headers are bytes of a packet.  Several local variables are used before they are set, since the calls that allocate are commented
    out: the fragment [fp], the queue [ifq], the packet [skb] of the glued datagram, [skb2]; their values are parameters.  So are the
    functions that are reached through pointers and [ifg_next] of [ip_frq_free]. *)

From S2P Require Export Arp Route.

(** struct iphdr; [version] is the low half of its first byte, [ihl] the high one. *)
Definition ip_ver_ihl : Z := 0.
Definition ip_tos : Z := 1.
Definition ip_tot_len : Z := 2.
Definition ip_id : Z := 4.
Definition ip_flags_off : Z := 6.
Definition ip_ttl : Z := 8.
Definition ip_protocol : Z := 9.
Definition ip_chksum : Z := 10.
Definition ip_saddr : Z := 12.
Definition ip_daddr : Z := 16.
Definition sizeof_iphdr : Z := 20.

Definition iph_version (iph : Z) : M Z := b ← load (iph + ip_ver_ihl); mret (Z.land b 0xf).
Definition iph_ihl (iph : Z) : M Z := b ← load (iph + ip_ver_ihl); mret (Z.shiftr b 4).
Definition set_version (iph v : Z) : M unit := b ← load (iph + ip_ver_ihl); store (iph + ip_ver_ihl) (Z.lor (Z.land b 0xf0) (Z.land v 0xf)).
Definition set_ihl (iph v : Z) : M unit := b ← load (iph + ip_ver_ihl); store (iph + ip_ver_ihl) (Z.lor (Z.land b 0xf) (Z.shiftl (Z.land v 0xf) 4)).

(** struct ipfrag *)
Definition ig_offset : Z := 0.
Definition ig_end : Z := 4.
Definition ig_len : Z := 8.
Definition ig_skb : Z := 12.
Definition ig_timer : Z := 16.
Definition ig_ptr : Z := 36.
Definition ig_next : Z := 40.
Definition ig_prev : Z := 44.

(** struct ipfq *)
Definition fq_mac : Z := 0.
Definition fq_iph : Z := 4.
Definition fq_len : Z := 8.
Definition fq_ihlen : Z := 12.
Definition fq_maclen : Z := 14.
Definition fq_timer : Z := 16.
Definition fq_fragments : Z := 36.
Definition fq_next : Z := 40.
Definition fq_prev : Z := 44.
Definition fq_dev : Z := 48.

(** struct timer_list, the members that are set here *)
Definition tl_data : Z := 12.
Definition tl_function : Z := 16.

(** struct sock *)
Definition sk_saddr : Z := 12.
Definition sk_send_head : Z := 28.
Definition sk_send_tail : Z := 32.
Definition sk_packets_out : Z := 44.

(** struct inet_protocol *)
Definition pr_handler : Z := 0.
Definition pr_next : Z := 4.
Definition pr_protocol : Z := 8.

Definition nd_hard_header : Z := 16.

Definition IP_FRAG_TIME : Z := 30 * HZ.
Definition IP_OFFSET : Z := 0x1FFF.
Definition IP_FLAGS : Z := 0xE000.
Definition IP_DF : Z := 0x0010.
Definition IP_MF : Z := 0x0020.
Definition IPPROTO_RAW : Z := 255.
Definition ENETUNREACH : Z := 101.
Definition SOPRI_INTERACTIVE : Z := 0.
Definition SOPRI_NORMAL : Z := 1.
Definition SOPRI_BACKGROUND : Z := 2.
Definition IPTOS_LOWDELAY : Z := 0x10.
Definition IPTOS_THROUGHPUT : Z := 0x08.
Definition PACKET_HOST : Z := 0.
Definition MAX_INET_PROTOS : Z := 32.
Definition sizeof_options : Z := 220.

Definition LOOPBACK (x : Z) : bool := Z.land x (htonl 0xff000000) =? htonl 0x7f000000.

(** ** Protocols *)

Definition inet_add_protocol (inet_protos prot : Z) : M unit :=
  p ← load (prot + pr_protocol);
  let hash := Z.land p (MAX_INET_PROTOS - 1) in
  n ← load (inet_protos + 4 * hash);
  store (prot + pr_next) n;;
  store (inet_protos + 4 * hash) prot.

(** ** Small functions *)

Definition do_options (iph opt : Z) : M Z := mret 0.
Definition ip_compute_chksum (buff len : Z) : M Z := mret 0.
Definition ip_fast_cksum (buff wlen : Z) : M Z := mret 0.
Definition ip_send_checksum (iph : Z) : M unit := store16 (iph + ip_chksum) 0.
Definition ip_ioctl (sk cmd arg : Z) : M Z := mret (- EINVAL).
Definition ip_setsockopt (sk level optname optval optlen : Z) : M Z := mret 0.
Definition ip_getsockopt (sk level optname optval optlen : Z) : M Z := mret 0.

Definition memncpy (d s l : Z) : M unit := u_phys_copy d s l;; mret tt.

Section ip.
Context (ipfrag_queue rt_base rt_loopback dev_base inet_protos ip_id_count jiffies : Z) (del_timer add_timer : Z → M Z).
Context (hard_start_xmit : Z → Z → M Z) (rebuild_header : Z → Z → Z → Z → M Z) (hard_header : Z → Z → Z → Z → Z → Z → Z → M Z).
(** [handler f skb dev opt daddr len saddr redo prot] *)
Context (handler : Z → Z → Z → Z → Z → Z → Z → Z → Z → M Z) (ip_frq_expire_fn : Z).

Definition ip_rt_event (event val : Z) : M Z :=
  if event =? NETDEV_DOWN then ip_rt_flush rt_base val;; mret NOTIFY_DONE else mret 0.

(** ** Headers *)

Definition ip_build_eth_header (skb daddr len dev saddr : Z) : M Z :=
  store (skb + skb_dev) dev;;
  store (skb + skb_arp) 1;;
  h ← load (dev + nd_hard_header);
  if negb (h =? NULL) then
    mac ← hard_header (skb + skb_data) dev ETH_P_IP NULL NULL len skb;
    if mac <? 0 then
      store (skb + skb_arp) 0;;
      store (skb + skb_raddr) daddr;;
      mret (Z.lnot mac)
    else mret mac
  else mret 0.

(** [pdev] is the address of the caller's variable, [src] that of the local one; [optval] is not used by the routing. *)
Definition ip_build_header (src optval skb saddr daddr pdev type opt len tos ttl : Z) : M Z :=
  d ← load pdev;
  lr ← load (skb + skb_localroute);
  rt ← (if negb (lr =? 0) then ip_rt_local rt_base rt_loopback daddr optval src
        else ip_rt_route rt_base rt_loopback daddr optval src);
  r ← (if d =? NULL then
         if rt =? NULL then mret None else
         dv ← load (rt + rt_dev);
         store pdev dv;;
         saddr ← (if LOOPBACK saddr && negb (LOOPBACK daddr) then load src else mret saddr);
         raddr ← load (rt + rt_gateway);
         mret (Some (saddr, raddr))
       else
         saddr ← (if LOOPBACK saddr && negb (LOOPBACK daddr) then load src else mret saddr);
         raddr ← (if rt =? NULL then mret 0 else load (rt + rt_gateway));
         mret (Some (saddr, raddr)));
  match r with
  | None => mret (- ENETUNREACH)
  | Some (saddr, raddr) =>
      saddr ← (if saddr =? 0 then load src else mret saddr);
      let raddr := if raddr =? 0 then daddr else raddr in
      dv ← load pdev;
      tmp ← ip_build_eth_header skb raddr len dv saddr;
      let buff := skb + skb_data + tmp in
      dv ← load pdev;
      store (skb + skb_dev) dv;;
      store (skb + skb_saddr) saddr;;
      sk ← load (skb + skb_sk);
      (if negb (sk =? NULL) then sk ← load (skb + skb_sk); store (sk + sk_saddr) saddr else mret tt);;
      if type =? IPPROTO_RAW then mret tmp else
      let iph := buff in
      set_version iph 4;;
      store16 (iph + ip_tot_len) (u16 tos);;
      store16 (iph + ip_flags_off) 0;;
      store (iph + ip_ttl) (u8 ttl);;
      store32 (iph + ip_daddr) daddr;;
      store32 (iph + ip_saddr) saddr;;
      store (iph + ip_protocol) (u8 type);;
      set_ihl iph 5;;
      store (skb + skb_ip_hdr) iph;;
      mret (s32 (20 + tmp))
  end.

(** ** Fragments *)

(** [memset] of a struct ipfrag and of a struct ipfq *)
Definition clear_ipfrag (fp : Z) : M unit :=
  store (fp + ig_offset) 0;; store (fp + ig_end) 0;; store (fp + ig_len) 0;; store (fp + ig_skb) 0;;
  store (fp + ig_timer) 0;; store (fp + ig_timer + 4) 0;; store (fp + ig_timer + 8) 0;; store (fp + ig_timer + 12) 0;; store (fp + ig_timer + 16) 0;;
  store (fp + ig_ptr) 0;; store (fp + ig_next) 0;; store (fp + ig_prev) 0.
Definition clear_ipfq (q : Z) : M unit :=
  store (q + fq_mac) 0;; store (q + fq_iph) 0;; store (q + fq_len) 0;; store (q + fq_ihlen) 0;; store (q + fq_maclen) 0;;
  store (q + fq_timer) 0;; store (q + fq_timer + 4) 0;; store (q + fq_timer + 8) 0;; store (q + fq_timer + 12) 0;; store (q + fq_timer + 16) 0;;
  store (q + fq_fragments) 0;; store (q + fq_next) 0;; store (q + fq_prev) 0;; store (q + fq_dev) 0.

Definition ip_frag_create (fp offset end_ skb ptr : Z) : M Z :=
  if fp =? NULL then mret NULL else
  clear_ipfrag fp;;
  store (fp + ig_offset) offset;;
  store (fp + ig_end) end_;;
  store (fp + ig_len) (s32 (end_ - offset));;
  store (fp + ig_skb) skb;;
  store (fp + ig_ptr) ptr;;
  mret fp.

(** The four comparisons of [ip_frq_find]. *)
Definition same_datagram (iph fq : Z) : M bool :=
  h ← load (fq + fq_iph);
  a ← load16 (iph + ip_id); b ← load16 (h + ip_id);
  if negb (a =? b) then mret false else
  a ← load32 (iph + ip_saddr); b ← load32 (h + ip_saddr);
  if negb (a =? b) then mret false else
  a ← load32 (iph + ip_daddr); b ← load32 (h + ip_daddr);
  if negb (a =? b) then mret false else
  a ← load (iph + ip_protocol); b ← load (h + ip_protocol);
  mret (a =? b).

Definition ip_frq_find (iph : Z) : M Z :=
  fq ← find_link fq_next (same_datagram iph) ipfrag_queue;
  if fq =? NULL then mret NULL else
  del_timer (fq + fq_timer);;
  mret fq.

(** [ifg_next] is assigned to itself. *)
Definition ip_frq_free (ifg_next fq : Z) : M unit :=
  del_timer (fq + fq_timer);;
  p ← load (fq + fq_prev);
  (if p =? NULL then
     n ← load (fq + fq_next);
     store ipfrag_queue n;;
     q ← load ipfrag_queue;
     (if negb (q =? NULL) then q ← load ipfrag_queue; store (q + fq_prev) NULL else mret tt)
   else
     n ← load (fq + fq_next);
     p ← load (fq + fq_prev);
     store (p + fq_next) n;;
     n ← load (fq + fq_next);
     (if negb (n =? NULL) then
        p ← load (fq + fq_prev); n ← load (fq + fq_next); store (n + fq_prev) p
      else mret tt));;
  ifg ← load (fq + fq_fragments);
  loop (λ ifg, if negb (ifg =? NULL) then mret (inl ifg_next) else mret (inr tt)) ifg.

Definition ip_frq_expire (ifg_next arg : Z) : M unit :=
  _ ← load (arg + fq_fragments);
  ip_frq_free ifg_next arg.

Definition arm_timer (ifq : Z) : M unit :=
  store (ifq + fq_timer + expires) IP_FRAG_TIME;;
  store (ifq + fq_timer + tl_data) ifq;;
  store (ifq + fq_timer + tl_function) ip_frq_expire_fn;;
  add_timer (ifq + fq_timer);;
  mret tt.

(** After the [memset] the members [mac] and [iph] are null pointers: nothing allocates them. *)
Definition ip_frq_create (ifq skb iph dev : Z) : M Z :=
  if ifq =? NULL then mret NULL else
  clear_ipfq ifq;;
  let maclen := s32 (u32 iph - u32 (skb + skb_data)) in
  mac ← load (ifq + fq_mac);
  if mac =? NULL then mret NULL else
  l ← iph_ihl iph;
  let ihlen := l * 4 in
  h ← load (ifq + fq_iph);
  if h =? NULL then mret NULL else
  mac ← load (ifq + fq_mac); memncpy mac (skb + skb_data) maclen;;
  h ← load (ifq + fq_iph); memncpy h iph (ihlen + 8);;
  store (ifq + fq_len) 0;;
  store (ifq + fq_ihlen) (s16 ihlen);;
  store (ifq + fq_maclen) (s16 maclen);;
  store (ifq + fq_fragments) NULL;;
  store (ifq + fq_dev) dev;;
  arm_timer ifq;;
  store (ifq + fq_prev) NULL;;
  q ← load ipfrag_queue;
  store (ifq + fq_next) q;;
  n ← load (ifq + fq_next);
  (if negb (n =? NULL) then n ← load (ifq + fq_next); store (n + fq_prev) ifq else mret tt);;
  store ipfrag_queue ifq;;
  mret ifq.

Definition ip_frq_done (ifq : Z) : M Z :=
  l ← load (ifq + fq_len);
  if l =? 0 then mret 0 else
  frag ← load (ifq + fq_fragments);
  loop (λ '(frag, offset),
    if frag =? NULL then mret (inr 1) else
    o ← load (frag + ig_offset);
    if o >? offset then mret (inr 0) else
    e ← load (frag + ig_end);
    n ← load (frag + ig_next);
    mret (inl (n, e))) (frag, 0).

(** It returns a null pointer also when the datagram is complete. *)
Definition ip_frq_glue (ifg_next skb ifq : Z) : M Z :=
  ml ← load (ifq + fq_maclen); il ← load (ifq + fq_ihlen); l ← load (ifq + fq_len);
  let len := s32 (ml + il + l) in
  if skb =? NULL then ip_frq_free ifg_next ifq;; mret NULL else
  store (skb + skb_len) (u32 (len - ml));;
  store (skb + skb_h) (skb + skb_data);;
  store (skb + skb_free) 1;;
  ptr ← load (skb + skb_h);
  mac ← load (ifq + fq_mac); memncpy ptr mac ml;;
  let ptr := ptr + ml in
  h ← load (ifq + fq_iph); memncpy ptr h il;;
  let ptr := ptr + il in
  r ← load (skb + skb_h); store (skb + skb_h) (u32 (r + ml));;
  ifg ← load (ifq + fq_fragments);
  ok ← loop (λ '(ifg, count),
    if ifg =? NULL then mret (inr (Some count)) else
    gl ← load (ifg + ig_len); sl ← load (skb + skb_len);
    if u32 (count + gl) >? sl then mret (inr None) else
    o ← load (ifg + ig_offset); p ← load (ifg + ig_ptr);
    memncpy (ptr + o) p gl;;
    gl ← load (ifg + ig_len);
    n ← load (ifg + ig_next);
    mret (inl (n, s32 (count + gl)))) (ifg, 0);
  match ok with
  | None => ip_frq_free ifg_next ifq;; mret NULL
  | Some count =>
      ip_frq_free ifg_next ifq;;
      iph ← load (skb + skb_h);
      store16 (iph + ip_flags_off) 0;;
      l ← iph_ihl iph;
      store16 (iph + ip_tot_len) (u16 (htons (l * 4 + count)));;
      store (skb + skb_ip_hdr) iph;;
      mret NULL
  end.

(** The first loop of [ip_defrag] over the fragments: the last one that starts at or before [offset] and the one behind it. *)
Definition frag_place (ifq offset : Z) : M (Z * Z) :=
  next ← load (ifq + fq_fragments);
  loop (λ '(prev, next),
    if next =? NULL then mret (inr (prev, next)) else
    o ← load (next + ig_offset);
    if o >? offset then mret (inr (prev, next)) else
    n ← load (next + ig_next);
    mret (inl (next, n))) (NULL, next).

(** The second loop: the fragments that begin before the end of the new one lose the part that it covers. *)
Definition frag_trim (ifq end_ next : Z) : M Z :=
  loop (λ next,
    if next =? NULL then mret (inr next) else
    tfp ← load (next + ig_next);
    o ← load (next + ig_offset);
    if o >=? end_ then mret (inr next) else
    let i := s32 (end_ - o) in
    l ← load (next + ig_len); store (next + ig_len) (s32 (l - i));;
    o ← load (next + ig_offset); store (next + ig_offset) (s32 (o + i));;
    p ← load (next + ig_ptr); store (next + ig_ptr) (u32 (p + i));;
    l ← load (next + ig_len);
    (if l <=? 0 then
       pv ← load (next + ig_prev);
       n ← load (next + ig_next);
       if negb (pv =? NULL) then pv ← load (next + ig_prev); store (pv + ig_next) n else store (ifq + fq_fragments) n
     else mret tt);;
    (if negb (tfp =? NULL) then pv ← load (next + ig_prev); store (tfp + ig_prev) pv else mret tt);;
    mret (inl tfp)) next.

(** The new fragment [tfp] between its neighbours. *)
Definition frag_link (ifq prev next tfp : Z) : M unit :=
  store (tfp + ig_prev) prev;;
  store (tfp + ig_next) next;;
  (if negb (prev =? NULL) then store (prev + ig_next) tfp else store (ifq + fq_fragments) tfp);;
  (if negb (next =? NULL) then store (next + ig_prev) tfp else mret tt).

(** From the first loop of [ip_defrag] to the linking: the new fragment, a null pointer without memory.  [fp0] is the variable that
    [ip_frag_create] does not set. *)
Definition frag_insert (fp0 ifq offset end_ skb ptr : Z) : M Z :=
  '(prev, next) ← frag_place ifq offset;
  '(offset, ptr) ← (if negb (prev =? NULL) then
                      e ← load (prev + ig_end);
                      if offset <? e then
                        e ← load (prev + ig_end);
                        let i := e - offset in mret (offset + i, ptr + i)
                      else mret (offset, ptr)
                    else mret (offset, ptr));
  next ← frag_trim ifq end_ next;
  tfp ← ip_frag_create fp0 offset end_ skb ptr;
  if tfp =? NULL then mret NULL else
  frag_link ifq prev next tfp;;
  mret tfp.

(** [ifq0] and [skb0] are the variables that are not set in [ip_frq_create] and [ip_frq_glue]. *)
Definition ip_defrag (ifg_next fp0 ifq0 skb0 iph skb dev : Z) : M Z :=
  ifq ← ip_frq_find iph;
  fo ← load16 (iph + ip_flags_off);
  let offset := ntohs fo in
  let flags := Z.land offset IP_FLAGS in
  let offset := Z.land offset IP_OFFSET in
  if (Z.land flags IP_MF =? 0) && (offset =? 0) then
    (if ifq =? NULL then ip_frq_free ifg_next ifq else mret tt);;
    mret skb
  else
  let offset := Z.shiftl offset 3 in
  ifq ← (if negb (ifq =? NULL) then
           del_timer (ifq + fq_timer);;
           arm_timer ifq;;
           mret ifq
         else ip_frq_create ifq0 skb iph dev);
  if ifq =? NULL then store (skb + skb_sk) NULL;; mret NULL else
  l ← iph_ihl iph;
  let ihl := l * 4 in
  tl ← load16 (iph + ip_tot_len);
  let end_ := offset + ntohs tl - ihl in
  hl ← load (dev + hard_header_len);
  let ptr := skb + skb_data + hl + ihl in
  (if Z.land flags IP_MF =? 0 then store (ifq + fq_len) end_ else mret tt);;
  tfp ← frag_insert fp0 ifq offset end_ skb ptr;
  if tfp =? NULL then store (skb + skb_sk) NULL;; mret NULL else
  d ← ip_frq_done ifq;
  if negb (d =? 0) then ip_frq_glue ifg_next skb0 ifq else mret NULL.

(** ** Sending *)

(** The length of the next piece when [left] bytes are left. *)
Definition frag_len (left mtu : Z) : Z :=
  let len := if left >? mtu then mtu else left in
  if len <? left then Z.quot len 8 * 8 else len.

(** The loop of [ip_fragment]; [send left offset ptr len] makes and sends one piece, after which [left] bytes are left. *)
Definition fragment_loop (send : Z → Z → Z → Z → M unit) (mtu left offset ptr : Z) : M unit :=
  run (S (Z.to_nat left)) (λ '(left, offset, ptr),
    if left >? 0 then
      let len := frag_len left mtu in
      send (left - len) offset ptr len;;
      mret (inl (left - len, offset + len, ptr + len))
    else mret (inr tt)) (left, offset, ptr).

(** The body of the loop: [skb2] is never set, [xmit] is [ip_queue_xmit].  The members of [skb] are set where those of [skb2] are meant. *)
Definition send_piece (xmit : Z → Z → Z → Z → M unit) (skb2 sk skb dev is_flag hlen : Z) (left offset ptr len : Z) : M unit :=
  let raw := skb + skb_data in
  a ← load (skb + skb_arp); store (skb2 + skb_arp) a;;
  _ ← load (skb + skb_free);
  store (skb2 + skb_free) 1;;
  store (skb + skb_len) (u32 (len + hlen));;
  store (skb + skb_h) (skb2 + skb_data);;
  (if negb (sk =? NULL) then store (skb2 + skb_sk) sk else mret tt);;
  h ← load (skb2 + skb_h); memncpy h raw hlen;;
  h ← load (skb2 + skb_h); memncpy (h + hlen) ptr len;;
  iph ← load (skb2 + skb_h);
  store16 (iph + ip_flags_off) (u16 (htons (Z.shiftr offset 3)));;
  (if (left >? 0) || negb (Z.land is_flag 1 =? 0) then
     f ← load16 (iph + ip_flags_off); store16 (iph + ip_flags_off) (Z.lor f (htons IP_MF))
   else mret tt);;
  h ← load (skb2 + skb_h); hhl ← load (dev + hard_header_len); store (skb2 + skb_h) (u32 (h + hhl));;
  xmit sk dev skb2 2.

Definition ip_fragment (xmit : Z → Z → Z → Z → M unit) (skb2 sk skb dev is_flag : Z) : M unit :=
  let raw := skb + skb_data in
  hhl ← load (dev + hard_header_len);
  let iph := raw + hhl in
  store (skb + skb_ip_hdr) iph;;
  l ← iph_ihl iph;
  let hlen := l * 4 in
  tl ← load16 (iph + ip_tot_len);
  let left := ntohs tl - hlen in
  hhl ← load (dev + hard_header_len);
  let hlen := hlen + hhl in
  m ← load (dev + nd_mtu);
  let mtu := m - hlen in
  let ptr := raw + hlen in
  fo ← load16 (iph + ip_flags_off);
  if negb (Z.land (ntohs fo) IP_DF =? 0) then mret tt else
  if mtu <? 8 then mret tt else
  offset ← (if negb (Z.land is_flag 3 =? 0) then
              fo ← load16 (iph + ip_flags_off); mret (Z.shiftl (Z.land (ntohs fo) IP_OFFSET) 3)
            else mret 0);
  fragment_loop (send_piece xmit skb2 sk skb dev is_flag hlen) mtu left offset ptr.

(** The part of [ip_queue_xmit] behind the test of the size. *)
Definition ip_xmit_whole (sk dev skb free : Z) : M unit :=
  iph ← load (skb + skb_ip_hdr);
  ip_send_checksum iph;;
  n ← load (skb + sk_next);
  (if negb (n =? NULL) then skb_unlink skb else mret tt);;
  (if free =? 0 then
     p ← load (sk + sk_packets_out); store (sk + sk_packets_out) (u32 (p + 1));;
     c ← load (skb + skb_cache_next);
     (if negb (c =? NULL) then store (skb + skb_cache_next) NULL else mret tt);;
     h ← load (sk + sk_send_head);
     (if h =? NULL then store (sk + sk_send_head) skb;; store (sk + sk_send_tail) skb
      else h ← load (sk + sk_send_head); store (h + skb_cache_next) skb;; store (sk + sk_send_tail) skb)
   else store (skb + skb_sk) sk);;
  f ← load (dev + nd_flags);
  if negb (Z.land f IFF_UP =? 0) then
    if negb (sk =? NULL) then p ← load (sk + sk_priority); dev_queue_xmit hard_start_xmit rebuild_header skb dev p
    else dev_queue_xmit hard_start_xmit rebuild_header skb dev SOPRI_NORMAL
  else mret tt.

(** [ip_queue_xmit] and [ip_fragment] call each other; [n] bounds the depth. *)
Fixpoint ip_queue_xmit (skb2 : Z) (n : nat) (sk dev skb free : Z) : M unit :=
  match n with
  | O => timeout
  | S n =>
      if dev =? NULL then mret tt else
      store (skb + skb_dev) dev;;
      j ← load jiffies; store (skb + skb_when) j;;
      hhl ← load (dev + hard_header_len);
      let iph := skb + skb_data + hhl in
      store (skb + skb_ip_hdr) iph;;
      l ← load (skb + skb_len); hhl ← load (dev + hard_header_len);
      store16 (iph + ip_tot_len) (u16 (ntohs (l - hhl)));;
      free ← (if negb (free =? 2) then
                c ← load ip_id_count; store ip_id_count (s32 (c + 1));;
                store16 (iph + ip_id) (u16 (htons c));; mret free
              else mret 1);
      let free := if sk =? NULL then 1 else free in
      store (skb + skb_free) (s8 free);;
      l ← load (skb + skb_len); m ← load (dev + nd_mtu); hhl ← load (dev + hard_header_len);
      if l >? m + hhl then ip_fragment (ip_queue_xmit skb2 n) skb2 sk skb dev 0
      else ip_xmit_whole sk dev skb free
  end.

(** [skb2] is the packet that is never allocated, [fskb2] the one of [ip_fragment]. *)
Definition ip_forward (n : nat) (fskb2 skb2 skb dev is_flag : Z) : M unit :=
  iph ← load (skb + skb_h);
  t ← load (iph + ip_ttl); store (iph + ip_ttl) (u8 (t - 1));;
  t ← load (iph + ip_ttl);
  if t <=? 0 then mret tt else
  ip_send_checksum iph;;
  da ← load32 (iph + ip_daddr);
  rt ← ip_rt_route rt_base rt_loopback da NULL NULL;
  if rt =? NULL then mret tt else
  raddr ← load (rt + rt_gateway);
  r ← (if negb (raddr =? 0) then
         rt ← ip_rt_route rt_base rt_loopback raddr NULL NULL;
         if rt =? NULL then mret None else
         g ← load (rt + rt_gateway);
         mret (Some (rt, if negb (g =? 0) then g else raddr))
       else da ← load32 (iph + ip_daddr); mret (Some (rt, da)));
  match r with
  | None => mret tt
  | Some (rt, raddr) =>
      dev2 ← load (rt + rt_dev);
      f ← load (dev2 + nd_flags);
      if f * IFF_UP =? 0 then mret tt else
      if skb2 =? NULL then mret tt else
      let ptr := skb2 + skb_data in
      store (skb2 + skb_free) 1;;
      l ← load (skb + skb_len); hhl ← load (dev2 + hard_header_len);
      store (skb2 + skb_len) (u32 (l + hhl));;
      store (skb2 + skb_h) ptr;;
      h ← load (skb + skb_h);
      memncpy (ptr + hhl) h (s32 l);;
      pa ← load (dev2 + pa_addr);
      ip_build_eth_header skb2 raddr (s32 l) dev2 pa;;
      l ← load (skb2 + skb_len); m ← load (dev2 + nd_mtu); hhl ← load (dev2 + hard_header_len);
      if l >? m + hhl then ip_fragment (ip_queue_xmit fskb2 n) fskb2 NULL skb2 dev2 is_flag else
      tos ← load (iph + ip_tos);
      dev_queue_xmit hard_start_xmit rebuild_header skb2 dev2
        (if negb (Z.land tos IPTOS_LOWDELAY =? 0) then SOPRI_INTERACTIVE
         else if negb (Z.land tos IPTOS_THROUGHPUT =? 0) then SOPRI_BACKGROUND else SOPRI_NORMAL)
  end.

(** ** Receiving *)

Definition ip_frag_flags (fo : Z) : Z :=
  if fo =? 0 then 0 else
  Z.lor (if negb (Z.land fo IP_MF =? 0) then 1 else 0) (if negb (Z.land fo IP_OFFSET =? 0) then 2 else 0).

(** The loop over the protocols; [skb2] is not set. *)
Definition ip_deliver (skb2 dev opt iph : Z) : M unit :=
  p ← load (iph + ip_protocol);
  ipprot ← load (inet_protos + 4 * Z.land p (MAX_INET_PROTOS - 1));
  loop (λ ipprot,
    if ipprot =? NULL then mret (inr tt) else
    q ← load (ipprot + pr_protocol); p ← load (iph + ip_protocol);
    (if q =? p then
       f ← load (ipprot + pr_handler);
       da ← load32 (iph + ip_daddr); tl ← load16 (iph + ip_tot_len); l ← iph_ihl iph; sa ← load32 (iph + ip_saddr);
       handler f skb2 dev opt da (u16 (ntohs tl - l * 4)) sa 0 ipprot;; mret tt
     else mret tt);;
    n ← load (ipprot + pr_next);
    mret (inl n)) ipprot.

(** The part of [ip_rcv] behind the checks of the header. *)
Definition ip_rcv_good (n : nat) (opt opts_p ifg_next fp0 ifq0 skb0 fskb2 skb2 dskb2 skb dev iph : Z) : M Z :=
  tl ← load16 (iph + ip_tot_len);
  store (skb + skb_len) (ntohs tl);;
  l ← iph_ihl iph;
  opts_p ← (if negb (l =? 5) then memset opt 0 sizeof_options;; do_options iph opt;; mret 1 else mret opts_p);
  fo ← load16 (iph + ip_flags_off);
  let is_flag := ip_frag_flags fo in
  da ← load32 (iph + ip_daddr);
  d ← load (skb + skb_dev); a ← load (d + pa_addr);
  go ← (if negb (da =? a) then
          brd ← ip_chk_addr dev_base da;
          if brd =? 0 then
            t ← load (skb + pkt_type);
            if negb (t =? PACKET_HOST) || (brd =? IS_BROADCAST) then mret false
            else ip_forward n fskb2 skb2 skb dev is_flag;; mret true
          else mret true
        else mret true);
  if negb go then mret 0 else
  '(skb, iph) ← (if negb (is_flag =? 0) then
                   s ← ip_defrag ifg_next fp0 ifq0 skb0 iph skb dev;
                   if s =? NULL then mret (NULL, iph) else
                   store (s + skb_dev) dev;;
                   h ← load (s + skb_h); mret (s, h)
                 else mret (skb, iph));
  if skb =? NULL then mret 0 else
  store (skb + skb_ip_hdr) iph;;
  h ← load (skb + skb_h); l ← iph_ihl iph;
  store (skb + skb_h) (u32 (h + l * 4));;
  ip_deliver dskb2 dev (if negb (opts_p =? 0) then opt else NULL) iph;;
  mret 0.

Definition ip_rcv (n : nat) (opt opts_p ifg_next fp0 ifq0 skb0 fskb2 skb2 dskb2 skb dev pack_t : Z) : M Z :=
  iph ← load (skb + skb_h);
  store (skb + skb_ip_hdr) iph;;
  len ← load (skb + skb_len);
  if len <? sizeof_iphdr then mret 0 else
  l ← iph_ihl iph;
  if l <? 5 then mret 0 else
  v ← iph_version iph;
  if negb (v =? 4) then mret 0 else
  c ← ip_fast_cksum iph l;
  if negb (c =? 0) then mret 0 else
  ip_rcv_good n opt opts_p ifg_next fp0 ifq0 skb0 fskb2 skb2 dskb2 skb dev iph.

(** [prev0] is the variable of [notifier_chain_register] that is not set. *)
Definition ip_init (ip_packet_type ip_rt_notifier ptype_base netdev_chain prev0 : Z) : M unit :=
  store (ip_packet_type + pt_type) (htons ETH_P_IP);;
  dev_add_pack ptype_base ip_packet_type;;
  register_netdevice_notifier netdev_chain prev0 ip_rt_notifier;; mret tt.
End ip.
