(* ===== verification/IpSpec.v ===== *)
(** * What the internet protocol does *)

From S2P Require Export Ip NetDevSpec RouteSpec InodeSpec.

(** ** Receiving *)

(** [ip_rcv] drops every IPv4 packet: the halves of the first byte of the header are taken for each other, so that a header of
    version 4 has the length 4 for it, which is too short.  Besides the pointer to the header nothing changes. *)
Theorem ip_rcv_drops_ipv4 ipfrag_queue rt_base rt_loopback dev_base inet_protos ip_id_count jiffies del_timer add_timer hard_start_xmit
    rebuild_header hard_header handler expire n opt opts_p ifg_next fp0 ifq0 skb0 fskb2 skb2 dskb2 skb dev pt iph len b v :
  {{ (skb + skb_h) ↦ iph ∗ (skb + skb_ip_hdr) ↦ v ∗ (skb + skb_len) ↦ len ∗ (iph + ip_ver_ihl) ↦ b ∗ ⌜b / 16 = 4⌝ }}
    ip_rcv ipfrag_queue rt_base rt_loopback dev_base inet_protos ip_id_count jiffies del_timer add_timer hard_start_xmit
      rebuild_header hard_header handler expire n opt opts_p ifg_next fp0 ifq0 skb0 fskb2 skb2 dskb2 skb dev pt
  {{ r, ⌜r = 0⌝ ∗ (skb + skb_h) ↦ iph ∗ (skb + skb_ip_hdr) ↦ iph ∗ (skb + skb_len) ↦ len ∗ (iph + ip_ver_ihl) ↦ b }}.
Proof.
  apply triple_wp. iIntros "(H1 & H2 & H3 & H4 & %Hb)". unfold ip_rcv. wp_load. wp_store. wp_load.
  destruct (len <? sizeof_iphdr); [wp_pures; by iFrame|]. wp_pures. unfold iph_ihl. iApply wp_bind. wp_load. wp_pures.
  rw Z.shiftr_div_pow2; [|lia]. change (2 ^ 4) with 16. rw Hb. change (4 <? 5) with true. wp_pures. by iFrame.
Qed.

(** ** Completeness of the fragments *)

(** A fragment: its address and the bytes that it has. *)
Record frag := Frag { f_at : Z; f_off : Z; f_end : Z }.

Definition frag_cells (f : frag) : heapProp := (f_at f + ig_offset) ↦ f_off f ∗ (f_at f + ig_end) ↦ f_end f.

(** No fragment begins behind the end of the one before. *)
Fixpoint gapless (o : Z) (fs : list frag) : bool :=
  match fs with [] => true | f :: fs => (f_off f <=? o) && gapless (f_end f) fs end.

(** [ip_frq_done] ends and answers whether a length is known and the fragments have no gap between them; it does not ask whether they
    reach the end of the datagram. *)
Theorem ip_frq_done_correct ifq len fs :
  {{ (ifq + fq_len) ↦ len ∗ slist ig_next (ifq + fq_fragments) (f_at <$> fs) ∗ [∗ list] f ∈ fs, frag_cells f }}
    ip_frq_done ifq
  {{ r, ⌜r = b2z (negb (len =? 0) && gapless 0 fs)⌝ ∗
     (ifq + fq_len) ↦ len ∗ slist ig_next (ifq + fq_fragments) (f_at <$> fs) ∗ [∗ list] f ∈ fs, frag_cells f }}.
Proof.
  apply triple_wp. iIntros "(Hl & Hc & Hf)". unfold ip_frq_done. wp_load. destruct (len =? 0); [wp_pures; by iFrame|].
  iDestruct (slist_first with "Hc") as "[Hp Hc]". wp_load. iDestruct ("Hc" with "Hp") as "Hc".
  iApply (wp_loop _ (λ n '((p, o) : Z * Z), ∃ fs1 fs2, ⌜fs = fs1 ++ fs2 ∧ n = length fs2 ∧ p = first_or NULL (f_at <$> fs2) ∧
      gapless 0 fs = gapless o fs2⌝ ∗ (ifq + fq_len) ↦ len ∗ slist ig_next (ifq + fq_fragments) (f_at <$> fs) ∗ [∗ list] f ∈ fs, frag_cells f)%I
    _ (length fs)).
  - iIntros "(%fs1 & %fs2 & (-> & %Hn & _) & _ & H & _)". rw slist_cells. iApply (cells_le with "H"). rw length_fmap. lia.
  - intros n [p o]. iIntros "(%fs1 & %fs2 & (-> & -> & -> & %Hg) & Hl & Hc & Hf)". destruct fs2 as [|f fs2].
    { change (first_or NULL (f_at <$> [])) with NULL. wp_pures. iFrame. iPureIntro. by rw Hg. }
    rw fmap_app fmap_cons. iDestruct (slist_app with "Hc") as "[(%Hx & Hp & Hn) Hc]". unfold first_or at 1; simpl. rw (eqb_false (f_at f)); [|done].
    iDestruct "Hf" as "(Hf1 & [Ho He] & Hf2)". wp_load. cbn [gapless] in Hg. rw Z.gtb_ltb. destruct (Z.ltb_spec o (f_off f)) as [Hlt|Hge].
    + wp_pures. iFrame. rw (proj2 (Z.leb_gt _ _)) in Hg; [|done]. iSplit; [iPureIntro; by rw Hg|].
      iApply ("Hc" $! (f_at f :: (f_at <$> fs2))). by iFrame.
    + wp_load. iDestruct (slist_first with "Hn") as "[Hp2 Hn]". wp_load. iDestruct ("Hn" with "Hp2") as "Hn".
      iDestruct ("Hc" $! (f_at f :: (f_at <$> fs2)) with "[$Hp $Hn //]") as "Hc". rw (proj2 (Z.leb_le _ _)) in Hg; [|done].
      iExists (length fs2). iSplit; [iPureIntro; simpl; lia|]. iExists (fs1 ++ [f]), fs2. rw -assoc_L /=. by iFrame.
  - iExists [], fs. by iFrame.
Qed.

(** ** Pieces of a packet *)

(** A piece as the loop of [ip_fragment] gives it to its body: the bytes that are left behind it, its place in the datagram, the address of
    its data and its length. *)
Record piece := Piece { pc_left : Z; pc_offset : Z; pc_ptr : Z; pc_len : Z }.

Definition total (ps : list piece) : Z := foldr Z.add 0 (pc_len <$> ps).

Fixpoint frag_pieces (n : nat) (left mtu offset ptr : Z) : list piece :=
  match n with
  | O => []
  | S n =>
      let len := frag_len left mtu in
      if left >? 0 then Piece (left - len) offset ptr len :: frag_pieces n (left - len) mtu (offset + len) (ptr + len) else []
  end.

Lemma frag_len_spec left mtu : 8 ≤ mtu → 0 < left →
  0 < frag_len left mtu ≤ left ∧ frag_len left mtu ≤ mtu ∧ (frag_len left mtu < left → frag_len left mtu mod 8 = 0).
Proof.
  intros Hm Hl. unfold frag_len. rw Z.gtb_ltb. destruct (Z.ltb_spec mtu left).
  - rw (proj2 (Z.ltb_lt _ _)); [|lia]. rw Z.quot_div_nonneg; [|lia|lia]. split_and!; dlia.
  - rw Z.ltb_irrefl. lia.
Qed.

(** The piece [p] comes after [s] bytes of a datagram with [left] bytes of data, which are at [ptr]. *)
Definition piece_at (left offset ptr s : Z) (p : piece) : Prop :=
  pc_offset p = offset + s ∧ pc_ptr p = ptr + s ∧ pc_left p = left - s - pc_len p.

Lemma frag_pieces_cover n left mtu offset ptr : 8 ≤ mtu → 0 ≤ left → left ≤ Z.of_nat n →
  let ps := frag_pieces n left mtu offset ptr in
  (∀ i p, ps !! i = Some p → piece_at left offset ptr (total (take i ps)) p ∧ 0 < pc_len p ≤ mtu ∧ ((S i < length ps)%nat → pc_len p mod 8 = 0)) ∧
  total ps = left.
Proof.
  intros Hm. revert left offset ptr. induction n as [|n IH]; intros left offset ptr Hl Hn ps; subst ps.
  { split; [by intros i p Hp; rw lookup_nil in Hp|]. cbn. lia. }
  cbn [frag_pieces]. rw Z.gtb_ltb. destruct (Z.ltb_spec 0 left) as [Hpos|Hneg].
  - destruct (frag_len_spec left mtu Hm Hpos) as (H1 & H2 & H3). set (len := frag_len left mtu) in *.
    destruct (IH (left - len) (offset + len) (ptr + len)) as [IHp IHs]; [lia|lia|].
    set (ps := frag_pieces n (left - len) mtu (offset + len) (ptr + len)) in *. split; [|change (len + total ps = left); lia].
    intros [|i] p Hp.
    + injection Hp as <-. split; [unfold piece_at; cbn; lia|]. split; [cbn; lia|]. cbn. intros Hlen. apply H3.
      destruct (Z.eq_dec len left) as [E|]; [|lia]. exfalso.
      assert (ps = []) as Hnil; [|rw Hnil in Hlen; simpl in Hlen; lia].
      subst ps. destruct n; [done|]. cbn [frag_pieces]. rw (_ : left - len = 0); [done|lia].
    + destruct (IHp i p Hp) as ((Ho & Hq & Hf) & Hb & Hc). cbn [take length].
      change (total (Piece (left - len) offset ptr len :: take i ps)) with (len + total (take i ps)). unfold piece_at.
      split; [lia|]. split; [done|]. intros Hlen. apply Hc. lia.
  - split; [by intros i p Hp; rw lookup_nil in Hp|]. cbn. lia.
Qed.

Lemma fragment_run_wp (send : Z → Z → Z → Z → M unit) (P : list piece → heapProp) mtu n l left offset ptr : 8 ≤ mtu → left ≤ Z.of_nat n →
  (∀ l left offset ptr len, P l ⊢ wp (send left offset ptr len) (λ _, P (l ++ [Piece left offset ptr len]))) →
  P l ⊢ wp (run (S n) (λ '(left, offset, ptr),
    if left >? 0 then
      let len := frag_len left mtu in
      send (left - len) offset ptr len;;
      mret (inl (left - len, offset + len, ptr + len))
    else mret (inr tt)) (left, offset, ptr)) (λ _ : unit, P (l ++ frag_pieces n left mtu offset ptr)).
Proof.
  intros Hm Hn Hsend. revert l left offset ptr Hn. induction n as [|n IH]; intros l left offset ptr Hn; iIntros "HP".
  - cbn [run frag_pieces]. rw Z.gtb_ltb (proj2 (Z.ltb_ge _ _)); [|lia]. wp_pures. by rw app_nil_r.
  - cbn [frag_pieces]. remember (S n) as n' eqn:En. cbn [run]. subst n'. rw Z.gtb_ltb. destruct (Z.ltb_spec 0 left) as [Hl|Hl].
    + wp_pures. iApply wp_bind. iApply (wp_wand with "[HP]"); [by iApply Hsend|]. iIntros ([]) "HP". wp_pures.
      destruct (frag_len_spec left mtu Hm Hl) as (H1 & _).
      iApply (wp_wand with "[HP]"); [iApply (IH with "HP"); lia|]. iIntros ([]) "HP". by rw -assoc_L.
    + wp_pures. by rw app_nil_r.
Qed.

(** C27: For a device whose packets have room for at least eight bytes of data, the loop of [ip_fragment] ends if its body, which sends one piece, returns.
    The pieces that it gives to the body cover the data without gap or overlap: each begins in the datagram and in memory where the one before
    ends and is told how many bytes are left behind it, none is empty or larger than the room, and all but the last have a multiple of eight bytes. *)
Theorem fragment_loop_correct (send : Z → Z → Z → Z → M unit) (P : list piece → heapProp) mtu left offset ptr : 8 ≤ mtu → 0 ≤ left →
  (∀ l left offset ptr len, P l ⊢ wp (send left offset ptr len) (λ _, P (l ++ [Piece left offset ptr len]))) →
  {{ P [] }}
    fragment_loop send mtu left offset ptr
  {{ _, ∃ ps, ⌜(∀ i p, ps !! i = Some p → piece_at left offset ptr (total (take i ps)) p ∧ 0 < pc_len p ≤ mtu ∧
                  ((S i < length ps)%nat → pc_len p mod 8 = 0)) ∧ total ps = left⌝ ∗ P ps }}.
Proof.
  intros Hm Hl Hsend. apply triple_wp. iIntros "HP". unfold fragment_loop.
  iApply (wp_wand with "[HP]"); [iApply (fragment_run_wp send P mtu (Z.to_nat left) [] left offset ptr with "HP"); [done|lia|done]|].
  iIntros ([]) "HP". iExists _. iFrame. iPureIntro. apply frag_pieces_cover; lia.
Qed.

(** A body that adds up the bytes in a cell. *)
Definition add_up (left offset ptr len : Z) : M unit := v ← load 8; store 8 (v + len).

Lemma total_snoc ps p : total (ps ++ [p]) = total ps + pc_len p.
Proof. unfold total. induction ps as [|q ps IH]; cbn in *; lia. Qed.

Lemma add_up_wp l left offset ptr len :
  8 ↦ total l ⊢ wp (add_up left offset ptr len) (λ _, 8 ↦ total (l ++ [Piece left offset ptr len])).
Proof. iIntros "H". unfold add_up. wp_load. wp_store. by rw total_snoc. Qed.

Lemma fragment_loop_correct_witness :
  triple (8 ↦ 0)%I (fragment_loop add_up 1480 4000 0 64)
    (λ _, ∃ ps, ⌜(∀ i p, ps !! i = Some p → piece_at 4000 0 64 (total (take i ps)) p ∧ 0 < pc_len p ≤ 1480 ∧
      ((S i < length ps)%nat → pc_len p mod 8 = 0)) ∧ total ps = 4000⌝ ∗ 8 ↦ total ps)%I.
Proof.
  exact (fragment_loop_correct add_up (λ ps, 8 ↦ total ps)%I 1480 4000 0 64 ltac:(lia) ltac:(lia) add_up_wp).
Defined.

(** ** Sending *)

(** Two bytes of a header. *)
Definition field16 (p : Z) : heapProp := ∃ old, ⌜length old = 2%nat⌝ ∗ bytes p old.

Lemma store_field_wp p v (Q : unit → heapProp) : field16 p -∗ (bytes p (le16 v) -∗ Q tt) -∗ wp (store16 p v) Q.
Proof. iIntros "(%old & %Hl & H) HQ". by iApply (store16_wp with "H"). Qed.

Section send.
Context {hard_start_xmit : Z → Z → M Z} `{!Driver hard_start_xmit} (rebuild_header : Z → Z → Z → Z → M Z).
Context (ip_id_count jiffies : Z).

(** The members of a device that sending reads. *)
Definition up_device (dev hhl mtu fl : Z) : heapProp :=
  (dev + hard_header_len) ↦ hhl ∗ (dev + nd_mtu) ↦ mtu ∗ (dev + nd_flags) ↦ fl ∗ ⌜dev ≠ NULL ∧ Z.land fl IFF_UP ≠ 0⌝.

(** The members of a packet that sending sets. *)
Definition out_packet (skb : Z) : heapProp :=
  (∃ v, (skb + skb_dev) ↦ v) ∗ (∃ v, (skb + skb_when) ↦ v) ∗ (∃ v, (skb + skb_ip_hdr) ↦ v) ∗ (∃ v, (skb + skb_free) ↦ v) ∗ (∃ v, (skb + skb_sk) ↦ v).

(** [ip_queue_xmit] sends a packet that fits the device, when it belongs to no socket: it gets its length, the next identification and
    an empty checksum in its header, and goes through the queue of the device for normal packets, in order. *)
Theorem ip_queue_xmit_sends skb2 n dev skb hhl mtu fl len cnt j q ready l :
  let iph := skb + skb_data + hhl in
  {{ up_device dev hhl mtu fl ∗ out_packet skb ∗ (skb + skb_len) ↦ len ∗ ip_id_count ↦ cnt ∗ jiffies ↦ j ∗
     field16 (iph + ip_tot_len) ∗ field16 (iph + ip_id) ∗ field16 (iph + ip_chksum) ∗
     dlist (buffs dev SOPRI_NORMAL) q ∗ lclear skb ∗ resolved skb ∗ sent ready l ∗ ⌜len ≤ (mtu + hhl)%Z⌝ }}
    ip_queue_xmit ip_id_count jiffies hard_start_xmit rebuild_header skb2 (S n) NULL dev skb 0
  {{ _, ∃ l' q', ⌜l' ++ q' = l ++ q ++ [skb] ∧ length l' = (length l + if ready then 1 else 0)%nat⌝ ∗
     up_device dev hhl mtu fl ∗ (skb + skb_len) ↦ len ∗ (skb + skb_dev) ↦ dev ∗ (skb + skb_when) ↦ j ∗ (skb + skb_ip_hdr) ↦ iph ∗
     (skb + skb_free) ↦ 1 ∗ (skb + skb_sk) ↦ NULL ∗ ip_id_count ↦ s32 (cnt + 1) ∗ jiffies ↦ j ∗
     bytes (iph + ip_tot_len) (le16 (u16 (len - hhl))) ∗ bytes (iph + ip_id) (le16 (u16 cnt)) ∗ bytes (iph + ip_chksum) (le16 0) ∗
     dlist (buffs dev SOPRI_NORMAL) q' ∗ sent ready l' }}.
Proof.
  intros iph. apply triple_wp.
  iIntros "((Hh & Hm & Hf & (%Hdev & %Hup)) & ((%v1 & H1) & (%v2 & H2) & (%v3 & H3) & (%v4 & H4) & (%v5 & H5)) & Hl & Hc & Hj & F1 & F2 & F3 & Hq & Hs & Ha & Hsent & %Hfit)".
  cbn [ip_queue_xmit]. rw (eqb_false dev NULL Hdev). wp_store. wp_load. wp_store. wp_load. wp_store. wp_load. wp_load.
  fold iph. iApply wp_bind. iApply (store_field_wp with "F1"). iIntros "F1". change (0 =? 2) with false. wp_load. wp_store.
  iApply wp_bind. iApply (store_field_wp with "F2"). iIntros "F2". wp_pures. wp_store. wp_load. wp_load. wp_load.
  rw Z.gtb_ltb (proj2 (Z.ltb_ge _ _) Hfit). unfold ip_xmit_whole, ip_send_checksum. wp_load. iApply wp_bind.
  iApply (store_field_wp with "F3"). iIntros "F3". iDestruct "Hs" as "(Hn & Hp & %Hs)". change sk_next with list_next. wp_load.
  wp_store. wp_load. rw (eqb_false _ 0 Hup). wp_pures.
  iApply (xmit_new_wp rebuild_header dev SOPRI_NORMAL with "Hq [$Hn $Hp //] Ha Hsent"); [done|done|]. iIntros (q' x E) "Hq Hsent". destruct ready.
  - iExists (l ++ [x]), q'. iFrame. iPureIntro. rw E length_app -assoc_L. done.
  - iExists l, q'. iFrame. iPureIntro. rw E. split; [split; [done|lia]|done].
Qed.
End send.

(** ** The list of fragments *)

(** The fragments from the link [c] on, behind the fragment [pv]. *)
Fixpoint fdll (c pv : Z) (fs : list frag) : heapProp :=
  match fs with
  | [] => c ↦ NULL
  | f :: fs => ⌜f_at f ≠ NULL⌝ ∗ c ↦ f_at f ∗ (f_at f + ig_prev) ↦ pv ∗ frag_cells f ∗ fdll (f_at f + ig_next) (f_at f) fs
  end.

(** The link behind some fragments, and the last of them. *)
Definition link_of (c : Z) (fs : list frag) : Z := from_option (λ f, f_at f + ig_next) c (last fs).
Definition last_of (pv : Z) (fs : list frag) : Z := from_option f_at pv (last fs).
Definition first_of (fs : list frag) : Z := from_option f_at NULL (head fs).

Lemma fdll_app c pv xs ys : fdll c pv (xs ++ ys) ⊢ fdll (link_of c xs) (last_of pv xs) ys ∗
  ∀ zs, fdll (link_of c xs) (last_of pv xs) zs -∗ fdll c pv (xs ++ zs).
Proof.
  revert c pv. induction xs as [|f xs IH]; intros c pv; cbn [app fdll]; [iIntros "$"; auto|].
  iIntros "($ & $ & $ & $ & H)". iDestruct (IH with "H") as "H". unfold link_of, last_of. rw last_cons. by destruct (last xs).
Qed.

Lemma fdll_first c pv fs : fdll c pv fs ⊢ c ↦ first_of fs ∗ (c ↦ first_of fs -∗ fdll c pv fs).
Proof. destruct fs as [|f fs]; cbn [fdll]; iIntros "H"; [iFrame; auto|]. iDestruct "H" as "($ & $ & $ & $ & $)". auto. Qed.

Lemma fdll_cells c pv fs : fdll c pv fs ⊢ cells (length fs).
Proof.
  revert c pv. induction fs as [|f fs IH]; intros c pv; [iIntros "_"; iApply cells_0|]. cbn [fdll length].
  rw IH pt_cells. iIntros "(_ & H1 & _ & _ & H2)". iApply (cells_add with "H1 H2").
Qed.

Lemma fdll_ne c pv xs ys : fdll c pv (xs ++ ys) ⊢ ⌜Forall (λ f, f_at f ≠ NULL) xs⌝.
Proof.
  revert c pv. induction xs as [|f xs IH]; intros c pv; cbn [app fdll]; [auto|]. iIntros "(%Hf & _ & _ & _ & H)".
  iDestruct (IH with "H") as %H. iPureIntro. by constructor.
Qed.

(** In order, without overlap. *)
Fixpoint ordered (lo : Z) (fs : list frag) : Prop :=
  match fs with [] => True | f :: fs => lo ≤ f_off f ∧ f_off f < f_end f ∧ ordered (f_end f) fs end.

(** The place of a fragment among others that it does not overlap. *)
Lemma ordered_split lo fs o e : ordered lo fs → o < e → (∀ f, f ∈ fs → f_end f ≤ o ∨ e ≤ f_off f) →
  ∃ fs1 fs2, fs = fs1 ++ fs2 ∧ Forall (λ f, f_off f ≤ o ∧ f_end f ≤ o) fs1 ∧ Forall (λ f, e ≤ f_off f) fs2.
Proof.
  revert lo. induction fs as [|f fs IH]; intros lo Hord Hoe Hno; [by exists [], []|]. destruct Hord as (H1 & H2 & H3).
  destruct (Hno f) as [Hf|Hf]; [by left| |].
  - destruct (IH _ H3 Hoe) as (fs1 & fs2 & -> & Ha & Hb); [intros g Hg; apply Hno; by right|]. exists (f :: fs1), fs2.
    split_and!; [done| |done]. constructor; [lia|done].
  - exists [], (f :: fs). split_and!; [done|done|]. constructor; [done|]. clear IH Hno H1. revert f Hf H2 H3.
    induction fs as [|g fs IH]; intros f Hf H2 H3; [done|]. destruct H3 as (H3 & H4 & H5). constructor; [lia|]. apply (IH g); [lia|done|done].
Qed.

Lemma frag_place_wp ifq offset fs1 fs2 Q :
  Forall (λ f, f_off f ≤ offset) fs1 → (∀ f, head fs2 = Some f → offset < f_off f) →
  fdll (ifq + fq_fragments) NULL (fs1 ++ fs2) -∗
  (fdll (ifq + fq_fragments) NULL (fs1 ++ fs2) -∗ Q (last_of NULL fs1, first_of fs2)) -∗
  wp (frag_place ifq offset) Q.
Proof.
  iIntros (H1 H2) "H HQ". unfold frag_place. iDestruct (fdll_first with "H") as "[Hc H]". wp_load. iDestruct ("H" with "Hc") as "H".
  iApply (wp_wand with "[H]"); first iApply (wp_loop _ (λ n '((p, x) : Z * Z), ∃ xs ys, ⌜fs1 = xs ++ ys ∧ n = length ys ∧ p = last_of NULL xs ∧
      x = first_of (ys ++ fs2)⌝ ∗ fdll (ifq + fq_fragments) NULL (fs1 ++ fs2))%I
    (λ r, ⌜r = (last_of NULL fs1, first_of fs2)⌝ ∗ fdll (ifq + fq_fragments) NULL (fs1 ++ fs2))%I (length fs1)).
  - iIntros "(%xs & %ys & (-> & %Hn & _) & H)". rw fdll_cells. iApply (cells_le with "H"). rw !length_app. lia.
  - intros n [p x]. iIntros "(%xs & %ys & (-> & -> & -> & ->) & H)". destruct ys as [|f ys].
    + cbn [app]. destruct fs2 as [|f fs2].
      { change (first_of []) with NULL. wp_pures. iFrame. by rw app_nil_r. }
      change (first_of (f :: fs2)) with (f_at f). rw app_nil_r. iDestruct (fdll_app with "H") as "[H Hw]". cbn [fdll].
      iDestruct "H" as "(%Hf & Hc & Hp & [Ho He] & H)". rw (eqb_false _ NULL Hf). wp_load.
      rw Z.gtb_ltb (proj2 (Z.ltb_lt _ _)); [|by apply H2]. wp_pures. iSplit; [done|]. iApply ("Hw" $! (f :: fs2)). cbn [fdll]. by iFrame.
    + change (first_of ((f :: ys) ++ fs2)) with (f_at f). iEval (rw -assoc_L /=) in "H". iDestruct (fdll_app with "H") as "[H Hw]". cbn [fdll].
      iDestruct "H" as "(%Hf & Hc & Hp & [Ho He] & H)". rw (eqb_false _ NULL Hf). wp_load. apply Forall_app in H1 as [_ H1]. inversion H1; subst.
      rw Z.gtb_ltb (proj2 (Z.ltb_ge _ _)); [|done]. iDestruct (fdll_first with "H") as "[Hn H]". wp_load. iDestruct ("H" with "Hn") as "H".
      iExists (length ys). iSplit; [iPureIntro; simpl; lia|]. iExists (xs ++ [f]), ys. iSplit.
      { iPureIntro. rw -assoc_L. unfold last_of. rw last_snoc. done. }
      rw -assoc_L /=. iApply ("Hw" $! (f :: ys ++ fs2)). cbn [fdll]. by iFrame.
  - iExists [], fs1. by iFrame.
  - iIntros (r) "[-> H]". by iApply "HQ".
Qed.

(** Nothing is cut off fragments behind the end of the new one. *)
Lemma frag_trim_wp ifq end_ c pv fs Q : (∀ f, head fs = Some f → end_ ≤ f_off f) →
  fdll c pv fs -∗ (fdll c pv fs -∗ Q (first_of fs)) -∗ wp (frag_trim ifq end_ (first_of fs)) Q.
Proof.
  iIntros (Hf) "H HQ". unfold frag_trim. iApply (wp_wand with "[H]"); first iApply (wp_loop _ (λ (_ : nat) x, ⌜x = first_of fs⌝ ∗ fdll c pv fs)%I
    (λ r, ⌜r = first_of fs⌝ ∗ fdll c pv fs)%I 0).
  - iIntros "_". iApply cells_0.
  - intros n x. iIntros "[-> H]". destruct fs as [|f fs]; [change (first_of []) with NULL; wp_pures; by iFrame|].
    change (first_of (f :: fs)) with (f_at f). cbn [fdll]. iDestruct "H" as "(%Hfn & Hc & Hp & [Ho He] & H)". rw (eqb_false _ NULL Hfn).
    iDestruct (fdll_first with "H") as "[Hn H]". wp_load. iDestruct ("H" with "Hn") as "H". wp_load.
    rw Z.geb_leb (proj2 (Z.leb_le _ _)); [|by apply Hf]. wp_pures. by iFrame.
  - by iFrame.
  - iIntros (r) "[-> H]". by iApply "HQ".
Qed.

(** The cells of a fragment that is not in use. *)
Definition raw_cells (p : Z) (offs : list Z) : heapProp := [∗ list] o ∈ offs, ∃ v, (p + o) ↦ v.
Definition frag_members : list Z :=
  [ig_offset; ig_end; ig_len; ig_skb; ig_timer; ig_timer + 4; ig_timer + 8; ig_timer + 12; ig_timer + 16; ig_ptr; ig_next; ig_prev].

(** The members of a fragment besides its place and its links. *)
Definition frag_data (fp len skb ptr : Z) : heapProp :=
  (fp + ig_len) ↦ len ∗ (fp + ig_skb) ↦ skb ∗ (fp + ig_ptr) ↦ ptr ∗ raw_cells fp [ig_timer; ig_timer + 4; ig_timer + 8; ig_timer + 12; ig_timer + 16].

Lemma ip_frag_create_wp fp offset end_ skb ptr Q : fp ≠ NULL →
  raw_cells fp frag_members -∗
  (frag_cells (Frag fp offset end_) -∗ frag_data fp (s32 (end_ - offset)) skb ptr -∗
   (∃ v, (fp + ig_next) ↦ v) -∗ (∃ v, (fp + ig_prev) ↦ v) -∗ Q fp) -∗
  wp (ip_frag_create fp offset end_ skb ptr) Q.
Proof.
  iIntros (Hfp) "H HQ". unfold raw_cells, frag_members. cbn [big_opL].
  iDestruct "H" as "((%v1 & H1) & (%v2 & H2) & (%v3 & H3) & (%v4 & H4) & (%v5 & H5) & (%v6 & H6) & (%v7 & H7) & (%v8 & H8) & (%v9 & H9) & (%va & Ha) & (%vb & Hb) & (%vc & Hc) & _)".
  rw !Z.add_assoc. unfold ip_frag_create, clear_ipfrag. rw (eqb_false fp NULL Hfp). iApply wp_bind.
  wp_store. wp_store. wp_store. wp_store. wp_store. wp_store. wp_store. wp_store. wp_store. wp_store. wp_store. wp_store.
  wp_store. wp_store. wp_store. wp_store. wp_store. wp_pures. iApply ("HQ" with "[H1 H2] [H3 H4 Ha H5 H6 H7 H8 H9] [Hb] [Hc]").
  - iFrame.
  - iFrame. unfold raw_cells. cbn [big_opL]. rw !Z.add_assoc. iFrame.
  - by iExists _.
  - by iExists _.
Qed.

Lemma frag_link_wp ifq f fs1 fs2 (Q : unit → heapProp) : f_at f ≠ NULL →
  fdll (ifq + fq_fragments) NULL (fs1 ++ fs2) -∗ frag_cells f -∗ (∃ v, (f_at f + ig_next) ↦ v) -∗ (∃ v, (f_at f + ig_prev) ↦ v) -∗
  (fdll (ifq + fq_fragments) NULL (fs1 ++ f :: fs2) -∗ Q tt) -∗
  wp (frag_link ifq (last_of NULL fs1) (first_of fs2) (f_at f)) Q.
Proof.
  iIntros (Hf) "H Hcells (%v & Hn) (%w & Hp) HQ". unfold frag_link. wp_store. wp_store.
  iAssert ⌜Forall (λ f, f_at f ≠ NULL) fs1⌝%I as %Hne; [iApply (fdll_ne with "H")|].
  iDestruct (fdll_app with "H") as "[H Hw]".
  assert ((if if last_of NULL fs1 =? NULL then false else true then last_of NULL fs1 + ig_next else ifq + fq_fragments) = link_of (ifq + fq_fragments) fs1) as Hlink.
  { unfold last_of, link_of. destruct (last fs1) as [g|] eqn:El; simpl; [|done]. apply last_Some in El as [fs' ->].
    apply Forall_app in Hne as [_ Hne]. inversion Hne; subst. by rw eqb_false. }
  iApply wp_bind. iApply (wp_ext (store (link_of (ifq + fq_fragments) fs1) (f_at f))).
  { intros m. rw -Hlink. by destruct (last_of NULL fs1 =? NULL). }
  destruct fs2 as [|g fs2]; cbn [fdll].
  - wp_store. change (first_of []) with NULL. wp_pures. iApply "HQ". iApply ("Hw" $! [f]). cbn [fdll]. by iFrame.
  - change (first_of (g :: fs2)) with (f_at g). iDestruct "H" as "(%Hg & Hc & Hgp & Hgc & H)". wp_store. rw (eqb_false _ NULL Hg). wp_store.
    iApply "HQ". iApply ("Hw" $! (f :: g :: fs2)). cbn [fdll]. by iFrame.
Qed.

Lemma ordered_insert lo fs1 f fs2 : ordered lo (fs1 ++ fs2) → lo ≤ f_off f → f_off f < f_end f →
  Forall (λ g, f_end g ≤ f_off f) fs1 → Forall (λ g, f_end f ≤ f_off g) fs2 → ordered lo (fs1 ++ f :: fs2).
Proof.
  revert lo. induction fs1 as [|g fs1 IH]; intros lo Hord Hlo Hf H1 H2; cbn [app ordered] in *.
  - split_and!; [done|done|]. destruct fs2 as [|g fs2]; [done|]. destruct Hord as (Ha & Hb & Hc). inversion H2; subst. split_and!; [done|done|done].
  - destruct Hord as (Ha & Hb & Hc). inversion H1; subst. split_and!; [done|done|]. by apply IH.
Qed.

(** C28: A fragment that does not overlap the others is put at its place in the list: the list stays ordered and without overlap, has the new fragment
    besides the old ones, and its links agree in both directions. *)
Theorem frag_insert_ordered fp ifq offset end_ skb ptr fs :
  {{ fdll (ifq + fq_fragments) NULL fs ∗ raw_cells fp frag_members ∗
     ⌜fp ≠ NULL ∧ 0 ≤ offset < end_ ∧ ordered 0 fs ∧ ∀ f, f ∈ fs → f_end f ≤ offset ∨ end_ ≤ f_off f⌝ }}
    frag_insert fp ifq offset end_ skb ptr
  {{ r, ⌜r = fp⌝ ∗ frag_data fp (s32 (end_ - offset)) skb ptr ∗ ∃ fs1 fs2,
     ⌜fs = fs1 ++ fs2 ∧ ordered 0 (fs1 ++ Frag fp offset end_ :: fs2)⌝ ∗
     fdll (ifq + fq_fragments) NULL (fs1 ++ Frag fp offset end_ :: fs2) }}.
Proof.
  apply triple_wp. iIntros "(H & Hraw & (%Hfp & %Ho & %Hord & %Hno))".
  destruct (ordered_split 0 fs offset end_) as (fs1 & fs2 & -> & H1 & H2); [done|lia|done|].
  assert (∀ f, head fs2 = Some f → end_ ≤ f_off f) as Hhead. { intros f Hf. destruct fs2; [done|]. injection Hf as <-. by inversion H2. }
  unfold frag_insert. iApply wp_bind. iApply (frag_place_wp with "H").
  { eapply Forall_impl; [exact H1|]. simpl. lia. } { intros f Hf. specialize (Hhead f Hf). lia. }
  iIntros "H". wp_pures. iApply wp_bind.
  iApply (wp_wand _ (λ r, ⌜r = (offset, ptr)⌝ ∗ fdll (ifq + fq_fragments) NULL (fs1 ++ fs2))%I with "[H]").
  { unfold last_of. destruct (last fs1) as [g|] eqn:El; simpl; [|wp_pures; by iFrame]. apply last_Some in El as [fs' ->].
    iDestruct (fdll_ne with "H") as %Hne. apply Forall_app in Hne as [_ Hne]. inversion Hne; subst. rw (eqb_false _ NULL); [|done].
    apply Forall_app in H1 as [_ H1]. inversion H1 as [|? ? [_ He] _]; subst.
    iEval (rw -assoc_L /=) in "H". iDestruct (fdll_app with "H") as "[H Hw]". cbn [fdll]. iDestruct "H" as "(Hg & Hc & Hp & [Hgo Hge] & H)". wp_load.
    rw (proj2 (Z.ltb_ge _ _) He). wp_pures. iSplit; [done|]. rw -assoc_L /=. iApply ("Hw" $! (g :: fs2)). cbn [fdll]. iFrame. }
  iIntros (r) "[-> H]". wp_pures. iApply wp_bind. iDestruct (fdll_app with "H") as "[H Hw]".
  iApply (frag_trim_wp with "H"); [done|]. iIntros "H". iDestruct ("Hw" with "H") as "H". wp_pures. iApply wp_bind.
  iApply (ip_frag_create_wp with "Hraw"); [done|]. iIntros "Hc Hd Hn Hp". rw (eqb_false fp NULL Hfp). wp_pures. iApply wp_bind.
  iApply (frag_link_wp ifq (Frag fp offset end_) with "H Hc Hn Hp"); [done|]. iIntros "H". wp_pures. iSplit; [done|]. iFrame. iPureIntro.
  split; [done|]. apply ordered_insert; [done|simpl; lia|simpl; lia| |done]. eapply Forall_impl; [exact H1|]. simpl. lia.
Qed.

(** ** Delivery to the protocols *)

(** A call of a handler: the protocol, the packet, and what it is told about the packet. *)
Record delivery := Delivery { to_prot : Z; to_skb : Z; to_daddr : Z; to_len : Z; to_saddr : Z }.

(** What the handlers promise: each call is logged. *)
Class Handlers (handler : Z → Z → Z → Z → Z → Z → Z → Z → Z → M Z) := {
  delivered : list delivery → heapProp;
  handler_wp f skb dev opt daddr len saddr redo prot l Q :
    delivered l -∗ (∀ r, delivered (l ++ [Delivery prot skb daddr len saddr]) -∗ Q r) -∗
    wp (handler f skb dev opt daddr len saddr redo prot) Q;
}.

Section deliver.
Context {handler : Z → Z → Z → Z → Z → Z → Z → Z → Z → M Z} `{!Handlers handler} (inet_protos : Z).

(** A protocol: its structure and its number. *)
Record proto := Proto { pr_at : Z; pr_num : Z }.

Definition proto_cells (p : proto) : heapProp := (pr_at p + pr_protocol) ↦ pr_num p ∗ ∃ f, (pr_at p + pr_handler) ↦ f.

(** The protocols of one place of the table. *)
Definition protos (h : Z) (ps : list proto) : heapProp :=
  slist pr_next (inet_protos + 4 * h) (pr_at <$> ps) ∗ [∗ list] p ∈ ps, proto_cells p.

(** The header of a packet. *)
Definition ip_header (iph b tl num sa da : Z) : heapProp :=
  (iph + ip_ver_ihl) ↦ b ∗ bytes (iph + ip_tot_len) (le16 tl) ∗ (iph + ip_protocol) ↦ num ∗
  bytes (iph + ip_saddr) (le32 sa) ∗ bytes (iph + ip_daddr) (le32 da) ∗ ⌜0 ≤ tl < 2 ^ 16 ∧ 0 ≤ sa < 2 ^ 32 ∧ 0 ≤ da < 2 ^ 32⌝.

(** What the protocols [ps] are told about a packet. *)
Definition deliveries (ps : list proto) (skb b tl num sa da : Z) : list delivery :=
  (λ p, Delivery (pr_at p) skb da (u16 (tl - Z.shiftr b 4 * 4)) sa) <$> filter (λ p, pr_num p =? num) ps.

Lemma inet_add_protocol_wp p ps v (Q : unit → heapProp) : pr_at p ≠ NULL →
  protos (Z.land (pr_num p) 31) ps -∗ proto_cells p -∗ (pr_at p + pr_next) ↦ v -∗
  (protos (Z.land (pr_num p) 31) (p :: ps) -∗ Q tt) -∗ wp (inet_add_protocol inet_protos (pr_at p)) Q.
Proof.
  iIntros (Hp) "[Hc HR] [Hn Hf] Hv HQ". unfold inet_add_protocol. wp_load. change (MAX_INET_PROTOS - 1) with 31.
  iDestruct (slist_first with "Hc") as "[Hb Hc]". wp_load. wp_store. wp_store. iApply "HQ". unfold protos. rw fmap_cons big_sepL_cons. cbn [slist].
  iFrame. iSplit; [done|]. by iApply "Hc".
Qed.

Lemma ip_deliver_wp ps skb dev opt iph b tl num sa da l (Q : unit → heapProp) :
  protos (Z.land num 31) ps -∗ ip_header iph b tl num sa da -∗ delivered l -∗
  (protos (Z.land num 31) ps -∗ ip_header iph b tl num sa da -∗ delivered (l ++ deliveries ps skb b tl num sa da) -∗ Q tt) -∗
  wp (ip_deliver inet_protos handler skb dev opt iph) Q.
Proof.
  iIntros "[Hc HR] (H1 & H2 & H3 & H4 & H5 & (%Ht & %Hs & %Hd)) Hl HQ". unfold ip_deliver. wp_load. change (MAX_INET_PROTOS - 1) with 31.
  iDestruct (slist_first with "Hc") as "[Hb Hc]". wp_load. iDestruct ("Hc" with "Hb") as "Hc".
  iApply (wp_wand with "[-HQ]"); first iApply (wp_loop _ (λ n x, ∃ ps1 ps2, ⌜ps = ps1 ++ ps2 ∧ n = length ps2 ∧ x = first_or NULL (pr_at <$> ps2)⌝ ∗
      protos (Z.land num 31) ps ∗ ip_header iph b tl num sa da ∗ delivered (l ++ deliveries ps1 skb b tl num sa da))%I
    (λ _, protos (Z.land num 31) ps ∗ ip_header iph b tl num sa da ∗ delivered (l ++ deliveries ps skb b tl num sa da))%I (length ps)).
  - iIntros "(%ps1 & %ps2 & (-> & %Hn & _) & [H _] & _)". rw slist_cells. iApply (cells_le with "H"). rw length_fmap. lia.
  - intros n x. iIntros "(%ps1 & %ps2 & (-> & -> & ->) & [Hc HR] & (H1 & H2 & H3 & H4 & H5 & _) & Hl)". destruct ps2 as [|p ps2].
    { change (first_or NULL (pr_at <$> [])) with NULL. wp_pures. rw app_nil_r. by iFrame. }
    change (first_or NULL (pr_at <$> p :: ps2)) with (pr_at p). rw fmap_app fmap_cons. iDestruct (slist_app with "Hc") as "[(%Hp & Hcp & Hcn) Hw]".
    rw (eqb_false _ NULL Hp). iDestruct "HR" as "(HR1 & [Hn (%f & Hf)] & HR2)". wp_load. wp_load. iApply wp_bind.
    iApply (wp_wand _ (λ _, (pr_at p + pr_protocol) ↦ pr_num p ∗ (∃ f, (pr_at p + pr_handler) ↦ f) ∗ ip_header iph b tl num sa da ∗
      delivered (l ++ deliveries (ps1 ++ [p]) skb b tl num sa da))%I with "[Hn Hf H1 H2 H3 H4 H5 Hl]").
    { unfold deliveries. rw filter_app fmap_app. destruct (pr_num p =? num) eqn:En.
      - rw filter_cons_True; [|by rw En]. wp_load. iApply wp_bind. iApply (load32_wp with "H5"); [done|]. iIntros "H5".
        iApply wp_bind. iApply (load16_wp with "H2"); [done|]. iIntros "H2". unfold iph_ihl. iApply wp_bind. wp_load.
        iApply wp_bind. iApply (load32_wp with "H4"); [done|]. iIntros "H4". iApply wp_bind. iApply (handler_wp with "Hl"). iIntros (r) "Hl". wp_pures.
        iFrame. iSplit; [done|]. by rw -assoc_L.
      - rw filter_cons_False; [|rw En; by intros []]. wp_pures. rw app_nil_r. by iFrame. }
    iIntros ([]) "(Hn & Hf & Hh & Hl)". iDestruct (slist_first with "Hcn") as "[Hnx Hcn]". wp_load. iDestruct ("Hcn" with "Hnx") as "Hcn".
    iExists (length ps2). iSplit; [iPureIntro; simpl; lia|]. iExists (ps1 ++ [p]), ps2. iFrame "Hh Hl". rw -assoc_L /=. iSplit; [done|].
    unfold protos. rw fmap_app fmap_cons. iFrame. iApply ("Hw" $! (pr_at p :: (pr_at <$> ps2))). by iFrame.
  - iExists [], ps. iFrame. simpl. rw app_nil_r. by iFrame.
  - iIntros ([]) "(Hp & Hh & Hl)". iApply ("HQ" with "Hp Hh Hl").
Qed.

(** A protocol that is registered with [inet_add_protocol] gets the packets with its number: the handlers that [ip_deliver] calls are those of
    the protocols with the number in the header, each once, the newest first, with the addresses and the length of the data. *)
Theorem registered_protocol_delivered p ps v skb dev opt iph b tl sa da l :
  {{ protos (Z.land (pr_num p) 31) ps ∗ proto_cells p ∗ (pr_at p + pr_next) ↦ v ∗ ip_header iph b tl (pr_num p) sa da ∗ delivered l ∗ ⌜pr_at p ≠ NULL⌝ }}
    (inet_add_protocol inet_protos (pr_at p);; ip_deliver inet_protos handler skb dev opt iph)
  {{ _, protos (Z.land (pr_num p) 31) (p :: ps) ∗ ip_header iph b tl (pr_num p) sa da ∗
     delivered (l ++ Delivery (pr_at p) skb da (u16 (tl - Z.shiftr b 4 * 4)) sa :: deliveries ps skb b tl (pr_num p) sa da) }}.
Proof.
  apply triple_wp. iIntros "(Hps & Hp & Hv & Hh & Hl & %Hne)". iApply wp_bind. iApply (inet_add_protocol_wp with "Hps Hp Hv"); [done|].
  iIntros "Hps". iApply (ip_deliver_wp with "Hps Hh Hl"). iIntros "Hps Hh Hl". iFrame.
  unfold deliveries. by rw filter_cons_True; [|by rw Z.eqb_refl].
Qed.
End deliver.

(** A handler that writes its calls to a log. *)
Definition log_delivery (v : Z) (d : delivery) : Z := log_push 160 v (log_push 128 (log_push 96 (log_push 64 (log_push 32 (to_prot d) (to_skb d)) (to_daddr d)) (to_len d)) (to_saddr d)).
Definition log_handler (c : Z) (f skb dev opt daddr len saddr redo prot : Z) : M Z :=
  v ← load c; store c (log_delivery v (Delivery prot skb daddr len saddr));; mret 0.

#[global, program] Instance log_handlers c : Handlers (log_handler c) := {| delivered l := (c ↦ foldl log_delivery 0 l)%I |}.
Next Obligation. iIntros (c f skb dev opt daddr len saddr redo prot l Q) "H HQ". unfold log_handler. wp_load. wp_store. iApply "HQ". rw foldl_app. iFrame. Qed.

Lemma registered_protocol_delivered_witness :
  let p := Proto 4096 6 in let ps := [Proto 8192 1; Proto 12288 6] in
  triple (protos 1024 6 ps ∗ proto_cells p ∗ (4096 + pr_next) ↦ 0 ∗ ip_header 16384 0x54 60 6 1 2 ∗ delivered (Handlers := log_handlers 8) [] ∗ ⌜4096 ≠ NULL⌝)%I
    (inet_add_protocol 1024 4096;; ip_deliver 1024 (log_handler 8) 20480 24576 0 16384)
    (λ _, protos 1024 6 (p :: ps) ∗ ip_header 16384 0x54 60 6 1 2 ∗
       delivered (Handlers := log_handlers 8) [Delivery 4096 20480 2 40 1; Delivery 12288 20480 2 40 1])%I.
Proof. intros p ps. exact (registered_protocol_delivered (Handlers0 := log_handlers 8) 1024 p ps 0 20480 24576 0 16384 0x54 60 1 2 []). Defined.
