(* ===== verification/ArpRcv.v ===== *)
(** * Address resolution: receiving and the requests of programs (net/inet/arp.c)

    The rest of net/inet/arp.c: [arp_rcv], the requests of user programs and [arp_init].  New entries are never made, since the calls
    that allocate them are commented out: the branches behind them are not reached. *)

From S2P Require Export Arp Ip.

Definition ARP_MAX_TRIES : Z := 3.
Definition DEF_ARP_NETMASK : Z := 0xffffffff.
Definition ETH_ALEN : Z := 6.
Definition EPFNOSUPPORT : Z := 100.
Definition ENXIO : Z := 6.
Definition AF_INET : Z := 2.
Definition SIOCDARP : Z := 0x8850.
Definition SIOCGARP : Z := 0x8851.
Definition SIOCSARP : Z := 0x8852.

(** struct sockaddr and struct sockaddr_in, in bytes *)
Definition sa_family : Z := 2.
Definition sa_data : Z := 4.
Definition sin_port : Z := 4.
Definition sin_addr : Z := 8.
Definition sizeof_sockaddr : Z := 18.
Definition sizeof_sockaddr_in : Z := 20.

(** struct arpreq *)
Definition arp_pa : Z := 0.
Definition arp_ha : Z := 18.
Definition arp_flags : Z := 56.
Definition sizeof_arpreq : Z := 60.

Section arp_rcv.
Context (arp_tables arp_timer jiffies dev_base : Z) (del_timer add_timer : Z → M Z).
Context (hard_start_xmit : Z → Z → M Z) (rebuild_header : Z → Z → Z → Z → M Z) (hard_header : Z → Z → Z → Z → Z → Z → Z → M Z).
Context (dev_kfree_skb : Z → M unit).

(** The checks of the header. *)
Definition arp_header_ok (arp dev : Z) : M bool :=
  hl ← load (arp + ar_hlen); al ← load (dev + nd_addr_len);
  if negb (hl =? al) then mret false else
  hw ← load16 (arp + ar_hwt); ty ← load (dev + nd_type);
  if negb (hw =? htons ty) then mret false else
  f ← load (dev + nd_flags);
  if negb (Z.land f IFF_NOARP =? 0) then mret false else
  pl ← load (arp + ar_plen);
  if negb (pl =? IP_ALEN) then mret false else
  ty ← load (dev + nd_type);
  if ty =? ARPHRD_AX25 then mret true
  else if ty =? ARPHRD_ETHER then p ← load16 (arp + ar_prot); mret (p =? htons ETH_P_IP)
  else mret false.

(** The sender and the entry of the table for it. *)
Definition arp_update (sip sha hlen htype : Z) : M Z :=
  entry ← find_link at_next (λ entry,
    ip ← load (entry + at_ip);
    if ip =? sip then t ← load (entry + at_htype); mret (t =? htype) else mret false) (bucket arp_tables (HASH sip));
  if negb (entry =? NULL) then
    u_phys_copy (entry + at_ha) sha hlen;;
    store (entry + at_hlen) (u8 hlen);;
    now ← load jiffies; store (entry + at_last_used) now;;
    f ← load (entry + at_flags);
    (if negb (Z.land f ATF_COM =? 0) then
       del_timer (entry + at_timer);;
       f ← load (entry + at_flags); store (entry + at_flags) (Z.lor f ATF_COM);;
       arp_send_q hard_start_xmit rebuild_header entry sha
     else mret tt);;
    mret 0
  else mret 0.

(** The terminators are stored over the bytes that are read next, and the target's address is read from the place of its hardware address. *)
Definition arp_rcv (skb dev pt : Z) : M Z :=
  arp ← load (skb + skb_h);
  ok ← arp_header_ok arp dev;
  if negb ok then mret 0 else
  hlen ← load (dev + nd_addr_len); htype ← load (dev + nd_type);
  let sha := arp + sizeof_arphdr in
  store (sha + hlen) 0;;
  let arp_ptr := sha + hlen in
  sip ← load32 arp_ptr;
  let dha := arp_ptr + IP_ALEN in
  store (dha + hlen) 0;;
  dip ← load32 dha;
  if dip =? INADDR_LOOPBACK then mret 0 else
  addr_hint ← ip_chk_addr dev_base dip;
  op ← load (arp + ar_op);
  go ← (if op =? htons ARPOP_REPLY then mret (addr_hint =? IS_MYADDR)
        else
          a ← load (dev + pa_addr);
          if negb (dip =? a) then mret false
          else arp_send hard_header ARPOP_REPLY ETH_P_ARP sip dev dip sha (dev + nd_dev_addr);; mret true);
  if negb go then mret 0 else
  arp_update sip sha hlen htype.

(** ** Requests of programs: [arq] and [r] are the addresses of the local copies. *)

Definition arp_req_set (arq req : Z) : M Z :=
  memncpy arq req sizeof_arpreq;;
  fam ← load16 (arq + arp_pa + sa_family);
  if negb (fam =? ARPHRD_ETHER) then mret (- EPFNOSUPPORT) else
  let htype := ARPHRD_ETHER in let hlen := ETH_ALEN in
  ip ← load32 (arq + arp_pa + sin_addr);
  if ip =? 0 then mret (- EINVAL) else
  entry ← arp_lookup arp_tables ip;
  if entry =? NULL then mret (- ENOMEM) else
  memncpy (entry + at_ha) (arq + arp_ha + sa_data) hlen;;
  now ← load jiffies; store (entry + at_last_used) now;;
  f ← load32 (arq + arp_flags); store (entry + at_flags) (Z.lor f ATF_COM);;
  store (entry + at_mask) DEF_ARP_NETMASK;;
  mret 0.

Definition arp_req_get (r req : Z) : M Z :=
  memncpy r req sizeof_arpreq;;
  fam ← load16 (r + arp_pa + sa_family);
  if negb (fam =? AF_INET) then mret (- EPFNOSUPPORT) else
  ip ← load32 (r + arp_pa + sin_addr);
  entry ← arp_lookup arp_tables ip;
  if entry =? NULL then mret (- ENXIO) else
  hl ← load (entry + at_hlen);
  memncpy (r + arp_ha + sa_data) (entry + at_ha) hl;;
  t ← load (entry + at_htype); store16 (r + arp_ha + sa_family) t;;
  f ← load (entry + at_flags); store32 (r + arp_flags) f;;
  memncpy req r sizeof_arpreq;;
  mret 0.

Definition arp_ioctl (r cmd arg : Z) : M Z :=
  if cmd =? SIOCDARP then
    memncpy r arg sizeof_arpreq;;
    fam ← load16 (r + arp_pa + sa_family);
    if negb (fam =? AF_INET) then mret (- EPFNOSUPPORT) else
    ip ← load32 (r + arp_pa + sin_addr);
    arp_destory arp_tables del_timer dev_kfree_skb ip 1;;
    mret 0
  else if cmd =? SIOCGARP then arp_req_get r arg
  else if cmd =? SIOCSARP then arp_req_set r arg
  else mret (- EINVAL).

Definition arp_init (arp_packet_type arp_dev_notifier ptype_base netdev_chain prev0 : Z) : M unit :=
  store (arp_packet_type + pt_type) (htons ETH_P_ARP);;
  dev_add_pack ptype_base arp_packet_type;;
  add_timer arp_timer;;
  register_netdevice_notifier netdev_chain prev0 arp_dev_notifier;;
  mret tt.
End arp_rcv.
