(* ===== verification/ArpRcvSpec.v ===== *)
(** * What the receiver of requests for addresses does *)

From S2P Require Export ArpRcv InodeSpec.

(** The header that [arp_rcv] accepts from an ethernet, and what it reads of the device. *)
Definition arp_header (arp op : Z) : heapProp :=
  bytes (arp + ar_hwt) (le16 ARPHRD_ETHER) ∗ bytes (arp + ar_prot) (le16 ETH_P_IP) ∗ (arp + ar_hlen) ↦ ETH_ALEN ∗ (arp + ar_plen) ↦ IP_ALEN ∗ (arp + ar_op) ↦ op.
Definition arp_device (dev flags a : Z) : heapProp :=
  (dev + nd_addr_len) ↦ ETH_ALEN ∗ (dev + nd_type) ↦ ARPHRD_ETHER ∗ (dev + nd_flags) ↦ flags ∗ (dev + pa_addr) ↦ a.

(** The addresses of a request: of the sender, and of the target, whose hardware address is not known. *)
Definition arp_request (p sip tip : Z) : heapProp :=
  bytes (p + 6) (le32 sip) ∗ bytes (p + 6 + IP_ALEN) (le32 0) ∗ bytes (p + 6 + IP_ALEN + 6) (le32 tip).

Lemma arp_header_ok_wp arp op dev flags a Q : Z.land flags IFF_NOARP = 0 →
  arp_header arp op -∗ arp_device dev flags a -∗ (arp_header arp op -∗ arp_device dev flags a -∗ Q true) -∗ wp (arp_header_ok arp dev) Q.
Proof.
  iIntros (Hf) "(H1 & H2 & H3 & H4 & H5) (D1 & D2 & D3 & D4) HQ". unfold arp_header_ok. wp_load. wp_load. iApply wp_bind.
  iApply (load16_wp with "H1"); [done|]. iIntros "H1". wp_load. change (ARPHRD_ETHER =? htons ARPHRD_ETHER) with true. wp_pures. wp_load. rw Hf. wp_pures.
  wp_load. change (IP_ALEN =? IP_ALEN) with true. wp_pures. wp_load. change (ARPHRD_ETHER =? ARPHRD_AX25) with false. change (ARPHRD_ETHER =? ARPHRD_ETHER) with true.
  iApply wp_bind.
  iApply (load16_wp with "H2"); [done|]. iIntros "H2". iApply wp_ret. iApply ("HQ" with "[$H1 $H2 $H3 $H4 $H5]"). iFrame.
Qed.

Lemma clear_first_wp p v (Q : unit → heapProp) : 0 ≤ v < 2 ^ 32 →
  bytes p (le32 v) -∗ (bytes p (le32 (v / 256 * 256)) -∗ Q tt) -∗ wp (store p 0) Q.
Proof.
  iIntros (Hv) "H HQ". unfold le32. rw !arr_cons. iDestruct "H" as "(Ha & H)". wp_store. iApply "HQ".
  rw (_ : u8 (v / 256 * 256) = 0); [|unfold u8; dlia]. iFrame "Ha". rw !Z.shiftr_div_pow2; [|lia..].
  rw (_ : v / 256 * 256 / 2 ^ 8 = v / 2 ^ 8); [|dlia]. rw (_ : v / 256 * 256 / 2 ^ 16 = v / 2 ^ 16); [|dlia].
  by rw (_ : v / 256 * 256 / 2 ^ 24 = v / 2 ^ 24); [|dlia].
Qed.

(** A request for the address of this host, with the usual zeros for the hardware address that is asked for, is not answered: these zeros are
    taken for the address.  The first bytes of both addresses are overwritten. *)
Theorem arp_request_ignored arp_tables jiffies dev_base del_timer hard_start_xmit rebuild_header hard_header skb dev pt arp op flags sip a :
  {{ (skb + skb_h) ↦ arp ∗ arp_header arp op ∗ arp_device dev flags a ∗ arp_request (arp + sizeof_arphdr) sip a ∗
     ⌜Z.land flags IFF_NOARP = 0 ∧ op ≠ ARPOP_REPLY ∧ 0 ≤ sip < 2 ^ 32 ∧ 0 < a < 2 ^ 32⌝ }}
    arp_rcv arp_tables jiffies dev_base del_timer hard_start_xmit rebuild_header hard_header skb dev pt
  {{ r, ⌜r = 0⌝ ∗ (skb + skb_h) ↦ arp ∗ arp_header arp op ∗ arp_device dev flags a ∗ arp_request (arp + sizeof_arphdr) (sip / 256 * 256) (a / 256 * 256) }}.
Proof.
  apply triple_wp. iIntros "(Hs & Hh & Hd & (R1 & R2 & R3) & (%Hf & %Hop & %Hsip & %Ha))". unfold arp_rcv. wp_load. iApply wp_bind.
  iApply (arp_header_ok_wp with "Hh Hd"); [done|]. iIntros "(H1 & H2 & H3 & H4 & H5) (D1 & D2 & D3 & D4)". cbn [negb]. wp_load. wp_load.
  change ETH_ALEN with 6. iApply wp_bind. iApply (clear_first_wp with "R1"); [done|]. iIntros "R1".
  iApply wp_bind. iApply (load32_wp with "R1"); [dlia|]. iIntros "R1". iApply wp_bind. iApply (clear_first_wp with "R3"); [lia|]. iIntros "R3".
  iApply wp_bind. iApply (load32_wp with "R2"); [done|]. iIntros "R2". change (0 =? INADDR_LOOPBACK) with false. iApply wp_bind. unfold ip_chk_addr.
  change ((0 =? INADDR_ANY) || (0 =? INADDR_BROADCAST) || (0 =? htons 0x7fffffff)) with true. wp_pures. wp_load.
  rw (eqb_false op (htons ARPOP_REPLY) Hop). wp_load. rw (eqb_false 0 a); [|lia]. wp_pures. by iFrame.
Qed.
