(* ===== verification/DevConf.v ===== *)
(** * The configuration of the network devices: dev_ifconf of net/inet/dev.c and the devices of drivers/net/space.c

    The structures [ifconf] and [ifreq] are bytes, since they are copied from and to the caller byte by byte; [memncpy] writes a byte
    0 behind what it copies. *)

From S2P Require Export InodeSpec ArpRcv.

Definition sizeof_ifconf : Z := 8.
Definition sizeof_ifreq : Z := 36.
Definition ifc_len : Z := 0.
Definition ifc_buf : Z := 4.
Definition ifr_name : Z := 0.
Definition ifr_addr : Z := 16.
Definition sin_family : Z := 2.

(** The first two devices: the members that are initialised, [family start tbusy mtu name init hard_header type_trans rebuild_header
    hard_start_xmit next]. *)
Definition nd_initialised : list Z := [nd_family; nd_start; nd_tbusy; nd_mtu; nd_name; nd_init; 16; 20; 24; 28; nd_next].
Definition eth0_dev (name_eth0 ethif_probe : Z) : list Z := [0; 0; 0; 0; name_eth0; ethif_probe; NULL; NULL; NULL; NULL; NULL].
Definition loopback_dev (name_lo loopback_init eth0 : Z) : list Z := [0; 0; 0; 0; name_lo; loopback_init; NULL; NULL; NULL; NULL; eth0].

Section ifconf.
Context (dev_base : Z).

(** The record of one device is built in [ifr] and copied to [pos]. *)
Definition ifconf_record (ifr dev pos : Z) : M unit :=
  memset ifr 0 sizeof_ifreq;;
  n ← load (dev + nd_name);
  strcpy (ifr + ifr_name) n;;
  a ← load (dev + pa_addr);
  store32 (ifr + ifr_addr + sin_addr) a;;
  f ← load (dev + nd_family);
  store16 (ifr + ifr_addr + sin_family) f;;
  memncpy pos ifr sizeof_ifreq.

(** [ifc] and [ifr] are the addresses of the local variables. *)
Definition dev_ifconf (ifc ifr arg : Z) : M Z :=
  memncpy ifc arg sizeof_ifconf;;
  len ← load32 (ifc + ifc_len);
  pos ← load32 (ifc + ifc_buf);
  dev ← load dev_base;
  pos ← loop (λ '(dev, pos, len),
    if dev =? NULL then mret (inr pos) else
    f ← load (dev + nd_flags);
    if Z.land f IFF_UP =? 0 then n ← load (dev + nd_next); mret (inl (n, pos, len)) else
    ifconf_record ifr dev pos;;
    let pos := pos + sizeof_ifreq in
    let len := s32 (len - sizeof_ifreq) in
    if u32 len <? sizeof_ifreq then mret (inr pos) else
    n ← load (dev + nd_next);
    mret (inl (n, pos, len))) (dev, pos, s32 len);
  b ← load32 (ifc + ifc_buf);
  store32 (ifc + ifc_len) (pos - b);;
  b ← load32 (ifc + ifc_buf);
  store32 (ifc + ifc_buf) b;;
  memncpy arg ifc sizeof_ifconf;;
  mret (s32 (pos - arg)).
End ifconf.

(** ** What is reported *)

(** A device: its address, the address and the characters of its name, its flags, address and family. *)
Record ifdev := IfDev { if_dev : Z; if_nameptr : Z; if_name : list Z; if_flags : Z; if_addr : Z; if_family : Z }.

Definition if_up (d : ifdev) : bool := negb (Z.land (if_flags d) IFF_UP =? 0).

(** The name fits in its array. *)
Definition if_ok (d : ifdev) : Prop := (length (if_name d) < 16)%nat.

Definition ifdev_cells (d : ifdev) : heapProp :=
  (if_dev d + nd_flags) ↦ if_flags d ∗ (if_dev d + nd_name) ↦ if_nameptr d ∗
  cstr (if_nameptr d) (if_name d) ∗ (if_dev d + pa_addr) ↦ if_addr d ∗ (if_dev d + nd_family) ↦ if_family d.

Definition ifreq_bytes (d : ifdev) : list Z :=
  if_name d ++ replicate (16 - length (if_name d)) 0 ++ [0; 0] ++ le16 (if_family d) ++ [0; 0; 0; 0] ++ le32 (if_addr d) ++ replicate 8 0.

(** The devices that get a record in a buffer of [len] bytes, of those that are up. *)
Fixpoint reported (len : Z) (ds : list ifdev) : list ifdev :=
  match ds with
  | [] => []
  | d :: ds => if if_up d then d :: (if u32 (s32 (len - 36)) <? 36 then [] else reported (s32 (len - 36)) ds) else reported len ds
  end.

(** The buffer afterwards: behind the last record a byte is cleared. *)
Definition filled (rs : list ifdev) (old : list Z) : list Z :=
  match rs with [] => old | _ => (rs ≫= ifreq_bytes) ++ 0 :: drop (36 * length rs + 1) old end.

(** A buffer with room for a record is filled with as many as it has room for. *)
Lemma reported_fits len ds : 36 ≤ len < 2 ^ 31 → reported len ds = take (Z.to_nat (len / 36)) (filter if_up ds).
Proof.
  revert len. induction ds as [|d ds IH]; intros len Hl; simpl; [by rw take_nil|]. rw filter_cons.
  destruct (if_up d) eqn:E; simpl; [|destruct (decide (Is_true false)); [done|by apply IH]].
  destruct (decide (Is_true true)) as [_|[]]; [|done]. rw s32_small; [|lia]. rw u32_small; [|lia].
  rw (_ : len / 36 = (len - 36) / 36 + 1); [|dlia]. rw Z2Nat.inj_add; [|dlia|lia]. rw Nat.add_comm. cbn [take Nat.add].
  destruct (Z.ltb_spec (len - 36) 36).
  - rw (Z.div_small (len - 36)); [|lia]. done.
  - simpl. by rw IH; [|lia].
Qed.

(** A buffer without room for one gets a record of every device: the rest of its length becomes a large unsigned number. *)
Lemma reported_overruns len ds : (- 2 ^ 31) + 36 * length (filter if_up ds) ≤ len < 36 → reported len ds = filter if_up ds.
Proof.
  revert len. induction ds as [|d ds IH]; intros len Hl; simpl; [done|]. rw filter_cons in Hl |- *.
  destruct (if_up d) eqn:E; simpl in *; [|destruct (decide (Is_true false)); [done|by apply IH]].
  destruct (decide (Is_true true)) as [_|[]]; [|done]. simpl in Hl. rw s32_small; [|lia].
  rw (_ : u32 (len - 36) = len - 36 + 2 ^ 32); [|unfold u32; dlia]. rw (proj2 (Z.ltb_ge _ _)); [|lia]. rw IH; [done|lia].
Qed.

(** ** The program *)

Lemma phys_copy_wp dst src vs old o rest n Q : length old = length vs → n = Z.of_nat (length vs) → n < 2 ^ 31 → 0 < dst → 0 < src →
  bytes src vs -∗ bytes dst (old ++ o :: rest) -∗ (bytes src vs -∗ bytes dst (vs ++ 0 :: rest) -∗ Q 0) -∗ wp (phys_copy dst src n) Q.
Proof.
  iIntros (Hl -> Hn Hd Hs) "Hs Hd HQ". unfold phys_copy. rw !eqb_false; [|unfold NULL; lia..]. iApply wp_bind.
  iApply (wp_wand with "[Hs Hd]"); first iApply (wp_loop _ (λ (k : nat) '((d, s, z) : Z * Z * Z), ∃ vs1 vs2 old2,
    ⌜vs = vs1 ++ vs2 ∧ k = length vs2 ∧ d = (dst + length vs1)%Z ∧ s = (src + length vs1)%Z ∧ z = Z.of_nat (length vs2) ∧ length old2 = length vs2⌝ ∗
    bytes src vs ∗ bytes dst (vs1 ++ old2 ++ o :: rest))%I
    (λ r, ⌜r = (dst + length vs)%Z⌝ ∗ bytes src vs ∗ bytes dst (vs ++ o :: rest))%I (length vs)).
  - iIntros "(%vs1 & %vs2 & %old2 & (-> & _) & H & _)". rw arr_cells. iApply (cells_le with "H"). rw length_app. lia.
  - intros k [[d s] z]. iIntros "(%vs1 & %vs2 & %old2 & (-> & -> & -> & -> & -> & %Hl2) & Hs & Hd)".
    destruct vs2 as [|v vs2], old2 as [|w old2]; try done; simpl in Hl2.
    + change (Z.of_nat (length (@nil Z)) =? 0) with true. wp_pures. rw app_nil_r. by iFrame.
    + rw length_app in Hn. simpl in Hn. rw (eqb_false (Z.of_nat (length (v :: vs2)))); [|simpl; lia]. simpl negb. cbv iota. iApply wp_bind.
      iApply (arr_load _ _ _ (length vs1) v with "Hs"); [by apply list_lookup_middle|lia|]. iIntros "Hs". iApply wp_bind.
      iApply (arr_store _ _ _ (length vs1) w with "Hd"); [by apply list_lookup_middle|lia|]. iIntros "Hd". wp_pures.
      rw insert_app_r_alt; [|lia]. rw Nat.sub_diag /=. iExists (length vs2). iSplit; [iPureIntro; simpl; lia|].
      iExists (vs1 ++ [v]), vs2, old2. iSplit.
      { iPureIntro. rw -app_assoc length_app /=. rw s32_small; [|lia]. split_and!; [done..|lia|lia|lia|lia]. }
      rw -!app_assoc. iFrame.
  - iExists [], vs, old. iFrame. iPureIntro. simpl. split_and!; [done..|lia|lia|done|done].
  - iIntros (r) "(-> & Hs & Hd)". iApply wp_bind. iApply (arr_store _ _ _ (length vs) o with "Hd"); [by apply list_lookup_middle|lia|].
    iIntros "Hd". wp_pures. rw insert_app_r_alt; [|lia]. rw Nat.sub_diag /=. iApply ("HQ" with "Hs Hd").
Qed.

Lemma memncpy_wp dst src vs old o rest n (Q : unit → heapProp) : length old = length vs → n = Z.of_nat (length vs) → n < 2 ^ 31 → 0 < dst → 0 < src →
  bytes src vs -∗ bytes dst (old ++ o :: rest) -∗ (bytes src vs -∗ bytes dst (vs ++ 0 :: rest) -∗ Q tt) -∗ wp (memncpy dst src n) Q.
Proof.
  iIntros (Hl Hn Hn2 Hd Hs) "Hs Hd HQ". unfold memncpy, u_phys_copy. iApply wp_bind.
  iApply (phys_copy_wp with "Hs Hd"); [done..|]. iIntros "Hs Hd". wp_pures. iApply ("HQ" with "Hs Hd").
Qed.

Lemma length_ifreq d : if_ok d → length (ifreq_bytes d) = 36%nat.
Proof. unfold if_ok. intros H. unfold ifreq_bytes. rw !length_app !length_replicate. simpl. lia. Qed.

(** Three parts of a block of bytes, the middle one replaced. *)
Lemma bytes_mid p (a b c : list Z) : bytes p (a ++ b ++ c) ⊢ bytes (p + length a) b ∗ ∀ b', ⌜length b' = length b⌝ -∗ bytes (p + length a) b' -∗ bytes p (a ++ b' ++ c).
Proof.
  rw !arr_app !Z.mul_1_l. iIntros "(Ha & $ & Hc)". iIntros (b' Hb') "Hb". rw !arr_app !Z.mul_1_l Hb'. iFrame.
Qed.

Lemma ifconf_record_wp ifr d pos old o rest oldr (Q : unit → heapProp) : if_ok d → length old = 36%nat → length oldr = 36%nat → 0 < ifr → 0 < pos →
  ifdev_cells d -∗ bytes ifr oldr -∗ bytes pos (old ++ o :: rest) -∗
  (ifdev_cells d -∗ bytes ifr (ifreq_bytes d) -∗ bytes pos (ifreq_bytes d ++ 0 :: rest) -∗ Q tt) -∗ wp (ifconf_record ifr (if_dev d) pos) Q.
Proof.
  iIntros (Hn Ho Hr Hi Hp) "(Hf & Hname & Hs & Haddr & Hfam) Hi Hp HQ". unfold ifconf_record, sizeof_ifreq. pose proof Hn as Hn2. unfold if_ok in Hn2. iApply wp_bind.
  iApply (memset_wp _ _ _ oldr [] with "[Hi]"); [lia|lia|done|by rw app_nil_r|]. rw app_nil_r. change (Z.to_nat 36) with 36%nat. iIntros "Hi". wp_load. iApply wp_bind.
  unfold ifr_name. rw (_ : ifr + 0 = ifr); [|lia].
  rw (_ : replicate 36 0 = replicate (S (length (if_name d))) 0 ++ replicate (35 - length (if_name d)) 0); [|rw -replicate_add; f_equal; lia].
  iApply (strcpy_wp _ _ (if_name d) with "Hs Hi"); [by rw length_replicate|done|]. iIntros "Hs Hi". wp_load.
  set (name := if_name d ++ replicate (16 - length (if_name d)) 0).
  assert (length name = 16%nat) as Hname by (unfold name; rw length_app length_replicate; lia).
  rw (_ : if_name d ++ 0 :: replicate (35 - length (if_name d)) 0 = (name ++ replicate 8 0) ++ [0; 0; 0; 0] ++ replicate 8 0); [|].
  2:{ unfold name. rw -!app_assoc. f_equal. change (0 :: replicate (35 - length (if_name d)) 0) with (replicate (S (35 - length (if_name d))) 0).
      change [0; 0; 0; 0] with (replicate 4 0). rw -!replicate_add. f_equal. lia. }
  iApply wp_bind. iDestruct (bytes_mid with "Hi") as "[Hm Hi]". rw length_app Hname length_replicate.
  unfold ifr_addr, sin_addr, sin_family. rw (_ : ifr + 16 + 8 = ifr + (16 + 8)%nat); [|lia]. iApply (store32_wp with "Hm"); [done|]. iIntros "Hm".
  iDestruct ("Hi" $! (le32 (if_addr d)) with "[//] Hm") as "Hi". wp_load. iApply wp_bind.
  rw (_ : (name ++ replicate 8 0) ++ le32 (if_addr d) ++ replicate 8 0 = (name ++ [0; 0]) ++ [0; 0] ++ ([0; 0; 0; 0] ++ le32 (if_addr d) ++ replicate 8 0)); [|by rw -!app_assoc].
  iDestruct (bytes_mid with "Hi") as "[Hm Hi]". rw length_app Hname. rw (_ : ifr + 16 + 2 = ifr + (16 + length [0; 0])%nat); [|simpl; lia].
  iApply (store16_wp with "Hm"); [done|]. iIntros "Hm". iDestruct ("Hi" $! (le16 (if_family d)) with "[//] Hm") as "Hi".
  rw (_ : (name ++ [0; 0]) ++ le16 (if_family d) ++ [0; 0; 0; 0] ++ le32 (if_addr d) ++ replicate 8 0 = ifreq_bytes d); [|unfold ifreq_bytes, name; by rw -!app_assoc].
  iApply (memncpy_wp with "Hi Hp"); [by rw length_ifreq|by rw length_ifreq|lia|done|done|]. iIntros "Hi Hp". iApply ("HQ" with "[-Hi Hp] Hi Hp"). by iFrame.
Qed.

(** Room for one more record. *)
Lemma filled_split rs old : Forall if_ok rs → (36 * S (length rs) < length old)%nat → ∃ mid o, length mid = 36%nat ∧
  filled rs old = (rs ≫= ifreq_bytes) ++ mid ++ o :: drop (36 * S (length rs) + 1) old.
Proof.
  intros Hok Hl. assert (∀ l : list Z, (36 < length l)%nat → ∃ mid o, length mid = 36%nat ∧ l = mid ++ o :: drop 37 l) as Hsplit.
  { intros l Hl2. destruct (drop 36 l) as [|o l2] eqn:E; [apply (f_equal length) in E; rw length_drop in E; simpl in E; lia|].
    exists (take 36 l), o. split; [rw length_take; lia|]. rw -{1}(take_drop 36 l) E. do 2 f_equal.
    change 37%nat with (36 + 1)%nat. by rw -drop_drop E. }
  destruct rs as [|r rs].
  - destruct (Hsplit old) as (mid & o & Hm & E); [simpl in Hl; lia|]. exists mid, o. split; [done|]. rw {1}E. done.
  - destruct (Hsplit (0 :: drop (36 * length (r :: rs) + 1) old)) as (mid & o & Hm & E); [simpl length in *; rw length_drop; lia|].
    exists mid, o. split; [done|]. unfold filled. f_equal. rw E. do 2 f_equal. change (drop 37 (0 :: ?l)) with (drop 36 l). rw drop_drop. f_equal. lia.
Qed.

Lemma length_ifreqs rs : Forall if_ok rs → length (rs ≫= ifreq_bytes) = (36 * length rs)%nat.
Proof. induction 1 as [|d rs Hd _ IH]; [done|]. rw bind_cons length_app length_ifreq; [|done]. simpl length. lia. Qed.

Lemma filled_snoc rs d old : filled (rs ++ [d]) old = (rs ≫= ifreq_bytes) ++ ifreq_bytes d ++ 0 :: drop (36 * S (length rs) + 1) old.
Proof.
  assert (filled (rs ++ [d]) old = ((rs ++ [d]) ≫= ifreq_bytes) ++ 0 :: drop (36 * length (rs ++ [d]) + 1) old) as -> by (by destruct rs).
  rw bind_app bind_singleton -app_assoc length_app (_ : (length rs + length [d])%nat = S (length rs)); [done|simpl; lia].
Qed.

Section ifconf_loop.
Context (dev_base : Z).

(** The devices, with the list they are linked in. *)
Definition if_devices (ds : list ifdev) : heapProp :=
  slist nd_next dev_base (if_dev <$> ds) ∗ [∗ list] d ∈ ds, ifdev_cells d.

(** The device that is looked at, and the pointer to the one behind it. *)
Lemma if_devices_acc ds1 d ds2 : if_devices (ds1 ++ d :: ds2) ⊢ ⌜if_dev d ≠ NULL⌝ ∗ ifdev_cells d ∗ (if_dev d + nd_next) ↦ first_or NULL (if_dev <$> ds2) ∗
  (ifdev_cells d -∗ (if_dev d + nd_next) ↦ first_or NULL (if_dev <$> ds2) -∗ if_devices (ds1 ++ d :: ds2)).
Proof.
  unfold if_devices. rw fmap_app fmap_cons big_sepL_app /=. iIntros "(Hl & H1 & $ & H2)".
  iDestruct (slist_app with "Hl") as "[(% & Hp & Hn) Hl]". iDestruct (slist_first with "Hn") as "[$ Hn]". iSplit; [done|].
  iIntros "Hd Hx". iFrame "H1 H2 Hd". iApply "Hl". iFrame "Hp". iSplit; [done|]. by iApply "Hn".
Qed.

Lemma if_devices_cells ds : if_devices ds ⊢ cells (length ds).
Proof. unfold if_devices. rw slist_cells length_fmap. iIntros "[H _]". iApply (cells_le with "H"). lia. Qed.

(** The loop adds the records of the devices that are reported. *)
Lemma ifconf_loop_wp ifr ds len buf old oldr Q : Forall if_ok ds → 0 < ifr → 0 < buf → length oldr = 36%nat → - 2 ^ 31 ≤ len < 2 ^ 31 →
  (36 * length (reported len ds) < length old)%nat →
  if_devices ds -∗ bytes ifr oldr -∗ bytes buf old -∗
  (∀ r, ⌜length r = 36%nat⌝ -∗ if_devices ds -∗ bytes ifr r -∗ bytes buf (filled (reported len ds) old) -∗ Q (buf + 36 * length (reported len ds))) -∗
  wp (loop (λ '(dev, pos, len),
    if dev =? NULL then mret (inr pos) else
    f ← load (dev + nd_flags);
    if Z.land f IFF_UP =? 0 then n ← load (dev + nd_next); mret (inl (n, pos, len)) else
    ifconf_record ifr dev pos;;
    let pos := pos + sizeof_ifreq in
    let len := s32 (len - sizeof_ifreq) in
    if u32 len <? sizeof_ifreq then mret (inr pos) else
    n ← load (dev + nd_next);
    mret (inl (n, pos, len))) (first_or NULL (if_dev <$> ds), buf, len)) Q.
Proof.
  iIntros (Hok Hi Hb Hr Hlen Hold) "HD Hi Hb HQ".
  iApply (wp_wand with "[HD Hi Hb]"); first iApply (wp_loop _ (λ (n : nat) '((dev, pos, l) : Z * Z * Z), ∃ ds1 ds2 rs oldr,
    ⌜ds = ds1 ++ ds2 ∧ n = length ds2 ∧ dev = first_or NULL (if_dev <$> ds2) ∧ reported len ds = rs ++ reported l ds2 ∧ Forall if_ok rs ∧
      pos = (buf + 36 * length rs)%Z ∧ (- 2 ^ 31 ≤ l < 2 ^ 31)%Z ∧ length oldr = 36%nat⌝ ∗
    if_devices ds ∗ bytes ifr oldr ∗ bytes buf (filled rs old))%I
    (λ p, ⌜p = (buf + 36 * length (reported len ds))%Z⌝ ∗ if_devices ds ∗ (∃ r, ⌜length r = 36%nat⌝ ∗ bytes ifr r) ∗ bytes buf (filled (reported len ds) old))%I (length ds)).
  - iIntros "(%ds1 & %ds2 & %rs & %r & (-> & -> & _) & H & _)". rw if_devices_cells. iApply (cells_le with "H"). rw length_app. lia.
  - intros n [[dev pos] l]. iIntros "(%ds1 & %ds2 & %rs & %r & (-> & -> & -> & %Hrep & %Hrs & -> & %Hl & %Hlr) & HD & Hi & Hb)".
    destruct ds2 as [|d ds2].
    { simpl in Hrep. rw app_nil_r in Hrep |- *. rw app_nil_r in Hrep. change (first_or NULL (if_dev <$> []) =? NULL) with true. wp_pures. rw Hrep. iFrame "HD Hb". iSplit; [done|]. iExists r. by iFrame. }
    simpl first_or. iDestruct (if_devices_acc with "HD") as "(%Hne & (Hf & Hd) & Hn & HD)". rw (eqb_false (if_dev d)); [|done]. wp_load.
    simpl in Hrep. unfold if_up in Hrep. destruct (Z.land (if_flags d) IFF_UP =? 0) eqn:Eup; simpl in Hrep.
    + wp_load. iDestruct ("HD" with "[$Hf $Hd] Hn") as "HD". wp_pures. iExists (length ds2). iSplit; [iPureIntro; simpl; lia|].
      iExists (ds1 ++ [d]), ds2, rs, r. iFrame. iPureIntro. rw -app_assoc. done.
    + assert (if_ok d) as Hd by (rw Forall_app Forall_cons in Hok; tauto). rw Hrep length_app /= in Hold.
      destruct (filled_split rs old Hrs) as (mid & o & Hm & E); [lia|]. rw E arr_app length_ifreqs; [|done]. iDestruct "Hb" as "[Hb1 Hb2]".
      iApply wp_bind. rw (_ : buf + 1 * (36 * length rs)%nat = buf + 36 * length rs); [|lia].
      iApply (ifconf_record_wp with "[$Hf $Hd] Hi Hb2"); [done|done|done|done|lia|]. iIntros "Hd Hi Hb2".
      iAssert (bytes buf (filled (rs ++ [d]) old)) with "[Hb1 Hb2]" as "Hb".
      { iEval (rw filled_snoc arr_app (length_ifreqs rs Hrs) Nat2Z.inj_mul Z.mul_1_l). iFrame. }
      unfold sizeof_ifreq. rw (_ : buf + 36 * length rs + 36 = buf + 36 * length (rs ++ [d])); [|rw length_app; simpl; lia].
      destruct (u32 (s32 (l - 36)) <? 36) eqn:Estop.
      * iDestruct ("HD" with "Hd Hn") as "HD". wp_pures. rw Hrep. iFrame "HD Hb". iSplit; [done|]. iExists _. iFrame "Hi". by rw length_ifreq.
      * wp_load. iDestruct ("HD" with "Hd Hn") as "HD". wp_pures. iExists (length ds2). iSplit; [iPureIntro; simpl; lia|].
        iExists (ds1 ++ [d]), ds2, (rs ++ [d]), (ifreq_bytes d). iFrame. iPureIntro. rw -!app_assoc. split_and!; [done|done|done|done| | |apply s32_range..|by apply length_ifreq].
        { apply Forall_app. by rw Forall_singleton. } { done. }
  - iExists [], ds, [], oldr. iFrame. iPureIntro. simpl; split_and!; try done; lia.
  - iIntros (p) "(-> & HD & (%r & %Hr2 & Hi) & Hb)". by iApply ("HQ" with "[//] HD Hi Hb").
Qed.

(** C35: [dev_ifconf] fills a buffer that has room for a record with the records of as many devices in use as it has room for, and a byte 0
    behind them, which may be behind the buffer; a buffer with less room gets the records of all of them.  It stores the number of bytes that it
    wrote, and returns the distance of their end from its argument. *)
Theorem dev_ifconf_bounds ifc ifr arg buf len b ds oldc oldr old :
  let ups := filter if_up ds in
  let rs := if 36 <=? len then take (Z.to_nat (len / 36)) ups else ups in
  {{ ⌜Forall if_ok ds ∧ 0 < ifc ∧ 0 < ifr ∧ 0 < arg ∧ 0 < buf < 2 ^ 32 ∧ 0 ≤ len < 2 ^ 31 ∧ length oldc = 9%nat ∧ length oldr = 36%nat ∧
      (36 * length rs < length old)%nat ∧ 36 * length ups < 2 ^ 31⌝ ∗
     if_devices ds ∗ bytes ifc oldc ∗ bytes ifr oldr ∗ bytes arg (le32 len ++ le32 buf ++ [b]) ∗ bytes buf old }}
    dev_ifconf dev_base ifc ifr arg
  {{ v, ⌜v = s32 (buf + 36 * length rs - arg)⌝ ∗ if_devices ds ∗ bytes arg (le32 (36 * length rs) ++ le32 buf ++ [0]) ∗ bytes buf (filled rs old) }}.
Proof.
  intros ups rs. apply triple_wp. iIntros "[(%Hok & %Hc & %Hi & %Ha & %Hb & %Hl & %Hoc & %Hor & %Hold & %Hups) (HD & HC & HI & HA & HB)]".
  assert (reported len ds = rs) as Hrs.
  { unfold rs, ups in *. destruct (Z.leb_spec 36 len); [apply reported_fits; lia|apply reported_overruns; lia]. }
  unfold dev_ifconf, sizeof_ifconf. iApply wp_bind. destruct oldc as [|c [|? [|? [|? [|? [|? [|? [|? [|? [|]]]]]]]]]]; try done.
  rw (app_assoc (le32 len)) (arr_app arg). iDestruct "HA" as "[HA Hx]".
  iApply (memncpy_wp _ _ (le32 len ++ le32 buf) [c; z; z0; z1; z2; z3; z4; z5] z6 [] with "HA HC"); [done|done|lia|done|done|]. iIntros "HA HC".
  unfold ifc_len, ifc_buf. rw -app_assoc (arr_app ifc) (arr_app (ifc + _)). iDestruct "HC" as "(C1 & C2 & C3)".
  change (1 * length (le32 len)) with 4. change (1 * length (le32 buf)) with 4. rw (_ : ifc + 0 = ifc); [|lia].
  iApply wp_bind. iApply (load32_wp with "C1"); [lia|]. iIntros "C1". iApply wp_bind. iApply (load32_wp with "C2"); [lia|]. iIntros "C2".
  iDestruct "HD" as "[HL HD]". iDestruct (slist_first with "HL") as "[Hbase HL]". wp_load. iDestruct ("HL" with "Hbase") as "HL".
  rw s32_small; [|lia]. iApply wp_bind. iApply (ifconf_loop_wp with "[$HL $HD] HI HB"); [done|done|lia|done|lia|by rw Hrs|].
  rw Hrs. iIntros (r Hr) "HD HI HB". iApply wp_bind. iApply (load32_wp with "C2"); [lia|]. iIntros "C2". iApply wp_bind.
  iApply (store32_wp with "C1"); [done|]. iIntros "C1". rw (_ : buf + 36 * length rs - buf = 36 * length rs); [|lia]. iApply wp_bind.
  iApply (load32_wp with "C2"); [lia|]. iIntros "C2". iApply wp_bind. iApply (store32_wp with "C2"); [done|]. iIntros "C2". iApply wp_bind.
  iAssert (bytes ifc (le32 (36 * length rs) ++ le32 buf)) with "[C1 C2]" as "HC"; [iEval (rw arr_app); iFrame|].
  iAssert (bytes arg ((le32 len ++ le32 buf) ++ b :: [])) with "[HA Hx]" as "HA"; [iEval (rw arr_app); iFrame|].
  iApply (memncpy_wp with "HC HA"); [done|done|lia|done|done|]. iIntros "HC HA". rw -app_assoc. wp_pures. by iFrame.
Qed.
End ifconf_loop.

(** A static device: the members that are initialised, and two of the others, which are 0. *)
Definition static_dev (p : Z) (vs : list Z) : heapProp :=
  ([∗ list] o;v ∈ nd_initialised;vs, (p + o) ↦ v) ∗ (p + nd_flags) ↦ 0 ∗ (p + pa_addr) ↦ 0.

(** The devices of the kernel at its start: ["lo"] and ["eth0"], both down. *)
Lemma space_devices dev_base lo eth0 name_lo name_eth0 loopback_init ethif_probe : lo ≠ NULL → eth0 ≠ NULL →
  dev_base ↦ lo -∗ static_dev lo (loopback_dev name_lo loopback_init eth0) -∗ static_dev eth0 (eth0_dev name_eth0 ethif_probe) -∗
  cstr name_lo [108; 111] -∗ cstr name_eth0 [101; 116; 104; 48] -∗
  if_devices dev_base [IfDev lo name_lo [108; 111] 0 0 0; IfDev eth0 name_eth0 [101; 116; 104; 48] 0 0 0].
Proof.
  iIntros (H1 H2) "Hb (L & L1 & L2) (E & E1 & E2) NL NE". simpl.
  iDestruct "L" as "(L3 & _ & _ & _ & L4 & _ & _ & _ & _ & _ & L5 & _)". iDestruct "E" as "(E3 & _ & _ & _ & E4 & _ & _ & _ & _ & _ & E5 & _)".
  unfold if_devices, ifdev_cells. simpl. by iFrame.
Qed.

(** A buffer of 10 bytes at 600 and two devices in use: two records and a byte 0 are written, 73 bytes. *)
Example dev_ifconf_overruns :
  let zeros (p : Z) (n : nat) : list (Z * Z) := (λ i, (p + Z.of_nat i, 0)) <$> seq 0 n in
  let dev p name next := [(p + nd_flags, IFF_UP); (p + nd_name, name); (p + pa_addr, 0x0a000001); (p + nd_family, 2); (p + nd_next, next)] in
  let m : mem := list_to_map ([(8, 1000)] ++ dev 1000 50 2000 ++ dev 2000 60 NULL ++ [(50, 108); (51, 111); (52, 0); (60, 101); (61, 116); (62, 104); (63, 48); (64, 0)] ++
    zeros 100 9%nat ++ zeros 200 36%nat ++ imap (λ i v, (300 + Z.of_nat i, v)) (le32 10 ++ le32 600 ++ [0]) ++ ((λ i, (600 + Z.of_nat i, 9)) <$> seq 0 80%nat)) in
  match dev_ifconf 8 100 200 300 m with
  | Ok r m' => r = 372 ∧ m' !! 636 = Some 101 ∧ m' !! 672 = Some 0 ∧ m' !! 673 = Some 9
  | _ => False
  end.
Proof. vm_compute. auto. Qed.
