(* ===== verification/Ether.v ===== *)
(** * Ethernet headers and the registration of devices: net/eth.c, drivers/net/net_init.c, loopback.c, space.c, ne.c, 21140.c

    Pointers to functions are stored as the addresses of the functions, which are parameters; the function [init] of a device is
    reached through its pointer. *)

From S2P Require Export ArpRcv.

(** struct ethhdr, in the bytes of a packet *)
Definition h_dest : Z := 0.
Definition h_source : Z := 6.
Definition h_proto : Z := 12.

(** struct net_device: pointers to functions. *)
Definition nd_type_trans : Z := 20.
Definition nd_rebuild_header : Z := 24.
Definition nd_hard_start_xmit : Z := 28.

Definition PACKET_BROADCAST : Z := 1.
Definition PACKET_MULTICAST : Z := 2.
Definition MAX_ETH_CARDS : Z := 16.
Definition EIO : Z := 5.

(** ** Headers *)

Definition eth_header (buff dev type daddr saddr len skb : Z) : M Z :=
  store16 (buff + h_proto) (u16 (htons len));;
  (if negb (saddr =? NULL) then al ← load (dev + nd_addr_len); memncpy (buff + h_source) saddr al else mret tt);;
  if negb (daddr =? NULL) then
    al ← load (dev + nd_addr_len); memncpy (buff + h_dest) daddr al;;
    load (dev + hard_header_len)
  else h ← load (dev + hard_header_len); mret (- h).

Section rebuild.
(** [arp_find] of the address resolution *)
Context (arp_find : Z → Z → Z → Z → Z → M Z).

Definition eth_rebuild_header (buff dev dst skb : Z) : M Z :=
  p ← load16 (buff + h_proto);
  if negb (p =? htons ETH_P_IP) then
    al ← load (dev + nd_addr_len); memncpy (buff + h_source) (dev + nd_dev_addr) al;;
    mret 0
  else
    a ← load (dev + pa_addr);
    r ← arp_find (buff + h_dest) dst dev a skb;
    mret (b2z (negb (r =? 0))).
End rebuild.

Definition eth_type_trans (skb dev : Z) : M Z :=
  let eth := skb + skb_data in
  d ← load (eth + h_dest);
  (if negb (Z.land d 0x01 =? 0) then
     c ← memcmp (eth + h_dest) (dev + nd_broadcast) ETH_ALEN;
     if c =? 0 then store (skb + pkt_type) PACKET_BROADCAST else store (skb + pkt_type) PACKET_MULTICAST
   else mret tt);;
  load16 (eth + h_proto).

(** ** Devices *)

Section netdev.
(** [ethdev_index] is an array; [init f dev] is a call of the function [f] of a device. *)
Context (dev_base ethdev_index eth_header_fn eth_type_trans_fn eth_rebuild_header_fn ei_start_xmit_fn : Z) (init : Z → Z → M Z).

Definition ether_setup (dev : Z) : M unit :=
  store (dev + nd_hard_header) eth_header_fn;;
  store (dev + nd_type_trans) eth_type_trans_fn;;
  store (dev + nd_rebuild_header) eth_rebuild_header_fn;;
  store (dev + nd_family) AF_INET.

(** The loop over the cards: the first free place. *)
Definition take_index (dev : Z) : M unit :=
  run (S (Z.to_nat MAX_ETH_CARDS)) (λ i,
    if negb (i <? MAX_ETH_CARDS) then mret (inr tt) else
    e ← load (ethdev_index + 4 * i);
    if e =? NULL then store (ethdev_index + 4 * i) dev;; mret (inr tt) else mret (inl (i + 1))) 0.

(** The test of the name assigns: first a terminator, then a blank, which is true. *)
Definition register_init (dev : Z) : M Z :=
  i ← load (dev + nd_init);
  if i =? NULL then mret 0 else
  nm ← load (dev + nd_name);
  (if negb (nm =? NULL) then
     store nm 0;;
     nm ← load (dev + nd_name); store nm 0x20;;
     take_index dev
   else mret tt);;
  i ← load (dev + nd_init);
  init i dev.

Definition register_netdev (dev : Z) : M Z :=
  d ← load dev_base;
  r ← (if negb (dev =? NULL) then register_init dev else mret 0);
  if negb (r =? 0) then mret (- EIO) else
  b ← load dev_base;
  (if negb (b =? NULL) then
     d ← loop (λ d,
       n ← load (d + nd_next);
       if n =? NULL then mret (inr d) else n ← load (d + nd_next); mret (inl n)) d;
     store (d + nd_next) dev
   else store dev_base dev);;
  store (dev + nd_next) NULL;;
  mret 0.

(** The loop over the cards is left after its first turn. *)
Definition unregister_netdev (dev : Z) : M unit :=
  d ← load dev_base;
  if dev =? NULL then mret tt else
  s ← load (dev + nd_start);
  if negb (s =? 0) then mret tt else
  d ← loop (λ d,
    if d =? NULL then mret (inr d) else
    n ← load (d + nd_next);
    if n =? dev then mret (inr d) else n ← load (d + nd_next); mret (inl n)) d;
  if d =? NULL then mret tt else
  n ← load (d + nd_next);
  if negb (n =? dev) then mret tt else
  n ← load (dev + nd_next);
  store (d + nd_next) n;;
  e ← load ethdev_index;
  if e =? dev then store ethdev_index NULL else mret tt.

Definition loopback_init (dev : Z) : M Z := store (dev + nd_mtu) 2000;; mret 0.

Definition ei_start_xmit (skb dev : Z) : M Z := mret 0.

Definition ethdev_init (dev : Z) : M Z :=
  store (dev + nd_hard_start_xmit) ei_start_xmit_fn;;
  ether_setup dev;;
  mret 0.

Definition ne_probe (dev : Z) : M Z := ethdev_init dev;; mret 0.
Definition ethif_probe (dev : Z) : M Z := ne_probe dev;; mret 0.

Definition init_module (dev_21140 : Z) : M Z :=
  r ← register_netdev dev_21140;
  if negb (r =? 0) then mret (- EIO) else mret 0.
End netdev.
