(* ===== verification/Sock.v ===== *)
(** * Sockets and their numbers: net/inet/af_inet.c, net/socket.c, net/inet/sock.h

    The structures of sockets and protocols, the table of the sockets of a protocol, and the start of the network.  The variables
    [sk1] of [remove_sock] and [sk] of [get_sock] are read before they are set. *)

From S2P Require Export Ether.

(** struct proto *)
Definition po_max_header : Z := 0.
Definition po_retransmits : Z := 4.
Definition po_sock_array : Z := 8.
Definition po_inuse : Z := 1064.
Definition po_highestinuse : Z := 1068.
Definition po_wmalloc : Z := 1072.
Definition po_wfree : Z := 1080.
Definition po_rspace : Z := 1088.
Definition po_build_header : Z := 1116.
Definition po_queue_xmit : Z := 1124.
Definition po_retransmit : Z := 1128.
Definition po_write_wakeup : Z := 1132.
Definition po_read_wakeup : Z := 1136.
Definition sizeof_proto : Z := 1164.

(** struct sock: the links, the protocol and the number. *)
Definition so_next : Z := 0.
Definition so_prot : Z := 24.
Definition so_num : Z := 170.

(** struct proto_ops, struct net_proto *)
Definition ops_family : Z := 0.
Definition np_name : Z := 0.
Definition np_init_func : Z := 4.
Definition sizeof_net_proto : Z := 8.

Definition SOCK_ARRAY_SIZE : Z := 256.
Definition PROT_SOCK : Z := 1024.
Definition NPROTO : Z := 16.

Definition release_sock (sk : Z) : M unit := mret tt.

(** ** The table of the sockets *)

Definition sock_slot (prot num : Z) : Z := prot + po_sock_array + 4 * Z.land num (SOCK_ARRAY_SIZE - 1).

Definition sk_inuse (prot num : Z) : M Z :=
  sk ← find_link so_next (λ sk, n ← load (sk + so_num); mret (n =? num)) (sock_slot prot num);
  mret (b2z (negb (sk =? NULL))).

(** The length of the list that begins at [slot]. *)
Definition count_socks (slot : Z) : M Z :=
  sk ← load slot;
  loop (λ '(sk, j),
    if sk =? NULL then mret (inr j) else
    n ← load (sk + so_next);
    mret (inl (n, s32 (j + 1)))) (sk, 0).

(** The loop over the lists: the first empty one, or the first of the shortest ones. *)
Definition find_slot (prot base : Z) : M (Z + Z) :=
  run (S (Z.to_nat SOCK_ARRAY_SIZE)) (λ '(i, best, size),
    if negb (i <? SOCK_ARRAY_SIZE) then mret (inr (inr best)) else
    j ← count_socks (sock_slot prot (i + base + 1));
    if j =? 0 then mret (inr (inl i)) else
    mret (inl (if j <? size then (i + 1, i, j) else (i + 1, best, size)))) (0, 0, 32767).

(** [start] is the address of the static variable. *)
Definition get_new_socknum (start prot base : Z) : M Z :=
  base ← (if base =? 0 then s ← load start; mret (u16 (PROT_SOCK + 1 + Z.rem s PROT_SOCK)) else mret base);
  base ← (if base <=? PROT_SOCK then s ← load start; mret (u16 (base + (PROT_SOCK + Z.rem s PROT_SOCK))) else mret base);
  r ← find_slot prot base;
  match r with
  | inl i =>
      s ← load start;
      store start (Z.rem (s32 (i + 1 + s)) PROT_SOCK);;
      mret (u16 (i + base + 1))
  | inr best =>
      best ← loop (λ best,
        u ← sk_inuse prot (base + best + 1);
        if negb (u =? 0) then mret (inl (best + SOCK_ARRAY_SIZE)) else mret (inr best)) best;
      mret (u16 (base + best + 1))
  end.

(** Behind the last socket of a list that is not empty the loop ends with the null pointer, through which it stores. *)
Definition put_sock (num sk : Z) : M unit :=
  store (sk + so_num) num;;
  store (sk + so_next) NULL;;
  p ← load (sk + so_prot); store (p + po_inuse) 1;;
  p ← load (sk + so_prot); s ← load (sock_slot p num);
  if s =? NULL then p ← load (sk + so_prot); store (sock_slot p num) sk else
  p ← load (sk + so_prot); sk1 ← load (sock_slot p num);
  sk1 ← loop (λ sk1, if negb (sk1 =? NULL) then n ← load (sk1 + so_next); mret (inl n) else mret (inr sk1)) sk1;
  store (sk1 + so_next) sk;;
  store (sk + so_next) NULL.

(** [sk1_0] is the variable that is read before it is set. *)
Definition remove_sock (sk1_0 sk : Z) : M unit :=
  p ← load (sk + so_prot);
  if p =? NULL then mret tt else
  p ← load (sk + so_prot); n ← load (sk1_0 + so_num); sk1 ← load (sock_slot p n);
  if sk1 =? sk then
    p ← load (sk1 + so_prot); i ← load (p + po_inuse); store (p + po_inuse) (s32 (i - 1));;
    p ← load (sk + so_prot); n ← load (sk1 + so_num); nx ← load (sk1 + so_next);
    store (sock_slot p n) nx
  else
    sk1 ← loop (λ sk1,
      if sk1 =? NULL then mret (inr sk1) else
      n ← load (sk1 + so_next);
      if negb (n =? sk) then n ← load (sk1 + so_next); mret (inl n) else mret (inr sk1)) sk1;
    if negb (sk1 =? NULL) then
      p ← load (sk + so_prot); store (sk + so_prot) (u32 (p - sizeof_proto));;
      n ← load (sk + so_next); store (sk1 + so_next) n;;
      store (sk + so_next) NULL
    else mret tt.

Definition get_sock (sk0 prot num raddr rnum laddr : Z) : M Z := mret sk0.

(** ** Families of protocols: net/socket.c *)

(** The family is not the one that is asked for. *)
Definition sock_register (pops family ops : Z) : M Z :=
  run (S (Z.to_nat NPROTO)) (λ i,
    if negb (i <? NPROTO) then mret (inr (- ENOMEM)) else
    p ← load (pops + 4 * i);
    if negb (p =? NULL) then mret (inl (i + 1)) else
    store (pops + 4 * i) ops;;
    p ← load (pops + 4 * i); store (p + ops_family) AF_INET;;
    mret (inr i)) 0.

Section init.
(** [init_func f proto] is a call of a function of the table [protocols]. *)
Context (init_func : Z → Z → M unit).

(** A protocol without a function is looked at for ever. *)
Definition proto_init (protocols : Z) : M unit :=
  loop (λ proto,
    n ← load (proto + np_name);
    if n =? NULL then mret (inr tt) else
    f ← load (proto + np_init_func);
    if negb (f =? NULL) then
      f ← load (proto + np_init_func); init_func f proto;;
      mret (inl (proto + sizeof_net_proto))
    else mret (inl proto)) protocols.

(** [dev_init] is the function of net/inet/dev.c. *)
Definition init_sock (dev_init : M unit) (pops protocols : Z) : M Z :=
  run (S (Z.to_nat NPROTO)) (λ i,
    if i <? NPROTO then store (pops + 4 * i) NULL;; mret (inl (i + 1)) else mret (inr tt)) 0;;
  proto_init protocols;;
  dev_init;;
  mret 0.
End init.

Definition unix_proto_init (proto : Z) : M unit := mret tt.

(** The loop over the protocols does not step to the next one. *)
Definition add_protocols (inet_protos inet_protocol_base : Z) : M unit :=
  p ← load inet_protocol_base;
  loop (λ p,
    if p =? NULL then mret (inr tt) else
    _ ← load (p + pr_next);
    inet_add_protocol inet_protos p;;
    mret (inl p)) p.

Definition clear_prot (prot : Z) : M unit :=
  store (prot + po_inuse) 0;;
  store (prot + po_highestinuse) 0.

(** [arp_init] and [ip_init] are the functions of the other files. *)
Definition inet_proto_init (arp_init ip_init : M unit) (pops inet_protocol inet_protos inet_protocol_base tcp_prot udp_prot raw_prot proto : Z) : M unit :=
  f ← load (inet_protocol + ops_family);
  sock_register pops f inet_protocol;;
  run (S (Z.to_nat SOCK_ARRAY_SIZE)) (λ i,
    if i <? SOCK_ARRAY_SIZE then
      store (tcp_prot + po_sock_array + 4 * i) NULL;;
      store (udp_prot + po_sock_array + 4 * i) NULL;;
      store (raw_prot + po_sock_array + 4 * i) NULL;;
      mret (inl (i + 1))
    else mret (inr tt)) 0;;
  clear_prot tcp_prot;;
  clear_prot udp_prot;;
  clear_prot raw_prot;;
  add_protocols inet_protos inet_protocol_base;;
  arp_init;;
  ip_init.
