(* ===== verification/SockSpec.v ===== *)
(** * The sockets of a protocol: what net/inet/af_inet.c and net/socket.c do *)

From S2P Require Export Sock.

(** ** Numbers of sockets *)

(** A socket: its structure and its number. *)
Definition sock_cells (s : Z * Z) : heapProp := (s.1 + so_num) ↦ s.2.

(** The lists of the sockets of a protocol; [T h] is the one at the place [h]. *)
Definition sock_list (prot h : Z) (l : list (Z * Z)) : heapProp :=
  slist so_next (prot + po_sock_array + 4 * h) l.*1 ∗ [∗ list] s ∈ l, sock_cells s.
Definition sock_table (prot : Z) (T : Z → list (Z * Z)) : heapProp := [∗ list] h ∈ seqZ 0 SOCK_ARRAY_SIZE, sock_list prot h (T h).

(** The list that a number belongs to, and whether a socket has the number. *)
Definition class_of (T : Z → list (Z * Z)) (n : Z) : list (Z * Z) := T (n mod SOCK_ARRAY_SIZE).
Definition in_use (T : Z → list (Z * Z)) (n : Z) : bool := existsb (λ s, s.2 =? n) (class_of T n).

Section numbers.
Context (prot : Z) (T : Z → list (Z * Z)).

Lemma sock_slot_place n : sock_slot prot n = prot + po_sock_array + 4 * (n mod SOCK_ARRAY_SIZE).
Proof. unfold sock_slot. by rw (Z.land_ones n 8); [|lia]. Qed.

Lemma sock_table_acc n : sock_table prot T ⊢ sock_list prot (n mod SOCK_ARRAY_SIZE) (class_of T n) ∗
  (sock_list prot (n mod SOCK_ARRAY_SIZE) (class_of T n) -∗ sock_table prot T).
Proof.
  unfold sock_table, class_of. apply (big_sepL_elem_of_acc (λ h, sock_list prot h (T h))). apply elem_of_seqZ. unfold SOCK_ARRAY_SIZE. dlia.
Qed.

#[local] Opaque sock_table.

Lemma existsb_filter {A} (f : A → bool) l : existsb f l = negb (bool_decide (filter f l = [])).
Proof.
  induction l as [|x l IH]; [done|]. simpl. destruct (f x) eqn:E; simpl.
  - by rw filter_cons_True; [|by rw E].
  - by rw filter_cons_False; [|rw E; by intros []].
Qed.

Lemma sk_inuse_wp n Q : sock_table prot T -∗ (sock_table prot T -∗ Q (b2z (in_use T n))) -∗ wp (sk_inuse prot n) Q.
Proof.
  iIntros "HT HQ". iDestruct (sock_table_acc n with "HT") as "[[Hl Hs] HT]". unfold sk_inuse. rw sock_slot_place. iApply wp_bind.
  iDestruct (slist_ne with "Hl") as %Hne.
  iApply (find_link_wp so_next fst sock_cells _ (λ s, s.2 =? n) with "Hl Hs").
  { intros s. iIntros "H". unfold sock_cells. wp_load. wp_pures. by iFrame. }
  iIntros "Hl Hs". iDestruct ("HT" with "[$Hl $Hs]") as "HT". iDestruct ("HQ" with "HT") as "HQ".
  assert (negb (from_option fst NULL (head (filter (λ s, s.2 =? n) (class_of T n))) =? NULL) = in_use T n) as Hb; [|iApply wp_ret; by rw -Hb].
  unfold in_use. rw existsb_filter. destruct (filter _ (class_of T n)) as [|s l] eqn:E; [done|]. simpl. rw eqb_false; [done|].
  rw Forall_forall in Hne. apply Hne. assert (s ∈ filter (λ s, s.2 =? n) (class_of T n)) as Hs by (rw E; left). by apply list_elem_of_filter in Hs as [_ Hs].
Qed.

Lemma count_socks_wp n Q : Z.of_nat (length (class_of T n)) < 2 ^ 31 →
  sock_table prot T -∗ (sock_table prot T -∗ Q (Z.of_nat (length (class_of T n)))) -∗ wp (count_socks (sock_slot prot n)) Q.
Proof.
  intros Hn. iIntros "HT HQ". iDestruct (sock_table_acc n with "HT") as "[[Hl Hs] HT]". unfold count_socks. rw sock_slot_place.
  iDestruct (slist_first with "Hl") as "[Hb Hl]". wp_load. iDestruct ("Hl" with "Hb") as "Hl". set (l := class_of T n) in *.
  set (c := prot + po_sock_array + 4 * (n mod SOCK_ARRAY_SIZE)).
  iApply (wp_wand with "[Hl]"); first iApply (wp_loop _ (λ k '((p, j) : Z * Z), ∃ l1 l2, ⌜l.*1 = l1 ++ l2 ∧ k = length l2 ∧
      p = first_or NULL l2 ∧ j = Z.of_nat (length l1)⌝ ∗ slist so_next c l.*1)%I
    (λ j, ⌜j = Z.of_nat (length l)⌝ ∗ slist so_next c l.*1)%I (length l)).
  - iIntros "(%l1 & %l2 & (%E & -> & _) & H)". rw slist_cells. iApply (cells_le with "H"). apply (f_equal length) in E. rw length_app in E. lia.
  - intros k [p j]. iIntros "(%l1 & %l2 & (%E & -> & -> & ->) & Hl)". pose proof (f_equal length E) as Hlen. rw length_app length_fmap in Hlen. destruct l2 as [|x l2].
    { change (first_or NULL (@nil Z)) with NULL. wp_pures. iFrame. iPureIntro. simpl in Hlen. lia. }
    rw E. change (first_or NULL (x :: l2)) with x. iDestruct (slist_app with "Hl") as "[(%Hx & Hx & Hn) Hw]". rw (eqb_false x NULL Hx). wp_pures.
    iDestruct (slist_first with "Hn") as "[Hnx Hn]". wp_load. iDestruct ("Hn" with "Hnx") as "Hn". iExists (length l2).
    iSplit; [iPureIntro; simpl; lia|]. iExists (l1 ++ [x]), l2. iSplit.
    { iPureIntro. rw -assoc_L length_app /=. simpl in Hlen. rw s32_small; [|lia]. split_and!; [done..|lia]. }
    iApply ("Hw" $! (x :: l2)). by iFrame.
  - iExists [], l.*1. iFrame. rw length_fmap. done.
  - iIntros (j) "[-> Hl]". iDestruct ("HT" with "[$Hl $Hs]") as "HT". by iApply "HQ".
Qed.

(** The first of the lists behind [base] with the fewest sockets (the code does not compare lists with 32767 sockets or more). *)
Definition shortest (base i : Z) : Prop :=
  0 ≤ i < SOCK_ARRAY_SIZE ∧
  (∀ j, 0 ≤ j < SOCK_ARRAY_SIZE → Z.min 32767 (Z.of_nat (length (class_of T (base + i + 1)))) ≤ Z.of_nat (length (class_of T (base + j + 1)))) ∧
  (∀ j, 0 ≤ j < i → Z.of_nat (length (class_of T (base + i + 1))) < Z.of_nat (length (class_of T (base + j + 1)))).

(** What the loop over the lists finds. *)
Definition slot_found (base : Z) (r : Z + Z) : Prop :=
  match r with
  | inl i => shortest base i ∧ class_of T (base + i + 1) = []
  | inr best => shortest base best ∧ class_of T (base + best + 1) ≠ []
  end.

Lemma find_slot_wp base Q : (∀ n, Z.of_nat (length (class_of T n)) < 2 ^ 31) →
  sock_table prot T -∗ (∀ r, ⌜slot_found base r⌝ -∗ sock_table prot T -∗ Q r) -∗ wp (find_slot prot base) Q.
Proof.
  intros Hlen. iIntros "HT HQ". unfold find_slot. set (len := λ i, Z.of_nat (length (class_of T (base + i + 1)))).
  iApply (wp_wand with "[HT]"); first iApply (wp_run_from _ (λ n '((i, best, size) : Z * Z * Z), ⌜n = Z.to_nat (SOCK_ARRAY_SIZE - i) ∧ 0 ≤ i ≤ SOCK_ARRAY_SIZE ∧
      0 ≤ best < SOCK_ARRAY_SIZE ∧ size ≤ 32767 ∧ (size < 32767 → size = len best ∧ best < i) ∧ (size = 32767 → best = 0) ∧
      (∀ j, 0 ≤ j < i → size ≤ len j ∧ 0 < len j) ∧ (∀ j, 0 ≤ j < best → size < len j)⌝ ∗ sock_table prot T)%I
    (λ r, ⌜slot_found base r⌝ ∗ sock_table prot T)%I (Z.to_nat SOCK_ARRAY_SIZE)); [lia| | |].
  - intros n [[i best] size]. iIntros "[(-> & %Hi & %Hb & %Hs & %Hsb & %Hs0 & %Hmin & %Hfst) HT]".
    destruct (Z.ltb_spec i SOCK_ARRAY_SIZE) as [Hlt|Hge]; cbn [negb]; [wp_pures|].
    2:{ wp_pures. iSplit; [iPureIntro|iExact "HT"]. assert (0 < len best) as Hpos by (apply Hmin; lia). split.
      - split; [done|]. fold (len best). split; intros j Hj; fold (len j).
        + destruct (Hmin j ltac:(lia)). lia.
        + destruct (Z.eq_dec size 32767) as [E|E]; [specialize (Hs0 E); lia|]. destruct Hsb as [<- _]; [lia|]. by apply Hfst.
      - intros E. unfold len in Hpos. rw E in Hpos. simpl in Hpos. lia. }
    rw (_ : i + base + 1 = base + i + 1); [|lia]. iApply wp_bind. iApply (count_socks_wp (base + i + 1) with "HT"); [done|]. iIntros "HT".
    destruct (Z.eqb_spec (Z.of_nat (length (class_of T (base + i + 1)))) 0) as [H0|H0]; wp_pures.
    { iSplit; [iPureIntro|iExact "HT"]. split; [|apply length_zero_iff_nil; lia]. split; [lia|]. rw H0. split; intros j Hj; [lia|]. by apply Hmin. }
    fold (len i). fold (len i) in H0. assert (0 < len i) by (unfold len in *; lia). iExists (Z.to_nat (SOCK_ARRAY_SIZE - (i + 1))). iSplit; [iPureIntro; lia|].
    destruct (Z.ltb_spec (len i) size); (iSplit; [iPureIntro|iExact "HT"]); (split_and!; [lia..| | |]); try lia;
      intros j Hj; try (destruct (decide (j = i)) as [->|]; [lia|]); try (destruct (Hmin j ltac:(lia)); lia). by apply Hfst.
  - iSplit; [iPureIntro|iExact "HT"]. unfold SOCK_ARRAY_SIZE. split_and!; try lia.
  - iIntros (r) "[%Hr HT]". by iApply ("HQ" with "[//]").
Qed.

Lemma class_of_shift n t : class_of T (n + SOCK_ARRAY_SIZE * t) = class_of T n.
Proof. unfold class_of. rw (Z.mul_comm SOCK_ARRAY_SIZE t). by rw Z_mod_plus_full. Qed.

Lemma class_cells n : sock_table prot T ⊢ cells (length (class_of T n)).
Proof.
  iIntros "HT". iDestruct (sock_table_acc n with "HT") as "[[Hl _] _]". rw slist_cells. iApply (cells_le with "Hl"). rw length_fmap. lia.
Qed.

(** The sockets of a list with a number from [n] on. *)
Definition above (n : Z) (l : list (Z * Z)) : list (Z * Z) := filter (λ s, n <=? s.2) l.

Lemma above_length n l : (length (above n l) ≤ length l)%nat.
Proof. apply length_filter. Qed.

Lemma above_shrinks n d l : 0 < d → existsb (λ s, s.2 =? n) l = true → (length (above (n + d) l) < length (above n l))%nat.
Proof.
  intros Hd He. assert (∀ l', (length (above (n + d) l') ≤ length (above n l'))%nat) as Hle.
  { intros l'. induction l' as [|s l' IH]; [done|]. unfold above. rw !filter_cons. repeat case_decide; simpl; try (unfold above in IH; lia).
    exfalso. match goal with H : ¬ Is_true (n <=? s.2) |- _ => apply H end. apply Is_true_true, Z.leb_le.
    match goal with H : Is_true (n + d <=? s.2) |- _ => apply Is_true_true, Z.leb_le in H end. lia. }
  induction l as [|s l IH]; [done|]. cbn [existsb] in He. unfold above. destruct (Z.eqb_spec s.2 n) as [Hs|Hs].
  - rw filter_cons_False; [|rw (_ : (n + d <=? s.2) = false); [by intros []|apply Z.leb_gt; lia]].
    rw filter_cons_True; [|apply Is_true_true, Z.leb_le; lia]. simpl. specialize (Hle l). unfold above in Hle. lia.
  - specialize (IH He). unfold above in IH. rw !filter_cons. repeat case_decide; simpl; try lia.
    exfalso. match goal with H : ¬ Is_true (n <=? s.2) |- _ => apply H end. apply Is_true_true, Z.leb_le.
    match goal with H : Is_true (n + d <=? s.2) |- _ => apply Is_true_true, Z.leb_le in H end. lia.
Qed.

(** The number behind which the search begins: [base], or one made from the rotating start when [base] is zero or one of the numbers that are kept for the system. *)
Definition search_base (base s : Z) : Z :=
  let b := if base =? 0 then PROT_SOCK + 1 + s else base in if b <=? PROT_SOCK then b + (PROT_SOCK + s) else b.

(** The first of the numbers [first], [first + SOCK_ARRAY_SIZE], ... that no socket has is reached after [t] steps. *)
Definition first_free (first t : Z) : Prop :=
  0 ≤ t ∧ in_use T (first + SOCK_ARRAY_SIZE * t) = false ∧ ∀ k, 0 ≤ k < t → in_use T (first + SOCK_ARRAY_SIZE * k) = true.

Lemma search_base_wp start s base (Q : Z → heapProp) : 0 ≤ s < PROT_SOCK → 0 ≤ base < 2 ^ 16 → start ↦ s -∗ (start ↦ s -∗ Q (search_base base s)) -∗
  wp (base ← (if base =? 0 then s ← load start; mret (u16 (PROT_SOCK + 1 + Z.rem s PROT_SOCK)) else mret base);
      if base <=? PROT_SOCK then s ← load start; mret (u16 (base + (PROT_SOCK + Z.rem s PROT_SOCK))) else mret base) Q.
Proof.
  intros Hs Hb. iIntros "Hs HQ". unfold search_base. iApply wp_bind.
  iApply (wp_wand _ (λ b, ⌜b = (if base =? 0 then PROT_SOCK + 1 + s else base)%Z⌝ ∗ start ↦ s)%I with "[Hs]").
  { destruct (base =? 0); [wp_load; rw Z.rem_small; [|done]; rw (_ : u16 (PROT_SOCK + 1 + s) = PROT_SOCK + 1 + s); [|unfold PROT_SOCK, u16 in *; dlia]|wp_pures]; by iFrame. }
  iIntros (b) "[-> Hs]". set (b := if base =? 0 then _ else _). destruct (Z.leb_spec b PROT_SOCK) as [Hle|Hgt]; [|wp_pures; by iApply "HQ"].
  wp_load. rw Z.rem_small; [|done]. rw (_ : u16 (b + (PROT_SOCK + s)) = b + (PROT_SOCK + s)); [by iApply "HQ"|]. unfold u16. rw Z.mod_small; [done|].
  subst b. unfold PROT_SOCK in *. destruct (base =? 0); lia.
Qed.

(** C34: [get_new_socknum] ends.  It chooses the first list with the fewest sockets behind [base] (or behind a number made from the rotating start, when [base] is zero or kept for
    the system), and in this list the first number, in steps of the number of lists, that no socket has; the number is reduced to sixteen bits.  The start moves on exactly when the
    list is empty. *)
Theorem get_new_socknum_free start s base :
  {{ sock_table prot T ∗ start ↦ s ∗ ⌜0 ≤ s < PROT_SOCK ∧ 0 ≤ base < 2 ^ 16 ∧ ∀ n, Z.of_nat (length (class_of T n)) < 2 ^ 31⌝ }}
    get_new_socknum start prot base
  {{ r, ∃ i t, let first := (search_base base s + i + 1)%Z in
       ⌜shortest (search_base base s) i ∧ first_free first t ∧ r = u16 (first + SOCK_ARRAY_SIZE * t)⌝ ∗
       sock_table prot T ∗ start ↦ (if bool_decide (class_of T first = []) then (i + 1 + s) mod PROT_SOCK else s) }}.
Proof.
  apply triple_wp. iIntros "(HT & Hs & (%Hs & %Hb & %Hlen))". unfold get_new_socknum. iApply wp_assoc. iApply wp_bind.
  iApply (search_base_wp with "Hs"); [done..|]. iIntros "Hs". set (b := search_base base s).
  iApply wp_bind. iApply (find_slot_wp with "HT"); [done|]. iIntros ([i|best]) "%Hr HT".
  - destruct Hr as [Hi He]. wp_load. wp_store. iExists i, 0. cbv zeta. iFrame "HT". rw bool_decide_true; [|done]. destruct (proj1 Hi) as [Hi0 Hi1].
    rw (_ : Z.rem (s32 (i + 1 + s)) PROT_SOCK = (i + 1 + s) mod PROT_SOCK).
    2:{ rw s32_small; [|unfold PROT_SOCK, SOCK_ARRAY_SIZE in *; lia]. apply Z.rem_mod_nonneg; [lia|done]. }
    iFrame "Hs". iPureIntro. rw !Z.mul_0_r !Z.add_0_r. split_and!; [done| |f_equal; lia]. split_and!; [lia| |lia]. rw Z.mul_0_r Z.add_0_r. unfold in_use. by rw He.
  - destruct Hr as [Hmin Hne]. set (first := b + best + 1) in *.
    iApply wp_bind. iApply (wp_wand with "[HT]"); first iApply (wp_loop _ (λ n (x : Z), ∃ t : Z, ⌜x = (best + SOCK_ARRAY_SIZE * t)%Z ∧ 0 ≤ t ∧
        n = length (above (first + SOCK_ARRAY_SIZE * t) (class_of T first)) ∧ ∀ k, 0 ≤ k < t → in_use T (first + SOCK_ARRAY_SIZE * k) = true⌝ ∗ sock_table prot T)%I
      (λ x : Z, ∃ t : Z, ⌜x = (best + SOCK_ARRAY_SIZE * t)%Z ∧ first_free first t⌝ ∗ sock_table prot T)%I).
    + iIntros "(%t & (_ & _ & -> & _) & HT)". rw (class_cells first). iApply (cells_le with "HT"). apply above_length.
    + intros n x. iIntros "(%t & (-> & %Ht & -> & %Hall) & HT)". rw (_ : b + (best + SOCK_ARRAY_SIZE * t) + 1 = first + SOCK_ARRAY_SIZE * t); [|unfold first; lia].
      iApply wp_bind. iApply (sk_inuse_wp with "HT"). iIntros "HT". destruct (in_use T _) eqn:Eu; simpl; wp_pures.
      * iExists _. iSplit; [|iExists (t + 1); iSplit; [iPureIntro|iExact "HT"]; split_and!; [lia|lia|done|]].
        { iPureIntro. rw (_ : first + SOCK_ARRAY_SIZE * (t + 1) = first + SOCK_ARRAY_SIZE * t + SOCK_ARRAY_SIZE); [|lia].
          apply above_shrinks; [done|]. unfold in_use in Eu. by rw class_of_shift in Eu. }
        intros k0 Hk0. destruct (decide (k0 = t)) as [->|]; [done|]. apply Hall. lia.
      * iExists t. iSplit; [iPureIntro|iExact "HT"]. done.
    + iExists 0. iSplit; [iPureIntro|iExact "HT"]. split_and!; [lia|lia|done|lia].
    + iIntros (x) "(%t & (-> & %Hf) & HT)". wp_pures. iExists best, t. cbv zeta. fold first. rw bool_decide_false; [|done]. iFrame "HT Hs". iPureIntro.
      split_and!; [done|done|]. unfold first. f_equal. lia.
Qed.
End numbers.

(** ** Entering a socket *)

(** [put_sock] enters a socket into an empty list. *)
Theorem put_sock_first prot num sk a b i :
  {{ sock_list prot (num mod SOCK_ARRAY_SIZE) [] ∗ (sk + so_num) ↦ a ∗ (sk + so_next) ↦ b ∗ (sk + so_prot) ↦ prot ∗ (prot + po_inuse) ↦ i ∗ ⌜sk ≠ NULL⌝ }}
    put_sock num sk
  {{ _, sock_list prot (num mod SOCK_ARRAY_SIZE) [(sk, num)] ∗ (sk + so_prot) ↦ prot ∗ (prot + po_inuse) ↦ 1 }}.
Proof.
  apply triple_wp. iIntros "([Hl _] & Hn & Hx & Hp & Hi & %Hsk)". cbn [slist fmap list_fmap]. iEval (rw -(sock_slot_place prot num)) in "Hl".
  unfold put_sock. wp_store. wp_store. wp_load. wp_store. wp_load. wp_load. wp_load. wp_store.
  unfold sock_list, sock_cells. simpl. rw sock_slot_place. by iFrame.
Qed.

Lemma store_none p w m u m' q : store p w m = Ok u m' → m !! q = None → m' !! q = None.
Proof. intros [-> [v Hv]]%store_inv Hq. rw lookup_insert_ne; [done|]. intros ->. congruence. Qed.

(** [put_sock] does not return when the list of the number has a socket already: it stores through the null pointer
    at the end of the list. *)
Theorem put_sock_second_faults num sk prot x m : m !! NULL = None →
  NoDup [sk + so_num; sk + so_next; sk + so_prot; prot + po_inuse; sock_slot prot num] →
  m !! (sk + so_prot) = Some prot → m !! sock_slot prot num = Some x → x ≠ NULL →
  ∀ m', put_sock num sk m ≠ Ok tt m'.
Proof.
  intros H0 Hnd Hp Hs Hx m' H. rw !NoDup_cons !not_elem_of_cons in Hnd. destruct Hnd as ((? & ? & ? & ? & _) & (? & ? & ? & _) & (? & ? & _) & (? & _) & _ & _).
  unfold put_sock in H. apply bind_ok in H as (u1 & m1 & S1 & H). pose proof (store_none _ _ _ _ _ _ S1 H0) as N1. apply store_inv in S1 as [E1 _].
  apply bind_ok in H as (u2 & m2 & S2 & H). pose proof (store_none _ _ _ _ _ _ S2 N1) as N2. apply store_inv in S2 as [E2 _].
  apply bind_ok in H as (p & m3 & [-> E]%load_inv & H). assert (p = prot) as -> by (subst; rw !lookup_insert_ne in E; congruence).
  apply bind_ok in H as (u3 & m4 & S3 & H). pose proof (store_none _ _ _ _ _ _ S3 N2) as N3. apply store_inv in S3 as [E3 _].
  apply bind_ok in H as (p & m5 & [-> E4]%load_inv & H). assert (p = prot) as -> by (subst; rw !lookup_insert_ne in E4; congruence).
  apply bind_ok in H as (y & m6 & [-> E5]%load_inv & H). assert (y = x) as -> by (subst; rw !lookup_insert_ne in E5; congruence).
  rw (eqb_false x NULL Hx) in H. apply bind_ok in H as (p & m7 & [-> _]%load_inv & H). apply bind_ok in H as (z & m8 & [-> _]%load_inv & H).
  apply bind_ok in H as (e & m9 & Hl & H). apply (loop_inv _ (λ _ m, m !! NULL = None) (λ e m, e = NULL ∧ m !! NULL = None)) in Hl as [-> N4]; [|clear|done].
  - apply bind_ok in H as (u4 & m10 & [_ [v Hv]]%store_inv & _). change (NULL + so_next) with NULL in Hv. congruence.
  - intros s m1 r m2 HN. destruct (Z.eqb_spec s NULL) as [->|]; cbn [negb]; [by intros [= <- <-]|]. by intros (nx & m3 & [-> _]%load_inv & [= <- <-])%bind_ok.
Qed.

Lemma put_sock_second_faults_witness :
  let m : mem := list_to_map [(170, 0); (0 + 4000, 0); (24 + 4000, 8000); (170 + 4000, 0); (8000 + 1064, 0); (8000 + 8 + 4 * 7, 6000); (6000, 0)] in
  ∀ m', put_sock 1031 4000 m ≠ Ok tt m'.
Proof.
  intros m. apply (put_sock_second_faults 1031 4000 8000 6000 m); [reflexivity| |reflexivity|reflexivity|discriminate].
  repeat (apply NoDup_cons; split; [rw ?not_elem_of_cons; repeat split; try discriminate; apply not_elem_of_nil|]). apply NoDup_nil_2.
Defined.

(** ** Families and protocols *)

(** [sock_register] takes the first free place of the table and marks the family as that of the internet, whatever was asked
    for; without a free place it changes nothing. *)
Theorem sock_register_correct pops ps family ops f :
  {{ arr pops 4 ps ∗ (ops + ops_family) ↦ f ∗ ⌜length ps = Z.to_nat NPROTO ∧ ops ≠ NULL⌝ }}
    sock_register pops family ops
  {{ r, (∃ i : nat, ⌜r = Z.of_nat i ∧ ps !! i = Some NULL ∧ ∀ j, (j < i)%nat → ps !! j ≠ Some NULL⌝ ∗
           arr pops 4 (<[i := ops]> ps) ∗ (ops + ops_family) ↦ AF_INET) ∨
        (⌜r = - ENOMEM ∧ NULL ∉ ps⌝ ∗ arr pops 4 ps ∗ (ops + ops_family) ↦ f) }}.
Proof.
  apply triple_wp. iIntros "(Ha & Hf & (%Hl & %Ho))". unfold sock_register.
  iApply (wp_run_from _ (λ n i, ∃ k : nat, ⌜i = Z.of_nat k ∧ n = (16 - k)%nat ∧ (k ≤ 16)%nat ∧ ∀ j, (j < k)%nat → ps !! j ≠ Some NULL⌝ ∗
      arr pops 4 ps ∗ (ops + ops_family) ↦ f)%I _ 16); [vm_compute; lia| |iExists 0%nat; iFrame; iPureIntro; split_and!; [done|done|lia|intros; lia]].
  intros n i. iIntros "(%k & (-> & -> & %Hk & %Hall) & Ha & Hf)". change (Z.to_nat NPROTO) with 16%nat in Hl. destruct (Z.ltb_spec (Z.of_nat k) NPROTO) as [Hlt|Hge]; cbn [negb].
  - destruct (lookup_lt_is_Some_2 ps k) as [v Hv]; [unfold NPROTO in *; lia|]. iApply wp_bind. iApply (arr_load with "Ha"); [done|lia|]. iIntros "Ha".
    destruct (Z.eqb_spec v NULL) as [->|Hne]; cbn [negb].
    + iApply wp_bind. iApply (arr_store with "Ha"); [done|lia|]. iIntros "Ha".
      iApply wp_bind. iApply (arr_load with "Ha"); [apply list_lookup_insert_eq; by eapply lookup_lt_Some|lia|]. iIntros "Ha". wp_store. iLeft. iExists k. by iFrame.
    + wp_pures. iExists (16 - S k)%nat. iSplit; [iPureIntro; unfold NPROTO in *; lia|]. iExists (S k). iFrame. iPureIntro. split_and!; [lia|lia|unfold NPROTO in *; lia|].
      intros j Hj. destruct (decide (j = k)) as [->|]; [congruence|]. apply Hall. lia.
  - wp_pures. iRight. iFrame. iPureIntro. split; [done|]. intros [j Hj]%list_elem_of_lookup. apply (Hall j); [|done].
    apply lookup_lt_Some in Hj. unfold NPROTO in *. lia.
Qed.

(** With a protocol to enter, the start of the network does not return: the loop of [inet_proto_init] enters the first one again and
    again. *)
Theorem add_protocols_hangs inet_protos inet_protocol_base p m : m !! inet_protocol_base = Some p → p ≠ NULL →
  ∀ m', add_protocols inet_protos inet_protocol_base m ≠ Ok tt m'.
Proof.
  intros Hb Hp m' (p' & m1 & [-> E]%load_inv & H)%bind_ok. assert (p' = p) as -> by congruence.
  refine (loop_inv _ (λ s _, s = p) (λ _ _, False) _ _ _ _ _ _ H); [|done]. intros s m1 x m2 ->. rw (eqb_false p NULL Hp).
  intros (n & m3 & _ & H')%bind_ok. apply bind_ok in H' as (u & m4 & _ & [= <- _]). done.
Qed.

(** ** Registration of devices *)

Section netdev.
Context (dev_base ethdev_index : Z) (init : Z → Z → M Z).

(** A device that is being registered: its name is a buffer, its function [init] is called. *)
Definition new_device (dev nm c f nx : Z) : heapProp :=
  (dev + nd_name) ↦ nm ∗ nm ↦ c ∗ (dev + nd_init) ↦ f ∗ (dev + nd_next) ↦ nx.

(** The places of the cards after [dev] has taken the first free one. *)
Fixpoint take_first (dev : Z) (cs : list Z) : list Z :=
  match cs with
  | [] => []
  | c :: cs => if c =? NULL then dev :: cs else c :: take_first dev cs
  end.

Lemma take_first_app dev cs1 cs2 : Forall (λ c, c ≠ NULL) cs1 → take_first dev (cs1 ++ cs2) = cs1 ++ take_first dev cs2.
Proof. induction 1 as [|c cs Hc _ IH]; [done|]. simpl. by rw (eqb_false c NULL Hc) IH. Qed.

Lemma take_index_wp dev cs Q : length cs = Z.to_nat MAX_ETH_CARDS →
  arr ethdev_index 4 cs -∗ (arr ethdev_index 4 (take_first dev cs) -∗ Q tt) -∗ wp (take_index ethdev_index dev) Q.
Proof.
  intros Hl. iIntros "Ha HQ". unfold take_index.
  iApply (wp_wand with "[Ha]"); first iApply (wp_run_from _ (λ n i, ∃ cs1 cs2, ⌜cs = cs1 ++ cs2 ∧ i = Z.of_nat (length cs1) ∧ n = length cs2 ∧ Forall (λ c, c ≠ NULL) cs1⌝ ∗
      arr ethdev_index 4 cs)%I (λ _, arr ethdev_index 4 (take_first dev cs)) (Z.to_nat MAX_ETH_CARDS)); [lia| | |].
  - intros n i. iIntros "(%cs1 & %cs2 & (-> & -> & -> & %Hne) & Ha)". rw length_app in Hl. rw take_first_app; [|done]. destruct cs2 as [|c cs2].
    { rw (_ : (Z.of_nat (length cs1) <? MAX_ETH_CARDS) = false); [|apply Z.ltb_ge; unfold MAX_ETH_CARDS in *; simpl in Hl; lia]. cbn [negb]. wp_pures. simpl. by rw app_nil_r. }
    rw (_ : (Z.of_nat (length cs1) <? MAX_ETH_CARDS) = true); [|apply Z.ltb_lt; unfold MAX_ETH_CARDS in *; simpl in Hl; lia]. cbn [negb].
    iApply wp_bind. iApply (arr_load with "Ha"); [by apply list_lookup_middle|lia|]. iIntros "Ha". simpl. destruct (Z.eqb_spec c NULL) as [->|Hc].
    + iApply wp_bind. iApply (arr_store with "Ha"); [by apply list_lookup_middle|lia|]. iIntros "Ha". wp_pures. by rw insert_app_r_alt; [rw Nat.sub_diag|].
    + wp_pures. iExists (length cs2). iSplit; [iPureIntro; simpl; lia|]. iExists (cs1 ++ [c]), cs2. rw -assoc_L. iFrame. iPureIntro.
      rw length_app /=. split_and!; [done|lia|done|]. apply Forall_app. auto.
  - iExists [], cs. iFrame. iPureIntro. simpl. auto.
  - iIntros (u) "Ha". destruct u. by iApply "HQ".
Qed.

Lemma last_device_wp d ds (Q : Z → heapProp) :
  slist nd_next dev_base (d :: ds) -∗ (slist nd_next dev_base (d :: ds) -∗ Q (List.last (d :: ds) d)) -∗
  wp (loop (λ d, n ← load (d + nd_next); if n =? NULL then mret (inr d) else n ← load (d + nd_next); mret (inl n)) d) Q.
Proof.
  iIntros "Hl HQ". iApply (wp_wand with "[Hl]"); first iApply (wp_loop _ (λ n p, ∃ ds1 ds2, ⌜d :: ds = ds1 ++ p :: ds2 ∧ n = length ds2⌝ ∗
      slist nd_next dev_base (d :: ds))%I (λ r, ⌜r = List.last (d :: ds) d⌝ ∗ slist nd_next dev_base (d :: ds))%I (length ds)).
  - iIntros "(%ds1 & %ds2 & (%E & ->) & H)". rw slist_cells. iApply (cells_le with "H"). apply (f_equal length) in E. rw length_app in E. simpl in *. lia.
  - intros n p. iIntros "(%ds1 & %ds2 & (%E & ->) & Hl)". rw E. iDestruct (slist_app with "Hl") as "[(%Hp & Hp & Hn) Hw]".
    iDestruct (slist_first with "Hn") as "[Hx Hn]". wp_load. destruct ds2 as [|p2 ds2].
    + change (first_or NULL (@nil Z)) with NULL. wp_pures. iDestruct ("Hn" with "Hx") as "Hn". iSplit; [|iApply ("Hw" $! [p]); by iFrame]. iPureIntro. by rw List.last_last.
    + change (first_or NULL (p2 :: ds2)) with p2. iAssert ⌜p2 ≠ NULL⌝%I as %Hp2.
      { iDestruct ("Hn" with "Hx") as "(%H & _)". done. }
      rw (eqb_false p2 NULL Hp2). wp_load. iDestruct ("Hn" with "Hx") as "Hn". iExists (length ds2). iSplit; [iPureIntro; simpl; lia|].
      iExists (ds1 ++ [p]), ds2. rw -assoc_L. iSplit; [done|]. iApply ("Hw" $! (p :: p2 :: ds2)). by iFrame.
  - iExists [], ds. by iFrame.
  - iIntros (r) "[-> Hl]". by iApply "HQ".
Qed.

(** [register_netdev] puts a device behind the others when its function [init] succeeds.  It also overwrites the first character of the
    name with a blank, and takes a place for the card, whatever the name was. *)
Theorem register_netdev_appends dev nm c f nx ds cs P :
  (P ⊢ wp (init f dev) (λ r, ⌜r = 0⌝ ∗ P)) →
  {{ slist nd_next dev_base ds ∗ new_device dev nm c f nx ∗ arr ethdev_index 4 cs ∗ P ∗
     ⌜dev ≠ NULL ∧ nm ≠ NULL ∧ f ≠ NULL ∧ length cs = Z.to_nat MAX_ETH_CARDS⌝ }}
    register_netdev dev_base ethdev_index init dev
  {{ r, ⌜r = 0⌝ ∗ slist nd_next dev_base (ds ++ [dev]) ∗ (dev + nd_name) ↦ nm ∗ nm ↦ 0x20 ∗ (dev + nd_init) ↦ f ∗
     arr ethdev_index 4 (take_first dev cs) ∗ P }}.
Proof.
  intros Hinit. apply triple_wp. iIntros "(Hl & (Hnm & Hc & Hf & Hx) & Ha & HP & (%Hd & %Hn & %Hf & %Hcs))". unfold register_netdev.
  iDestruct (slist_first with "Hl") as "[Hb Hl]". wp_load. rw (eqb_false dev NULL Hd). cbn [negb]. unfold register_init. iApply wp_bind. wp_load.
  rw (eqb_false f NULL Hf). wp_load. rw (eqb_false nm NULL Hn). cbn [negb]. iApply wp_bind. wp_store. wp_load. wp_store. iApply (take_index_wp with "Ha"); [done|].
  iIntros "Ha". wp_load. iApply (wp_wand with "[HP]"); [by iApply Hinit|]. iIntros (r) "[-> HP]". change (negb (0 =? 0)) with false.
  wp_load. iDestruct ("Hl" with "Hb") as "Hl". destruct ds as [|d ds].
  - change (first_or NULL (@nil Z) =? NULL) with true. wp_pures. cbn [slist]. wp_store. wp_store. wp_pures. by iFrame.
  - change (first_or NULL (d :: ds)) with d. iAssert ⌜d ≠ NULL⌝%I as %Hd0; [by iDestruct "Hl" as "[$ _]"|]. rw (eqb_false d NULL Hd0). cbn [negb]. iApply wp_bind.
    iApply wp_bind. iApply (last_device_wp with "Hl"). iIntros "Hl". destruct (exists_last (l := d :: ds)) as (ds' & y & E); [done|]. rw E List.last_last.
    iDestruct (slist_app _ _ ds' [y] with "Hl") as "[(%Hy & Hy & Hyn) Hw]". cbn [slist]. wp_store. wp_store. wp_pures. iSplit; [done|]. iFrame.
    rw -assoc_L. iApply ("Hw" $! [y; dev]). by iFrame.
Qed.
End netdev.

Lemma register_netdev_appends_witness :
  triple (slist nd_next 8 [1024] ∗ new_device 2048 64 101 7 0 ∗ arr 512 4 (1024 :: replicate 15 0) ∗ (2048 + nd_mtu) ↦ 2000 ∗
      ⌜2048 ≠ NULL ∧ 64 ≠ NULL ∧ 7 ≠ NULL ∧ length (1024 :: replicate 15 0) = Z.to_nat MAX_ETH_CARDS⌝)%I
    (register_netdev 8 512 (λ _, loopback_init) 2048)
    (λ r, ⌜r = 0⌝ ∗ slist nd_next 8 [1024; 2048] ∗ (2048 + nd_name) ↦ 64 ∗ 64 ↦ 0x20 ∗ (2048 + nd_init) ↦ 7 ∗
      arr 512 4 (1024 :: 2048 :: replicate 14 0) ∗ (2048 + nd_mtu) ↦ 2000)%I.
Proof.
  refine (register_netdev_appends 8 512 (λ _, loopback_init) 2048 64 101 7 0 [1024] (1024 :: replicate 15 0) ((2048 + nd_mtu) ↦ 2000)%I _).
  iIntros "H". unfold loopback_init. wp_store. wp_pures. by iFrame.
Defined.
