(* ===== verification/Tcp.v ===== *)
(** * The transmission control protocol: headers, sending and timers (net/inet/tcp.c)

    Headers are bytes of a packet.  Functions that tcp.c calls and that are defined nowhere in the kernel ([tcp_send_probe],
    [tcp_connected], [delete_timer], ...) are parameters, and so are the functions that are reached through pointers of a socket
    or of its protocol, which get the pointer they are called through: [call] stands for those with the socket as only argument.
    Local variables whose address is taken are addresses ([pdev], [wait]). *)

From S2P Require Export Sock Wait.

(** struct tcphdr; the bit fields are sixteen bits from the low end. *)
Definition th_source : Z := 0.
Definition th_dest : Z := 2.
Definition th_seq : Z := 4.
Definition th_ack_seq : Z := 8.
Definition th_bits : Z := 12.
Definition th_window : Z := 14.
Definition th_check : Z := 16.
Definition sizeof_tcphdr : Z := 20.

(** A bit field: its lowest bit and its width. *)
Definition get_field (th : Z) (f : Z * Z) : M Z :=
  b ← load16 (th + th_bits); mret (Z.land (Z.shiftr b f.1) (Z.ones f.2)).
Definition set_field (th : Z) (f : Z * Z) (v : Z) : M unit :=
  b ← load16 (th + th_bits);
  store16 (th + th_bits) (Z.lor (Z.ldiff b (Z.shiftl (Z.ones f.2) f.1)) (Z.shiftl (Z.land v (Z.ones f.2)) f.1)).

Definition f_len : Z * Z := (0, 4).
Definition f_reserve : Z * Z := (4, 6).
Definition f_urg : Z * Z := (10, 1).
Definition f_ack : Z * Z := (11, 1).
Definition f_psh : Z * Z := (12, 1).
Definition f_rst : Z * Z := (13, 1).
Definition f_syn : Z * Z := (14, 1).
Definition f_fin : Z * Z := (15, 1).

(** struct sock *)
Definition so_mtu : Z := 8.
Definition so_daddr : Z := 16.
Definition so_wmem_alloc : Z := 36.
Definition so_rmem_alloc : Z := 40.
Definition so_state : Z := 48.
Definition so_err : Z := 50.
Definition so_inuse : Z := 52.
Definition so_dead : Z := 53.
Definition so_ack_backlog : Z := 54.
Definition so_max_ack_backlog : Z := 55.
Definition so_zapped : Z := 56.
Definition so_ack_timed : Z := 57.
Definition so_keepopen : Z := 58.
Definition so_done : Z := 59.
Definition so_localroute : Z := 60.
Definition so_retransmits : Z := 64.
Definition so_window_clamp : Z := 68.
Definition so_write_seq : Z := 72.
Definition so_sent_seq : Z := 76.
Definition so_acked_seq : Z := 80.
Definition so_copied_seq : Z := 84.
Definition so_window_seq : Z := 88.
Definition so_fin_seq : Z := 92.
Definition so_rcv_ack_seq : Z := 96.
Definition so_retransmit_timer : Z := 100.
Definition so_timer : Z := 120.
Definition so_cong_window : Z := 140.
Definition so_cong_count : Z := 142.
Definition so_ssthresh : Z := 144.
Definition so_mss : Z := 146.
Definition so_max_window : Z := 148.
Definition so_rto : Z := 152.
Definition so_rtt : Z := 156.
Definition so_backoff : Z := 160.
Definition so_shutdown : Z := 162.
Definition so_window : Z := 164.
Definition so_user_mss : Z := 166.
Definition so_bytes_rcv : Z := 168.
Definition so_ip_xmit_timeout : Z := 172.
Definition so_ip_tos : Z := 176.
Definition so_ip_ttl : Z := 180.
Definition so_timeout : Z := 184.
Definition so_dummy_th : Z := 188.
Definition so_opt : Z := 208.
Definition so_partial : Z := 212.
Definition so_partial_timer : Z := 216.
Definition so_receive_queue : Z := 236.
Definition so_write_queue : Z := 244.
Definition so_back_log : Z := 252.
Definition so_sleep : Z := 260.
Definition so_socket : Z := 264.
Definition so_state_change : Z := 268.
Definition so_write_space : Z := 272.
Definition so_data_ready : Z := 276.
Definition so_err_report : Z := 280.

(** struct sk_buff *)
Definition skb_users : Z := 22.
Definition skb_used : Z := 36.
Definition skb_mem_addr : Z := 40.
Definition skb_mem_len : Z := 56.

(** struct task_struct *)
Definition task_signal : Z := 352.
Definition task_blocked : Z := 356.

Definition TCP_ESTABLISHED : Z := 1.
Definition TCP_SYN_SENT : Z := 2.
Definition TCP_SYN_RECV : Z := 3.
Definition TCP_FIN_WAIT1 : Z := 4.
Definition TCP_FIN_WAIT2 : Z := 5.
Definition TCP_TIME_WAIT : Z := 6.
Definition TCP_CLOSE : Z := 7.
Definition TCP_CLOSE_WAIT : Z := 8.
Definition TCP_LAST_ACK : Z := 9.
Definition TCP_LISTEN : Z := 10.
Definition TCP_CLOSING : Z := 11.

Definition TIME_WRITE : Z := 1.
Definition TIME_CLOSE : Z := 2.
Definition TIME_KEEPOPEN : Z := 3.
Definition TIME_PROBE : Z := 6.
Definition RCV_SHUTDOWN : Z := 1.
Definition SEND_SHUTDOWN : Z := 2.
Definition SHUTDOWN_MASK : Z := 3.
Definition SEL_IN : Z := 1.
Definition SEL_OUT : Z := 2.
Definition SEL_EX : Z := 4.
Definition O_NONBLOCK : Z := 0x0800.
Definition EAGAIN : Z := 11.
Definition ICMP_SOURCE_QUENCH : Z := 4.
Definition IPPROTO_TCP : Z := 6.
Definition MAX_HEADER : Z := 18.
Definition MAX_ACK_SIZE : Z := 40 + MAX_HEADER.
Definition TCP_TIMEOUT_LEN : Z := 15 * 60 * HZ.
Definition TCP_ACK_TIME : Z := 3 * HZ.
Definition TCP_FIN_TIMEOUT : Z := 3 * 60 * HZ.
Definition TCP_TIMEOUT_INIT : Z := 3 * HZ.

(** ** Small functions *)

Definition min (a b : Z) : Z := s32 (if u32 a >? u32 b then u32 b else u32 a).
Definition max (a b : Z) : Z := s32 (if u32 a >? u32 b then u32 a else u32 b).

(** The differences are unsigned. *)
Definition before (seq1 seq2 : Z) : bool := u32 (seq1 - seq2) <? 0.
Definition after (seq1 seq2 : Z) : bool := u32 (seq1 - seq2) >? 0.

Definition skb_peek (list : Z) : M Z :=
  n ← load (list + sk_next);
  if negb (n =? list) then load (list + sk_next) else mret NULL.

Definition tcp_select_window (sk : Z) : M Z := mret 0.
Definition tcp_ioctl (sk cmd arg : Z) : M Z := mret 0.
Definition tcp_send_checksum (th saddr daddr len sk : Z) : M unit := mret tt.
Definition tcp_write_timeout (sk : Z) : M unit := mret tt.

Section tcp.
Context (current master_select_wakeup jiffies in_bh ip_id_count tcp_prot : Z) (schedule : M unit) (del_timer add_timer : Z → M Z).
Context (hard_start_xmit : Z → Z → M Z) (rebuild_header : Z → Z → Z → Z → M Z).
(** [wmalloc f sk size force priority], [build_header f skb saddr daddr pdev type opt len tos ttl], [queue_xmit f sk dev skb free] *)
Context (call : Z → Z → M unit) (call_int : Z → Z → Z → M unit) (wmalloc : Z → Z → Z → Z → Z → M Z) (wfree : Z → Z → Z → Z → M unit).
Context (build_header : Z → Z → Z → Z → Z → Z → Z → Z → Z → Z → M Z) (queue_xmit : Z → Z → Z → Z → Z → M unit).
Context (tcp_send_probe delete_timer : Z → M unit) (tcp_connected : Z → M bool).

Definition tcp_set_state (sk st : Z) : M unit :=
  s ← load (sk + so_state);
  (if (s =? TCP_SYN_RECV) && (st =? TCP_ESTABLISHED) then wake_up_interruptible master_select_wakeup else mret tt);;
  store (sk + so_state) (u8 st).

(** ** Connections that wait to be accepted *)

Definition tcp_find_established (sk : Z) : M Z :=
  p ← skb_peek (sk + so_receive_queue);
  if p =? NULL then mret NULL else
  loop (λ p,
    s ← load (p + skb_sk); st ← load (s + so_state);
    if (st =? TCP_ESTABLISHED) || (st =? TCP_FIN_WAIT2) then mret (inr p) else
    p ← load (p + sk_next);
    if negb (p =? sk + so_receive_queue) then mret (inl p) else mret (inr NULL)) p.

Definition select_wait (wq wait : Z) : M Z :=
  cur ← load current;
  store (wait + wq_task) cur;;
  store (wait + wq_next) NULL;;
  add_wait_queue wq wait;;
  mret 0.

Definition tcp_listen_select (sk sel_type wait : Z) : M Z :=
  if sel_type =? SEL_IN then
    store (sk + so_inuse) 1;;
    p ← tcp_find_established sk;
    let retval := b2z (negb (p =? NULL)) in
    release_sock sk;;
    (if retval =? 0 then select_wait master_select_wakeup wait;; mret tt else mret tt);;
    mret retval
  else mret 0.

Definition tcp_dequeue_established (sk : Z) : M Z :=
  skb ← tcp_find_established sk;
  (if negb (skb =? NULL) then skb_unlink skb else mret tt);;
  mret skb.

(** [Some v] when the switch returns [v]. *)
Definition select_ready (sk sel_type : Z) : M (option Z) :=
  if sel_type =? SEL_IN then
    e ← load (sk + so_err);
    if negb (e =? 0) then mret (Some 1) else
    st ← load (sk + so_state);
    if (st =? TCP_SYN_SENT) || (st =? TCP_SYN_RECV) then mret None else
    sh ← load (sk + so_shutdown);
    if negb (Z.land sh RCV_SHUTDOWN =? 0) then mret (Some 1) else
    a ← load (sk + so_acked_seq); c ← load (sk + so_copied_seq);
    mret (if a =? c then None else Some 1)
  else if sel_type =? SEL_OUT then
    sh ← load (sk + so_shutdown);
    if negb (Z.land sh SEND_SHUTDOWN =? 0) then mret (Some 0) else
    _ ← load (sk + so_state); mret None
  else if sel_type =? SEL_EX then
    e ← load (sk + so_err);
    mret (if negb (e =? 0) then Some 1 else None)
  else mret None.

Definition tcp_select (sk sel_type wait : Z) : M Z :=
  st ← load (sk + so_state);
  if st =? TCP_LISTEN then tcp_listen_select sk sel_type wait else
  r ← select_ready sk sel_type;
  match r with
  | Some v => mret v
  | None => q ← load (sk + so_sleep); select_wait q wait;; mret 0
  end.

(** [turns] bounds how often the task sleeps. *)
Definition tcp_accept (turns : nat) (wait sk flags : Z) : M Z :=
  st ← load (sk + so_state);
  if negb (st =? TCP_LISTEN) then store (sk + so_err) EINVAL;; mret NULL else
  store (sk + so_inuse) 1;;
  r ← run (S turns) (λ _ : unit,
    skb ← tcp_dequeue_established sk;
    if negb (skb =? NULL) then mret (inr (Some skb)) else
    if negb (Z.land flags O_NONBLOCK =? 0) then
      release_sock sk;;
      store (sk + so_err) EAGAIN;;
      mret (inr None)
    else
      release_sock sk;;
      q ← load (sk + so_sleep);
      interruptible_sleep_on schedule current wait q;;
      store (sk + so_inuse) 1;;
      mret (inl tt)) tt;
  match r with
  | None => mret NULL
  | Some skb =>
      newsk ← load (skb + skb_sk);
      b ← load (sk + so_ack_backlog); store (sk + so_ack_backlog) (s8 (b - 1));;
      release_sock sk;;
      mret newsk
  end.

(** ** Timers and sending *)

Definition reset_xmit_timer (sk why when : Z) : M unit :=
  del_timer (sk + so_retransmit_timer);;
  store (sk + so_ip_xmit_timeout) why;;
  store (sk + so_retransmit_timer + expires) (if s32 when <? 0 then 3 else when);;
  add_timer (sk + so_retransmit_timer);;
  mret tt.

(** The member [h] is a union: the sequence number is stored over the pointer to the header. *)
Definition tcp_send_skb (sk skb : Z) : M unit :=
  th ← load (skb + skb_h); l ← load (skb + skb_len);
  let size := s32 (l - (th - (skb + skb_data))) in
  if (u32 size <? sizeof_tcphdr) || (u32 size >? l) then mret tt else
  if size =? sizeof_tcphdr then mret tt else
  seq ← load32 (th + th_seq); tl ← get_field th f_len;
  store (skb + skb_h) (u32 (ntohl seq + size - Z.shiftr tl 2));;
  s ← load (skb + skb_h); w ← load (sk + so_window_seq);
  rt ← load (sk + so_retransmits); why ← load (sk + so_ip_xmit_timeout);
  po ← load (sk + sk_packets_out); cw ← load (sk + so_cong_window);
  if after s w || (negb (rt =? 0) && (why =? TIME_WRITE)) || (po >=? cw) then
    store16 (th + th_check) 0;;
    n ← load (skb + sk_next);
    (if negb (n =? NULL) then skb_unlink skb else mret tt);;
    skb_queue_tail (sk + so_write_queue) skb;;
    w ← load (sk + so_window_seq); f ← load (sk + so_write_queue + sk_next); s ← load (f + skb_h);
    if before w s then
      h ← load (sk + sk_send_head); b ← load (sk + so_ack_backlog);
      if (h =? NULL) && (b =? 0) then rto ← load (sk + so_rto); reset_xmit_timer sk TIME_PROBE rto else mret tt
    else mret tt
  else
    a ← load (sk + so_acked_seq); store32 (th + th_ack_seq) (ntohl a);;
    win ← tcp_select_window sk; store16 (th + th_window) (ntohs win);;
    sa ← load (sk + sk_saddr); da ← load (sk + so_daddr); tcp_send_checksum th sa da size sk;;
    ws ← load (sk + so_write_seq); store (sk + so_sent_seq) ws;;
    p ← load (sk + so_prot); f ← load (p + po_queue_xmit); dev ← load (skb + skb_dev);
    queue_xmit f sk dev skb 0;;
    rto ← load (sk + so_rto);
    reset_xmit_timer sk TIME_WRITE rto.

(** The body of the loop of [tcp_do_retransmit] for one packet. *)
Definition retransmit_skb (sk skb : Z) : M unit :=
  dev ← load (skb + skb_dev);
  j ← load jiffies; store (skb + skb_when) j;;
  hhl ← load (dev + hard_header_len);
  let iph := skb + skb_data + hhl in
  ihl ← iph_ihl iph;
  let th := iph + ihl * 4 in
  c ← load ip_id_count; store ip_id_count (s32 (c + 1));;
  store16 (iph + ip_id) (u16 (htons c));;
  ip_send_checksum iph;;
  a ← load (sk + so_acked_seq); store32 (th + th_ack_seq) (ntohl a);;
  win ← tcp_select_window sk; store16 (th + th_window) (ntohs win);;
  l ← load (skb + skb_len); sa ← load (sk + sk_saddr); da ← load (sk + so_daddr);
  tcp_send_checksum th sa da (s32 (l - (th - (skb + skb_data)))) sk;;
  f ← load (dev + nd_flags);
  (if negb (Z.land f IFF_UP =? 0) then
     if negb (sk =? NULL) then
       skb_unlink skb;;
       p ← load (sk + sk_priority);
       dev_queue_xmit hard_start_xmit rebuild_header skb dev p
     else mret tt
   else mret tt);;
  p ← load (sk + so_prot); r ← load (p + po_retransmits); store (p + po_retransmits) (u32 (r + 1)).

Definition tcp_do_retransmit (sk all : Z) : M unit :=
  skb ← load (sk + sk_send_head);
  loop (λ '(skb, ct),
    if skb =? NULL then mret (inr tt) else
    retransmit_skb sk skb;;
    let ct := s32 (ct + 1) in
    if all =? 0 then mret (inr tt) else
    cw ← load (sk + so_cong_window);
    if ct >? cw then mret (inr tt) else
    n ← load (skb + skb_cache_next);
    mret (inl (n, ct))) (skb, 0).

Definition tcp_retransmit_time (sk all : Z) : M unit :=
  tcp_do_retransmit sk all;;
  r ← load (sk + so_retransmits); store (sk + so_retransmits) (s32 (r + 1));;
  b ← load (sk + so_backoff); store (sk + so_backoff) (u16 (b + 1));;
  t ← load (sk + so_rto); store (sk + so_rto) (u32 (min (Z.shiftl t 1) (120 * HZ)));;
  t ← load (sk + so_rto);
  reset_xmit_timer sk TIME_WRITE t.

Definition tcp_retransmit (sk all : Z) : M unit :=
  if negb (all =? 0) then tcp_retransmit_time sk all else
  cw ← load (sk + so_cong_window); store (sk + so_ssthresh) (Z.shiftr cw 1);;
  store (sk + so_cong_count) 0;;
  store (sk + so_cong_window) 1;;
  tcp_retransmit_time sk all.

(** What [retransmit_timer] does for the reason of the timeout; [false] when it returns at once. *)
Definition timeout_action (sk reason : Z) : M bool :=
  if reason =? TIME_PROBE then tcp_send_probe sk;; tcp_write_timeout sk;; mret true
  else if reason =? TIME_WRITE then
    skb ← load (sk + sk_send_head);
    if skb =? NULL then mret true else
    j ← load jiffies; w ← load (skb + skb_when); rto ← load (sk + so_rto);
    if j <? u32 (w + rto) then
      reset_xmit_timer sk TIME_WRITE (u32 (w + rto - j));;
      mret false
    else
      p ← load (sk + so_prot); f ← load (p + po_retransmit);
      call_int f sk 0;;
      mret true
  else if reason =? TIME_KEEPOPEN then
    reset_xmit_timer sk TIME_KEEPOPEN TCP_TIMEOUT_LEN;;
    p ← load (sk + so_prot); f ← load (p + po_write_wakeup);
    (if negb (f =? NULL) then p ← load (sk + so_prot); f ← load (p + po_write_wakeup); call f sk else mret tt);;
    r ← load (sk + so_retransmits); store (sk + so_retransmits) (s32 (r + 1));;
    tcp_write_timeout sk;;
    mret true
  else mret true.

Definition retransmit_timer (sk : Z) : M unit :=
  reason ← load (sk + so_ip_xmit_timeout);
  u ← load (sk + so_inuse); h ← load in_bh;
  if negb (u =? 0) || negb (h =? 0) then
    store (sk + so_retransmit_timer + expires) HZ;;
    add_timer (sk + so_retransmit_timer);;
    mret tt
  else
    store (sk + so_inuse) 1;;
    b ← load (sk + so_ack_backlog); z ← load (sk + so_zapped);
    (if negb (b =? 0) && (z =? 0) then
       p ← load (sk + so_prot); f ← load (p + po_read_wakeup); call f sk;;
       d ← load (sk + so_dead);
       if d =? 0 then f ← load (sk + so_data_ready); call_int f sk 0 else mret tt
     else mret tt);;
    go ← timeout_action sk reason;
    if go : bool then release_sock sk else mret tt.

(** [sk0] is what [get_sock] returns. *)
Definition tcp_err (sk0 err header saddr daddr protocol : Z) : M unit :=
  l ← iph_ihl header;
  let th := header + Z.shiftr l 2 in
  s ← load16 (th + th_source); d ← load16 (th + th_dest);
  sk ← get_sock sk0 tcp_prot s daddr d saddr;
  if sk =? NULL then mret tt else
  if err <? 0 then
    store (sk + so_err) (s16 err);;
    f ← load (sk + so_err_report); call f sk
  else if Z.land err 0xff00 =? Z.shiftl ICMP_SOURCE_QUENCH 8 then
    cw ← load (sk + so_cong_window);
    if cw >? 4 then store (sk + so_cong_window) (u16 (cw - 1)) else mret tt
  else
    st ← load (sk + so_state);
    if st =? TCP_SYN_SENT then
      tcp_set_state sk TCP_CLOSE;;
      f ← load (sk + so_err_report); call f sk
    else mret tt.

(** ** Packets that are not full *)

Definition tcp_dequeue_partial (sk : Z) : M Z :=
  skb ← load (sk + so_partial);
  (if negb (skb =? NULL) then
     store (sk + so_partial) NULL;;
     del_timer (sk + so_partial_timer);; mret tt
   else mret tt);;
  mret skb.

(** The result of the comparison is taken for the packet. *)
Definition tcp_send_partial (sk : Z) : M unit :=
  if sk =? NULL then mret tt else
  loop (λ _ : unit,
    p ← tcp_dequeue_partial sk;
    let skb := b2z (negb (p =? NULL)) in
    if negb (skb =? 0) then tcp_send_skb sk skb;; mret (inl tt) else mret (inr tt)) tt.

Definition tcp_enqueue_partial (tcp_send_partial_fn skb sk : Z) : M unit :=
  tmp ← load (sk + so_partial);
  (if negb (tmp =? NULL) then del_timer (sk + so_partial_timer);; mret tt else mret tt);;
  store (sk + so_partial) skb;;
  init_timer (sk + so_partial_timer);;
  store (sk + so_partial_timer + expires) HZ;;
  store (sk + so_partial_timer + tl_function) tcp_send_partial_fn;;
  store (sk + so_partial_timer + tl_data) sk;;
  add_timer (sk + so_partial_timer);;
  if negb (tmp =? NULL) then tcp_send_skb sk tmp else mret tt.

(** ** Acknowledgements *)

(** [th->f = 0] for several bit fields. *)
Definition th_flags_clear (th : Z) (fs : list (Z * Z)) : M unit :=
  foldr (λ f (e : M unit), set_field th f 0;; e) (mret tt) fs.

(** Without memory it goes on with the null pointer. *)
Definition tcp_send_ack (pdev sequeue ack sk th daddr : Z) : M unit :=
  z ← load (sk + so_zapped);
  if negb (z =? 0) then mret tt else
  p ← load (sk + so_prot); f ← load (p + po_wmalloc);
  skb ← wmalloc f sk MAX_ACK_SIZE 1 GFP_ATOMIC;
  (if skb =? NULL then
     b ← load (sk + so_ack_backlog); store (sk + so_ack_backlog) (s8 (b + 1));;
     why ← load (sk + so_ip_xmit_timeout);
     if negb (why =? TIME_WRITE) then
       st ← load (sk + so_state); c ← tcp_connected st;
       if c : bool then reset_xmit_timer sk TIME_WRITE HZ else mret tt
     else mret tt
   else mret tt);;
  store (skb + skb_len) sizeof_tcphdr;;
  store (skb + skb_sk) sk;;
  lr ← load (sk + so_localroute); store (skb + skb_localroute) lr;;
  let th2 := skb + skb_data in
  p ← load (sk + so_prot); f ← load (p + po_build_header);
  sa ← load (sk + sk_saddr); o ← load (sk + so_opt); tos ← load (sk + so_ip_tos); ttl ← load (sk + so_ip_ttl);
  tmp ← build_header f skb sa daddr pdev IPPROTO_TCP o MAX_ACK_SIZE tos ttl;
  (if tmp <? 0 then
     store (skb + skb_free) 1;;
     p ← load (sk + so_prot); f ← load (p + po_wfree); ma ← load (skb + skb_mem_addr); ml ← load (skb + skb_mem_len);
     wfree f sk ma ml
   else mret tt);;
  l ← load (skb + skb_len); store (skb + skb_len) (u32 (l + tmp));;
  let th2 := th2 + tmp in
  memncpy th2 th sizeof_tcphdr;;
  s ← load16 (th + th_source); store16 (th2 + th_dest) s;;
  d ← load16 (th + th_dest); store16 (th2 + th_source) d;;
  store32 (th2 + th_seq) (ntohl sequeue);;
  set_field th2 f_ack 1;;
  win ← tcp_select_window sk; store (sk + so_window) (u16 win);;
  win ← load (sk + so_window); store16 (th2 + th_window) (ntohs win);;
  th_flags_clear th2 [f_len; f_reserve; f_urg; f_rst; f_syn; f_psh; f_fin];;
  a ← load (sk + so_acked_seq);
  (if ack =? a then
     store (sk + so_ack_backlog) 0;;
     store (sk + so_bytes_rcv) 0;;
     store (sk + so_ack_timed) 0;;
     h ← load (sk + sk_send_head);
     if negb (h =? NULL) then mret tt else
     q ← skb_peek (sk + so_write_queue);
     if negb (q =? NULL) then mret tt else
     why ← load (sk + so_ip_xmit_timeout);
     if negb (why =? TIME_WRITE) then mret tt else
     k ← load (sk + so_keepopen);
     if negb (k =? 0) then reset_xmit_timer sk TIME_KEEPOPEN TCP_TIMEOUT_LEN else delete_timer sk
   else mret tt);;
  store32 (th2 + th_ack_seq) (ntohl ack);;
  set_field th2 f_len (sizeof_tcphdr / 4);;
  sa ← load (sk + sk_saddr);
  tcp_send_checksum th2 sa daddr sizeof_tcphdr sk;;
  p ← load (sk + so_prot); f ← load (p + po_queue_xmit); dev ← load pdev;
  queue_xmit f sk dev skb 1.
End tcp.
