(* ===== verification/TcpConn.v ===== *)
(** * The transmission control protocol: connections (net/inet/tcp.c)

    Reading and writing, closing, resetting and the request of a connection.  The functions [tcp_build_header], [tcp_send_patial], [befor],
    [ntol], [kfree_skb] and [memcpy_tofs] that tcp.c calls are defined nowhere in the kernel: they are parameters.  [turns] bounds
    the rounds of the loops that wait for data, for memory or for a connection. *)

From S2P Require Export Pgtable Tcp.

Definition MSG_OOB : Z := 1.
Definition MSG_PEEK : Z := 2.
Definition MSG_DONTROUTE : Z := 4.
Definition EPIPE : Z := 32.
Definition ERESTARTSYS : Z := 512.
Definition ENOTCONN : Z := 107.
Definition EISCONN : Z := 106.
Definition SO_WAITDATA : Z := Z.shiftl 1 17.
Definition HEADER_SIZE : Z := 64.
Definition MAX_WINDOW : Z := 16384.
Definition MAX_RESET_SIZE : Z := 40 + MAX_HEADER.
Definition MAX_SYN_SIZE : Z := 44 + MAX_HEADER.

(** struct socket *)
Definition ss_flags : Z := 0.

Definition timer_members (t : Z) : list Z := [t; t + 4; t + 8; t + 12; t + 16].

(** The members of struct sock; [dummy_th] is an array of bytes. *)
Definition sock_members : list Z :=
  [so_next; 4; so_mtu; sk_saddr; so_daddr; sk_priority; so_prot; sk_send_head; sk_send_tail; so_wmem_alloc; so_rmem_alloc; sk_packets_out;
   so_state; so_err; so_inuse; so_dead; so_ack_backlog; so_max_ack_backlog; so_zapped; so_ack_timed; so_keepopen; so_done; so_localroute;
   so_retransmits; so_window_clamp; so_write_seq; so_sent_seq; so_acked_seq; so_copied_seq; so_window_seq; so_fin_seq; so_rcv_ack_seq] ++
  timer_members so_retransmit_timer ++ timer_members so_timer ++
  [so_cong_window; so_cong_count; so_ssthresh; so_mss; so_max_window; so_rto; so_rtt; so_backoff; so_shutdown; so_window; so_user_mss;
   so_bytes_rcv; so_num; so_ip_xmit_timeout; so_ip_tos; so_ip_ttl; so_timeout] ++ ((λ i, so_dummy_th + i) <$> seqZ 0 sizeof_tcphdr) ++
  [so_opt; so_partial] ++ timer_members so_partial_timer ++
  [so_receive_queue; so_receive_queue + 4; so_write_queue; so_write_queue + 4; so_back_log; so_back_log + 4; so_sleep; so_socket;
   so_state_change; so_write_space; so_data_ready; so_err_report].

Definition default_mask (dst : Z) : Z :=
  let dst := ntohl dst in
  if IN_IPCLASSA dst then htonl IN_IPCLASSA_NET
  else if IN_IPCLASSB dst then htonl IN_IPCLASSB_NET
  else htonl IN_IPCLASSC_NET.

Definition tcp_init_seq (tv : Z) : M Z :=
  do_gettimeofday tv;;
  us ← load (tv + 4); s ← load tv;
  mret (u32 (us + s * 1000000)).

(** The state after a close and whether the end is to be sent; the case of an open connection falls through to those behind it. *)
Definition close_next (st : Z) : Z * Z :=
  if st =? TCP_SYN_SENT then (TCP_CLOSE, 0)
  else if (st =? TCP_SYN_RECV) || (st =? TCP_ESTABLISHED) then (st, 1)
  else if (st =? TCP_FIN_WAIT1) || (st =? TCP_FIN_WAIT2) || (st =? TCP_CLOSING) then (st, 0)
  else if (st =? TCP_CLOSE) || (st =? TCP_LISTEN) then (TCP_CLOSE, 0)
  else if st =? TCP_CLOSE_WAIT then (TCP_LAST_ACK, 1)
  else (TCP_CLOSE, 0).

(** What the search of [tcp_read] finds. *)
Inductive found := FoundData (skb offset : Z) | FoundFin (skb : Z) | NotFound.

Section conn.
Context (current master_select_wakeup rt_base rt_loopback : Z) (schedule : M unit) (del_timer add_timer : Z → M Z).
Context (call : Z → Z → M unit) (call_int : Z → Z → Z → M unit) (wmalloc : Z → Z → Z → Z → Z → M Z) (wfree : Z → Z → Z → Z → M unit) (rspace : Z → Z → M Z).
Context (build_header : Z → Z → Z → Z → Z → Z → Z → Z → Z → Z → M Z) (queue_xmit : Z → Z → Z → Z → Z → M unit).
Context (tcp_build_header : Z → Z → Z → M Z) (tcp_send_patial : Z → M unit) (befor : Z → Z → M bool) (ntol : Z → M Z).
Context (kfree_skb : Z → Z → M unit) (memcpy_tofs : Z → Z → Z → Z → M unit).
Context (tcp_send_partial_fn net_timer_fn retransmit_timer_fn : Z).

Local Abbreviation set_state := (tcp_set_state master_select_wakeup).
Local Abbreviation reset_timer := (reset_xmit_timer del_timer add_timer).
Local Abbreviation send_skb := (tcp_send_skb del_timer add_timer queue_xmit).
Local Abbreviation send_partial := (tcp_send_partial del_timer add_timer queue_xmit).
Local Abbreviation enqueue_partial := (tcp_enqueue_partial del_timer add_timer queue_xmit tcp_send_partial_fn).

(** ** Writing *)

(** [release_sock(sk); tmp = -sk->err; sk->err = 0; return tmp;] *)
Definition return_err (sk : Z) : M Z :=
  release_sock sk;;
  e ← load (sk + so_err);
  store (sk + so_err) 0;;
  mret (- e).

(** [current->signal & ~current->blocked] *)
Definition signal_pending : M bool :=
  cur ← load current; s ← load (cur + task_signal);
  cur ← load current; b ← load (cur + task_blocked);
  mret (negb (Z.land s (u32 (Z.lnot b)) =? 0)).

(** The loop that waits for the connection: [Some v] when [tcp_write] returns [v]. *)
Definition wait_connected (turns : nat) (wait sk nonblock : Z) : M (option Z) :=
  run (S turns) (λ _ : unit,
    st ← load (sk + so_state);
    if (st =? TCP_ESTABLISHED) || (st =? TCP_CLOSE_WAIT) then mret (inr None) else
    e ← load (sk + so_err);
    if negb (e =? 0) then v ← return_err sk; mret (inr (Some v)) else
    v ← (if negb (st =? TCP_SYN_SENT) && negb (st =? TCP_SYN_RECV) then
           release_sock sk;;
           e ← load (sk + so_err);
           if negb (e =? 0) then v ← return_err sk; mret (Some v) else _ ← load (sk + so_keepopen); mret None
         else mret None);
    match v with
    | Some v => mret (inr (Some v))
    | None =>
        if negb (nonblock =? 0) then release_sock sk;; mret (inr (Some (- EAGAIN))) else
        release_sock sk;;
        st ← load (sk + so_state); e ← load (sk + so_err);
        intr ← (if negb (st =? TCP_ESTABLISHED) && negb (st =? TCP_CLOSE_WAIT) && (e =? 0) then
                  q ← load (sk + so_sleep);
                  interruptible_sleep_on schedule current wait q;;
                  signal_pending
                else mret false);
        if intr : bool then mret (inr (Some (- ERESTARTSYS))) else
        store (sk + so_inuse) 1;;
        mret (inl tt)
    end) tt.

(** More data for the packet [skb] that is not full. *)
Definition write_partial (sk skb from len flags : Z) : M (Z * Z) :=
  th ← load (skb + skb_h);
  let hdrlen := s32 (u32 th - u32 (skb + skb_data) + sizeof_tcphdr) in
  '(from, len) ← (if Z.land flags MSG_OOB =? 0 then
      mss ← load (sk + so_mss); l ← load (skb + skb_len);
      let copy := min (mss - (l - hdrlen)) len in
      let copy := if copy <=? 0 then 0 else copy in
      memncpy (skb + skb_data + l) from copy;;
      l ← load (skb + skb_len); store (skb + skb_len) (u32 (l + copy));;
      ws ← load (sk + so_write_seq); store (sk + so_write_seq) (u32 (ws + copy));;
      mret (from + copy, len - copy)
    else mret (from, len));
  l ← load (skb + skb_len); mss ← load (sk + so_mss); po ← load (sk + sk_packets_out);
  (if (u32 (l - hdrlen) >=? mss) || negb (Z.land flags MSG_OOB =? 0) || (po =? 0) then send_skb sk skb
   else enqueue_partial skb sk);;
  mret (from, len).

(** How much of the data goes into a new packet. *)
Definition write_size (sk len : Z) : M Z :=
  w ← load (sk + so_window_seq); ws ← load (sk + so_write_seq); mw ← load (sk + so_max_window); mss ← load (sk + so_mss);
  let copy := s32 (w - ws) in
  let copy := if (copy <=? 0) || (copy <? Z.shiftr mw 1) || (copy >? mss) then mss else copy in
  mret (if copy >? len then len else copy).

(** The headers of a new packet and the data: [Some v] when [tcp_write] returns [v]. *)
Definition write_packet (prot pdev sk skb send_tmp from len copy flags : Z) : M (option Z) :=
  store (skb + skb_len) 0;;
  store (skb + skb_sk) sk;;
  store (skb + skb_free) 0;;
  lr ← load (sk + so_localroute); store (skb + skb_localroute) (u8 (Z.lor lr (Z.land flags MSG_DONTROUTE)));;
  f ← load (prot + po_build_header); sa ← load (sk + sk_saddr); da ← load (sk + so_daddr); o ← load (sk + so_opt); ml ← load (skb + skb_mem_len);
  tos ← load (sk + so_ip_tos); ttl ← load (sk + so_ip_ttl);
  let fail_with tmp :=
    (f ← load (prot + po_wfree); ma ← load (skb + skb_mem_addr); ml ← load (skb + skb_mem_len);
     wfree f sk ma ml;;
     release_sock sk;;
     mret (Some tmp)) in
  tmp ← build_header f skb sa da pdev IPPROTO_TCP o (s32 ml) tos ttl;
  if tmp <? 0 then fail_with tmp else
  l ← load (skb + skb_len); store (skb + skb_len) (u32 (l + tmp));;
  dev ← load pdev; store (skb + skb_dev) dev;;
  let buff := skb + skb_data + tmp in
  store (skb + skb_h) buff;;
  tmp ← tcp_build_header buff sk (len - copy);
  if tmp <? 0 then fail_with tmp else
  l ← load (skb + skb_len); store (skb + skb_len) (u32 (l + tmp));;
  memncpy (buff + tmp) from copy;;
  l ← load (skb + skb_len); store (skb + skb_len) (u32 (l + copy));;
  store (skb + skb_free) 0;;
  ws ← load (sk + so_write_seq); store (sk + so_write_seq) (u32 (ws + copy));;
  po ← load (sk + sk_packets_out);
  (if negb (send_tmp =? NULL) && negb (po =? 0) then enqueue_partial send_tmp sk else send_skb sk skb);;
  mret None.

(** One round of the loop of [tcp_write]. *)
Definition write_round (turns : nat) (prot pdev wait sk nonblock flags from len : Z) : M ((Z * Z) + Z) :=
  e ← load (sk + so_err);
  if negb (e =? 0) then v ← return_err sk; mret (inr v) else
  sh ← load (sk + so_shutdown);
  if negb (Z.land sh SEND_SHUTDOWN =? 0) then
    release_sock sk;;
    store (sk + so_err) EPIPE;; store (sk + so_err) 0;;
    mret (inr (- EPIPE))
  else
  r ← wait_connected turns wait sk nonblock;
  match r with
  | Some v => mret (inr v)
  | None =>
  skb ← tcp_dequeue_partial del_timer sk;
  if negb (skb =? NULL) then r ← write_partial sk skb from len flags; mret (inl r) else
  copy ← write_size sk len;
  mss ← load (sk + so_mss); mh ← load (prot + po_max_header); mtu ← load (sk + so_mtu);
  let small := (copy <? mss) && (Z.land flags MSG_OOB =? 0) in
  release_sock sk;;
  f ← load (prot + po_wmalloc);
  skb ← wmalloc f sk (if small then mtu + 128 + mh else copy + mh) 0 GFP_KERNEL;
  store (sk + so_inuse) 1;;
  let send_tmp := if small then skb else NULL in
  if skb =? NULL then
    if negb (nonblock =? 0) then release_sock sk;; mret (inr (- EAGAIN)) else
    release_sock sk;;
    q ← load (sk + so_sleep);
    interruptible_sleep_on schedule current wait q;;
    intr ← signal_pending;
    if intr : bool then mret (inr (- ERESTARTSYS)) else
    store (sk + so_inuse) 1;;
    mret (inl (from, len))
  else
    r ← write_packet prot pdev sk skb send_tmp from len copy flags;
    match r with Some v => mret (inr v) | None => mret (inl (from + copy, len - copy)) end
  end.

Definition tcp_write (turns : nat) (pdev wait sk from len nonblock flags : Z) : M Z :=
  store pdev NULL;;
  store (sk + so_inuse) 1;;
  prot ← load (sk + so_prot);
  r ← run (S turns) (λ '(from, len),
    if len >? 0 then
      r ← write_round turns prot pdev wait sk nonblock flags from len;
      match r with inl s => mret (inl s) | inr v => mret (inr (Some v)) end
    else mret (inr None)) (from, len);
  match r with
  | Some v => mret v
  | None =>
      store (sk + so_err) 0;;
      p ← load (sk + so_partial); po ← load (sk + sk_packets_out);
      (if negb (p =? NULL) && (po =? 0) then tcp_send_patial sk else mret tt);;
      release_sock sk;;
      mret 0
  end.

Definition tcp_sendto (turns : nat) (pdev wait sk from len nonblock flags addr addr_len : Z) : M Z :=
  if negb (Z.land flags (u32 (Z.lnot (Z.lor MSG_OOB MSG_DONTROUTE))) =? 0) then mret (- EINVAL) else
  st ← load (sk + so_state);
  if st =? TCP_CLOSE then mret (- ENOTCONN) else
  if u32 addr_len <? sizeof_sockaddr_in then mret (- EINVAL) else
  fam ← load16 (addr + sa_family);
  if negb (fam =? 0) && negb (fam =? AF_INET) then mret (- EINVAL) else
  a ← load32 (addr + sin_addr); da ← load (sk + so_daddr);
  if negb (a =? da) then mret (- EISCONN) else
  tcp_write turns pdev wait sk from len nonblock flags.

(** ** Waking *)

(** The part that [tcp_read_wakeup] and [tcp_write_wakeup] have in common behind the header of the lower protocol. *)
Definition wakeup_header (sk th seq : Z) : M unit :=
  memncpy th (sk + so_dummy_th) sizeof_tcphdr;;
  store32 (th + th_seq) (htonl seq);;
  set_field th f_ack 1;;
  th_flags_clear th [f_reserve; f_rst; f_urg; f_syn; f_psh];;
  store (sk + so_ack_backlog) 0.

Definition wakeup_send (pdev sk skb th : Z) : M unit :=
  win ← tcp_select_window sk; store (sk + so_window) (u16 win);;
  win ← load (sk + so_window); store16 (th + th_window) win;;
  a ← load (sk + so_acked_seq); a ← ntol a; store32 (th + th_ack_seq) a;;
  set_field th f_len (sizeof_tcphdr / 4);;
  sa ← load (sk + sk_saddr); da ← load (sk + so_daddr);
  tcp_send_checksum th sa da sizeof_tcphdr sk;;
  p ← load (sk + so_prot); f ← load (p + po_queue_xmit); dev ← load pdev;
  queue_xmit f sk dev skb 1.

(** The header of the lower protocol for an acknowledgement. *)
Definition ack_header (pdev sk skb len : Z) : M Z :=
  p ← load (sk + so_prot); f ← load (p + po_build_header);
  sa ← load (sk + sk_saddr); da ← load (sk + so_daddr); o ← load (sk + so_opt); tos ← load (sk + so_ip_tos); ttl ← load (sk + so_ip_ttl);
  build_header f skb sa da pdev IPPROTO_TCP o len tos ttl.

Definition sock_wfree (sk skb : Z) : M unit :=
  p ← load (sk + so_prot); f ← load (p + po_wfree); ma ← load (skb + skb_mem_addr); ml ← load (skb + skb_mem_len);
  wfree f sk ma ml.

Definition tcp_read_wakeup (pdev sk : Z) : M unit :=
  b ← load (sk + so_ack_backlog);
  if b =? 0 then mret tt else
  p ← load (sk + so_prot); f ← load (p + po_wmalloc);
  skb ← wmalloc f sk MAX_ACK_SIZE 1 GFP_ATOMIC;
  if skb =? NULL then reset_timer sk TIME_WRITE HZ else
  store (skb + skb_len) sizeof_tcphdr;;
  store (skb + skb_sk) sk;;
  lr ← load (sk + so_localroute); store (skb + skb_localroute) lr;;
  tmp ← ack_header pdev sk skb MAX_ACK_SIZE;
  if tmp <? 0 then store (skb + skb_free) 1;; sock_wfree sk skb else
  l ← load (skb + skb_len); store (skb + skb_len) (u32 (l + tmp));;
  let th := skb + skb_data + tmp in
  s ← load (sk + so_sent_seq);
  wakeup_header sk th s;;
  store (sk + so_bytes_rcv) 0;;
  wakeup_send pdev sk skb th.

Definition tcp_write_wakeup (pdev sk : Z) : M unit :=
  store pdev NULL;;
  z ← load (sk + so_zapped);
  if negb (z =? 0) then mret tt else
  st ← load (sk + so_state);
  if negb (st =? TCP_ESTABLISHED) && negb (st =? TCP_CLOSE_WAIT) && negb (st =? TCP_FIN_WAIT1) && negb (st =? TCP_LAST_ACK) && negb (st =? TCP_CLOSING)
  then mret tt else
  p ← load (sk + so_prot); f ← load (p + po_wmalloc);
  skb ← wmalloc f sk MAX_ACK_SIZE 1 GFP_ATOMIC;
  if skb =? NULL then mret tt else
  store (skb + skb_len) sizeof_tcphdr;;
  store (skb + skb_free) 1;;
  store (skb + skb_sk) sk;;
  lr ← load (sk + so_localroute); store (skb + skb_localroute) lr;;
  tmp ← ack_header pdev sk skb MAX_ACK_SIZE;
  if tmp <? 0 then sock_wfree sk skb else
  l ← load (skb + skb_len); store (skb + skb_len) (u32 (l + tmp));;
  let th := skb + skb_data + tmp in
  s ← load (sk + so_sent_seq);
  wakeup_header sk th (u32 (s - 1));;
  wakeup_send pdev sk skb th.

(** ** Reading *)

(** The packets at the head of the queue that have been read. *)
Definition drop_used (sk : Z) : M unit :=
  loop (λ _ : unit,
    skb ← skb_peek (sk + so_receive_queue);
    if skb =? NULL then mret (inr tt) else
    u ← load (skb + skb_used);
    if u =? 0 then mret (inr tt) else
    skb_unlink skb;;
    store (skb + skb_sk) sk;;
    mret (inl tt)) tt.

Definition cleanup_rbuf (pdev sk : Z) : M unit :=
  p ← load (sk + so_prot); f ← load (p + po_rspace); left ← rspace f sk;
  drop_used sk;;
  p ← load (sk + so_prot); f ← load (p + po_rspace); sp ← rspace f sk;
  if sp =? left then mret tt else
  b ← load (sk + so_ack_backlog); store (sk + so_ack_backlog) (s8 (b + 1));;
  w ← load (sk + so_window); br ← load (sk + so_bytes_rcv); mtu ← load (sk + so_mtu);
  if sp >? u32 (w - br + mtu) then tcp_read_wakeup pdev sk else
  was_active ← del_timer (sk + so_retransmit_timer);
  e ← load (sk + so_timer + expires);
  if (was_active =? 0) || (TCP_ACK_TIME <? e) then reset_timer sk TIME_WRITE TCP_ACK_TIME
  else add_timer (sk + so_retransmit_timer);; mret tt.

(** The search for the packet with the next byte. *)
Definition read_search (sk flags : Z) : M found :=
  skb ← skb_peek (sk + so_receive_queue);
  loop (λ skb,
    if skb =? NULL then mret (inr NotFound) else
    seq ← load (sk + so_copied_seq); th ← load (skb + skb_h); ts ← load32 (th + th_seq);
    if before seq ts then mret (inr NotFound) else
    syn ← get_field th f_syn;
    let offset := if negb (syn =? 0) then u32 (u32 (seq - ts) - 1) else u32 (seq - ts) in
    l ← load (skb + skb_len);
    if offset <? l then mret (inr (FoundData skb offset)) else
    fin ← get_field th f_fin;
    if negb (fin =? 0) then mret (inr (FoundFin skb)) else
    (if Z.land flags MSG_PEEK =? 0 then store (skb + skb_used) 1 else mret tt);;
    n ← load (skb + sk_next);
    if negb (n =? sk + so_receive_queue) then mret (inl n) else mret (inr NotFound)) skb.

(** The packet with the end of the data; the member [shutdown] is compared and not set. *)
Definition read_fin (sk skb : Z) : M unit :=
  seq ← load (sk + so_copied_seq); store (sk + so_copied_seq) (u32 (seq + 1));;
  store (skb + skb_used) 1;;
  _ ← load (sk + so_shutdown);
  mret tt.

(** Data from a packet: the new state of the loop, or the result when the loop is left. *)
Definition read_data (sk skb offset to len copied : Z) : M ((Z * Z * Z) + Z) :=
  u ← load (skb + skb_users); store (skb + skb_users) (u16 (u + 1));;
  l ← load (skb + skb_len);
  let used := u32 (l - offset) in
  let used := if u32 len <? used then u32 len else used in
  if negb (copied =? 0) then mret (inr copied) else
  seq ← load (sk + so_copied_seq); store (sk + so_copied_seq) (u32 (seq + used));;
  th ← load (skb + skb_h); hl ← get_field th f_len;
  memcpy_tofs to th (u32 (hl * 4 + offset)) used;;
  let copied := s32 (copied + used) in
  let len := s32 (len - used) in
  u ← load (skb + skb_users); store (skb + skb_users) (u16 (u - 1));;
  l ← load (skb + skb_len);
  if u32 (used + offset) <? l then mret (inl (to + used, len, copied)) else
  th ← load (skb + skb_h); fin ← get_field th f_fin;
  if negb (fin =? 0) then read_fin sk skb;; mret (inr copied) else
  store (skb + skb_used) 1;;
  mret (inl (to + used, len, copied)).

(** No data: [Some v] when the loop is left with the result [v]. *)
Definition read_wait (pdev sk nonblock copied : Z) : M (option Z) :=
  if negb (copied =? 0) then mret (Some copied) else
  e ← load (sk + so_err);
  if negb (e =? 0) then store (sk + so_err) 0;; mret (Some (- e)) else
  st ← load (sk + so_state);
  if st =? TCP_CLOSE then
    d ← load (sk + so_done);
    if d =? 0 then store (sk + so_done) 1;; mret (Some copied) else mret (Some (- ENOTCONN))
  else
  sh ← load (sk + so_shutdown);
  if negb (Z.land sh RCV_SHUTDOWN =? 0) then store (sk + so_done) 1;; mret (Some copied) else
  if negb (nonblock =? 0) then mret (Some (- EAGAIN)) else
  cleanup_rbuf pdev sk;;
  release_sock sk;;
  so ← load (sk + so_socket); fl ← load (so + ss_flags); store (so + ss_flags) (Z.lor fl SO_WAITDATA);;
  schedule;;
  so ← load (sk + so_socket); fl ← load (so + ss_flags); store (so + ss_flags) (Z.land fl (Z.lnot SO_WAITDATA));;
  store (sk + so_inuse) 1;;
  intr ← signal_pending;
  mret (if intr : bool then Some (- ERESTARTSYS) else None).

Definition read_round (pdev sk nonblock flags to len copied : Z) : M ((Z * Z * Z) + Z) :=
  cur ← load current; store (cur + state) TASK_INTERRUPTIBLE;;
  r ← read_search sk flags;
  match r with
  | FoundData skb offset => read_data sk skb offset to len copied
  | FoundFin skb => read_fin sk skb;; mret (inr copied)
  | NotFound =>
      w ← read_wait pdev sk nonblock copied;
      match w with Some v => mret (inr v) | None => mret (inl (to, len, copied)) end
  end.

Definition tcp_read (turns : nat) (pdev wait sk to len nonblock flags : Z) : M Z :=
  cur ← load current; store (wait + wq_task) cur;; store (wait + wq_next) NULL;;
  st ← load (sk + so_state);
  if st =? TCP_LISTEN then mret (- ENOTCONN) else
  q ← load (sk + so_sleep);
  add_wait_queue q wait;;
  store (sk + so_inuse) 1;;
  copied ← run (S turns) (λ '(to, len, copied),
    if len >? 0 then read_round pdev sk nonblock flags to len copied else mret (inr copied)) (to, len, 0);
  q ← load (sk + so_sleep);
  remove_wait_queue q wait;;
  cur ← load current; store (cur + state) TASK_RUNNING;;
  cleanup_rbuf pdev sk;;
  release_sock sk;;
  mret copied.

Definition tcp_recvfrom (turns : nat) (pdev wait sk to to_len nonblock flags addr addr_len : Z) : M Z :=
  (if negb (addr_len =? NULL) then store addr_len sizeof_sockaddr_in else mret tt);;
  ret ← tcp_read turns pdev wait sk to to_len nonblock flags;
  if ret <? 0 then mret ret else
  (if negb (addr =? NULL) then
     store16 (addr + sa_family) AF_INET;;
     d ← load16 (sk + so_dummy_th + th_dest); store16 (addr + sin_port) d;;
     da ← load (sk + so_daddr); store32 (addr + sin_addr) da
   else mret tt);;
  mret ret.

(** ** Closing *)

Definition tcp_close_state (sk dead : Z) : M Z :=
  st ← load (sk + so_state);
  let '(ns, send_fin) := close_next st in
  set_state sk ns;;
  (if negb (dead =? 0) && (ns =? TCP_FIN_WAIT2) then
     timer_active ← del_timer (sk + so_timer);
     if negb (timer_active =? 0) then add_timer (sk + so_timer);; mret tt
     else reset_timer sk TIME_CLOSE TCP_FIN_TIMEOUT
   else mret tt);;
  mret send_fin.

(** The header is built behind the one in the socket, not in the packet. *)
Definition tcp_send_fin (pdev sk : Z) : M unit :=
  prot ← load (sk + so_prot);
  let th := sk + so_dummy_th in
  store pdev NULL;;
  release_sock sk;;
  f ← load (prot + po_wmalloc);
  skb ← wmalloc f sk MAX_RESET_SIZE 1 GFP_KERNEL;
  store (sk + so_inuse) 1;;
  if skb =? NULL then mret tt else
  store (skb + skb_sk) sk;;
  store (skb + skb_len) sizeof_tcphdr;;
  lr ← load (sk + so_localroute); store (sk + so_localroute) lr;;
  f ← load (prot + po_build_header);
  sa ← load (sk + sk_saddr); da ← load (sk + so_daddr); o ← load (sk + so_opt); tos ← load (sk + so_ip_tos); ttl ← load (sk + so_ip_ttl);
  tmp ← build_header f skb sa da pdev IPPROTO_TCP o sizeof_tcphdr tos ttl;
  if tmp <? 0 then
    store (skb + skb_free) 1;;
    f ← load (prot + po_wfree); ma ← load (skb + skb_mem_addr); ml ← load (skb + skb_mem_len);
    wfree f sk ma ml;;
    ws ← load (sk + so_write_seq); store (sk + so_write_seq) (u32 (ws + 1));;
    t ← del_timer (sk + so_timer);
    if negb (t =? 0) then add_timer (sk + so_timer);; mret tt else reset_timer sk TIME_CLOSE TCP_TIMEOUT_LEN
  else
  let th2 := th + tmp in
  l ← load (skb + skb_len); store (skb + skb_len) (u32 (l + tmp));;
  dev ← load pdev; store (skb + skb_dev) dev;;
  memncpy th2 th sizeof_tcphdr;;
  ws ← load (sk + so_write_seq); store32 (th2 + th_seq) (htonl ws);;
  ws ← load (sk + so_write_seq); store (sk + so_write_seq) (u32 (ws + 1));;
  ws ← load (sk + so_write_seq); store (skb + skb_h) ws;;
  set_field th2 f_ack 1;;
  a ← load (sk + so_acked_seq); store32 (th + th_ack_seq) (ntohl a);;
  win ← tcp_select_window sk; store (sk + so_window) (u16 win);; store16 (th2 + th_window) (u16 (ntohs win));;
  set_field th2 f_fin 1;;
  set_field th2 f_len (sizeof_tcphdr / 4);;
  sa ← load (sk + sk_saddr); da ← load (sk + so_daddr);
  tcp_send_checksum th2 sa da sizeof_tcphdr sk;;
  q ← skb_peek (sk + so_write_queue);
  if negb (q =? NULL) then
    store (skb + skb_free) 0;;
    n ← load (skb + sk_next);
    (if negb (n =? NULL) then skb_unlink skb else mret tt);;
    skb_queue_tail (sk + so_write_queue) skb
  else
    ws ← load (sk + so_write_seq); store (sk + so_sent_seq) ws;;
    p ← load (sk + so_prot); f ← load (p + po_queue_xmit); dev ← load pdev;
    queue_xmit f sk dev skb 0;;
    rto ← load (sk + so_rto);
    reset_timer sk TIME_WRITE rto.

(** The test of the state is a disjunction. *)
Definition tcp_shutdown (pdev sk now : Z) : M unit :=
  if Z.land now SEND_SHUTDOWN =? 0 then mret tt else
  st ← load (sk + so_state);
  if negb (st =? TCP_FIN_WAIT1) || negb (st =? TCP_FIN_WAIT2) || negb (st =? TCP_CLOSING) || negb (st =? TCP_LAST_ACK) ||
     negb (st =? TCP_TIME_WAIT) || negb (st =? TCP_CLOSE) || negb (st =? TCP_LISTEN) then mret tt else
  store (sk + so_inuse) 1;;
  sh ← load (sk + so_shutdown); store (sk + so_shutdown) (Z.lor sh SEND_SHUTDOWN);;
  p ← load (sk + so_partial);
  (if negb (p =? NULL) then send_partial sk else mret tt);;
  s ← tcp_close_state sk 0;
  (if negb (s =? 0) then tcp_send_fin pdev sk else mret tt);;
  release_sock sk.

(** [close] is [tcp_close]. *)
Definition tcp_close_pending (close : Z → Z → M unit) (sk : Z) : M unit :=
  loop (λ _ : unit,
    skb ← skb_dequeue (sk + so_receive_queue);
    if skb =? NULL then mret (inr tt) else
    s ← load (skb + skb_sk); store (s + so_dead) 1;;
    s ← load (skb + skb_sk); close s 0;;
    mret (inl tt)) tt.

(** [tcp_close] and [tcp_close_pending] call each other; [n] bounds the depth. *)
Fixpoint tcp_close (n : nat) (pdev sk timeout : Z) : M unit :=
  match n with
  | O => Mem.timeout
  | S n =>
      store (sk + so_inuse) 1;;
      st ← load (sk + so_state);
      if st =? TCP_LISTEN then
        set_state sk TCP_CLOSE;;
        tcp_close_pending (tcp_close n pdev) sk;;
        release_sock sk
      else
      store (sk + so_keepopen) 1;;
      sh ← load (sk + so_shutdown); store (sk + so_shutdown) (Z.land sh SHUTDOWN_MASK);;
      d ← load (sk + so_dead);
      (if d =? 0 then f ← load (sk + so_state_change); call f sk else mret tt);;
      (if timeout =? 0 then
         loop (λ _ : unit, skb ← skb_dequeue (sk + so_receive_queue); if skb =? NULL then mret (inr tt) else mret (inl tt)) tt;;
         p ← load (sk + so_partial);
         if negb (p =? NULL) then send_partial sk else mret tt
       else mret tt);;
      (if negb (timeout =? 0) then set_state sk TCP_CLOSE
       else
         s ← tcp_close_state sk 1;
         if s =? 1 then tcp_send_fin pdev sk else mret tt);;
      release_sock sk
  end.

(** The sequence number of [th] is cleared where that of the answer is meant. *)
Definition tcp_reset (pdev saddr daddr th prot opt dev tos ttl : Z) : M unit :=
  store pdev NULL;;
  rst ← get_field th f_rst;
  if negb (rst =? 0) then mret tt else
  f ← load (prot + po_wmalloc);
  skb ← wmalloc f NULL MAX_RESET_SIZE 1 GFP_KERNEL;
  if skb =? NULL then mret tt else
  store (skb + skb_len) sizeof_tcphdr;;
  store (skb + skb_sk) NULL;;
  store (skb + skb_dev) dev;;
  store (skb + skb_localroute) 0;;
  f ← load (prot + po_build_header);
  tmp ← build_header f skb saddr daddr pdev IPPROTO_TCP opt sizeof_tcphdr tos ttl;
  if tmp <? 0 then
    store (skb + skb_free) 1;;
    f ← load (prot + po_wfree); ma ← load (skb + skb_mem_addr); ml ← load (skb + skb_mem_len);
    wfree f NULL ma ml
  else
  let th2 := skb + skb_data + tmp in
  s ← load16 (th + th_source); store16 (th2 + th_dest) s;;
  d ← load16 (th + th_dest); store16 (th2 + th_source) d;;
  set_field th2 f_rst 1;;
  store16 (th2 + th_window) 0;;
  ack ← get_field th f_ack;
  (if negb (ack =? 0) then
     set_field th2 f_ack 0;;
     a ← load32 (th + th_ack_seq); store32 (th2 + th_seq) a;;
     store32 (th2 + th_ack_seq) 0
   else
     set_field th2 f_ack 1;;
     syn ← get_field th f_syn;
     s ← load32 (th + th_seq);
     store32 (th2 + th_ack_seq) (htonl (if syn =? 0 then s else u32 (s + 1)));;
     store32 (th + th_seq) 0);;
  th_flags_clear th2 [f_syn; f_urg; f_fin; f_psh];;
  set_field th2 f_len (sizeof_tcphdr / 4);;
  tcp_send_checksum th2 saddr daddr sizeof_tcphdr NULL;;
  f ← load (prot + po_queue_xmit); ndev ← load pdev;
  queue_xmit f NULL ndev skb 1.

(** ** The request of a connection *)

(** The new socket: a copy of the listening one, with these members changed. *)
Definition init_newsk (newsk sk skb daddr saddr seq : Z) : M unit :=
  copy_members sock_members newsk sk;;
  skb_queue_head_init (newsk + so_write_queue);;
  skb_queue_head_init (newsk + so_receive_queue);;
  skb_queue_head_init (newsk + so_back_log);;
  store (newsk + sk_send_head) NULL;; store (newsk + sk_send_tail) NULL;;
  store (newsk + so_rtt) 0;; store (newsk + so_rto) TCP_TIMEOUT_INIT;;
  store (newsk + so_max_window) 0;; store (newsk + so_cong_window) 1;; store (newsk + so_cong_count) 0;;
  store (newsk + so_done) 0;; store (newsk + so_ssthresh) 0;; store (newsk + so_partial) NULL;;
  store (newsk + so_wmem_alloc) 0;; store (newsk + so_rmem_alloc) 0;;
  lr ← load (sk + so_localroute); store (newsk + so_localroute) lr;;
  store (newsk + so_err) 0;; store (newsk + so_shutdown) 0;;
  th ← load (skb + skb_h); ts ← load32 (th + th_seq);
  store (newsk + so_acked_seq) (u32 (ts + 1));; store (newsk + so_copied_seq) (u32 (ts + 1));; store (newsk + so_fin_seq) ts;;
  store (newsk + so_state) TCP_SYN_RECV;;
  store (newsk + so_timeout) 0;; store (newsk + so_ip_xmit_timeout) 0;;
  store (newsk + so_write_seq) seq;; store (newsk + so_window_seq) seq;; store (newsk + so_rcv_ack_seq) seq;;
  store (newsk + so_retransmits) 0;;
  init_timer (newsk + so_timer);;
  store (newsk + so_timer + tl_data) newsk;; store (newsk + so_timer + tl_function) net_timer_fn;;
  init_timer (sk + so_retransmit_timer);;
  store (newsk + so_retransmit_timer + tl_data) newsk;; store (newsk + so_retransmit_timer + tl_function) retransmit_timer_fn;;
  d ← load16 (th + th_dest); store16 (newsk + so_dummy_th + th_source) d;;
  s ← load16 (th + th_source); store16 (newsk + so_dummy_th + th_dest) s;;
  store (newsk + so_daddr) saddr;; store (newsk + sk_saddr) daddr;;
  set_field (newsk + so_dummy_th) f_reserve 0;; set_field (newsk + so_dummy_th) f_len 6;;
  th_flags_clear (newsk + so_dummy_th) [f_syn; f_rst; f_psh; f_ack; f_urg];;
  store (newsk + so_acked_seq) (u32 (ts + 1));; store (newsk + so_copied_seq) (u32 (ts + 1));;
  store (newsk + so_socket) NULL;;
  t ← load (sk + so_ip_ttl); store (newsk + so_ip_ttl) t;;
  iph ← load (skb + skb_ip_hdr); t ← load (iph + ip_tos); store (newsk + so_ip_tos) t.

(** The window and the size of packets from the route. *)
Definition newsk_route (newsk sk saddr dev : Z) : M unit :=
  rt ← ip_rt_route rt_base rt_loopback saddr NULL NULL;
  fl ← (if negb (rt =? NULL) then load (rt + rt_flags) else mret 0);
  (if negb (Z.land fl RTF_WINDOW =? 0) then w ← load (rt + rt_window); store (newsk + so_window_clamp) w else store (newsk + so_window_clamp) 0);;
  um ← load (sk + so_user_mss);
  (if negb (um =? 0) then store (newsk + so_mtu) um
   else if negb (Z.land fl RTF_MSS =? 0) then m ← load (rt + rt_mss); store (newsk + so_mtu) (u16 (m - HEADER_SIZE))
   else store (newsk + so_mtu) MAX_WINDOW);;
  m ← load (newsk + so_mtu); dm ← load (dev + nd_mtu);
  store (newsk + so_mtu) (u16 (min m (dm - HEADER_SIZE))).

(** The header of the answer, with the option of the largest segment. *)
Definition syn_header (newsk skb buff t1 : Z) : M unit :=
  h ← load (skb + skb_h); memncpy t1 h sizeof_tcphdr;;
  ws ← load (newsk + so_write_seq); store (buff + skb_h) ws;;
  h ← load (skb + skb_h); s ← load16 (h + th_source); store16 (t1 + th_dest) s;;
  s ← load16 (newsk + so_dummy_th + th_source); store16 (t1 + th_source) s;;
  ws ← load (newsk + so_write_seq); store (newsk + so_write_seq) (u32 (ws + 1));; store32 (t1 + th_seq) (ntohl ws);;
  set_field t1 f_ack 1;;
  win ← tcp_select_window newsk; store (newsk + so_window) (u16 win);;
  ws ← load (newsk + so_write_seq); store (newsk + so_sent_seq) ws;;
  win ← load (newsk + so_window); store16 (t1 + th_window) (ntohs win);;
  th_flags_clear t1 [f_reserve; f_rst; f_urg; f_psh];;
  set_field t1 f_syn 1;;
  h ← load (skb + skb_h); s ← load32 (h + th_seq); store32 (t1 + th_ack_seq) (ntohl (u32 (s + 1)));;
  set_field t1 f_len (sizeof_tcphdr / 4 + 1);;
  let ptr := t1 + sizeof_tcphdr in
  store ptr 2;; store (ptr + 1) 4;;
  m ← load (newsk + so_mtu); store (ptr + 2) (Z.land (Z.shiftr m 8) 0xff);;
  m ← load (newsk + so_mtu); store (ptr + 3) (Z.land m 0xff).

(** [newsk] is not allocated: its value is a parameter. *)
Definition tcp_conn_request (newsk pdev sk skb daddr saddr opt dev seq : Z) : M unit :=
  store pdev NULL;;
  th ← load (skb + skb_h);
  d ← load (sk + so_dead);
  if negb (d =? 0) then
    p ← load (sk + so_prot); tos ← load (sk + so_ip_tos); ttl ← load (sk + so_ip_ttl);
    tcp_reset pdev daddr saddr th p opt dev tos ttl
  else
  f ← load (sk + so_data_ready); call_int f sk 0;;
  b ← load (sk + so_ack_backlog); mb ← load (sk + so_max_ack_backlog);
  if b >=? mb then mret tt else
  if newsk =? NULL then mret tt else
  init_newsk newsk sk skb daddr saddr seq;;
  newsk_route newsk sk saddr dev;;
  p ← load (newsk + so_prot); f ← load (p + po_wmalloc);
  buff ← wmalloc f newsk MAX_SYN_SIZE 1 GFP_ATOMIC;
  if buff =? NULL then
    store (sk + so_err) (- ENOMEM);;
    store (newsk + so_dead) 1;; store (newsk + so_state) TCP_CLOSE;;
    release_sock newsk
  else
  store (buff + skb_len) (sizeof_tcphdr + 4);;
  store (buff + skb_sk) newsk;;
  lr ← load (newsk + so_localroute); store (buff + skb_localroute) lr;;
  p ← load (sk + so_prot); f ← load (p + po_build_header); sa ← load (newsk + sk_saddr); da ← load (newsk + so_daddr);
  tos ← load (sk + so_ip_tos); ttl ← load (sk + so_ip_ttl);
  tmp ← build_header f buff sa da pdev IPPROTO_TCP NULL MAX_SYN_SIZE tos ttl;
  if tmp <? 0 then
    store (sk + so_err) (s16 tmp);;
    store (buff + skb_free) 1;;
    store (newsk + so_dead) 1;; store (newsk + so_state) TCP_CLOSE;;
    release_sock newsk;;
    store (skb + skb_sk) sk
  else
  l ← load (buff + skb_len); store (buff + skb_len) (u32 (l + tmp));;
  let t1 := buff + skb_data + tmp in
  syn_header newsk skb buff t1;;
  tcp_send_checksum t1 daddr saddr (sizeof_tcphdr + 4) newsk;;
  p ← load (newsk + so_prot); f ← load (p + po_queue_xmit); ndev ← load pdev;
  queue_xmit f newsk ndev buff 0;;
  reset_timer newsk TIME_WRITE TCP_TIMEOUT_INIT;;
  store (skb + skb_sk) newsk;;
  ml ← load (skb + skb_mem_len);
  r ← load (sk + so_rmem_alloc); store (sk + so_rmem_alloc) (u32 (r - ml));;
  r ← load (newsk + so_rmem_alloc); store (newsk + so_rmem_alloc) (u32 (r + ml));;
  skb_queue_tail (sk + so_receive_queue) skb;;
  release_sock newsk.

(** ** Sending what has waited *)

(** It looks at the queue of received packets. *)
Definition xmit_ready (sk : Z) : M Z :=
  skb ← skb_peek (sk + so_receive_queue);
  if skb =? NULL then mret NULL else
  s ← load (skb + skb_h); w ← load (sk + so_window_seq);
  if negb (before s (u32 (w + 1))) then mret NULL else
  rt ← load (sk + so_retransmits); why ← load (sk + so_ip_xmit_timeout);
  ok ← (if (rt =? 0) || negb (why =? TIME_WRITE) then mret true
        else s ← load (skb + skb_h); a ← load (sk + so_rcv_ack_seq); befor s (u32 (a + 1)));
  if negb ok then mret NULL else
  po ← load (sk + sk_packets_out); cw ← load (sk + so_cong_window);
  mret (if po <? cw then skb else NULL).

Definition tcp_write_xmit (sk : Z) : M unit :=
  z ← load (sk + so_zapped);
  if negb (z =? 0) then mret tt else
  loop (λ _ : unit,
    skb ← xmit_ready sk;
    if skb =? NULL then mret (inr tt) else
    skb_unlink skb;;
    s ← load (skb + skb_h); a ← load (sk + so_rcv_ack_seq);
    (if before s (u32 (a + 1)) then
       store (sk + so_retransmits) 0;;
       kfree_skb skb 1;;
       d ← load (sk + so_dead);
       if d =? 0 then f ← load (sk + so_write_space); call f sk else mret tt
     else
       dev ← load (skb + skb_dev); hhl ← load (dev + hard_header_len);
       let iph := skb + skb_data + hhl in
       ihl ← iph_ihl iph;
       let th := iph + ihl * 4 in
       l ← load (skb + skb_len);
       a ← load (sk + so_acked_seq); store32 (th + th_ack_seq) (ntohl a);;
       win ← tcp_select_window sk; store16 (th + th_window) (ntohs win);;
       sa ← load (sk + sk_saddr); da ← load (sk + so_daddr);
       tcp_send_checksum th sa da (s32 (l - (th - (skb + skb_data)))) sk;;
       s ← load (skb + skb_h); store (sk + so_sent_seq) s;;
       p ← load (sk + so_prot); f ← load (p + po_queue_xmit); dev ← load (skb + skb_dev); fr ← load (skb + skb_free);
       queue_xmit f sk dev skb fr;;
       rto ← load (sk + so_rto);
       reset_timer sk TIME_WRITE rto);;
    mret (inl tt)) tt.
End conn.
