(* ===== verification/TcpSpec.v ===== *)
(** * What the transmission control protocol does *)

From Stdlib Require Import Relations.
From S2P Require Export IpSpec TcpConn.

(** ** Sequence numbers *)

(** No sequence number is before another one, and every other number is after a given one: the differences are compared as
    unsigned numbers. *)
Theorem seq_order_lost a b : before a b = false ∧ (after a b = false ↔ u32 a = u32 b).
Proof.
  unfold before, after, u32. split; [apply Z.ltb_ge; dlia|]. rw Z.gtb_ltb Z.ltb_ge. split; intros H; dlia.
Qed.

Lemma before_false a b : before a b = false.
Proof. apply seq_order_lost. Qed.

(** ** Bit fields of a header *)

Definition th_fields : list (Z * Z) := [f_len; f_reserve; f_urg; f_ack; f_psh; f_rst; f_syn; f_fin].

(** The value of a field in the sixteen bits of a header. *)
Definition field_of (b : Z) (f : Z * Z) : Z := Z.land (Z.shiftr b f.1) (Z.ones f.2).

(** The sixteen bits after a field is set. *)
Definition with_field (b : Z) (f : Z * Z) (v : Z) : Z :=
  Z.lor (Z.ldiff b (Z.shiftl (Z.ones f.2) f.1)) (Z.shiftl (Z.land v (Z.ones f.2)) f.1).

Lemma ones_bit n i : 0 ≤ n → 0 ≤ i → Z.testbit (Z.ones n) i = (i <? n).
Proof. intros Hn Hi. apply Z.testbit_ones_nonneg; lia. Qed.

Lemma field_bit b f i : 0 ≤ f.1 → 0 ≤ f.2 → 0 ≤ i → Z.testbit (field_of b f) i = Z.testbit b (i + f.1) && (i <? f.2).
Proof. intros H1 H2 Hi. unfold field_of. by rw Z.land_spec Z.shiftr_spec // ones_bit. Qed.

Lemma with_field_bit b f v i : 0 ≤ f.1 → 0 ≤ f.2 → 0 ≤ i →
  Z.testbit (with_field b f v) i = if (f.1 <=? i) && (i <? f.1 + f.2) then Z.testbit v (i - f.1) else Z.testbit b i.
Proof.
  intros H1 H2 Hi. unfold with_field. rw Z.lor_spec Z.ldiff_spec !Z.shiftl_spec //. destruct (Z.leb_spec f.1 i).
  - rw Z.land_spec ones_bit; [|lia..]. rw (_ : (i - f.1 <? f.2) = (i <? f.1 + f.2)); [|by apply Bool.eq_iff_eq_true; rw !Z.ltb_lt; lia].
    simpl. destruct (i <? f.1 + f.2); simpl; [by rw andb_false_r andb_true_r|by rw andb_true_r andb_false_r orb_false_r].
  - rw !(Z.testbit_neg_r _ (i - f.1)); [|lia..]. simpl. by rw andb_true_r orb_false_r.
Qed.

(** The fields do not overlap. *)
Definition apart (f g : Z * Z) : bool :=
  (0 <=? f.1) && (0 <? f.2) && (bool_decide (g = f) || (f.1 + f.2 <=? g.1) || (g.1 + g.2 <=? f.1)).

Lemma th_fields_apart f g : f ∈ th_fields → g ∈ th_fields →
  0 ≤ f.1 ∧ 0 < f.2 ∧ 0 ≤ g.1 ∧ 0 < g.2 ∧ (g = f ∨ f.1 + f.2 ≤ g.1 ∨ g.1 + g.2 ≤ f.1).
Proof.
  assert (∀ f g, f ∈ th_fields → g ∈ th_fields → apart f g = true) as Hall.
  { intros x y Hx%list_elem_of_In Hy%list_elem_of_In. assert (forallb (λ x, forallb (apart x) th_fields) th_fields = true) as H by reflexivity.
    rw forallb_forall in H. specialize (H x Hx). rw forallb_forall in H. exact (H y Hy). }
  intros Hf Hg. pose proof (Hall f g Hf Hg) as H1. pose proof (Hall g g Hg Hg) as H2. unfold apart in *.
  rw !andb_true_iff !orb_true_iff bool_decide_eq_true !Z.leb_le !Z.ltb_lt in H1. rw !andb_true_iff !Z.leb_le !Z.ltb_lt in H2. tauto.
Qed.

(** Setting a bit field of a header and reading it gives the low bits of the value, and the other fields keep theirs. *)
Theorem th_fields_roundtrip b v f g : f ∈ th_fields → g ∈ th_fields →
  field_of (with_field b f v) g = if decide (g = f) then v mod 2 ^ f.2 else field_of b g.
Proof.
  intros Hf Hg. destruct (th_fields_apart f g Hf Hg) as (Hf1 & Hf2 & Hg1 & Hg2 & Hap).
  apply Z.bits_inj_iff'. intros i Hi. rw field_bit; [|lia..]. rw with_field_bit; [|lia..]. case_decide as E.
  - subst g. rw -Z.land_ones; [|lia]. rw Z.land_spec ones_bit; [|lia..]. destruct (Z.ltb_spec i f.2); [|by rw !andb_false_r].
    rw (_ : (f.1 <=? i + f.1) = true); [|apply Z.leb_le; lia]. rw (_ : (i + f.1 <? f.1 + f.2) = true); [|apply Z.ltb_lt; lia]. simpl.
    by rw (_ : i + f.1 - f.1 = i); [|lia].
  - rw field_bit; [|lia..]. destruct (Z.ltb_spec i g.2); [|by rw !andb_false_r]. rw !andb_true_r.
    rw (_ : (f.1 <=? i + g.1) && (i + g.1 <? f.1 + f.2) = false); [done|]. apply andb_false_iff. rw Z.leb_gt Z.ltb_ge.
    destruct Hap as [->|[|]]; [done|lia|lia].
Qed.

Lemma th_fields_roundtrip_witness :
  f_syn ∈ th_fields ∧ f_ack ∈ th_fields ∧ field_of (with_field 0x0805 f_syn 1) f_ack = field_of 0x0805 f_ack.
Proof.
  assert (f_syn ∈ th_fields) as H1 by (unfold th_fields; set_solver). assert (f_ack ∈ th_fields) as H2 by (unfold th_fields; set_solver).
  split; [exact H1|]. split; [exact H2|]. exact (th_fields_roundtrip 0x0805 1 f_syn f_ack H1 H2).
Defined.

(** ** States *)

(** The changes of the state of a socket that the operations make: those of [tcp_close_state], and the end of a connection ([tcp_close] of a listening socket
    or with a timeout, [tcp_err], a request that fails), and the start of one ([tcp_conn_request]). *)
Inductive tcp_step : Z → Z → Prop :=
  | step_request st : tcp_step st TCP_SYN_RECV
  | step_close st : tcp_step st (close_next st).1
  | step_abort st : tcp_step st TCP_CLOSE.

Definition tcp_reaches : Z → Z → Prop := clos_refl_trans_1n Z tcp_step.

(** The states of sockets that are not being closed. *)
Definition open_states : list Z := [TCP_ESTABLISHED; TCP_SYN_SENT; TCP_SYN_RECV; TCP_CLOSE; TCP_CLOSE_WAIT; TCP_LISTEN].

(** From no open state the operations lead to a state in which the other side's answer to the end is awaited: an established connection stays
    established when it is closed, and only [TCP_LAST_ACK] and [TCP_CLOSE] are reached. *)
Theorem tcp_never_fin_wait st st' : st ∈ open_states → tcp_reaches st st' → st' ∈ TCP_LAST_ACK :: open_states.
Proof.
  intros Ho Hr. assert (st ∈ TCP_LAST_ACK :: open_states) as H by (by right). clear Ho. induction Hr as [|st st1 st2 Hs _ IH]; [done|]. apply IH. clear IH.
  assert (Forall (λ s, (close_next s).1 ∈ TCP_LAST_ACK :: open_states) (TCP_LAST_ACK :: open_states)) as Hc by (apply (bool_decide_unpack _); by vm_compute).
  destruct Hs; [apply (bool_decide_unpack _); by vm_compute| |apply (bool_decide_unpack _); by vm_compute]. rw Forall_forall in Hc. by apply Hc.
Qed.

Lemma tcp_never_fin_wait_witness :
  TCP_ESTABLISHED ∈ open_states ∧ tcp_reaches TCP_ESTABLISHED TCP_ESTABLISHED ∧ TCP_ESTABLISHED ∈ TCP_LAST_ACK :: open_states.
Proof.
  assert (TCP_ESTABLISHED ∈ open_states) as H1 by (unfold open_states; set_solver).
  assert (tcp_reaches TCP_ESTABLISHED TCP_ESTABLISHED) as H2.
  { econstructor 2; [exact (step_close TCP_ESTABLISHED)|]. constructor. }
  split; [exact H1|]. split; [exact H2|]. exact (tcp_never_fin_wait _ _ H1 H2).
Defined.

Lemma tcp_set_state_wp wq sk st ns (Q : unit → heapProp) : (st =? TCP_SYN_RECV) && (ns =? TCP_ESTABLISHED) = false → 0 ≤ ns < 2 ^ 8 →
  (sk + so_state) ↦ st -∗ ((sk + so_state) ↦ ns -∗ Q tt) -∗ wp (tcp_set_state wq sk ns) Q.
Proof. iIntros (Hn Hr) "H HQ". unfold tcp_set_state. wp_load. rw Hn. wp_pures. rw u8_small; [|done]. wp_store. by iApply "HQ". Qed.

(** [tcp_close_state] makes the step of the table and tells whether the end is to be sent. *)
Theorem tcp_close_state_correct wq del_timer add_timer sk dead st :
  {{ (sk + so_state) ↦ st ∗ ⌜0 ≤ st < 2 ^ 8 ∧ (dead = 0 ∨ st ≠ TCP_FIN_WAIT2)⌝ }}
    tcp_close_state wq del_timer add_timer sk dead
  {{ r, ⌜r = (close_next st).2 ∧ tcp_step st (close_next st).1⌝ ∗ (sk + so_state) ↦ (close_next st).1 }}.
Proof.
  apply triple_wp. iIntros "[H (%Hr & %Hd)]". unfold tcp_close_state. wp_load. destruct (close_next st) as [ns fin] eqn:E.
  assert ((st =? TCP_SYN_RECV) && (ns =? TCP_ESTABLISHED) = false ∧ 0 ≤ ns < 2 ^ 8 ∧ (ns = TCP_FIN_WAIT2 → st = TCP_FIN_WAIT2)) as (Hn & Hns & Hf).
  { unfold close_next in E. repeat match type of E with context [st =? ?c] => destruct (Z.eqb_spec st c); [subst st|] end; vm_compute in E; injection E as <- <-;
      (split_and!; [by rw ?andb_false_r|done|done|done]). }
  wp_pures. iApply wp_bind. iApply (tcp_set_state_wp with "H"); [done|done|]. iIntros "H".
  rw (_ : negb (dead =? 0) && (ns =? TCP_FIN_WAIT2) = false).
  2:{ destruct (Z.eqb_spec dead 0); [done|]. simpl. apply Z.eqb_neq. intros ->. destruct Hd; [done|]. by rw Hf in H. }
  wp_pures. iFrame. iPureIntro. split; [done|]. rw (_ : ns = (close_next st).1); [constructor|by rw E].
Qed.

(** [tcp_shutdown] never shuts a connection down: its test excludes every state. *)
Theorem tcp_shutdown_never wq del_timer add_timer wmalloc wfree build_header queue_xmit pdev sk now st :
  {{ (sk + so_state) ↦ st }}
    tcp_shutdown wq del_timer add_timer wmalloc wfree build_header queue_xmit pdev sk now
  {{ _, (sk + so_state) ↦ st }}.
Proof.
  apply triple_wp. iIntros "H". unfold tcp_shutdown. destruct (Z.land now SEND_SHUTDOWN =? 0); [by wp_pures|]. wp_load.
  destruct (Z.eqb_spec st TCP_FIN_WAIT1) as [->|]; [change (TCP_FIN_WAIT1 =? TCP_FIN_WAIT2) with false|]; simpl; by iApply wp_ret.
Qed.

(** ** Connections that wait to be accepted *)

Lemma skb_peek_wp q xs Q : dlist q xs -∗ (dlist q xs -∗ Q (first_or NULL xs)) -∗ wp (skb_peek q) Q.
Proof.
  iIntros "(Hn & Hp & %Hall) HQ". iDestruct (nexts_first with "Hn") as "[Hf Hn]". unfold skb_peek. change sk_next with list_next. wp_load.
  destruct xs as [|x xs].
  - change (first_or q []) with q. rw Z.eqb_refl. wp_pures. iApply "HQ". by iFrame.
  - change (first_or q (x :: xs)) with x. iDestruct ("Hn" with "Hf") as "Hn". iAssert ⌜x ≠ q⌝%I as %Hx.
    { iApply (nexts_last_ne q [] x xs q with "Hn"). }
    rw (eqb_false x q Hx). cbn [negb]. iDestruct (nexts_first with "Hn") as "[Hf Hn]". change (first_or q (x :: xs)) with x. wp_load. iDestruct ("Hn" with "Hf") as "Hn".
    iApply "HQ". by iFrame.
Qed.

(** A packet of a request, the socket that was made for it, and the state of that. *)
Record pending := Pending { pd_skb : Z; pd_sock : Z; pd_state : Z }.

Definition pend_cells (p : pending) : heapProp := (pd_skb p + skb_sk) ↦ pd_sock p ∗ (pd_sock p + so_state) ↦ pd_state p.
Definition established (p : pending) : bool := (pd_state p =? TCP_ESTABLISHED) || (pd_state p =? TCP_FIN_WAIT2).
Definition pending_queue (sk : Z) (ps : list pending) : heapProp :=
  dlist (sk + so_receive_queue) (pd_skb <$> ps) ∗ [∗ list] p ∈ ps, pend_cells p.

Lemma filter_first {A} (f : A → bool) l x l' : filter f l = x :: l' → ∃ l1 l2, l = l1 ++ x :: l2 ∧ filter f l1 = [] ∧ f x = true.
Proof.
  induction l as [|y l IH]; [done|]. destruct (f y) eqn:E.
  - rw filter_cons_True; [|by rw E]. intros [= <- _]. by exists [], l.
  - rw filter_cons_False; [|rw E; by intros []]. intros (l1 & l2 & -> & H1 & H2)%IH. exists (y :: l1), l2. split_and!; [done| |done].
    by rw filter_cons_False; [|rw E; by intros []].
Qed.

Lemma tcp_find_established_wp sk ps Q :
  pending_queue sk ps -∗ (pending_queue sk ps -∗ Q (from_option pd_skb NULL (head (filter established ps)))) -∗ wp (tcp_find_established sk) Q.
Proof.
  iIntros "[Hd Hp] HQ". unfold tcp_find_established. iApply wp_bind. iApply (skb_peek_wp with "Hd"). iIntros "Hd". destruct ps as [|p0 ps].
  { change (first_or NULL (pd_skb <$> [])) with NULL. wp_pures. iApply "HQ". by iFrame. }
  change (first_or NULL (pd_skb <$> p0 :: ps)) with (pd_skb p0). iDestruct (dlist_ne _ _ (pd_skb p0) with "Hd") as %[_ Hp0]; [set_solver|]. rw (eqb_false _ _ Hp0).
  iApply (wp_wand with "[Hd Hp]"); first iApply (wp_loop _ (λ n x, ∃ ps1 p ps2, ⌜p0 :: ps = ps1 ++ p :: ps2 ∧ x = pd_skb p ∧ n = length ps2 ∧ filter established ps1 = []⌝ ∗
      pending_queue sk (p0 :: ps))%I (λ r, ⌜r = from_option pd_skb NULL (head (filter established (p0 :: ps)))⌝ ∗ pending_queue sk (p0 :: ps))%I (length ps)).
  - iIntros "(%ps1 & %p & %ps2 & (%E & _ & -> & _) & [(Hn & _) _])". rw nexts_cells. iApply (cells_le with "Hn"). rw length_fmap.
    apply (f_equal length) in E. rw length_app in E. simpl in *. lia.
  - intros n x. iIntros "(%ps1 & %p & %ps2 & (-> & -> & -> & %Hf) & [Hd Hp])". iDestruct (big_sepL_elem_of_acc _ _ p with "Hp") as "[(H1 & H2) Hp]"; [set_solver|].
    wp_load. wp_load. iDestruct ("Hp" with "[$H1 $H2]") as "Hp". rw filter_app Hf. fold (established p). destruct (established p) eqn:Ee.
    { wp_pures. rw filter_cons_True; [|by rw Ee]. by iFrame. }
    rw filter_cons_False; [|rw Ee; by intros []]. rw fmap_app fmap_cons.
    iDestruct (dlist_next (sk + so_receive_queue) (pd_skb <$> ps1) (pd_skb p :: (pd_skb <$> ps2)) with "Hd") as (n) "(Hn & %Hn & Hd)".
    rw (Hn _ _ eq_refl). change (first_or (sk + so_receive_queue) (pd_skb p :: (pd_skb <$> ps2)) + list_next) with (pd_skb p + sk_next). wp_load.
    iDestruct ("Hd" with "Hn") as "Hd". destruct ps2 as [|p2 ps2].
    { change (first_or (sk + so_receive_queue) (pd_skb <$> [])) with (sk + so_receive_queue). rw Z.eqb_refl. wp_pures. unfold pending_queue. rw fmap_app fmap_cons. by iFrame. }
    change (first_or (sk + so_receive_queue) (pd_skb <$> p2 :: ps2)) with (pd_skb p2). iDestruct (dlist_ne _ _ (pd_skb p2) with "Hd") as %[Hne _]; [set_solver|].
    rw (eqb_false _ _ Hne). cbn [negb]. wp_pures. iExists (length ps2). iSplit; [iPureIntro; simpl; lia|]. iExists (ps1 ++ [p]), p2, ps2. rw -assoc_L.
    unfold pending_queue. rw fmap_app fmap_cons. iFrame. iPureIntro. split_and!; [done|done|done|]. rw filter_app Hf. by rw filter_cons_False; [|rw Ee; by intros []].
  - iExists [], p0, ps. by iFrame.
  - iIntros (r) "[-> H]". by iApply "HQ".
Qed.

Lemma tcp_dequeue_established_wp sk ps Q :
  pending_queue sk ps -∗
  (∀ r, (∃ ps1 p ps2, ⌜ps = ps1 ++ p :: ps2 ∧ filter established ps1 = [] ∧ established p = true ∧ r = pd_skb p ∧ pd_skb p ≠ NULL⌝ ∗
           pending_queue sk (ps1 ++ ps2) ∗ lclear (pd_skb p) ∗ pend_cells p) ∨
        (⌜r = NULL ∧ filter established ps = []⌝ ∗ pending_queue sk ps) -∗ Q r) -∗
  wp (tcp_dequeue_established sk) Q.
Proof.
  iIntros "Hq HQ". unfold tcp_dequeue_established. iApply wp_bind. iApply (tcp_find_established_wp with "Hq"). iIntros "[Hd Hp]".
  destruct (filter established ps) as [|p l] eqn:E; simpl.
  - wp_pures. iApply "HQ". iRight. by iFrame.
  - apply filter_first in E as (ps1 & ps2 & -> & Hf & He). rw fmap_app fmap_cons. iDestruct (dlist_ne _ _ (pd_skb p) with "Hd") as %[_ Hp]; [set_solver|].
    rw (eqb_false _ _ Hp). iApply wp_bind. iApply (skb_unlink_wp with "Hd"). iIntros "Hd Hc". wp_pures. iApply "HQ". iLeft. iExists ps1, p, ps2.
    iDestruct "Hp" as "(Hp1 & Hp & Hp2)". iSplit; [done|]. iFrame "Hp Hc". unfold pending_queue. rw fmap_app. iFrame.
Qed.

(** A call of [tcp_accept] that must not wait returns the socket of the first established connection of the queue and takes exactly its packet out;
    without one it answers with [EAGAIN] and leaves the queue as it is. *)
Theorem tcp_accept_first turns current schedule wait sk flags ps u e b :
  {{ (sk + so_state) ↦ TCP_LISTEN ∗ (sk + so_inuse) ↦ u ∗ (sk + so_err) ↦ e ∗ (sk + so_ack_backlog) ↦ b ∗ pending_queue sk ps ∗ ⌜Z.land flags O_NONBLOCK ≠ 0⌝ }}
    tcp_accept current schedule turns wait sk flags
  {{ r, (sk + so_state) ↦ TCP_LISTEN ∗ (sk + so_inuse) ↦ 1 ∗
     ((∃ ps1 p ps2, ⌜ps = ps1 ++ p :: ps2 ∧ filter established ps1 = [] ∧ established p = true ∧ r = pd_sock p⌝ ∗
         pending_queue sk (ps1 ++ ps2) ∗ lclear (pd_skb p) ∗ pend_cells p ∗ (sk + so_ack_backlog) ↦ s8 (b - 1) ∗ (sk + so_err) ↦ e) ∨
      (⌜r = NULL ∧ filter established ps = []⌝ ∗ pending_queue sk ps ∗ (sk + so_ack_backlog) ↦ b ∗ (sk + so_err) ↦ EAGAIN)) }}.
Proof.
  apply triple_wp. iIntros "(Hs & Hu & He & Hb & Hq & %Hf)". unfold tcp_accept, release_sock. wp_load. wp_store. iApply wp_bind. cbn [run]. iApply wp_bind. iApply wp_bind.
  iApply (tcp_dequeue_established_wp with "Hq"). iIntros (r) "[(%ps1 & %p & %ps2 & (-> & %H1 & %H2 & -> & %Hp) & Hq & Hc & Hp1 & Hp2)|[(-> & %Hn) Hq]]".
  - rw (eqb_false _ _ Hp). wp_pures. wp_load. wp_load. wp_store. wp_pures. iFrame "Hs Hu". iLeft. iExists ps1, p, ps2. by iFrame.
  - change (NULL =? NULL) with true. wp_pures. rw (eqb_false _ 0 Hf). wp_pures. wp_store. iFrame "Hs Hu". iRight. by iFrame.
Qed.

(** ** Packets that wait to be sent *)

(** [tcp_write_xmit] sends nothing: no sequence number is before the end of the window for it. *)
Theorem tcp_write_xmit_nothing del_timer add_timer call queue_xmit befor kfree_skb sk q z w :
  {{ (sk + so_zapped) ↦ z ∗ dlist (sk + so_receive_queue) q ∗ ([∗ list] x ∈ q, ∃ s, (x + skb_h) ↦ s) ∗ (sk + so_window_seq) ↦ w }}
    tcp_write_xmit del_timer add_timer call queue_xmit befor kfree_skb sk
  {{ _, (sk + so_zapped) ↦ z ∗ dlist (sk + so_receive_queue) q ∗ ([∗ list] x ∈ q, ∃ s, (x + skb_h) ↦ s) ∗ (sk + so_window_seq) ↦ w }}.
Proof.
  apply triple_wp. iIntros "(Hz & Hq & Hs & Hw)". unfold tcp_write_xmit. wp_load. destruct (z =? 0); cbn [negb]; [|wp_pures; by iFrame].
  iApply (wp_loop _ (λ n _, (sk + so_zapped) ↦ z ∗ dlist (sk + so_receive_queue) q ∗ ([∗ list] x ∈ q, ∃ s, (x + skb_h) ↦ s) ∗ (sk + so_window_seq) ↦ w)%I _ 1);
    [iIntros "(H & _)"; by rw pt_cells| |iFrame].
  intros n u. iIntros "(Hz & Hq & Hs & Hw)". unfold xmit_ready. iApply wp_bind. iApply wp_bind. iApply (skb_peek_wp with "Hq"). iIntros "Hq". destruct q as [|x q].
  - change (first_or NULL []) with NULL. wp_pures. by iFrame.
  - change (first_or NULL (x :: q)) with x. iDestruct (dlist_ne _ _ x with "Hq") as %[_ Hx]; [set_solver|]. rw (eqb_false x NULL Hx).
    iDestruct "Hs" as "[(%s & Hx) Hs]". wp_load. wp_load. rw before_false. wp_pures. iFrame.
Qed.
