(* ===== verification/TcpQueue.v ===== *)
(** * The queues of a connection (net/inet/tcp.c)

    Reading: the search for the next byte and the packets that are dropped.  Sending: packets that are not full, and packets that wait for the window.  The
    timers are the interface of [Timer]. *)

From S2P Require Export TcpSpec Timer.

(** ** Packets of the receive queue *)

(** A packet, its header, its sequence number, the sixteen bits of its fields and the length of its data. *)
Record seg := Seg { sg_skb : Z; sg_th : Z; sg_seq : Z; sg_bits : Z; sg_len : Z }.

Definition seg_ok (s : seg) : Prop := 0 ≤ sg_seq s < 2 ^ 32 ∧ 0 ≤ sg_bits s < 2 ^ 16.
Definition seg_has (f : Z * Z) (s : seg) : bool := negb (field_of (sg_bits s) f =? 0).

Definition seg_cells (s : seg) : heapProp :=
  (sg_skb s + skb_h) ↦ sg_th s ∗ bytes (sg_th s + th_seq) (le32 (sg_seq s)) ∗ bytes (sg_th s + th_bits) (le16 (sg_bits s)) ∗ (sg_skb s + skb_len) ↦ sg_len s.

(** A packet with its mark: whether its data has been read. *)
Definition marked_cells (x : seg * Z) : heapProp := seg_cells x.1 ∗ (sg_skb x.1 + skb_used) ↦ x.2.

Definition recv_queue (sk : Z) (xs : list (seg * Z)) : heapProp :=
  ⌜Forall (λ x, seg_ok x.1) xs⌝ ∗ dlist (sk + so_receive_queue) ((λ x, sg_skb x.1) <$> xs) ∗ [∗ list] x ∈ xs, marked_cells x.

(** Where the byte with the number [seq] is in a packet. *)
Definition seg_offset (seq : Z) (s : seg) : Z :=
  if seg_has f_syn s then u32 (u32 (seq - sg_seq s) - 1) else u32 (seq - sg_seq s).

(** What the search finds in a packet. *)
Definition seg_hit (seq : Z) (s : seg) : option found :=
  if seg_offset seq s <? sg_len s then Some (FoundData (sg_skb s) (seg_offset seq s))
  else if seg_has f_fin s then Some (FoundFin (sg_skb s)) else None.

(** What it finds in the queue: the packets before it are marked unless the caller only peeks. *)
Definition mark (flags : Z) (x : seg * Z) : seg * Z := if Z.land flags MSG_PEEK =? 0 then (x.1, 1) else x.

Fixpoint search (flags seq : Z) (xs : list (seg * Z)) : found * list (seg * Z) :=
  match xs with
  | [] => (NotFound, [])
  | x :: xs =>
      match seg_hit seq x.1 with
      | Some r => (r, x :: xs)
      | None => ((search flags seq xs).1, mark flags x :: (search flags seq xs).2)
      end
  end.

Lemma mark_fst flags x : (mark flags x).1 = x.1.
Proof. unfold mark. by destruct (_ =? 0). Qed.

Lemma search_hit flags seq x xs r : seg_hit seq x.1 = Some r → search flags seq (x :: xs) = (r, x :: xs).
Proof. simpl. by intros ->. Qed.

Lemma search_miss flags seq x xs : seg_hit seq x.1 = None →
  search flags seq (x :: xs) = ((search flags seq xs).1, mark flags x :: (search flags seq xs).2).
Proof. simpl. by intros ->. Qed.

Lemma get_field_wp th f b Q : 0 ≤ b < 2 ^ 16 →
  bytes (th + th_bits) (le16 b) -∗ (bytes (th + th_bits) (le16 b) -∗ Q (field_of b f)) -∗ wp (get_field th f) Q.
Proof.
  iIntros (Hb) "H HQ". unfold get_field. iApply wp_bind. iApply (load16_wp with "H"); [done|]. iIntros "H". wp_pures. by iApply "HQ".
Qed.

(** One packet of the queue, to be looked at and marked. *)
Lemma recv_queue_acc sk xs1 x xs2 : recv_queue sk (xs1 ++ x :: xs2) ⊢ ⌜seg_ok x.1⌝ ∗ marked_cells x ∗
  (∀ y, ⌜y.1 = x.1⌝ -∗ marked_cells y -∗ recv_queue sk (xs1 ++ y :: xs2)).
Proof.
  iIntros "(%Hok & Hd & Hx)". rw big_sepL_app big_sepL_cons. iDestruct "Hx" as "(H1 & $ & H2)".
  iSplit; [iPureIntro; rw Forall_app Forall_cons in Hok; tauto|]. iIntros (y Hy) "Hy". unfold recv_queue. rw big_sepL_app big_sepL_cons. iFrame "H1 H2 Hy".
  rw !fmap_app !fmap_cons Hy. iFrame "Hd". iPureIntro. rw !Forall_app !Forall_cons Hy in Hok |- *. done.
Qed.

(** The packet behind one, or the head of the queue. *)
Lemma recv_queue_next sk xs1 x xs2 Q :
  recv_queue sk (xs1 ++ x :: xs2) -∗ (recv_queue sk (xs1 ++ x :: xs2) -∗ Q (first_or (sk + so_receive_queue) ((λ x, sg_skb x.1) <$> xs2))) -∗
  wp (load (sg_skb x.1 + sk_next)) Q.
Proof.
  iIntros "(%Hok & Hd & Hx) HQ". rw fmap_app fmap_cons.
  iDestruct (dlist_next (sk + so_receive_queue) ((λ x, sg_skb x.1) <$> xs1) (sg_skb x.1 :: ((λ x, sg_skb x.1) <$> xs2)) with "Hd") as (n) "(Hn & %Hn & Hd)".
  rw (Hn _ _ eq_refl). change (first_or (sk + so_receive_queue) (sg_skb x.1 :: ((λ x, sg_skb x.1) <$> xs2)) + list_next) with (sg_skb x.1 + sk_next). wp_load.
  iDestruct ("Hd" with "Hn") as "Hd". iApply "HQ". unfold recv_queue. rw fmap_app fmap_cons. by iFrame.
Qed.

Lemma recv_queue_ne sk xs x : x ∈ xs → recv_queue sk xs ⊢ ⌜sg_skb x.1 ≠ (sk + so_receive_queue)%Z ∧ sg_skb x.1 ≠ NULL⌝.
Proof.
  iIntros (Hx) "(_ & Hd & _)". iApply (dlist_ne with "Hd"). apply list_elem_of_fmap. by exists x.
Qed.

Lemma recv_queue_cells sk xs : recv_queue sk xs ⊢ cells (length xs).
Proof. iIntros "(_ & (Hn & _) & _)". rw nexts_cells length_fmap. iApply (cells_le with "Hn"). lia. Qed.

Lemma read_search_wp sk flags seq xs (Q : found → heapProp) :
  recv_queue sk xs -∗ (sk + so_copied_seq) ↦ seq -∗
  (recv_queue sk (search flags seq xs).2 -∗ (sk + so_copied_seq) ↦ seq -∗ Q (search flags seq xs).1) -∗ wp (read_search sk flags) Q.
Proof.
  iIntros "Hq Hc HQ". unfold read_search. iApply wp_bind. iDestruct "Hq" as "(%Hok & Hd & Hx)". iApply (skb_peek_wp with "Hd"). iIntros "Hd".
  iAssert (recv_queue sk xs) with "[$Hd $Hx //]" as "Hq". destruct xs as [|x0 xs].
  { iApply (wp_loop _ (λ n s, ⌜n = 0%nat ∧ s = NULL⌝ ∗ Q NotFound)%I _ 0%nat).
    - iIntros "_". iApply cells_0.
    - intros n s. iIntros "[(-> & ->) HQ]". change (NULL =? NULL) with true. wp_pures. done.
    - iSplit; [done|]. iApply ("HQ" with "Hq Hc"). }
  change (first_or NULL ((λ x, sg_skb x.1) <$> x0 :: xs)) with (sg_skb x0.1).
  iApply (wp_wand with "[Hq Hc]"); first iApply (wp_loop _ (λ n s, ∃ xs1 x xs2, ⌜s = sg_skb x.1 ∧ n = length xs2 ∧
      search flags seq (x0 :: xs) = ((search flags seq (x :: xs2)).1, xs1 ++ (search flags seq (x :: xs2)).2)⌝ ∗
      recv_queue sk (xs1 ++ x :: xs2) ∗ (sk + so_copied_seq) ↦ seq)%I
    (λ r, ⌜r = (search flags seq (x0 :: xs)).1⌝ ∗ recv_queue sk (search flags seq (x0 :: xs)).2 ∗ (sk + so_copied_seq) ↦ seq)%I (length xs)).
  - iIntros "(%xs1 & %x & %xs2 & (_ & -> & _) & H & _)". rw recv_queue_cells. iApply (cells_le with "H"). rw length_app /=. lia.
  - intros n s. iIntros "(%xs1 & %x & %xs2 & (-> & -> & %Hsearch) & Hq & Hc)". iDestruct (recv_queue_ne _ _ x with "Hq") as %[_ Hnull]; [apply elem_of_app; right; left|].
    rw (eqb_false _ _ Hnull). wp_load. iDestruct (recv_queue_acc with "Hq") as "((%Hs & %Hb) & ((Hh & Hseq & Hbits & Hlen) & Hu) & Hq)". wp_load.
    iApply wp_bind. iApply (load32_wp with "Hseq"); [done|]. iIntros "Hseq". rw before_false. iApply wp_bind. iApply (get_field_wp with "Hbits"); [done|]. iIntros "Hbits".
    wp_load. change (if if field_of (sg_bits x.1) f_syn =? 0 then false else true then u32 (u32 (seq - sg_seq x.1) - 1) else u32 (seq - sg_seq x.1)) with (seg_offset seq x.1).
    remember (seg_offset seq x.1) as o eqn:Eo. destruct (o <? sg_len x.1) eqn:El.
    { rw (search_hit flags seq x xs2 (FoundData (sg_skb x.1) o)) in Hsearch; [|unfold seg_hit; by rw -Eo El]. rw Hsearch. wp_pures. iFrame "Hc". iSplit; [done|].
      iApply "Hq"; [done|]. iFrame. }
    iApply wp_bind. iApply (get_field_wp with "Hbits"); [done|]. iIntros "Hbits". cbn [negb]. change (if field_of (sg_bits x.1) f_fin =? 0 then false else true) with (seg_has f_fin x.1). destruct (seg_has f_fin x.1) eqn:Ef.
    { rw (search_hit flags seq x xs2 (FoundFin (sg_skb x.1))) in Hsearch; [|unfold seg_hit; by rw -Eo El Ef]. rw Hsearch. wp_pures. iFrame "Hc". iSplit; [done|].
      iApply "Hq"; [done|]. iFrame. }
    rw (search_miss flags seq x xs2) in Hsearch; [|unfold seg_hit; by rw -Eo El Ef].
    iApply wp_bind. iApply (wp_wand _ (λ _, (sg_skb x.1 + skb_used) ↦ (mark flags x).2)%I with "[Hu]").
    { unfold mark. destruct (Z.land flags MSG_PEEK =? 0); [by wp_store|by wp_pures]. }
    iIntros ([]) "Hu". iDestruct ("Hq" $! (mark flags x) with "[] [Hh Hseq Hbits Hlen Hu]") as "Hq"; [by rw mark_fst|unfold marked_cells, seg_cells; rw !mark_fst; iFrame|].
    iApply wp_bind. iEval (rw -(mark_fst flags x)). iApply (recv_queue_next with "Hq"). iIntros "Hq". destruct xs2 as [|y xs2].
    + change (first_or (sk + so_receive_queue) ((λ x, sg_skb x.1) <$> [])) with (sk + so_receive_queue). rw Z.eqb_refl. wp_pures. rw Hsearch. by iFrame.
    + change (first_or (sk + so_receive_queue) ((λ x, sg_skb x.1) <$> y :: xs2)) with (sg_skb y.1). iDestruct (recv_queue_ne _ _ y with "Hq") as %[Hne _]; [apply elem_of_app; right; right; left|].
      rw (eqb_false _ _ Hne). wp_pures. iExists (length xs2). iSplit; [iPureIntro; simpl; lia|]. iExists (xs1 ++ [mark flags x]), y, xs2.
      rw -!assoc_L. iFrame. done.
  - iExists [], x0, xs. iFrame. iPureIntro. split_and!; [done|done|apply surjective_pairing].
  - iIntros (r) "(-> & Hq & Hc)". iApply ("HQ" with "Hq Hc").
Qed.

(** ** Where the next byte is *)

Definition data_len (xs : list (seg * Z)) : Z := foldr (λ x n, sg_len x.1 + n) 0 xs.

(** Packets of data without a gap between them, from the number [pos] on. *)
Fixpoint gapless (pos : Z) (xs : list (seg * Z)) : Prop :=
  match xs with
  | [] => True
  | x :: xs => sg_seq x.1 = u32 pos ∧ 0 < sg_len x.1 ∧ seg_has f_syn x.1 = false ∧ seg_has f_fin x.1 = false ∧ gapless (pos + sg_len x.1) xs
  end.

Lemma data_len_nonneg pos xs : gapless pos xs → 0 ≤ data_len xs.
Proof. revert pos. induction xs as [|x xs IH]; intros pos; [done|]. intros (_ & Hl & _ & _ & H). apply IH in H. simpl. lia. Qed.

(** The [n]th byte behind the first one is found in the packet that contains it; the packets before are marked. *)
Lemma search_gapless flags pos n xs : gapless pos xs → data_len xs < 2 ^ 32 → 0 ≤ n < data_len xs →
  ∃ xs1 x xs2, xs = xs1 ++ x :: xs2 ∧ 0 ≤ n - data_len xs1 < sg_len x.1 ∧
    search flags (u32 (pos + n)) xs = (FoundData (sg_skb x.1) (n - data_len xs1), (mark flags <$> xs1) ++ x :: xs2).
Proof.
  revert pos n. induction xs as [|x xs IH]; intros pos n; [simpl; lia|]. intros (Hs & Hl & Hsyn & Hfin & Hg) Htot Hn. simpl in Htot, Hn.
  pose proof (data_len_nonneg _ _ Hg) as H0. assert (seg_offset (u32 (pos + n)) x.1 = n) as Ho.
  { unfold seg_offset. rw Hsyn Hs. unfold u32. rw -Zminus_mod. rw (_ : pos + n - pos = n); [|lia]. apply Z.mod_small. lia. }
  destruct (Z.ltb_spec n (sg_len x.1)) as [Hlt|Hge].
  - exists [], x, xs. split_and!; [done|simpl; lia..|]. rw (search_hit _ _ _ _ (FoundData (sg_skb x.1) n)); [simpl; by rw Z.sub_0_r|].
    unfold seg_hit. rw Ho. by rw (proj2 (Z.ltb_lt _ _) Hlt).
  - destruct (IH (pos + sg_len x.1) (n - sg_len x.1)) as (xs1 & y & xs2 & -> & Hy & E); [done|lia|lia|].
    rw (_ : pos + sg_len x.1 + (n - sg_len x.1) = pos + n) in E; [|lia]. exists (x :: xs1), y, xs2. split_and!; [done|simpl; lia..|].
    rw search_miss; [rw E /=; do 2 f_equal; lia|]. unfold seg_hit. by rw Ho (proj2 (Z.ltb_ge _ _) Hge) Hfin.
Qed.

(** A packet of data that came early: its first byte is [d] bytes behind the one that is waited for. *)
Definition early (seq : Z) (s : seg) : Prop :=
  ∃ d, 0 < d ∧ d + sg_len s ≤ 2 ^ 32 ∧ 0 ≤ sg_len s ∧ sg_seq s = u32 (seq + d) ∧ seg_has f_syn s = false ∧ seg_has f_fin s = false.

(** Nothing is found in packets that came early, and all of them are marked as read. *)
Lemma search_early flags seq xs : Forall (λ x, early seq x.1) xs → search flags seq xs = (NotFound, mark flags <$> xs).
Proof.
  induction 1 as [|x xs (d & Hd & Hl & H0 & Hs & Hsyn & Hfin) _ IH]; [done|]. rw search_miss; [by rw IH|]. unfold seg_hit, seg_offset. rw Hsyn Hfin Hs.
  rw (_ : u32 (seq - u32 (seq + d)) = 2 ^ 32 - d); [by rw (proj2 (Z.ltb_ge _ _)); [|lia]|]. unfold u32. rw Zminus_mod_idemp_r.
  rw (_ : seq - (seq + d) = (2 ^ 32 - d) + (-1) * 2 ^ 32); [|lia]. rw Z_mod_plus_full. apply Z.mod_small. lia.
Qed.

(** C36: In a queue of data without gaps the reader finds the next byte in the packet that contains it, at its place, and marks exactly the packets before. *)
Theorem read_search_finds sk flags pos n xs :
  {{ recv_queue sk xs ∗ (sk + so_copied_seq) ↦ u32 (pos + n) ∗ ⌜gapless pos xs ∧ data_len xs < 2 ^ 32 ∧ 0 ≤ n < data_len xs⌝ }}
    read_search sk flags
  {{ r, ∃ xs1 x xs2, ⌜xs = xs1 ++ x :: xs2 ∧ 0 ≤ n - data_len xs1 < sg_len x.1 ∧ r = FoundData (sg_skb x.1) (n - data_len xs1)⌝ ∗
        recv_queue sk ((mark flags <$> xs1) ++ x :: xs2) ∗ (sk + so_copied_seq) ↦ u32 (pos + n) }}.
Proof.
  apply triple_wp. iIntros "(Hq & Hc & %Hg & %Ht & %Hn)". destruct (search_gapless flags _ _ _ Hg Ht Hn) as (xs1 & x & xs2 & -> & Hx & E).
  iApply (read_search_wp with "Hq Hc"). rw E. iIntros "Hq Hc". iExists xs1, x, xs2. by iFrame.
Qed.

(** ** Packets that have been read *)

Definition owner (x : seg * Z) : heapProp := ∃ o, (sg_skb x.1 + skb_sk) ↦ o.

(** A packet out of the queue, back with its socket. *)
Definition dropped (sk : Z) (x : seg * Z) : heapProp := lclear (sg_skb x.1) ∗ marked_cells x ∗ (sg_skb x.1 + skb_sk) ↦ sk.

(** [drop_used] takes the marked packets at the head of the queue out of it. *)
Lemma drop_used_wp sk xs1 xs2 (Q : unit → heapProp) : Forall (λ x, x.2 ≠ 0) xs1 → (∀ x, head xs2 = Some x → x.2 = 0) →
  recv_queue sk (xs1 ++ xs2) -∗ ([∗ list] x ∈ xs1, owner x) -∗
  (recv_queue sk xs2 -∗ ([∗ list] x ∈ xs1, dropped sk x) -∗ Q tt) -∗ wp (drop_used sk) Q.
Proof.
  iIntros (H1 H2) "Hq Ho HQ". unfold drop_used.
  iApply (wp_wand with "[Hq Ho]"); first iApply (wp_loop _ (λ n (_ : unit), ∃ ys zs, ⌜xs1 = ys ++ zs ∧ n = length zs⌝ ∗ recv_queue sk (zs ++ xs2) ∗
      ([∗ list] x ∈ zs, owner x) ∗ [∗ list] x ∈ ys, dropped sk x)%I
    (λ _, recv_queue sk xs2 ∗ [∗ list] x ∈ xs1, dropped sk x)%I (length xs1)).
  - iIntros "(%ys & %zs & (_ & ->) & H & _)". rw recv_queue_cells. iApply (cells_le with "H"). rw length_app. lia.
  - intros n []. iIntros "(%ys & %zs & (-> & ->) & Hq & Ho & Hd)". iApply wp_bind. iDestruct "Hq" as "(%Hok & Hl & Hx)".
    iApply (skb_peek_wp with "Hl"). iIntros "Hl". iAssert (recv_queue sk (zs ++ xs2)) with "[$Hl $Hx //]" as "Hq". destruct zs as [|z zs].
    + rw app_nil_r. simpl app. destruct xs2 as [|x xs2].
      { change (first_or NULL ((λ x, sg_skb x.1) <$> []) =? NULL) with true. wp_pures. iFrame. }
      change (first_or NULL ((λ x, sg_skb x.1) <$> x :: xs2)) with (sg_skb x.1). iDestruct (recv_queue_ne _ _ x with "Hq") as %[_ Hn]; [set_solver|]. rw (eqb_false _ _ Hn).
      iDestruct (recv_queue_acc sk [] x xs2 with "Hq") as "(_ & (Hs & Hu) & Hq)". wp_load. rw (H2 x eq_refl). wp_pures. iFrame "Hd". iApply ("Hq" $! x with "[//]"). iFrame. by rw (H2 x eq_refl).
    + change (first_or NULL ((λ x, sg_skb x.1) <$> (z :: zs) ++ xs2)) with (sg_skb z.1). iDestruct (recv_queue_ne _ _ z with "Hq") as %[_ Hn]; [set_solver|]. rw (eqb_false _ _ Hn).
      assert (z.2 ≠ 0) as Hz by (rw Forall_app Forall_cons in H1; tauto). change ((z :: zs) ++ xs2) with (z :: (zs ++ xs2)). iDestruct "Hq" as "(%Hok2 & Hl & Hx)". rw (big_sepL_cons _ z (zs ++ xs2)). iDestruct "Hx" as "((Hs & Hu) & Hx)". wp_load. rw (eqb_false _ _ Hz).
      iApply wp_bind. iApply (skb_unlink_wp _ [] with "Hl"). iIntros "Hl Hc". iDestruct "Ho" as "[(%o & Ho1) Ho]". wp_store. iExists (length zs). iSplit; [iPureIntro; simpl; lia|].
      iExists (ys ++ [z]), zs. rw -assoc_L. iSplit; [done|]. iFrame "Ho". rw (big_sepL_app _ ys [z]) big_sepL_singleton. iFrame "Hd Hc Hs Hu Ho1". iFrame "Hl Hx".
      iPureIntro. by apply Forall_cons in Hok2 as [_ ?].
  - iExists [], xs1. iFrame. by rw big_sepL_nil.
  - iIntros ([]) "[Hq Hd]". iApply ("HQ" with "Hq Hd").
Qed.

(** C37: Data that came early is lost: when the next byte has not arrived, a reader finds nothing, but the packets behind the gap are marked as read and
    taken out of the queue, since no sequence number is before another one. *)
Theorem early_data_lost sk seq xs :
  {{ recv_queue sk xs ∗ (sk + so_copied_seq) ↦ seq ∗ ([∗ list] x ∈ xs, owner x) ∗ ⌜Forall (λ x, early seq x.1) xs⌝ }}
    (r ← read_search sk 0; drop_used sk;; mret r)
  {{ r, ⌜r = NotFound⌝ ∗ recv_queue sk [] ∗ (sk + so_copied_seq) ↦ seq ∗ [∗ list] x ∈ xs, dropped sk (x.1, 1) }}.
Proof.
  apply triple_wp. iIntros "(Hq & Hc & Ho & %He)". iApply wp_bind. iApply (read_search_wp with "Hq Hc"). rw search_early; [|done]. iIntros "Hq Hc". iApply wp_bind.
  iApply (drop_used_wp sk (mark 0 <$> xs) [] with "[Hq] [Ho]"); [|done|by rw app_nil_r|by rw big_sepL_fmap|].
  { apply Forall_fmap, Forall_true. done. }
  iIntros "Hq Hd". wp_pures. rw big_sepL_fmap. by iFrame.
Qed.

(** ** Sending *)

Section partial.
Context {jiffies : Z} {del_timer add_timer : Z → M Z} `{!TimerQueue jiffies del_timer add_timer}.
Context (queue_xmit : Z → Z → Z → Z → Z → M unit) (tcp_send_partial_fn : Z).

Definition partial_timer (sk : Z) : Z := sk + so_partial_timer.

(** The timer calls a function with the socket. *)
Definition timer_call (t f d : Z) : heapProp := (t + tl_function) ↦ f ∗ (t + tl_data) ↦ d.

Lemma init_timer_wp t (Q : Z → heapProp) : idle_timer t -∗ (idle_timer t -∗ Q 0) -∗ wp (init_timer t) Q.
Proof.
  iIntros "[((%v & Hn) & (%w & Hp) & %Ht) He] HQ". unfold init_timer. change t_prev with list_next. change t_next with list_prev. wp_store. wp_store. iApply "HQ". iFrame. by iFrame.
Qed.

Lemma tcp_enqueue_partial_wp sk skb f d now s (Q : unit → heapProp) :
  (sk + so_partial) ↦ NULL -∗ idle_timer (partial_timer sk) -∗ timer_call (partial_timer sk) f d -∗ armed now s -∗
  ((sk + so_partial) ↦ skb -∗ timer_call (partial_timer sk) tcp_send_partial_fn sk -∗ armed now ({[partial_timer sk]} ∪ s) -∗ Q tt) -∗
  wp (tcp_enqueue_partial del_timer add_timer queue_xmit tcp_send_partial_fn skb sk) Q.
Proof.
  iIntros "Hp Ht [Hf Hd] Ha HQ". unfold tcp_enqueue_partial. wp_load. wp_pures. wp_store. iApply wp_bind. iApply (init_timer_wp with "Ht"). iIntros "[Hl (%e & He)]".
  unfold partial_timer. wp_store. wp_store. wp_store. iApply wp_bind. iApply (add_timer_wp with "Ha [Hl He]"); [iFrame|]. iIntros (r) "Ha". wp_pures. iApply ("HQ" with "Hp [$Hf $Hd] Ha").
Qed.

(** C38: A packet that is kept because it is not full arms the timer that sends it with its socket; taking it back returns it and disarms exactly this timer. *)
Theorem partial_roundtrip sk skb f d now s :
  {{ (sk + so_partial) ↦ NULL ∗ idle_timer (partial_timer sk) ∗ timer_call (partial_timer sk) f d ∗ armed now s ∗ ⌜skb ≠ NULL⌝ }}
    (tcp_enqueue_partial del_timer add_timer queue_xmit tcp_send_partial_fn skb sk;; tcp_dequeue_partial del_timer sk)
  {{ r, ⌜r = skb⌝ ∗ (sk + so_partial) ↦ NULL ∗ idle_timer (partial_timer sk) ∗ timer_call (partial_timer sk) tcp_send_partial_fn sk ∗ armed now s }}.
Proof.
  apply triple_wp. iIntros "(Hp & Ht & Hc & Ha & %Hs)". iApply wp_bind. iDestruct (armed_new with "Ha Ht") as %Hnew.
  iApply (tcp_enqueue_partial_wp with "Hp Ht Hc Ha"). iIntros "Hp Hc Ha". unfold tcp_dequeue_partial. wp_load. rw (eqb_false _ _ Hs). wp_pures. wp_store.
  iApply wp_bind. iApply (del_timer_wp with "Ha"); [set_solver|]. iIntros (r) "Ha Ht". wp_pures.
  rw (_ : ({[partial_timer sk]} ∪ s) ∖ {[partial_timer sk]} = s); [|set_solver]. by iFrame.
Qed.
End partial.

(** ** Packets that wait for the window *)

Section send.
Context (del_timer add_timer : Z → M Z) (queue_xmit : Z → Z → Z → Z → Z → M unit).

(** The number behind the last byte of a packet, as [tcp_send_skb] computes it: the header is counted with a sixteenth of its length. *)
Definition skb_end (seq size bits : Z) : Z := u32 (seq + size - Z.shiftr (field_of bits f_len) 2).

(** The members of a socket that decide about sending. *)
Definition send_state (sk w rt why po cw : Z) : heapProp :=
  (sk + so_window_seq) ↦ w ∗ (sk + so_retransmits) ↦ rt ∗ (sk + so_ip_xmit_timeout) ↦ why ∗ (sk + sk_packets_out) ↦ po ∗ (sk + so_cong_window) ↦ cw.

(** A packet is not sent unless its end is exactly the end of the window: otherwise it is put at the end of the write queue, its pointer to the
    header is overwritten with the number of its end, and neither a timer nor the lower protocol is touched. *)
Theorem tcp_send_skb_waits sk skb th size seq bits check xs w rt why po cw :
  {{ (skb + skb_h) ↦ th ∗ (skb + skb_len) ↦ (th - (skb + skb_data) + size) ∗ bytes (th + th_seq) (le32 seq) ∗ bytes (th + th_bits) (le16 bits) ∗
     bytes (th + th_check) (le16 check) ∗ lclear skb ∗ dlist (sk + so_write_queue) xs ∗ ([∗ list] x ∈ xs, ∃ h, (x + skb_h) ↦ h) ∗ send_state sk w rt why po cw ∗
     ⌜0 ≤ seq < 2 ^ 32 ∧ 0 ≤ bits < 2 ^ 16 ∧ sizeof_tcphdr < size < 2 ^ 31 ∧ skb + skb_data ≤ th ∧ skb_end seq size bits ≠ u32 w⌝ }}
    tcp_send_skb del_timer add_timer queue_xmit sk skb
  {{ _, (skb + skb_h) ↦ skb_end seq size bits ∗ (skb + skb_len) ↦ (th - (skb + skb_data) + size) ∗ bytes (th + th_seq) (le32 seq) ∗ bytes (th + th_bits) (le16 bits) ∗
        bytes (th + th_check) (le16 0) ∗ dlist (sk + so_write_queue) (xs ++ [skb]) ∗ ([∗ list] x ∈ xs, ∃ h, (x + skb_h) ↦ h) ∗ send_state sk w rt why po cw }}.
Proof.
  apply triple_wp. iIntros "(Hh & Hl & Hs & Hb & Hc & (Hn & Hp & %Hskb) & Hq & Hx & (Hw & Hrt & Hwhy & Hpo & Hcw) & %Hseq & %Hbits & %Hsize & %Hth & %Hend)".
  unfold tcp_send_skb. wp_load. wp_load. rw (_ : s32 (th - (skb + skb_data) + size - (th - (skb + skb_data))) = size); [|rw s32_small; unfold sizeof_tcphdr in *; lia].
  rw u32_small; [|unfold sizeof_tcphdr in *; lia]. rw (proj2 (Z.ltb_ge _ _)); [|lia]. rw Z.gtb_ltb (proj2 (Z.ltb_ge _ _)); [|lia]. rw (eqb_false size sizeof_tcphdr); [|lia]. wp_pures.
  iApply wp_bind. iApply (load32_wp with "Hs"); [done|]. iIntros "Hs". iApply wp_bind. iApply (get_field_wp with "Hb"); [done|]. iIntros "Hb". unfold ntohl. fold (skb_end seq size bits).
  wp_store. do 6 wp_load. rw (_ : after (skb_end seq size bits) w = true).
  2:{ apply not_false_iff_true. intros E. apply Hend. apply (proj2 (seq_order_lost _ w)) in E. rw -E u32_small; [done|apply u32_range]. }
  iApply wp_bind. iApply (store16_wp with "Hc"); [done|]. iIntros "Hc". change sk_next with list_next. wp_load. change (NULL =? NULL) with true. wp_pures.
  iApply wp_bind. iApply (skb_queue_tail_wp with "Hq [$Hn $Hp //]"). iIntros "Hq". wp_load.
  iDestruct "Hq" as "(Hqn & Hqp & %Hq)". iDestruct (nexts_first with "Hqn") as "[Hf Hqn]". wp_load. iDestruct ("Hqn" with "Hf") as "Hqn". destruct xs as [|x xs].
  - change (first_or (sk + so_write_queue) ([] ++ [skb])) with skb. wp_load. rw before_false. wp_pures. by iFrame.
  - change (first_or (sk + so_write_queue) ((x :: xs) ++ [skb])) with x. iDestruct "Hx" as "[(%h & Hx1) Hx]". wp_load. rw before_false. wp_pures. by iFrame.
Qed.
End send.
