(* ===== verification/Traps.v ===== *)
(** * Descriptors, gates and interrupts: kernel/traps.c, kernel/i8259.c, kernel/start.c, kernel/clock.c

    A descriptor is an array of eight bytes, since the table is copied byte by byte at boot and its members are
    read with sign; a gate has its members as cells.  Ports, the screen and the masks of the interrupt
    controller are changed by assembly code and are parameters. *)

From S2P Require Export Inode CString.

(** ** traps.h, kernel.h, irq.h, i8259.h *)

Definition limit_low : Z := 0.
Definition base_low : Z := 2.
Definition base_mid : Z := 4.
Definition attr1 : Z := 5.
Definition limit_high_attr2 : Z := 6.
Definition base_high : Z := 7.
Definition sizeof_descriptor : Z := 8.

Definition offset_low : Z := 0.
Definition selector : Z := 2.
Definition dcount : Z := 4.
Definition attr : Z := 5.
Definition offset_high : Z := 6.
Definition sizeof_gate : Z := 8.

(** The members of [TSS] from [backlink] to [ldt] are 25 words. *)
Definition tss_ss0 : Z := 8.
Definition tss_trap : Z := 100.
Definition tss_iobase : Z := 102.
Definition sizeof_tss : Z := 104.

Definition INDEX_TSS : Z := 4.
Definition SELECTOR_FLAT_C : Z := 0x08.
Definition SELECTOR_FLAT_RW : Z := 0x10.
Definition SELECTOR_VIDEO : Z := 0x18 + 3.
Definition SELECTOR_LDT_FIRST : Z := 0x28.
Definition SELECTOR_KERNEL_CS : Z := SELECTOR_FLAT_C.
Definition SELECTOR_KERNEL_DS : Z := SELECTOR_FLAT_RW.
Definition SELECTOR_KERNEL_GS : Z := SELECTOR_VIDEO.
Definition LDT_SIZE : Z := 2.
Definition DA_32 : Z := 0x4000.
Definition DA_LIMIT_4K : Z := 0x8000.
Definition DA_DRW : Z := 0x92.
Definition DA_C : Z := 0x98.
Definition DA_LDT : Z := 0x82.
Definition DA_386TSS : Z := 0x89.
Definition DA_386IGate : Z := 0x8E.
Definition DA_386TGate : Z := 0x8F.
Definition SA_RPL_MASK : Z := 0xFFFC.
Definition SA_RPL1 : Z := 1.
Definition SA_TI_MASK : Z := 0xFFFB.
Definition SA_TIL : Z := 4.
Definition INT_VECTOR_DIVIDE : Z := 0x0.
Definition INT_VECTOR_DEBUG : Z := 0x1.
Definition INT_VECTOR_NMI : Z := 0x2.
Definition INT_VECTOR_BREAKPOINT : Z := 0x3.
Definition INT_VECTOR_OVERFLOW : Z := 0x4.
Definition INT_VECTOR_BOUNDS : Z := 0x5.
Definition INT_VECTOR_INVAL_OP : Z := 0x6.
Definition INT_VECTOR_COPROC_NOT : Z := 0x7.
Definition INT_VECTOR_DOUBLE_FAULT : Z := 0x8.
Definition INT_VECTOR_COPROC_SEG : Z := 0x9.
Definition INT_VECTOR_INVAL_TSS : Z := 0xA.
Definition INT_VECTOR_SEG_NOT : Z := 0xB.
Definition INT_VECTOR_STACK_FAULT : Z := 0xC.
Definition INT_VECTOR_PROTECTION : Z := 0xD.
Definition INT_VECTOR_PAGE_FAULT : Z := 0xE.
Definition INT_VECTOR_COPROC_ERR : Z := 0x10.
Definition INT_VECTOR_IRQ0 : Z := 0x20.
Definition INT_VECTOR_IRQ8 : Z := 0x28.
Definition INT_VECTOR_SYS_CALL : Z := 0x80.
Definition INDEX_LDT_C : Z := 0.
Definition INDEX_LDT_D : Z := 1.
Definition LIMIT_4K_SHIFT : Z := 12.
Definition DP_BASE_HIGH_SHIFT : Z := 24.
Definition DP_BASE_MID_SHIFT : Z := 16.
Definition DP_LIMIT_SHIFT : Z := 16.

Definition vir2phys (seg_base vir : Z) : Z := s32 (seg_base + vir).

Definition KERNEL_PRIOR : Z := 25.
Definition GDT_SIZE : Z := 128.
Definition IDT_SIZE : Z := 256.
Definition PRIVILEGE_KRNL : Z := 0.
Definition PRIVILEGE_TASK : Z := 1.
Definition PRIVILEGE_USER : Z := 3.
Definition RPL_TASK : Z := SA_RPL1.

Definition NR_IRQ : Z := 16.
Definition CLOCK_IRQ : Z := 0.
Definition CASCADE_IRQ : Z := 2.
Definition HD_IRQ : Z := 14.
Definition INT_M_CTL : Z := 0x20.
Definition INT_M_CTLMASK : Z := 0x21.
Definition INT_S_CTL : Z := 0xA0.
Definition INT_S_CTLMASK : Z := 0xA1.

(** ** Members with sign *)

Definition load_s8 (p : Z) : M Z := b ← load p; mret (s8 b).
Definition load_s16 (p : Z) : M Z := h ← load16 p; mret (s16 h).

(** ** kernel/traps.c *)

(** [base_high], [base_mid] and [base_low] are signed: they are extended before they are shifted. *)
Definition seg2phys (gdt seg : Z) : M Z :=
  let p_dest := gdt + sizeof_descriptor * Z.shiftr seg 3 in
  h ← load_s8 (p_dest + base_high);
  m ← load_s8 (p_dest + base_mid);
  l ← load_s16 (p_dest + base_low);
  mret (Z.lor (Z.lor (s32 (Z.shiftl h 24)) (Z.shiftl m 16)) l).

Definition init_descriptor (p_desc base limit attribute : Z) : M unit :=
  let attribute := s16 attribute in
  store16 (p_desc + limit_low) (Z.land limit 0x0FFFF);;
  store16 (p_desc + base_low) (Z.land base 0x0FFFF);;
  store (p_desc + base_mid) (Z.land (Z.shiftr base 16) 0x0FF);;
  store (p_desc + attr1) (Z.land attribute 0xFF);;
  store (p_desc + limit_high_attr2) (Z.lor (Z.land (Z.shiftr limit 16) 0x0F) (Z.land (Z.shiftr attribute 8) 0xF0));;
  store (p_desc + base_high) (Z.land (Z.shiftr base 24) 0x0FF).

Definition init_idt_desc (idt n desc_type handler privilege : Z) : M unit :=
  let p_gate := idt + sizeof_gate * n in
  let base := s32 handler in
  store (p_gate + offset_low) (s16 (Z.land base 0xFFFF));;
  store (p_gate + selector) SELECTOR_KERNEL_CS;;
  store (p_gate + dcount) 0;;
  store (p_gate + attr) (s8 (Z.lor desc_type (Z.shiftl privilege 5)));;
  store (p_gate + offset_high) (s16 (Z.land (Z.shiftr base 16) 0xFFFF)).

(** include/linux/system.h *)
Definition set_trap_gate (idt n addr : Z) : M unit := init_idt_desc idt n (s8 DA_386TGate) addr PRIVILEGE_KRNL.
Definition set_system_gate (idt n addr : Z) : M unit := init_idt_desc idt n (s8 DA_386TGate) addr PRIVILEGE_USER.
Definition set_intr_gate (idt n addr : Z) : M unit := init_idt_desc idt n (s8 DA_386IGate) addr PRIVILEGE_KRNL.
Definition set_syscall_gate (idt n addr : Z) : M unit := init_idt_desc idt n (s8 DA_386IGate) addr PRIVILEGE_USER.

Section traps.
(** Assembly code: ports, the masks of the controller, writing to the screen. *)
Context (out_byte : Z → Z → M unit) (disable_irq enable_irq : Z → M unit) (disp_str : Z → M unit) (disp_color_str : Z → Z → M unit).
(** The tables [gdt], [idt], [irq_table], the task state segment, the pointers to the tables, and the variable [disp_pos]. *)
Context (gdt idt irq_table tss gdt_ptr idt_ptr disp_pos : Z).

(** lib/klibc.c; [output] is the local array. *)
Definition disp_int (output input : Z) : M unit :=
  htoa output input;;
  disp_str output.

(** ** kernel/i8259.c *)

(** [m1] and [m2] are the addresses of the two messages. *)
Definition reserved_irq (m1 m2 output irq : Z) : M unit :=
  disp_str m1;;
  disp_int output irq;;
  disp_str m2.

(** [reserved] is the address of the function [reserved_irq]. *)
Definition init_8259A (reserved : Z) : M unit :=
  out_byte INT_M_CTL 0x11;;
  out_byte INT_S_CTL 0x11;;
  out_byte INT_M_CTLMASK INT_VECTOR_IRQ0;;
  out_byte INT_S_CTLMASK INT_VECTOR_IRQ8;;
  out_byte INT_M_CTLMASK 0x4;;
  out_byte INT_S_CTLMASK 0x2;;
  out_byte INT_M_CTLMASK 0x1;;
  out_byte INT_S_CTLMASK 0x1;;
  out_byte INT_M_CTLMASK (s8 0xFF);;
  out_byte INT_S_CTLMASK (s8 0xFF);;
  run (S (Z.to_nat NR_IRQ)) (λ i,
    if i <? NR_IRQ then
      store (irq_table + 4 * i) reserved;;
      mret (inl (i + 1))
    else mret (inr tt)) 0.

Definition put_irq_handler (irq handler : Z) : M unit :=
  disable_irq irq;;
  store (irq_table + 4 * irq) handler.

(** ** Handlers of traps and interrupts: labels of core.asm *)

Context (divide_error single_step_exception nmi breakpoint_exception overflow bounds_check inval_opcode copr_not_available
         double_fault copr_seg_overrun inval_tss segment_not_present stack_exception general_protection page_fault copr_error : Z).
Context (clock_intr kb_intr hwint02 hwint03 hwint04 hwint05 hwint06 hwint07 hwint08 hwint09 hwint10 hwint11 hwint12 hwint13
         hd_intr hwint15 sys_call : Z).

(** [memset] of the task state segment: every member becomes 0. *)
Definition clear_tss : M unit :=
  clear_cells tss 4 25;;
  clear_cells (tss + tss_trap) 2 2.

Definition init_trap (reserved : Z) : M unit :=
  init_8259A reserved;;
  set_trap_gate idt INT_VECTOR_DIVIDE divide_error;;
  set_trap_gate idt INT_VECTOR_DEBUG single_step_exception;;
  set_trap_gate idt INT_VECTOR_NMI nmi;;
  set_system_gate idt INT_VECTOR_BREAKPOINT breakpoint_exception;;
  set_system_gate idt INT_VECTOR_OVERFLOW overflow;;
  set_system_gate idt INT_VECTOR_BOUNDS bounds_check;;
  set_trap_gate idt INT_VECTOR_INVAL_OP inval_opcode;;
  set_trap_gate idt INT_VECTOR_COPROC_NOT copr_not_available;;
  set_trap_gate idt INT_VECTOR_DOUBLE_FAULT double_fault;;
  set_trap_gate idt INT_VECTOR_COPROC_SEG copr_seg_overrun;;
  set_trap_gate idt INT_VECTOR_INVAL_TSS inval_tss;;
  set_trap_gate idt INT_VECTOR_SEG_NOT segment_not_present;;
  set_trap_gate idt INT_VECTOR_STACK_FAULT stack_exception;;
  set_trap_gate idt INT_VECTOR_PROTECTION general_protection;;
  set_trap_gate idt INT_VECTOR_PAGE_FAULT page_fault;;
  set_trap_gate idt INT_VECTOR_COPROC_ERR copr_error;;
  set_intr_gate idt (INT_VECTOR_IRQ0 + 0) clock_intr;;
  set_intr_gate idt (INT_VECTOR_IRQ0 + 1) kb_intr;;
  set_intr_gate idt (INT_VECTOR_IRQ0 + 2) hwint02;;
  set_intr_gate idt (INT_VECTOR_IRQ0 + 3) hwint03;;
  set_intr_gate idt (INT_VECTOR_IRQ0 + 4) hwint04;;
  set_intr_gate idt (INT_VECTOR_IRQ0 + 5) hwint05;;
  set_intr_gate idt (INT_VECTOR_IRQ0 + 6) hwint06;;
  set_intr_gate idt (INT_VECTOR_IRQ0 + 7) hwint07;;
  set_intr_gate idt (INT_VECTOR_IRQ8 + 0) hwint08;;
  set_intr_gate idt (INT_VECTOR_IRQ8 + 1) hwint09;;
  set_intr_gate idt (INT_VECTOR_IRQ8 + 2) hwint10;;
  set_intr_gate idt (INT_VECTOR_IRQ8 + 3) hwint11;;
  set_intr_gate idt (INT_VECTOR_IRQ8 + 4) hwint12;;
  set_intr_gate idt (INT_VECTOR_IRQ8 + 5) hwint13;;
  set_intr_gate idt (INT_VECTOR_IRQ8 + 6) hd_intr;;
  set_intr_gate idt (INT_VECTOR_IRQ8 + 7) hwint15;;
  set_syscall_gate idt INT_VECTOR_SYS_CALL sys_call;;
  clear_tss;;
  store (tss + tss_ss0) SELECTOR_KERNEL_DS;;
  b ← seg2phys gdt SELECTOR_KERNEL_DS;
  init_descriptor (gdt + sizeof_descriptor * INDEX_TSS) (vir2phys b tss) (sizeof_tss - 1) DA_386TSS;;
  store (tss + tss_iobase) sizeof_tss.

(** [blank], [exc], [newline], [s_eflags], [s_cs], [s_eip] and [s_code] are the addresses of the messages, and [err_description] that of the local
    table of 20 names of 64 bytes. *)
Definition exception_handler (blank exc newline s_eflags s_cs s_eip s_code err_description output vec_no err_code eip cs eflags : Z) : M unit :=
  let text_color := 0x74 in
  store disp_pos 0;;
  run (S (80 * 5)) (λ i,
    if i <? 80 * 5 then disp_str blank;; mret (inl (i + 1)) else mret (inr tt)) 0;;
  store disp_pos 0;;
  disp_color_str exc text_color;;
  disp_color_str (err_description + 64 * vec_no) text_color;;
  disp_color_str newline text_color;;
  disp_color_str s_eflags text_color;;
  disp_int output eflags;;
  disp_color_str s_cs text_color;;
  disp_int output cs;;
  disp_color_str s_eip text_color;;
  disp_int output eip;;
  if negb (u32 err_code =? 0xFFFFFFFF) then
    disp_color_str s_code text_color;;
    disp_int output err_code
  else mret tt.

(** ** kernel/start.c *)

(** The arrays [gdt_ptr] and [idt_ptr] are bytes: two of the limit, four of the base. *)
Definition cstart (reserved : Z) : M unit :=
  old ← load32 (gdt_ptr + 2);
  n ← load_s16 gdt_ptr;
  memcpy gdt old (Z.to_nat (u32 (n + 1)));;
  store16 gdt_ptr (GDT_SIZE * sizeof_descriptor - 1);;
  store32 (gdt_ptr + 2) gdt;;
  store16 idt_ptr (IDT_SIZE * sizeof_gate - 1);;
  store32 (idt_ptr + 2) idt;;
  init_trap reserved.

(** ** kernel/clock.c, kernel/hd.c *)

Definition TIMER0 : Z := 0x40.
Definition TIMER_MODE : Z := 0x43.
Definition RATE_GENERATOR : Z := 0x34.
Definition TIMER_FREQ : Z := 1193182.

(** [handler] is the address of [clock_handler]. *)
Definition init_clock (handler : Z) : M unit :=
  out_byte TIMER_MODE RATE_GENERATOR;;
  out_byte TIMER0 (s8 (Z.quot TIMER_FREQ HZ));;
  out_byte TIMER0 (s8 (Z.shiftr (Z.quot TIMER_FREQ HZ) 8));;
  put_irq_handler CLOCK_IRQ handler;;
  enable_irq CLOCK_IRQ.

(** [handler] is the address of [hd_handler], which only reads the status. *)
Definition init_hd (handler : Z) : M unit :=
  put_irq_handler HD_IRQ handler;;
  enable_irq CASCADE_IRQ;;
  enable_irq HD_IRQ.

Definition hd_handler (in_byte : Z → M Z) : M unit :=
  s ← in_byte REG_STATUS;
  mret tt.
End traps.

(** [get_ticks] is a system call; the loop is bounded by [polls]. *)
Definition milli_delay (get_ticks : M Z) (polls : nat) (milli_sec : Z) : M unit :=
  t ← get_ticks;
  run polls (λ _,
    n ← get_ticks;
    if Z.quot (s32 (s32 (n - t) * 1000)) HZ <? milli_sec then mret (inl tt) else mret (inr tt)) tt.

(** ** Reading descriptors: kernel/fork.c, kernel/proc.c *)

(** The high bits of the limit are shifted out. *)
Definition get_limit (dp : Z) : M Z :=
  if dp =? NULL then mret 0 else
  h ← load_s8 (dp + limit_high_attr2);
  l ← load_s16 (dp + limit_low);
  mret (Z.shiftr (Z.land h 0xF) DP_LIMIT_SHIFT + l).

Definition get_base (dp : Z) : M Z :=
  if dp =? NULL then mret 0 else
  h ← load_s8 (dp + base_high);
  m ← load_s8 (dp + base_mid);
  l ← load_s16 (dp + base_low);
  mret (s32 (s32 (Z.shiftl h DP_BASE_HIGH_SHIFT) + Z.shiftl m DP_BASE_MID_SHIFT + l)).

Definition task_ldts : Z := 74.

Definition ldt_seg_linear (p idx : Z) : M Z :=
  let d := p + task_ldts + sizeof_descriptor * idx in
  l ← load_s16 (d + base_low);
  m ← load_s8 (d + base_mid);
  h ← load_s8 (d + base_high);
  mret (Z.lor (Z.lor l (Z.shiftl m 16)) (s32 (Z.shiftl h 24))).
