(* ===== verification/TrapsSpec.v ===== *)
(** * Descriptors and gates: what is written and what is read back *)

From S2P Require Export Traps InodeSpec.

(** ** Bits of signed members *)

(** A number that is congruent to [v] and fits in [w] bits with sign has the bits of [v], the highest one repeated. *)
Lemma sext_bit w v s i : 0 < w → - 2 ^ (w - 1) ≤ s < 2 ^ (w - 1) → s mod 2 ^ w = v mod 2 ^ w → 0 ≤ i →
  Z.testbit s i = Z.testbit v (Z.min i (w - 1)).
Proof.
  intros Hw Hs Hm Hi. assert (∀ j, 0 ≤ j < w → Z.testbit s j = Z.testbit v j) as Hlow.
  { intros j Hj. rw -(Z.mod_pow2_bits_low s w j); [|lia]. by rw Hm Z.mod_pow2_bits_low; [|lia]. }
  rw -Hlow; [|lia]. destruct (decide (i < w)) as [Hl|Hl]; [destruct (decide (i = w - 1)) as [->|]; [by rw Z.min_id|by rw Z.min_l; [|lia]]|].
  rw Z.min_r; [|lia]. assert (∀ x j, 0 ≤ x < 2 ^ (w - 1) → w - 1 ≤ j → Z.testbit x j = false) as Hh.
  { intros x j Hx Hj. rw -(Z.mod_small x (2 ^ (w - 1))); [|done]. apply Z.mod_pow2_bits_high. lia. }
  destruct (Z.le_gt_cases 0 s); [rw !Hh; [done|lia..]|]. rw -(Z.lnot_involutive s) !(Z.lnot_spec (Z.lnot s)); [|lia..]. assert (0 ≤ Z.lnot s < 2 ^ (w - 1)) as Hn by (unfold Z.lnot; lia).
  by rw !(Hh _ _ Hn); [|lia..].
Qed.

Lemma s8_bit v i : 0 ≤ i → Z.testbit (s8 v) i = Z.testbit v (Z.min i 7).
Proof. intros Hi. apply (sext_bit 8); [lia| | |done]; unfold s8; change (2 ^ (8 - 1)) with 128; dlia. Qed.
Lemma s16_bit v i : 0 ≤ i → Z.testbit (s16 v) i = Z.testbit v (Z.min i 15).
Proof. intros Hi. apply (sext_bit 16); [lia| | |done]; unfold s16; change (2 ^ (16 - 1)) with 32768; dlia. Qed.
Lemma s32_bit v i : 0 ≤ i → Z.testbit (s32 v) i = Z.testbit v (Z.min i 31).
Proof. intros Hi. apply (sext_bit 32); [lia| | |done]; unfold s32; change (2 ^ (32 - 1)) with 2147483648; dlia. Qed.

(** ** Descriptors *)

(** The bytes of a descriptor. *)
Definition desc_bytes (base limit attribute : Z) : list Z :=
  le16 (Z.land limit 0xFFFF) ++ le16 (Z.land base 0xFFFF) ++
  [Z.land (Z.shiftr base 16) 0xFF; Z.land (s16 attribute) 0xFF;
   Z.lor (Z.land (Z.shiftr limit 16) 0xF) (Z.land (Z.shiftr (s16 attribute) 8) 0xF0); Z.land (Z.shiftr base 24) 0xFF].

(** The members of a descriptor. *)
Lemma bytes_desc p l b e f g h : length l = 2%nat → length b = 2%nat →
  bytes p (l ++ b ++ [e; f; g; h]) ⊣⊢ bytes (p + limit_low) l ∗ bytes (p + base_low) b ∗
    (p + base_mid) ↦ e ∗ (p + attr1) ↦ f ∗ (p + limit_high_attr2) ↦ g ∗ (p + base_high) ↦ h.
Proof.
  intros Hl Hb. rw !arr_app !arr_cons arr_nil Hl Hb. unfold limit_low, base_low, base_mid, attr1, limit_high_attr2, base_high.
  replace (p + 1 * 2%nat + 1 * 2%nat) with (p + 4) by lia. replace (p + 4 + 1 + 1 + 1) with (p + 7) by lia. replace (p + 4 + 1 + 1) with (p + 6) by lia.
  replace (p + 4 + 1) with (p + 5) by lia. replace (p + 1 * 2%nat) with (p + 2) by lia. replace (p + 0) with p by lia.
  iSplit; iIntros "H"; iDestruct "H" as "(H1 & H2 & H3 & H4 & H5 & H6)"; [iDestruct "H6" as "[H6 _]"|]; iFrame.
Qed.

Lemma init_descriptor_wp p base limit attribute old (Q : unit → heapProp) : length old = 8%nat →
  bytes p old -∗ (bytes p (desc_bytes base limit attribute) -∗ Q tt) -∗ wp (init_descriptor p base limit attribute) Q.
Proof.
  intros Hl. destruct old as [|a [|b [|c [|d [|e [|f [|g [|h [|]]]]]]]]]; try done. iIntros "H HQ".
  change [a; b; c; d; e; f; g; h] with ([a; b] ++ [c; d] ++ [e; f; g; h]). unfold desc_bytes. rw !bytes_desc; [|done..].
  iDestruct "H" as "(H1 & H2 & H3 & H4 & H5 & H6)". unfold init_descriptor. iApply wp_bind. iApply (store16_wp with "H1"); [done|]. iIntros "H1".
  iApply wp_bind. iApply (store16_wp with "H2"); [done|]. iIntros "H2". do 4 wp_store. iApply "HQ". iFrame.
Qed.

(** The base that is read from a descriptor: the bits 15 and 23 are copied to the higher ones. *)
Definition base_read (base : Z) : Z :=
  Z.lor (s32 base) (Z.lor (if Z.testbit base 15 then - 2 ^ 15 else 0) (if Z.testbit base 23 then - 2 ^ 23 else 0)).

Lemma neg_pow_bit n i : 0 ≤ n → 0 ≤ i → Z.testbit (- 2 ^ n) i = (n <=? i).
Proof.
  intros Hn Hi. replace (- 2 ^ n) with (Z.lnot (Z.ones n)) by (rw Z.ones_equiv; unfold Z.lnot; lia).
  rw Z.lnot_spec; [|done]. rw Z.testbit_ones_nonneg; [|lia..]. by rw -Z.leb_antisym.
Qed.

Lemma if_neg_pow_bit (b : bool) n i : 0 ≤ n → 0 ≤ i → Z.testbit (if b then - 2 ^ n else 0) i = b && (n <=? i).
Proof. intros Hn Hi. destruct b; simpl; [by apply neg_pow_bit|apply Z.bits_0]. Qed.

Lemma land_bit a n i : 0 ≤ n → 0 ≤ i → Z.testbit (Z.land a (Z.ones n)) i = Z.testbit a i && (i <? n).
Proof. intros Hn Hi. by rw Z.land_spec Z.testbit_ones_nonneg; [|lia..]. Qed.

Lemma base_read_members base :
  Z.lor (Z.lor (s32 (Z.shiftl (s8 (Z.land (Z.shiftr base 24) 0xFF)) 24)) (Z.shiftl (s8 (Z.land (Z.shiftr base 16) 0xFF)) 16)) (s16 (Z.land base 0xFFFF)) =
  base_read base.
Proof.
  apply Z.bits_inj'. intros i Hi. unfold base_read. change 0xFF with (Z.ones 8). change 0xFFFF with (Z.ones 16).
  rw !Z.lor_spec !if_neg_pow_bit; [|lia..]. rw !s32_bit; [|lia..]. rw s16_bit; [|lia]. rw land_bit; [|lia..].
  rw (Z.shiftl_spec _ 24); [|lia]. rw (Z.shiftl_spec _ 16); [|lia].
  destruct (decide (i < 16)) as [H1|H1].
  { rw (Z.testbit_neg_r _ (i - 16)); [|lia]. rw (Z.testbit_neg_r _ (Z.min i 31 - 24)); [|lia]. rw (proj2 (Z.leb_gt 23 i)); [|lia].
    rw (_ : Z.min i 31 = i); [|lia]. rw (_ : (Z.min i 15 <? 16) = true); [|apply Z.ltb_lt; lia]. rw !andb_true_r andb_false_r !orb_false_r !orb_false_l.
    destruct (decide (i = 15)) as [->|]; [change (Z.min 15 15) with 15; change (15 <=? 15) with true; by destruct (Z.testbit base 15)|]. rw (_ : Z.min i 15 = i); [|lia]. rw (proj2 (Z.leb_gt 15 i)); [|lia].
    by rw andb_false_r orb_false_r. }
  rw (s8_bit _ (i - 16)); [|lia]. rw land_bit; [|lia..]. rw Z.shiftr_spec; [|lia]. rw (_ : Z.min i 15 = 15); [|lia].
  rw (_ : (15 <=? i) = true); [|apply Z.leb_le; lia]. rw (_ : (15 <? 16) = true); [|done]. rw (_ : (Z.min (i - 16) 7 <? 8) = true); [|apply Z.ltb_lt; lia].
  rw !andb_true_r. destruct (decide (i < 24)) as [H2|H2].
  { rw (Z.testbit_neg_r _ (Z.min i 31 - 24)); [|lia]. rw (_ : Z.min i 31 = i); [|lia]. rw (_ : Z.min (i - 16) 7 + 16 = i); [|lia]. rw orb_false_l.
    destruct (decide (i = 23)) as [->|]; [change (23 <=? 23) with true; by destruct (Z.testbit base 23), (Z.testbit base 15)|].
    rw (proj2 (Z.leb_gt 23 i)); [|lia]. by rw andb_false_r orb_false_r. }
  rw s8_bit; [|lia]. rw land_bit; [|lia..]. rw Z.shiftr_spec; [|lia]. rw (_ : (Z.min (Z.min i 31 - 24) 7 <? 8) = true); [|apply Z.ltb_lt; lia].
  rw (_ : Z.min (Z.min i 31 - 24) 7 + 24 = Z.min i 31); [|lia]. rw (_ : Z.min (i - 16) 7 + 16 = 23); [|lia]. rw (proj2 (Z.leb_le 23 i)); [|lia].
  rw !andb_true_r. by destruct (Z.testbit base (Z.min i 31)), (Z.testbit base 15), (Z.testbit base 23).
Qed.

Lemma load_s8_wp p v (Q : Z → heapProp) : p ↦ v -∗ (p ↦ v -∗ Q (s8 v)) -∗ wp (load_s8 p) Q.
Proof. iIntros "H HQ". unfold load_s8. wp_load. by iApply "HQ". Qed.

Lemma load_s16_wp p v (Q : Z → heapProp) : 0 ≤ v < 2 ^ 16 → bytes p (le16 v) -∗ (bytes p (le16 v) -∗ Q (s16 v)) -∗ wp (load_s16 p) Q.
Proof. iIntros (Hv) "H HQ". unfold load_s16. iApply wp_bind. iApply (load16_wp with "H"); [done|]. iIntros "H". wp_pures. by iApply "HQ". Qed.

Lemma land_range v n : 0 ≤ n → 0 ≤ Z.land v (Z.ones n) < 2 ^ n.
Proof. intros Hn. rw Z.land_ones; [|done]. apply Z.mod_pos_bound. lia. Qed.

Lemma seg2phys_wp gdt seg base limit attribute Q :
  bytes (gdt + sizeof_descriptor * Z.shiftr seg 3) (desc_bytes base limit attribute) -∗
  (bytes (gdt + sizeof_descriptor * Z.shiftr seg 3) (desc_bytes base limit attribute) -∗ Q (base_read base)) -∗ wp (seg2phys gdt seg) Q.
Proof.
  iIntros "H HQ". unfold seg2phys, desc_bytes. rw bytes_desc; [|done..]. iDestruct "H" as "(H1 & H2 & H3 & H4 & H5 & H6)".
  iApply wp_bind. iApply (load_s8_wp with "H6"). iIntros "H6". iApply wp_bind. iApply (load_s8_wp with "H3"). iIntros "H3".
  iApply wp_bind. iApply (load_s16_wp with "H2"); [apply (land_range _ 16); lia|]. iIntros "H2". wp_pures. rw base_read_members. iApply "HQ". iFrame.
Qed.

(** C32: The base of a segment is read back as it was written when its bits 15 and 23 are clear; otherwise all bits above them are set. *)
Theorem seg2phys_roundtrip gdt seg base limit attribute old :
  {{ bytes (gdt + sizeof_descriptor * Z.shiftr seg 3) old ∗ ⌜length old = 8%nat⌝ }}
    (init_descriptor (gdt + sizeof_descriptor * Z.shiftr seg 3) base limit attribute;; seg2phys gdt seg)
  {{ r, bytes (gdt + sizeof_descriptor * Z.shiftr seg 3) (desc_bytes base limit attribute) ∗ ⌜r = base_read base ∧
        (Z.testbit base 15 = false → Z.testbit base 23 = false → r = s32 base) ∧
        (Z.testbit base 15 = true → ∀ i, 15 ≤ i → Z.testbit r i = true) ∧ (Z.testbit base 23 = true → ∀ i, 23 ≤ i → Z.testbit r i = true)⌝ }}.
Proof.
  apply triple_wp. iIntros "[H %Hl]". iApply wp_bind. iApply (init_descriptor_wp with "H"); [done|]. iIntros "H".
  iApply (seg2phys_wp with "H"). iIntros "$". iPureIntro. unfold base_read. split; [done|]. split_and!.
  - intros -> ->. by rw !Z.lor_0_r.
  - intros -> i Hi. rw !Z.lor_spec neg_pow_bit; [|lia..]. rw (proj2 (Z.leb_le 15 i) Hi). by rw orb_true_r.
  - intros -> i Hi. rw !Z.lor_spec (neg_pow_bit 23); [|lia..]. rw (proj2 (Z.leb_le 23 i) Hi). by rw !orb_true_r.
Qed.

Lemma nibble_high h : Z.shiftr (Z.land h 0xF) 16 = 0.
Proof.
  change 0xF with (Z.ones 4). pose proof (land_range h 4 ltac:(lia)). rw Z.shiftr_div_pow2; [|lia]. apply Z.div_small. lia.
Qed.

Lemma s16_of_land v : s16 (Z.land v 0xFFFF) = s16 v.
Proof. change 0xFFFF with (Z.ones 16). rw Z.land_ones; [|lia]. unfold s16. dlia. Qed.

(** The limit is read without its bits 16 to 19, and with the sign of bit 15. *)
Theorem get_limit_loses p base limit attribute old :
  {{ bytes p old ∗ ⌜length old = 8%nat ∧ p ≠ NULL⌝ }}
    (init_descriptor p base limit attribute;; get_limit p)
  {{ r, bytes p (desc_bytes base limit attribute) ∗ ⌜r = s16 limit⌝ }}.
Proof.
  apply triple_wp. iIntros "(H & %Hl & %Hp)". iApply wp_bind. iApply (init_descriptor_wp with "H"); [done|]. iIntros "H".
  unfold get_limit, desc_bytes. rw (eqb_false p NULL Hp). iEval (rw bytes_desc; [|done..]) in "H". iDestruct "H" as "(H1 & H2 & H3 & H4 & H5 & H6)".
  iApply wp_bind. iApply (load_s8_wp with "H5"). iIntros "H5". iApply wp_bind. iApply (load_s16_wp with "H1"); [apply (land_range _ 16); lia|]. iIntros "H1".
  wp_pures. rw bytes_desc; [|done..]. iFrame. iPureIntro. unfold DP_LIMIT_SHIFT. rw nibble_high s16_of_land. lia.
Qed.

(** ** Gates *)

Record gate := Gate { g_offset_low : Z; g_selector : Z; g_dcount : Z; g_attr : Z; g_offset_high : Z }.

Definition gate_at (p : Z) (g : gate) : heapProp :=
  (p + offset_low) ↦ g_offset_low g ∗ (p + selector) ↦ g_selector g ∗ (p + dcount) ↦ g_dcount g ∗
  (p + attr) ↦ g_attr g ∗ (p + offset_high) ↦ g_offset_high g.

(** The address to which the processor goes through a gate, and the privilege that may use it. *)
Definition gate_handler (g : gate) : Z := Z.lor (Z.land (g_offset_low g) 0xFFFF) (Z.shiftl (Z.land (g_offset_high g) 0xFFFF) 16).
Definition gate_dpl (g : gate) : Z := Z.land (Z.shiftr (g_attr g) 5) 3.
Definition gate_type (g : gate) : Z := Z.land (g_attr g) 0x9F.

Definition new_gate (type handler privilege : Z) : gate :=
  Gate (s16 (Z.land (s32 handler) 0xFFFF)) SELECTOR_KERNEL_CS 0 (s8 (Z.lor (s8 type) (Z.shiftl privilege 5))) (s16 (Z.land (Z.shiftr (s32 handler) 16) 0xFFFF)).

Lemma s16_land v : Z.land (s16 v) 0xFFFF = v mod 2 ^ 16.
Proof. change 0xFFFF with (Z.ones 16). rw Z.land_ones; [|lia]. unfold s16. dlia. Qed.

Lemma gate_handler_new type handler privilege : gate_handler (new_gate type handler privilege) = u32 handler.
Proof.
  unfold gate_handler, new_gate; cbn [g_offset_low g_offset_high]. rw !s16_land. change 0xFFFF with (Z.ones 16). rw !Z.land_ones; [|lia..].
  rw !Zmod_mod lor_shiftl_add; [|lia|apply Z.mod_pos_bound; lia]. rw Z.shiftr_div_pow2; [|lia]. unfold s32, u32. dlia.
Qed.

(** The gates of the table, by number. *)
Definition gates (idt : Z) (gs : gmap Z gate) : heapProp := [∗ map] n ↦ g ∈ gs, gate_at (idt + sizeof_gate * n) g.

Lemma init_idt_desc_wp idt n type handler privilege gs (Q : unit → heapProp) : is_Some (gs !! n) →
  gates idt gs -∗ (gates idt (<[n := new_gate type handler privilege]> gs) -∗ Q tt) -∗ wp (init_idt_desc idt n (s8 type) handler privilege) Q.
Proof.
  iIntros ([g Hg]) "H HQ". iDestruct (big_sepM_insert_acc with "H") as "[(H1 & H2 & H3 & H4 & H5) H]"; [done|].
  unfold init_idt_desc. do 5 wp_store. iApply "HQ". iApply "H". iFrame.
Qed.

(** Every number of the table has a gate. *)
Definition full (gs : gmap Z gate) : Prop := ∀ n, 0 ≤ n < IDT_SIZE → is_Some (gs !! n).

Lemma full_insert n g gs : full gs → full (<[n := g]> gs).
Proof. intros H k Hk. destruct (decide (k = n)) as [->|]; [rw lookup_insert_eq; eauto|]. rw lookup_insert_ne; [|done]. by apply H. Qed.

Lemma full_at gs n : full gs → 0 ≤ n < IDT_SIZE → is_Some (gs !! n).
Proof. auto. Qed.

(** Entries put into the table one after the other. *)
Definition set_gates (table : list (Z * (Z * Z * Z))) (gs : gmap Z gate) : gmap Z gate :=
  foldl (λ gs '(n, (type, handler, privilege)), <[n := new_gate type handler privilege]> gs) gs table.

Lemma set_gates_other table gs n : n ∉ table.*1 → set_gates table gs !! n = gs !! n.
Proof.
  revert gs. induction table as [|[k [[t h] p]] table IH]; intros gs Hn; [done|]. cbn in Hn |- *. apply not_elem_of_cons in Hn as [Hk Hn].
  fold (set_gates table (<[k := new_gate t h p]> gs)). rw IH; [|done]. by rw lookup_insert_ne.
Qed.

Lemma set_gates_in table gs n t h p : NoDup table.*1 → (n, (t, h, p)) ∈ table → set_gates table gs !! n = Some (new_gate t h p).
Proof.
  revert gs. induction table as [|[k [[t' h'] p']] table IH]; intros gs Hd Hn; [by apply not_elem_of_nil in Hn|]. cbn in Hd. apply NoDup_cons in Hd as [Hk Hd].
  apply elem_of_cons in Hn as [[= -> -> -> ->]|Hn]; [|by apply IH]. unfold set_gates; cbn. fold (set_gates table (<[k := new_gate t' h' p']> gs)).
  rw set_gates_other; [|done]. apply lookup_insert_eq.
Qed.

(** ** Loops that fill arrays *)

Lemma clear_cells_wp p k n vs (Q : unit → heapProp) : length vs = n → arr p k vs -∗ (arr p k (replicate n 0) -∗ Q tt) -∗ wp (clear_cells p k n) Q.
Proof.
  intros <-. revert p. induction vs as [|v vs IH]; intros p; simpl; iIntros "H HQ"; [iApply wp_ret; by iApply "HQ"|]. rw !arr_cons. iDestruct "H" as "[Hv H]".
  wp_store. iApply (IH with "H"). iIntros "H". iApply "HQ". iFrame.
Qed.

Lemma fill_wp N body p k v os (Q : unit → heapProp) : length os = Z.to_nat N →
  (∀ i, 0 ≤ i < N → body i = (store (p + k * i) v;; mret (inl (i + 1)))) → (∀ i, N ≤ i → body i = mret (inr tt)) →
  arr p k os -∗ (arr p k (replicate (length os) v) -∗ Q tt) -∗ wp (run (S (Z.to_nat N)) body 0) Q.
Proof.
  intros Hl Hb Hd. iIntros "H HQ". iApply (wp_wand with "[H]"); first iApply (wp_run_from body (λ n i, ⌜0 ≤ i ∧ n = Z.to_nat (N - i) ∧ i ≤ Z.max 0 N⌝ ∗
    arr p k (replicate (Z.to_nat i) v ++ drop (Z.to_nat i) os))%I (λ _, arr p k (replicate (length os) v)) (Z.to_nat N)).
  - lia.
  - intros n i. iIntros "((%Hi & -> & %Hn) & H)". destruct (decide (i < N)) as [Hlt|Hge].
    + rw Hb; [|lia]. destruct (lookup_lt_is_Some_2 os (Z.to_nat i)) as [o Ho]; [lia|]. iApply wp_bind.
      iApply (arr_store _ _ _ (Z.to_nat i) o v with "H"); [|by rw Z2Nat.id|].
      { rw lookup_app_r length_replicate; [|lia]. by rw Nat.sub_diag lookup_drop Nat.add_0_r. }
      iIntros "H". wp_pures. iExists (Z.to_nat (N - (i + 1))). iSplit; [iPureIntro; lia|]. iSplit; [iPureIntro; lia|].
      rw insert_app_r_alt length_replicate; [|lia]. rw Nat.sub_diag (drop_S _ o); [|done]. rw (_ : Z.to_nat (i + 1) = Z.to_nat i + 1)%nat; [|lia].
      rw replicate_add -assoc_L. cbn. by rw Nat.add_1_r.
    + rw Hd; [|lia]. iApply wp_ret. rw drop_ge; [|lia]. rw app_nil_r. by rw (_ : length os = Z.to_nat i); [|lia].
  - iSplit; [iPureIntro; lia|]. done.
  - iIntros (u) "H". destruct u. by iApply "HQ".
Qed.

(** ** The table of the interrupts *)

Section init.
Context (out_byte : Z → Z → M unit) (gdt idt irq_table tss : Z).
Context (divide_error single_step_exception nmi breakpoint_exception overflow bounds_check inval_opcode copr_not_available
         double_fault copr_seg_overrun inval_tss segment_not_present stack_exception general_protection page_fault copr_error : Z).
Context (clock_intr kb_intr hwint02 hwint03 hwint04 hwint05 hwint06 hwint07 hwint08 hwint09 hwint10 hwint11 hwint12 hwint13
         hd_intr hwint15 sys_call : Z).

(** Writing to a port changes no memory. *)
Hypothesis out_byte_wp : ∀ port v (Q : unit → heapProp), Q tt ⊢ wp (out_byte port v) Q.

Definition trap_table : list (Z * (Z * Z * Z)) :=
  [(0x0, (DA_386TGate, divide_error, 0)); (0x1, (DA_386TGate, single_step_exception, 0)); (0x2, (DA_386TGate, nmi, 0));
   (0x3, (DA_386TGate, breakpoint_exception, 3)); (0x4, (DA_386TGate, overflow, 3)); (0x5, (DA_386TGate, bounds_check, 3));
   (0x6, (DA_386TGate, inval_opcode, 0)); (0x7, (DA_386TGate, copr_not_available, 0)); (0x8, (DA_386TGate, double_fault, 0));
   (0x9, (DA_386TGate, copr_seg_overrun, 0)); (0xA, (DA_386TGate, inval_tss, 0)); (0xB, (DA_386TGate, segment_not_present, 0));
   (0xC, (DA_386TGate, stack_exception, 0)); (0xD, (DA_386TGate, general_protection, 0)); (0xE, (DA_386TGate, page_fault, 0));
   (0x10, (DA_386TGate, copr_error, 0));
   (0x20, (DA_386IGate, clock_intr, 0)); (0x21, (DA_386IGate, kb_intr, 0)); (0x22, (DA_386IGate, hwint02, 0)); (0x23, (DA_386IGate, hwint03, 0));
   (0x24, (DA_386IGate, hwint04, 0)); (0x25, (DA_386IGate, hwint05, 0)); (0x26, (DA_386IGate, hwint06, 0)); (0x27, (DA_386IGate, hwint07, 0));
   (0x28, (DA_386IGate, hwint08, 0)); (0x29, (DA_386IGate, hwint09, 0)); (0x2A, (DA_386IGate, hwint10, 0)); (0x2B, (DA_386IGate, hwint11, 0));
   (0x2C, (DA_386IGate, hwint12, 0)); (0x2D, (DA_386IGate, hwint13, 0)); (0x2E, (DA_386IGate, hd_intr, 0)); (0x2F, (DA_386IGate, hwint15, 0));
   (0x80, (DA_386IGate, sys_call, 3))].

Lemma trap_table_nodup : NoDup trap_table.*1.
Proof. apply (bool_decide_unpack _). by vm_compute. Qed.

Lemma trap_table_attr n t h p : (n, (t, h, p)) ∈ trap_table → gate_dpl (new_gate t h p) = p ∧ gate_type (new_gate t h p) = t.
Proof.
  assert (Forall (λ x : Z * (Z * Z * Z), gate_dpl (new_gate x.2.1.1 x.2.1.2 x.2.2) = x.2.2 ∧ gate_type (new_gate x.2.1.1 x.2.1.2 x.2.2) = x.2.1.1) trap_table) as H.
  { unfold trap_table. repeat (constructor; [split; reflexivity|]). constructor. }
  intros Hn. exact (proj1 (Forall_forall _ _) H _ Hn).
Qed.

Lemma init_8259A_wp reserved os (Q : unit → heapProp) : length os = 16%nat →
  arr irq_table 4 os -∗ (arr irq_table 4 (replicate 16 reserved) -∗ Q tt) -∗ wp (init_8259A out_byte irq_table reserved) Q.
Proof.
  iIntros (Hl) "H HQ". unfold init_8259A. do 10 (iApply wp_bind; iApply out_byte_wp). iApply (fill_wp _ _ irq_table 4 reserved with "H"); [done| | |by rw Hl].
  - intros i Hi. by rw (proj2 (Z.ltb_lt _ _)); [|lia].
  - intros i Hi. by rw (proj2 (Z.ltb_ge _ _)); [|lia].
Qed.

Definition the_init_trap : Z → M unit :=
  init_trap out_byte gdt idt irq_table tss divide_error single_step_exception nmi breakpoint_exception overflow bounds_check inval_opcode
    copr_not_available double_fault copr_seg_overrun inval_tss segment_not_present stack_exception general_protection page_fault copr_error
    clock_intr kb_intr hwint02 hwint03 hwint04 hwint05 hwint06 hwint07 hwint08 hwint09 hwint10 hwint11 hwint12 hwint13 hd_intr hwint15 sys_call.

(** The tables that are set up: the gates, the handlers of the interrupts, the task state segment, and two descriptors. *)
Definition tables (gs : gmap Z gate) (os ws hs ds d : list Z) : heapProp :=
  gates idt gs ∗ arr irq_table 4 os ∗ arr tss 4 ws ∗ arr (tss + tss_trap) 2 hs ∗
  bytes (gdt + sizeof_descriptor * Z.shiftr SELECTOR_KERNEL_DS 3) ds ∗ bytes (gdt + sizeof_descriptor * INDEX_TSS) d.

(** The gates of [trap_table] lead to their handlers, the others are as before. *)
Definition trap_gates (gs gs' : gmap Z gate) : Prop :=
  (∀ n t h p, (n, (t, h, p)) ∈ trap_table → ∃ g, gs' !! n = Some g ∧ gate_handler g = u32 h ∧ gate_dpl g = p ∧ gate_type g = t) ∧
  (∀ n, n ∉ trap_table.*1 → gs' !! n = gs !! n).

(** C31: After [init_trap] the gate of every trap, interrupt and the system call leads to its handler, with its type and privilege: only
    break point, overflow, bounds and the system call may be used by programs.  The other gates are as before, all interrupts have the reserved handler,
    and the task state segment is cleared, described in the global table, and without a map of ports. *)
Theorem init_trap_correct reserved gs os ws hs base limit attribute old :
  {{ tables gs os ws hs (desc_bytes base limit attribute) old ∗
     ⌜full gs ∧ length os = 16%nat ∧ length ws = 25%nat ∧ length hs = 2%nat ∧ length old = 8%nat⌝ }}
    the_init_trap reserved
  {{ _, ∃ gs', tables gs' (replicate 16 reserved) (<[2%nat := SELECTOR_KERNEL_DS]> (replicate 25 0)) [0; sizeof_tss]
                 (desc_bytes base limit attribute) (desc_bytes (vir2phys (base_read base) tss) (sizeof_tss - 1) DA_386TSS) ∗ ⌜trap_gates gs gs'⌝ }}.
Proof.
  apply triple_wp. iIntros "((Hg & Hi & Ht & Hh & Hd & Ho) & %Hf & %Hos & %Hws & %Hhs & %Hold)". unfold the_init_trap, init_trap.
  iApply wp_bind. iApply (init_8259A_wp with "Hi"); [done|]. iIntros "Hi". unfold set_trap_gate, set_system_gate, set_intr_gate, set_syscall_gate.
  do 33 (iApply wp_bind; iApply (init_idt_desc_wp with "Hg"); [apply full_at; [by repeat apply full_insert|by vm_compute]|]; iIntros "Hg").
  unfold clear_tss. iApply wp_bind. iApply wp_bind. iApply (clear_cells_wp with "Ht"); [done|]. iIntros "Ht". iApply (clear_cells_wp with "Hh"); [done|]. iIntros "Hh".
  iApply wp_bind. iApply (arr_store _ _ _ 2 0 with "Ht"); [done|done|]. iIntros "Ht".
  iApply wp_bind. iApply (seg2phys_wp with "Hd"). iIntros "Hd". iApply wp_bind. iApply (init_descriptor_wp with "Ho"); [done|]. iIntros "Ho".
  iApply (arr_store _ _ _ 1 0 with "Hh"); [done|by unfold tss_iobase, tss_trap; lia|]. iIntros "Hh". iExists (set_gates trap_table gs).
  iSplit; [iSplitL "Hg"; [iExact "Hg"|iFrame "Hi Ht Hh Hd Ho"]|]. iPureIntro. split; [|by intros n Hn; apply set_gates_other]. intros n t h p Hn. exists (new_gate t h p).
  split; [by apply set_gates_in; [apply trap_table_nodup|]|]. split; [apply gate_handler_new|by apply (trap_table_attr n)].
Qed.
End init.

Definition gates0 : gmap Z gate := list_to_map ((λ n, (n, Gate 0 0 0 0 0)) <$> seqZ 0 256).

Lemma full_gates0 : full gates0.
Proof.
  intros n Hn. unfold gates0. exists (Gate 0 0 0 0 0). apply elem_of_list_to_map_1.
  - rw -list_fmap_compose. rw (_ : fst ∘ (λ n, (n, Gate 0 0 0 0 0)) <$> seqZ 0 256 = seqZ 0 256); [apply NoDup_seqZ|]. by rw -{2}(list_fmap_id (seqZ 0 256)).
  - apply list_elem_of_fmap. exists n. split; [done|]. apply elem_of_seqZ. unfold IDT_SIZE in Hn. lia.
Qed.

Lemma init_trap_correct_witness :
  full gates0 ∧ (∀ Q : unit → heapProp, Q tt ⊢ wp (mret tt) Q) ∧
  triple (tables 0x1000 0x2000 0x3000 0x4000 gates0 (replicate 16 0) (replicate 25 0) [0; 0] (desc_bytes 0 0xFFFFF 0xC092) (replicate 8 0) ∗
          ⌜full gates0 ∧ length (replicate 16 0) = 16%nat ∧ length (replicate 25 0) = 25%nat ∧ length [0; 0] = 2%nat ∧ length (replicate 8 0) = 8%nat⌝)
    (the_init_trap (λ _ _, mret tt) 0x1000 0x2000 0x3000 0x4000 1 2 3 4 5 6 7 8 9 10 11 12 13 14 15 16 17 18 19 20 21 22 23 24 25 26 27 28 29 30 31 32 33 7)
    (λ _, ∃ gs', tables 0x1000 0x2000 0x3000 0x4000 gs' (replicate 16 7) (<[2%nat := SELECTOR_KERNEL_DS]> (replicate 25 0)) [0; sizeof_tss]
                   (desc_bytes 0 0xFFFFF 0xC092) (desc_bytes (vir2phys (base_read 0) 0x4000) (sizeof_tss - 1) DA_386TSS) ∗
           ⌜trap_gates 1 2 3 4 5 6 7 8 9 10 11 12 13 14 15 16 17 18 19 20 21 22 23 24 25 26 27 28 29 30 31 32 33 gates0 gs'⌝)%I.
Proof.
  assert (∀ Q : unit → heapProp, Q tt ⊢ wp (mret tt) Q) as H by (intros Q; apply wp_ret). split; [exact full_gates0|]. split; [exact H|].
  exact (init_trap_correct (λ _ _, mret tt) 0x1000 0x2000 0x3000 0x4000 1 2 3 4 5 6 7 8 9 10 11 12 13 14 15 16 17 18 19 20 21 22 23 24 25 26 27 28 29 30 31 32 33
           (λ _ _, H) 7 gates0 (replicate 16 0) (replicate 25 0) [0; 0] 0 0xFFFFF 0xC092 (replicate 8 0)).
Defined.
