(* ===== verification/Proc.v ===== *)
(** * Processes: kernel/fork.c, kernel/exit.c, kernel/signal.c, kernel/sys.c, kernel/pid.c, fs/binfmt_elf.c, init/main.c

    A task has its members as cells, the descriptors of its local table as bytes.  Objects of the caches come
    from the parameters [kmem_get_tsk] and [kmem_get_union]. *)

From S2P Require Export Traps Bits Sched File Memory.

(** ** sched.h, signal.h, resource.h *)

(** struct stackframe, the first member of a task *)
Definition r_gs : Z := 0.
Definition r_fs : Z := 4.
Definition r_es : Z := 8.
Definition r_ds : Z := 12.
Definition r_eip : Z := 52.
Definition r_cs : Z := 56.
Definition r_eflags : Z := 60.
Definition r_esp : Z := 64.
Definition r_ss : Z := 68.

Definition ldt_sel : Z := 72.
Definition sig_action (i : Z) : Z := 92 + 8 * i.
Definition sa_flags : Z := 0.
Definition sa_handler : Z := 4.
Definition p_signal : Z := 352.
Definition p_nr_tty : Z := 376.
Definition p_pid : Z := 380.
Definition p_command : Z := 392.
Definition p_parent : Z := 640.
Definition p_next : Z := 644.
Definition p_sibling : Z := 648.
Definition sizeof_thread_union : Z := 8192.
(** struct s_task *)
Definition initial_eip : Z := 0.
Definition s_command : Z := 4.
Definition sizeof_TASK : Z := 36.

Definition NR_SIGNALS : Z := 32.
Definition SIGKILL : Z := 9.
Definition TASK_ZOMBIE : Z := 3.
Definition NR_SYSTEM_PROCS : Z := 2.
Definition NR_USER_PROCS : Z := 2.
Definition STACK_SIZE_DEFAULT : Z := 4192.
Definition STACK_SIZE_TOTAL : Z := STACK_SIZE_DEFAULT + STACK_SIZE_DEFAULT + STACK_SIZE_DEFAULT.
Definition INIT_PID : Z := 1.
Definition BOOT_PARAM_MAGIC : Z := 0xCCCC.

(** ** fs/binfmt_elf.c *)

Definition e_shoff : Z := 32.
Definition e_shentsize : Z := 46.
Definition e_shnum : Z := 48.
Definition sh_flags : Z := 8.
Definition sh_addr : Z := 12.
Definition sh_size : Z := 20.
Definition SHF_ALLOC : Z := 0x02.

(** [base] and [limit] are the addresses of variables; comparisons of an [int] with an [unsigned int] are unsigned. *)
Definition get_elf_map (address elf_header base limit : Z) : M Z :=
  store base (u32 (-1));;
  n ← load (elf_header + e_shnum);
  t ← run (S (Z.to_nat n)) (λ '(i, t),
    n ← load (elf_header + e_shnum);
    if i <? n then
      o ← load (elf_header + e_shoff);
      z ← load (elf_header + e_shentsize);
      let section_header := u32 (address + o + i * z) in
      f ← load (section_header + sh_flags);
      if negb (Z.land f SHF_ALLOC =? 0) then
        a ← load (section_header + sh_addr);
        let bottom := s32 a in
        a ← load (section_header + sh_addr);
        s ← load (section_header + sh_size);
        let top := s32 (a + s) in
        b ← load base;
        (if b >? u32 bottom then store base (u32 bottom) else mret tt);;
        mret (inl (i + 1, if t <? u32 top then u32 top else t))
      else mret (inl (i + 1, t))
    else mret (inr t)) (0, 0);
  b ← load base;
  store limit (u32 (t - b - 1));;
  mret 0.

Section processes.
Context (sched_rq current rr_sched_addr pidmap ticks_var : Z).
(** The addresses of [do_signal] and of [ChildProc]. *)
Context (do_signal_addr ChildProc : Z).
(** [kmem_get_obj(tsk_cachep)] and [kmem_get_obj(thread_union_cachep)] *)
Context (kmem_get_tsk kmem_get_union : M Z).

(** ** kernel/pid.c *)

Definition getpid : M Z := cur ← load current; p ← load (cur + p_pid); mret (s32 p).

(** ** kernel/signal.c *)

Definition get_signal_bitmap : M Z := cur ← load current; s ← load (cur + p_signal); mret (s32 s).

Definition do_signal (signr : Z) : M unit :=
  cur ← load current;
  s ← load (cur + p_signal);
  store (cur + p_signal) (Z.land s (u32 (Z.lnot (s32 (Z.shiftl 1 signr))))).

(** Nothing is sent: the lines that would set the bit are comments. *)
Definition send_signal (signr pid : Z) : M Z :=
  if (signr <? 0) || (signr >? NR_SIGNALS) || (signr =? SIGKILL) then mret (-1) else
  if (pid <? 0) || (pid >? NR_PROCESS) then mret (-1) else
  mret 0.

(** ** kernel/fork.c *)

Definition get_empty_process : M Z := kmem_get_tsk.

Definition copy_regs (p : Z) : M unit :=
  cur ← load current; v ← load (cur + r_cs); store (p + r_cs) v;;
  cur ← load current; v ← load (cur + r_ds); store (p + r_ds) v;;
  cur ← load current; v ← load (cur + r_es); store (p + r_es) v;;
  cur ← load current; v ← load (cur + r_fs); store (p + r_fs) v;;
  cur ← load current; v ← load (cur + r_ss); store (p + r_ss) v;;
  cur ← load current; v ← load (cur + r_gs); store (p + r_gs) v;;
  cur ← load current; v ← load (cur + r_eip); store (p + r_eip) v;;
  cur ← load current; v ← load (cur + r_esp); store (p + r_esp) v;;
  cur ← load current; v ← load (cur + r_eflags); store (p + r_eflags) v;;
  cur ← load current; v ← load (cur + ticks); store (p + ticks) v;;
  cur ← load current; v ← load (cur + priority); store (p + priority) v.

Definition copy_mem (p : Z) : M Z :=
  cur ← load current;
  memcpy (p + task_ldts) (cur + task_ldts) (Z.to_nat (LDT_SIZE * sizeof_descriptor));;
  mret 0.

(** The loop over the actions of the signals. *)
Definition init_signals (p : Z) : M unit :=
  run (S (Z.to_nat NR_SIGNALS)) (λ i,
    if i <? NR_SIGNALS then
      store (p + sig_action i + sa_flags) 0;;
      store (p + sig_action i + sa_handler) do_signal_addr;;
      mret (inl (i + 1))
    else mret (inr tt)) 0.

(** [p->sched_class->enqueue_task(&sched_rq,p,0,0)] *)
Definition enqueue_new (p : Z) : M unit :=
  c ← load (p + sched_class);
  cls ← class_at sched_rq current rr_sched_addr c;
  enqueue_task cls sched_rq p 0 0.

(** [pid_t] is unsigned: the test never succeeds. *)
Definition do_fork : M Z :=
  p ← get_empty_process;
  if p =? NULL then panic else
  pid ← get_pidmap pidmap;
  store (p + p_pid) pid;;
  if u32 pid <? 0 then mret (-1) else
  cur ← load current;
  store (p + p_parent) cur;;
  store (p + p_sibling) NULL;;
  store (p + p_next) NULL;;
  init_signals p;;
  store (p + p_signal) 0;;
  cur ← load current; c ← load (cur + sched_class); store (p + sched_class) c;;
  cur ← load current; l ← load (cur + ldt_sel); store (p + ldt_sel) l;;
  copy_mem p;;
  copy_regs p;;
  store (p + r_eip) (u32 ChildProc);;
  store (p + sched_entity + vruntime) 10;;
  store (p + state) TASK_RUNNING;;
  enqueue_new p;;
  pid ← load (p + p_pid);
  mret (s32 pid).

Definition sys_fork : M Z := do_fork.

(** ** kernel/exit.c *)

(** The parameter is set to NULL and nothing else is done. *)
Definition release_process (p : Z) : M Z := mret 0.

Definition do_exit : M Z :=
  cur ← load current;
  pid ← load (cur + p_pid);
  cur ← load current;
  store (cur + state) TASK_ZOMBIE;;
  schedule sched_rq current rr_sched_addr;;
  mret 0.

Definition sys_exit : M Z := do_exit.

(** ** kernel/sys.c *)

Definition sys_get_ticks : M Z := load ticks_var.
Definition sys_waitpid (pid : Z) : M Z := mret 0.
Definition sys_wakeup : M Z := mret 0.

(** ** init/main.c *)

Context (gdt selector_ldt task_table user_proc_table task_stack k_reenter : Z).
(** Local variables whose addresses are taken. *)
Context (k_base k_limit : Z).

Definition get_memsize (mem_size : Z) : M Z :=
  magic ← load BOOT_PARAM_ADDR;
  assert (magic =? BOOT_PARAM_MAGIC);;
  s ← load (BOOT_PARAM_ADDR + 4);
  store mem_size (u32 s);;
  mret 0.

Definition get_kernel_map : M Z :=
  '(_, kernel_addr) ← get_boot_params;
  get_elf_map kernel_addr kernel_addr k_base k_limit.

(** The loop over the open files. *)
Definition clear_filp (tsk : Z) : M unit :=
  run (S (Z.to_nat NR_OPEN)) (λ j,
    if j <? NR_OPEN then
      store (tsk + filp j) NULL;;
      mret (inl (j + 1))
    else mret (inr tt)) 0.

(** The part of both loops before the local descriptors are set: a task, its stack, its name, its number, and its entry in the global table.  [None] is
    an early return. *)
Definition new_task (p_task : Z) : M (option (Z * Z)) :=
  tsk ← kmem_get_tsk;
  if tsk =? NULL then mret None else
  thread_union ← kmem_get_union;
  if thread_union =? NULL then mret None else
  store thread_union tsk;;
  store (tsk + state) TASK_RUNNING;;
  strcpy (tsk + p_command) (p_task + s_command);;
  pid ← get_pidmap pidmap;
  store (tsk + p_pid) pid;;
  if u32 pid <? 0 then mret None else
  store (tsk + p_parent) NULL;;
  store (tsk + p_sibling) NULL;;
  store (tsk + p_next) NULL;;
  init_signals tsk;;
  clear_filp tsk;;
  store (tsk + p_signal) 0;;
  sel ← load selector_ldt;
  store (tsk + ldt_sel) sel;;
  sel ← load selector_ldt;
  b ← seg2phys gdt SELECTOR_KERNEL_DS;
  init_descriptor (gdt + sizeof_descriptor * Z.shiftr sel 3) (vir2phys b (tsk + task_ldts)) (LDT_SIZE * sizeof_descriptor - 1) DA_LDT;;
  mret (Some (tsk, thread_union)).

(** The selector of an entry of the local table. *)
Definition ldt_selector (index rpl : Z) : Z :=
  Z.lor (Z.lor (Z.land (Z.land (8 * index) SA_RPL_MASK) SA_TI_MASK) SA_TIL) rpl.

(** The part of both loops after the stack is set. *)
Definition init_regs (tsk p_task rpl eflags prio i : Z) : M unit :=
  store (tsk + r_cs) (ldt_selector 0 rpl);;
  store (tsk + r_ds) (ldt_selector 1 rpl);;
  store (tsk + r_es) (ldt_selector 1 rpl);;
  store (tsk + r_fs) (ldt_selector 1 rpl);;
  store (tsk + r_ss) (ldt_selector 1 rpl);;
  store (tsk + r_gs) (Z.lor (Z.land SELECTOR_KERNEL_GS SA_RPL_MASK) rpl);;
  e ← load (p_task + initial_eip);
  store (tsk + r_eip) e;;
  store (tsk + r_eflags) eflags;;
  store (tsk + priority) prio;;
  store (tsk + ticks) prio;;
  store (tsk + sched_entity + vruntime) (u32 i);;
  store (tsk + sched_class) rr_sched_addr.

(** [selector_ldt += 1 << 3] *)
Definition next_selector : M unit := sel ← load selector_ldt; store selector_ldt (u16 (sel + 8)).

(** One turn of the loop of [init_kernel_thread]; [false] is an early return. *)
Definition kernel_thread_turn (s : Z * Z) : M (Z * Z + bool) :=
  let '(i, p_task_stack) := s in
  let privilege := PRIVILEGE_TASK in
  let rpl := RPL_TASK in
  let eflags := 0x1202 in
  let prio := KERNEL_PRIOR in
  if i <? NR_SYSTEM_PROCS then
    let p_task := task_table + sizeof_TASK * i in
    r ← new_task p_task;
    match r with
    | None => mret (inr false)
    | Some (tsk, _) =>
        b ← load k_base; l ← load k_limit;
        init_descriptor (tsk + task_ldts + sizeof_descriptor * INDEX_LDT_C) 0 (Z.shiftr (u32 (b + l)) LIMIT_4K_SHIFT)
          (Z.lor (Z.lor (Z.lor DA_32 DA_LIMIT_4K) DA_C) (Z.shiftl privilege 5));;
        b ← load k_base; l ← load k_limit;
        init_descriptor (tsk + task_ldts + sizeof_descriptor * INDEX_LDT_D) 0 (Z.shiftr (u32 (b + l)) LIMIT_4K_SHIFT)
          (Z.lor (Z.lor (Z.lor DA_32 DA_LIMIT_4K) DA_DRW) (Z.shiftl privilege 5));;
        store (tsk + r_esp) p_task_stack;;
        let p_task_stack := p_task_stack - STACK_SIZE_DEFAULT in
        init_regs tsk p_task rpl eflags prio i;;
        pid ← load (tsk + p_pid);
        (if negb (pid =? INIT_PID) then enqueue_new tsk else mret tt);;
        next_selector;;
        mret (inl (i + 1, p_task_stack))
    end
  else mret (inr true).

Definition init_kernel_thread : M unit :=
  get_kernel_map;;
  done ← run (S (Z.to_nat NR_SYSTEM_PROCS)) kernel_thread_turn (0, task_stack + STACK_SIZE_TOTAL);
  if done : bool then store k_reenter 0;; store ticks_var 0 else mret tt.

(** One turn of the loop of [init_user_process]. *)
Definition user_process_turn (i : Z) : M (Z + bool) :=
  let privilege := PRIVILEGE_TASK in
  let rpl := RPL_TASK in
  let eflags := 0x1202 in
  let prio := KERNEL_PRIOR in
  if i <? NR_USER_PROCS then
    let p_task := user_proc_table + sizeof_TASK * i in
    r ← new_task p_task;
    match r with
    | None => mret (inr false)
    | Some (tsk, thread_union) =>
        let ldt_c := tsk + task_ldts + sizeof_descriptor * INDEX_LDT_C in
        memcpy ldt_c (gdt + sizeof_descriptor * Z.shiftr SELECTOR_KERNEL_CS 3) (Z.to_nat sizeof_descriptor);;
        store (ldt_c + attr1) (u8 (Z.lor DA_C (Z.shiftl privilege 5)));;
        let ldt_d := tsk + task_ldts + sizeof_descriptor * INDEX_LDT_D in
        memcpy ldt_d (gdt + sizeof_descriptor * Z.shiftr SELECTOR_KERNEL_DS 3) (Z.to_nat sizeof_descriptor);;
        store (ldt_d + attr1) (u8 (Z.lor DA_DRW (Z.shiftl privilege 5)));;
        store (tsk + r_esp) (u32 (thread_union + sizeof_thread_union));;
        init_regs tsk p_task rpl eflags prio i;;
        enqueue_new tsk;;
        next_selector;;
        mret (inl (i + 1))
    end
  else mret (inr true).

Definition init_user_process : M unit :=
  get_kernel_map;;
  done ← run (S (Z.to_nat NR_USER_PROCS)) user_process_turn 0;
  if done : bool then store k_reenter 0;; store ticks_var 0 else mret tt.

Definition init_task : M unit :=
  init_kernel_thread;;
  init_user_process;;
  se ← ts_leftmost (sched_rq + task_timeline);
  store current (se - sched_entity).

(** The steps of the start of the kernel are those of the components. *)
Definition start_kernel (init_clock paging_init init_mem buffer_init init_sched init_hd init_fs : M unit) (main_memory_end : Z) : M unit :=
  init_clock;;
  get_memsize main_memory_end;;
  e ← load main_memory_end;
  store main_memory_end (Z.land e 0xfffff000);;
  paging_init;;
  init_mem;;
  buffer_init;;
  init_sched;;
  init_hd;;
  init_fs;;
  init_task.

Definition pretty_main (start_kernel move_to_user_mode : M unit) : M Z :=
  start_kernel;;
  move_to_user_mode;;
  mret 0.
End processes.

(** The table of the system calls: the addresses of the functions, in the order of their numbers. *)
Definition sys_call_table (sys_get_ticks sys_write sys_printx sys_fork sys_exit sys_waitpid : Z) : list Z :=
  [sys_get_ticks; sys_write; sys_printx; sys_fork; sys_exit; sys_waitpid].
