(* ===== verification/BootSpec.v ===== *)
(** * The first tasks

    What the run queue and the tasks are after [init_task], and what the clock then makes of them. *)

From S2P Require Export SchedRun ProcSpec.

(** ** The setting up of a task *)

(** A task with a name, a number and its entry in the global table, that has no relatives, open files or pending signals. *)
Definition named_task (p sel pid h : Z) (name : list Z) : heapProp :=
  (p + ldt_sel) ↦ sel ∗ (p + state) ↦ TASK_RUNNING ∗ (p + p_signal) ↦ 0 ∗ (p + p_pid) ↦ pid ∗ (p + p_parent) ↦ NULL ∗ (p + p_next) ↦ NULL ∗
  (p + p_sibling) ↦ NULL ∗ arr (p + sig_action 0) 4 (actions h 32) ∗ arr (p + filp 0) 4 (replicate 32 NULL) ∗ ∃ rest, bytes (p + p_command) (name ++ 0 :: rest).

(** What is left to be set. *)
Definition unset (p : Z) : heapProp :=
  ∃ c cl, context_at p c ∗ (p + sched_class) ↦ cl ∗ raw_arr (p + task_ldts) 1 16 ∗ rb_free (p + sched_entity + run_node) ∗ own (p + sched_entity + vruntime).

(** An entry of the tables of tasks. *)
Definition task_entry (p eip : Z) (name : list Z) : heapProp :=
  (p + initial_eip) ↦ eip ∗ cstr (p + s_command) name ∗ ⌜(length name < 32)%nat⌝.

(** The registers of a new task, with the selectors of its local table. *)
Definition boot_context (eip esp : Z) : context :=
  Context_ (ldt_selector 0 RPL_TASK) (ldt_selector 1 RPL_TASK) (ldt_selector 1 RPL_TASK) (ldt_selector 1 RPL_TASK) (ldt_selector 1 RPL_TASK)
    (Z.lor (Z.land SELECTOR_KERNEL_GS SA_RPL_MASK) RPL_TASK) eip esp 0x1202 KERNEL_PRIOR KERNEL_PRIOR.

Section boot.
Context (sched_rq current rr pidmap ticks_var do_signal_addr gdt selector_ldt task_table user_proc_table task_stack k_reenter k_base k_limit : Z).
Context {kmem_get_tsk kmem_get_union : M Z} `{!TaskCaches kmem_get_tsk kmem_get_union}.
Context (base limit attribute cbase climit cattribute kb kl : Z).

(** The descriptors of the code and data of the kernel, and the entries of the global table that are free. *)
Definition kernel_segments : heapProp :=
  bytes (gdt + sizeof_descriptor * Z.shiftr SELECTOR_KERNEL_CS 3) (desc_bytes cbase climit cattribute) ∗
  bytes (gdt + sizeof_descriptor * Z.shiftr SELECTOR_KERNEL_DS 3) (desc_bytes base limit attribute).

Definition free_entries (sel : Z) (n : nat) : heapProp := [∗ list] j ∈ seq 0 n, raw_arr (gdt + sizeof_descriptor * (Z.shiftr sel 3 + Z.of_nat j)) 1 8.

Lemma free_entries_S sel n : free_entries sel (S n) ⊣⊢ raw_arr (gdt + sizeof_descriptor * Z.shiftr sel 3) 1 8 ∗ free_entries (sel + 8) n.
Proof.
  unfold free_entries. rw -cons_seq big_sepL_cons Z.add_0_r. f_equiv. rw -fmap_S_seq big_sepL_fmap. apply big_sepL_proper. intros i j _.
  rw (_ : Z.shiftr (sel + 8) 3 + Z.of_nat j = Z.shiftr sel 3 + Z.of_nat (S j)); [done|]. rw !Z.shiftr_div_pow2; [|lia..]. change (2 ^ 3) with 8.
  rw (_ : sel + 8 = sel + 1 * 8); [|lia]. rw Z.div_add; [|lia]. lia.
Qed.

(** What the setting up of [n] more tasks needs; [pb] is the first byte of the map of the process numbers. *)
Definition supply (n : nat) (sel pb : Z) : heapProp :=
  task_pool n ∗ union_pool n ∗ selector_ldt ↦ sel ∗ bytes pidmap (pb :: replicate 127 0) ∗ kernel_segments ∗ free_entries sel n.

Lemma new_task_wp n sel pb p_task eip name Q : pb ≠ 255 → 0 < p_task → 0 ≤ sel →
  (task_entry p_task eip name ∗ task_pool (S n) ∗ union_pool (S n) ∗ selector_ldt ↦ sel ∗ bytes pidmap (pb :: replicate 127 0) ∗ kernel_segments ∗
   raw_arr (gdt + sizeof_descriptor * Z.shiftr sel 3) 1 8) -∗
  (∀ p u, ⌜0 < p⌝ -∗ task_entry p_task eip name -∗ named_task p sel (u32 (find_first_zero pb)) do_signal_addr name -∗ unset p -∗ u ↦ p -∗
     task_pool n -∗ union_pool n -∗ selector_ldt ↦ sel -∗ bytes pidmap (__set_bit (find_first_zero pb) pb :: replicate 127 0) -∗ kernel_segments -∗
     bytes (gdt + sizeof_descriptor * Z.shiftr sel 3) (desc_bytes (vir2phys (base_read base) (p + task_ldts)) (LDT_SIZE * sizeof_descriptor - 1) DA_LDT) -∗
     Q (Some (p, u))) -∗
  wp (new_task pidmap do_signal_addr kmem_get_tsk kmem_get_union gdt selector_ldt p_task) Q.
Proof.
  iIntros (Hpb Hpt Hsel) "((He & Hn & %Hlen) & Hp & Hu & Hs & Hpid & (Hcs & Hds) & (%old & %Hold & Ho)) HQ". unfold new_task.
  iApply wp_bind. iApply (get_tsk_wp with "Hp"). iIntros (p) "%Hp0 Hr Hp". rw (eqb_false p NULL); [|unfold NULL; lia].
  iApply wp_bind. iApply (get_union_wp with "Hu"). iIntros (u) "%Hu0 (%w & Hw) Hu". rw (eqb_false u NULL); [|unfold NULL; lia].
  iDestruct (raw_task_members with "Hr") as (c0 l0 st sg pid pa nx sb cl)
    "(Gx & Gl & Gst & Gsg & Gpid & Gpa & Gnx & Gsb & Gcl & Gd & (%os & %Hos & Ga) & (%cs & %Hcs & Gc) & (%fs & %Hfs & Gf) & Gr & Gv)".
  wp_store. wp_store. rw -(take_drop (S (length name)) cs). iApply wp_bind.
  iApply (strcpy_wp with "Hn Gc"); [rw length_take; lia|unfold p_command; lia|]. iIntros "Hn Gc". iApply wp_bind.
  iApply (get_pidmap_wp _ 0 pb (replicate 127 0) with "Hpid"); [done|done|]. rw (_ : find_first_zero pb + 0%nat = find_first_zero pb); [|lia]. iIntros "Hpid". wp_store. rw (proj2 (Z.ltb_ge _ _)); [|apply u32_range].
  wp_store. wp_store. wp_store. iApply wp_bind. iApply (init_signals_wp with "Ga"); [done|]. iIntros "Ga". iApply wp_bind. iApply (clear_filp_wp with "Gf"); [done|]. iIntros "Gf".
  wp_store. wp_load. wp_store. wp_load. iApply wp_bind. iApply (seg2phys_wp with "Hds"). iIntros "Hds". iApply wp_bind. iApply (init_descriptor_wp with "Ho"); [done|]. iIntros "Ho".
  wp_pures. iApply ("HQ" $! p u with "[//] [He Hn] [Gl Gst Gsg Gpid Gpa Gnx Gsb Ga Gf Gc] [Gx Gcl Gd Gr Gv] Hw Hp Hu Hs Hpid [$Hcs $Hds] Ho").
  - iFrame. done.
  - iFrame "Gl Gst Gsg Gpid Gpa Gnx Gsb Ga Gf". by iExists _.
  - iExists c0, cl. iFrame "Gx Gcl Gd Gr Gv".
Qed.

Lemma init_regs_wp p p_task eip i c cl (Q : unit → heapProp) : 0 ≤ i < 2 ^ 32 →
  (p_task + initial_eip) ↦ eip -∗ context_at p c -∗ (p + sched_class) ↦ cl -∗ rb_free (p + sched_entity + run_node) -∗ own (p + sched_entity + vruntime) -∗
  ((p_task + initial_eip) ↦ eip -∗ context_at p (boot_context eip (c_esp c)) -∗ (p + sched_class) ↦ rr -∗ se_free (p + sched_entity) i -∗ Q tt) -∗
  wp (init_regs rr p p_task RPL_TASK 0x1202 KERNEL_PRIOR i) Q.
Proof.
  iIntros (Hi) "He (G1 & G2 & G3 & G4 & G5 & G6 & G7 & G8 & G9 & G10 & G11) Hcl Hr (%v & Hv) HQ". unfold init_regs.
  do 6 wp_store. wp_load. do 6 wp_store. iApply ("HQ" with "He [G1 G2 G3 G4 G5 G6 G7 G8 G9 G10 G11] Hcl [$Hr $Hv]").
  unfold context_at; cbn [boot_context c_cs c_ds c_es c_fs c_ss c_gs c_eip c_esp c_eflags c_ticks c_priority].
  iFrame "G1 G2 G3 G4 G5 G6 G7 G8 G9 G10 G11".
Qed.

(** The two entries of a local table. *)
Lemma ldts_entries p (a b : list Z) : length a = 8%nat →
  bytes (p + task_ldts) (a ++ b) ⊣⊢ bytes (p + task_ldts + sizeof_descriptor * INDEX_LDT_C) a ∗ bytes (p + task_ldts + sizeof_descriptor * INDEX_LDT_D) b.
Proof.
  intros Ha. rw arr_app Ha. unfold sizeof_descriptor, INDEX_LDT_C, INDEX_LDT_D. rw (_ : p + task_ldts + 8 * 0 = p + task_ldts); [|lia]. done.
Qed.

Lemma ldts_join p (a b : list Z) : length a = 8%nat →
  bytes (p + task_ldts + sizeof_descriptor * INDEX_LDT_C) a -∗ bytes (p + task_ldts + sizeof_descriptor * INDEX_LDT_D) b -∗ bytes (p + task_ldts) (a ++ b).
Proof. iIntros (Ha) "H1 H2". rw ldts_entries; [|done]. iFrame. Qed.

Lemma raw_ldts p : raw_arr (p + task_ldts) 1 16 ⊢ ∃ a b, ⌜length a = 8%nat ∧ length b = 8%nat⌝ ∗
  bytes (p + task_ldts + sizeof_descriptor * INDEX_LDT_C) a ∗ bytes (p + task_ldts + sizeof_descriptor * INDEX_LDT_D) b.
Proof.
  iIntros "(%os & %Hos & H)". iExists (take 8 os), (drop 8 os). rw -ldts_entries; [|rw length_take; lia]. rw take_drop. iFrame. iPureIntro. rw length_take length_drop. lia.
Qed.

(** The local tables of the tasks of the kernel and of the others. *)
Definition kernel_ldt : list Z :=
  desc_bytes 0 (Z.shiftr (u32 (kb + kl)) LIMIT_4K_SHIFT) (Z.lor (Z.lor (Z.lor DA_32 DA_LIMIT_4K) DA_C) (Z.shiftl PRIVILEGE_TASK 5)) ++
  desc_bytes 0 (Z.shiftr (u32 (kb + kl)) LIMIT_4K_SHIFT) (Z.lor (Z.lor (Z.lor DA_32 DA_LIMIT_4K) DA_DRW) (Z.shiftl PRIVILEGE_TASK 5)).

Definition user_ldt : list Z :=
  <[5%nat := u8 (Z.lor DA_C (Z.shiftl PRIVILEGE_TASK 5))]> (desc_bytes cbase climit cattribute) ++
  <[5%nat := u8 (Z.lor DA_DRW (Z.shiftl PRIVILEGE_TASK 5))]> (desc_bytes base limit attribute).

(** A task that is set up. *)
Definition boot_task (p u sel pid eip esp : Z) (name ldt : list Z) : heapProp :=
  ⌜0 < p⌝ ∗ named_task p sel pid do_signal_addr name ∗ context_at p (boot_context eip esp) ∗ (p + sched_class) ↦ rr ∗ bytes (p + task_ldts) ldt ∗ u ↦ p ∗
  bytes (gdt + sizeof_descriptor * Z.shiftr sel 3) (desc_bytes (vir2phys (base_read base) (p + task_ldts)) (LDT_SIZE * sizeof_descriptor - 1) DA_LDT).

Lemma next_selector_wp sel (Q : unit → heapProp) : 0 ≤ sel → sel + 8 < 2 ^ 16 →
  selector_ldt ↦ sel -∗ (selector_ldt ↦ (sel + 8) -∗ Q tt) -∗ wp (next_selector selector_ldt) Q.
Proof.
  iIntros (H0 H1) "H HQ". unfold next_selector. wp_load. wp_store. rw (_ : u16 (sel + 8) = sel + 8); [by iApply "HQ"|]. apply Z.mod_small. lia.
Qed.

Definition the_kernel_turn : Z * Z → M (Z * Z + bool) :=
  kernel_thread_turn sched_rq current rr pidmap do_signal_addr kmem_get_tsk kmem_get_union gdt selector_ldt task_table k_base k_limit.
Definition the_user_turn : Z → M (Z + bool) :=
  user_process_turn sched_rq current rr pidmap do_signal_addr kmem_get_tsk kmem_get_union gdt selector_ldt user_proc_table.

Lemma kernel_turn_wp n sel pb i stack eip name es mv Q : 0 ≤ i < 2 → pb ≠ 255 → 0 < task_table → 0 ≤ sel → sel + 8 < 2 ^ 16 → Forall (λ e, near (i + mv) e.2) es →
  supply (S n) sel pb -∗ k_base ↦ kb -∗ k_limit ↦ kl -∗ task_entry (task_table + sizeof_TASK * i) eip name -∗ timeline (sched_rq + task_timeline) es -∗
  (sched_rq + min_vruntime) ↦ u32 mv -∗
  (∀ p u, supply n (sel + 8) (__set_bit (find_first_zero pb) pb) -∗ k_base ↦ kb -∗ k_limit ↦ kl -∗
     boot_task p u sel (u32 (find_first_zero pb)) eip stack name kernel_ldt -∗
     (if u32 (find_first_zero pb) =? INIT_PID then timeline (sched_rq + task_timeline) es ∗ se_free (p + sched_entity) i
      else queued sched_rq es (p + sched_entity) (i + mv)) -∗ (sched_rq + min_vruntime) ↦ u32 mv -∗ Q (inl (i + 1, stack - STACK_SIZE_DEFAULT))) -∗
  wp (the_kernel_turn (i, stack)) Q.
Proof.
  iIntros (Hi Hpb Htt Hs0 Hs1 Hnear) "(Hp & Hu & Hs & Hpid & Hk & Hf) Hkb Hkl He Ht Hm HQ". unfold the_kernel_turn, kernel_thread_turn.
  rw (proj2 (Z.ltb_lt _ _)); [|unfold NR_SYSTEM_PROCS; lia]. rw free_entries_S. iDestruct "Hf" as "[Hd Hf]". iApply wp_bind.
  iApply (new_task_wp with "[$He $Hp $Hu $Hs $Hpid $Hk $Hd]"); [done|unfold sizeof_TASK; lia|done|]. iIntros (p u) "%Hp0 He Hn (%c & %cl & Hc & Hcl & Hl & Hr & Hv) Hw Hp Hu Hs Hpid Hk Hd".
  wp_load. wp_load. iDestruct (raw_ldts with "Hl") as (a b) "((%Ha & %Hb) & Hl1 & Hl2)". iApply wp_bind. iApply (init_descriptor_wp with "Hl1"); [done|]. iIntros "Hl1".
  wp_load. wp_load. iApply wp_bind. iApply (init_descriptor_wp with "Hl2"); [done|]. iIntros "Hl2". iDestruct "Hc" as "(G1 & G2 & G3 & G4 & G5 & G6 & G7 & G8 & G9 & G10 & G11)".
  wp_store. iDestruct "He" as "[He Hnm]". iApply wp_bind.
  iApply (init_regs_wp p _ _ i (Context_ (c_cs c) (c_ds c) (c_es c) (c_fs c) (c_ss c) (c_gs c) (c_eip c) stack (c_eflags c) (c_ticks c) (c_priority c))
            with "He [$G1 $G2 $G3 $G4 $G5 $G6 $G7 $G8 $G9 $G10 $G11] Hcl Hr Hv"); [lia|]. cbn [c_esp]. iIntros "He Hc Hcl Hse".
  iDestruct "Hn" as "(N1 & N2 & N3 & N4 & N5)". wp_load. iApply wp_bind.
  iApply (wp_wand _ (λ _, (p + sched_class) ↦ rr ∗ (sched_rq + min_vruntime) ↦ u32 mv ∗
    if u32 (find_first_zero pb) =? INIT_PID then timeline (sched_rq + task_timeline) es ∗ se_free (p + sched_entity) i
    else queued sched_rq es (p + sched_entity) (i + mv))%I with "[Hcl Ht Hm Hse]").
  { destruct (u32 (find_first_zero pb) =? INIT_PID); [wp_pures; iFrame|]. iApply (enqueue_new_wp with "Hcl Ht Hm Hse"); [done|]. iIntros "$ $ $". }
  iIntros (_) "(Hcl & Hm & Hq)". iApply wp_bind. iApply (next_selector_wp with "Hs"); [done|done|]. iIntros "Hs". wp_pures.
  iDestruct (ldts_join with "Hl1 Hl2") as "Hl"; [done|]. fold kernel_ldt.
  iApply ("HQ" $! p u with "[$Hp $Hu $Hs $Hpid $Hk $Hf] Hkb Hkl [N1 N2 N3 N4 N5 Hc Hcl Hl Hw Hd] Hq Hm").
  iSplit; [done|]. iFrame "N1 N2 N3 N4 N5 Hc Hcl Hl Hw Hd".
Qed.

Lemma user_turn_wp n sel pb i eip name es mv Q : 0 ≤ i < 2 → pb ≠ 255 → 0 < user_proc_table → 0 ≤ sel → sel + 8 < 2 ^ 16 → Forall (λ e, near (i + mv) e.2) es →
  supply (S n) sel pb -∗ task_entry (user_proc_table + sizeof_TASK * i) eip name -∗ timeline (sched_rq + task_timeline) es -∗ (sched_rq + min_vruntime) ↦ u32 mv -∗
  (∀ p u, supply n (sel + 8) (__set_bit (find_first_zero pb) pb) -∗
     boot_task p u sel (u32 (find_first_zero pb)) eip (u32 (u + sizeof_thread_union)) name user_ldt -∗
     queued sched_rq es (p + sched_entity) (i + mv) -∗ (sched_rq + min_vruntime) ↦ u32 mv -∗ Q (inl (i + 1))) -∗
  wp (the_user_turn i) Q.
Proof.
  iIntros (Hi Hpb Htt Hs0 Hs1 Hnear) "(Hp & Hu & Hs & Hpid & Hk & Hf) He Ht Hm HQ". unfold the_user_turn, user_process_turn.
  rw (proj2 (Z.ltb_lt _ _)); [|unfold NR_USER_PROCS; lia]. rw free_entries_S. iDestruct "Hf" as "[Hd Hf]". iApply wp_bind.
  iApply (new_task_wp with "[$He $Hp $Hu $Hs $Hpid $Hk $Hd]"); [done|unfold sizeof_TASK; lia|done|]. iIntros (p u) "%Hp0 He Hn (%c & %cl & Hc & Hcl & Hl & Hr & Hv) Hw Hp Hu Hs Hpid (Hk1 & Hk2) Hd".
  iDestruct (raw_ldts with "Hl") as (a b) "((%Ha & %Hb) & Hl1 & Hl2)".
  iApply wp_bind. iApply (memcpy_wp with "Hk1 Hl1"); [done|done|]. iIntros "Hk1 Hl1". iApply wp_bind. iApply (arr_store _ _ _ 5 with "Hl1"); [done|unfold attr1; lia|]. iIntros "Hl1".
  iApply wp_bind. iApply (memcpy_wp with "Hk2 Hl2"); [done|done|]. iIntros "Hk2 Hl2". iApply wp_bind. iApply (arr_store _ _ _ 5 with "Hl2"); [done|unfold attr1; lia|]. iIntros "Hl2".
  iDestruct "Hc" as "(G1 & G2 & G3 & G4 & G5 & G6 & G7 & G8 & G9 & G10 & G11)". wp_store. iDestruct "He" as "[He Hnm]". iApply wp_bind.
  iApply (init_regs_wp p _ _ i (Context_ (c_cs c) (c_ds c) (c_es c) (c_fs c) (c_ss c) (c_gs c) (c_eip c) (u32 (u + sizeof_thread_union)) (c_eflags c) (c_ticks c) (c_priority c))
            with "He [$G1 $G2 $G3 $G4 $G5 $G6 $G7 $G8 $G9 $G10 $G11] Hcl Hr Hv"); [lia|]. cbn [c_esp]. iIntros "He Hc Hcl Hse".
  iApply wp_bind. iApply (enqueue_new_wp with "Hcl Ht Hm Hse"); [done|]. iIntros "Hcl Hq Hm". iApply wp_bind. iApply (next_selector_wp with "Hs"); [done|done|]. iIntros "Hs". wp_pures.
  iDestruct (ldts_join with "Hl1 Hl2") as "Hl"; [done|]. fold user_ldt.
  iApply ("HQ" $! p u with "[$Hp $Hu $Hs $Hpid $Hk1 $Hk2 $Hf] [Hn Hc Hcl Hl Hw Hd] Hq Hm").
  iSplit; [done|]. iFrame "Hn Hc Hcl Hl Hw Hd".
Qed.
(** ** All of them *)

Definition boot_params (ms ka : Z) : heapProp := (BOOT_PARAM_ADDR + 4 * BP_MEM_SIZE) ↦ ms ∗ (BOOT_PARAM_ADDR + 4 * BP_KERNEL_ADDR) ↦ ka.

Lemma get_kernel_map_wp ms ka o z ss b l Q : Forall section_ok ss → kb = (extent ss).1 → kl = u32 ((extent ss).2 - (extent ss).1 - 1) →
  boot_params ms ka -∗ image ka o z ss -∗ k_base ↦ b -∗ k_limit ↦ l -∗
  (boot_params ms ka -∗ image ka o z ss -∗ k_base ↦ kb -∗ k_limit ↦ kl -∗ Q 0) -∗ wp (get_kernel_map k_base k_limit) Q.
Proof.
  iIntros (Hok -> ->) "[H1 H2] Hi Hb Hl HQ". unfold get_kernel_map, get_boot_params. wp_load. wp_load. wp_pures. iApply (get_elf_map_wp with "Hi Hb Hl"); [done|].
  iApply ("HQ" with "[$H1 $H2]").
Qed.

(** The places of the two other tasks in the queue are determined by their times. *)
Lemma queued_before se v se' v' : v < v' →
  queued sched_rq [(se', v')] se v ⊢ timeline (sched_rq + task_timeline) [(se, v); (se', v')].
Proof.
  iIntros (Hv) "H". unfold queued. rw bool_decide_false; [|cbn; intros ?%list_elem_of_singleton; lia]. iDestruct "H" as (es1 es2) "[%He H]".
  destruct es1 as [|e1 es1]; [simpl in He; by subst es2|]. destruct es1; [|done]. destruct es2; [|done]. injection He as <-.
  iDestruct "H" as (t) "(_ & _ & _ & %Hs)". exfalso. apply StronglySorted_inv in Hs as [_ Hs]. apply Forall_cons in Hs as [Hs _]. unfold before_in_time in Hs. simpl in Hs. lia.
Qed.

Lemma queued_alone se v : queued sched_rq [] se v ⊢ timeline (sched_rq + task_timeline) [(se, v)].
Proof.
  iIntros "H". unfold queued. rw bool_decide_false; [|apply not_elem_of_nil]. iDestruct "H" as (es1 es2) "[%He H]". by destruct es1, es2.
Qed.

(** Before: nothing is in the run queue, and the tables have the addresses [e1] to [e4] and the names [n1] to [n4] of the tasks. *)
Definition boot_before (ms ka o z : Z) (ss : list section) (b l e1 e2 e3 e4 : Z) (n1 n2 n3 n4 : list Z) (r t c : Z) : heapProp :=
  supply 4 SELECTOR_LDT_FIRST 1 ∗ boot_params ms ka ∗ image ka o z ss ∗ k_base ↦ b ∗ k_limit ↦ l ∗
  task_entry (task_table + sizeof_TASK * 0) e1 n1 ∗ task_entry (task_table + sizeof_TASK * 1) e2 n2 ∗
  task_entry (user_proc_table + sizeof_TASK * 0) e3 n3 ∗ task_entry (user_proc_table + sizeof_TASK * 1) e4 n4 ∗
  timeline (sched_rq + task_timeline) [] ∗ (sched_rq + min_vruntime) ↦ MIN_VRUNTIME ∗ k_reenter ↦ r ∗ ticks_var ↦ t ∗ current ↦ c ∗
  ⌜Forall section_ok ss ∧ kb = (extent ss).1 ∧ kl = u32 ((extent ss).2 - (extent ss).1 - 1)⌝.

Definition boot_after (e1 e2 e3 e4 : Z) (n1 n2 n3 n4 : list Z) : heapProp :=
  ∃ p1 p2 p3 p4 u1 u2 u3 u4,
  boot_task p1 u1 0x28 1 e1 (task_stack + STACK_SIZE_TOTAL) n1 kernel_ldt ∗
  boot_task p2 u2 0x30 2 e2 (task_stack + STACK_SIZE_TOTAL - STACK_SIZE_DEFAULT) n2 kernel_ldt ∗
  boot_task p3 u3 0x38 3 e3 (u32 (u3 + sizeof_thread_union)) n3 user_ldt ∗ boot_task p4 u4 0x40 4 e4 (u32 (u4 + sizeof_thread_union)) n4 user_ldt ∗
  timeline (sched_rq + task_timeline) [(p3 + sched_entity, MIN_VRUNTIME); (p2 + sched_entity, MIN_VRUNTIME + 1)] ∗ current ↦ p3 ∗
  se_free (p1 + sched_entity) 0 ∗ se_free (p4 + sched_entity) (MIN_VRUNTIME + 1) ∗ k_reenter ↦ 0 ∗ ticks_var ↦ 0 ∗
  (sched_rq + min_vruntime) ↦ u32 MIN_VRUNTIME.

Lemma init_task_wp ms ka o z ss b l e1 e2 e3 e4 n1 n2 n3 n4 r t c : 0 < task_table → 0 < user_proc_table →
  boot_before ms ka o z ss b l e1 e2 e3 e4 n1 n2 n3 n4 r t c ⊢
    wp (init_task sched_rq current rr pidmap ticks_var do_signal_addr kmem_get_tsk kmem_get_union gdt selector_ldt task_table user_proc_table task_stack k_reenter k_base k_limit)
      (λ _, boot_after e1 e2 e3 e4 n1 n2 n3 n4).
Proof.
  intros Htt Hup. iIntros "(Hs & Hbp & Him & Hkb & Hkl & E1 & E2 & E3 & E4 & Ht & Hm & Hr & Htv & Hc & %Hok & %Hb & %Hl)".
  unfold init_task, init_kernel_thread. fold the_kernel_turn. change ((sched_rq + min_vruntime) ↦ MIN_VRUNTIME)%I with ((sched_rq + min_vruntime) ↦ u32 MIN_VRUNTIME)%I.
  iApply wp_bind. iApply wp_bind. iApply (get_kernel_map_wp with "Hbp Him Hkb Hkl"); [done|done|done|]. iIntros "Hbp Him Hkb Hkl". iApply wp_bind.
  change (Z.to_nat NR_SYSTEM_PROCS) with 2%nat. cbn [run]. iApply wp_bind. iApply (kernel_turn_wp with "Hs Hkb Hkl E1 Ht Hm"); [lia|done|done|done|done|done|].
  iIntros (p1 u1) "Hs Hkb Hkl T1 [Ht F1] Hm". iApply wp_bind. iApply (kernel_turn_wp with "Hs Hkb Hkl E2 Ht Hm"); [lia|done|done|done|done|done|].
  iIntros (p2 u2) "Hs Hkb Hkl T2 Hq Hm". iApply wp_bind. iApply wp_ret. cbn [mret M_ret]. wp_pures. wp_store. wp_store.
  iDestruct (queued_alone (p2 + sched_entity) (MIN_VRUNTIME + 1) with "Hq") as "Ht". iApply wp_bind. unfold init_user_process. fold the_user_turn.
  iApply wp_bind. iApply (get_kernel_map_wp with "Hbp Him Hkb Hkl"); [done|done|done|]. iIntros "Hbp Him Hkb Hkl". iApply wp_bind. change (Z.to_nat NR_USER_PROCS) with 2%nat. cbn [run].
  iApply wp_bind. iApply (user_turn_wp with "Hs E3 Ht Hm"); [lia|done|done|done|done|by repeat constructor|]. iIntros (p3 u3) "Hs T3 Hq Hm".
  iDestruct (queued_before (p3 + sched_entity) MIN_VRUNTIME with "Hq") as "Ht"; [unfold MIN_VRUNTIME; lia|].
  iApply wp_bind. iApply (user_turn_wp with "Hs E4 Ht Hm"); [lia|done|done|done|done|by repeat constructor|]. iIntros (p4 u4) "Hs T4 Hq Hm".
  unfold queued. rw bool_decide_true; [|apply (bool_decide_unpack _); by vm_compute]. iDestruct "Hq" as "[Ht F4]".
  iApply wp_bind. iApply wp_ret. cbn [mret M_ret]. wp_pures. wp_store. wp_store. iApply wp_bind. iApply (ts_leftmost_wp with "Ht"). iIntros "Ht". cbn [fmap list_fmap head default fst].
  wp_store. rw (_ : p3 + sched_entity - sched_entity = p3); [|lia]. iExists p1, p2, p3, p4, u1, u2, u3, u4.
  iSplitL "T1"; [iExact "T1"|]. iSplitL "T2"; [iExact "T2"|]. iSplitL "T3"; [iExact "T3"|]. iSplitL "T4"; [iExact "T4"|]. iFrame "Ht Hc F1 F4 Hr Htv Hm".
Qed.

(** C29: After [init_task] the first four tasks have the numbers 1 to 4, their names, registers and entries in the global table; the task that runs first is
    the first one of the table of user tasks, and the second task of the kernel follows it.  The task [init] is in no run queue, and neither is the last task: it has the virtual
    time of the second one, and [ts_insert] refuses it. *)
Theorem init_task_correct ms ka o z ss b l e1 e2 e3 e4 n1 n2 n3 n4 r t c : 0 < task_table → 0 < user_proc_table →
  {{ boot_before ms ka o z ss b l e1 e2 e3 e4 n1 n2 n3 n4 r t c }}
    init_task sched_rq current rr pidmap ticks_var do_signal_addr kmem_get_tsk kmem_get_union gdt selector_ldt task_table user_proc_table task_stack k_reenter k_base k_limit
  {{ _, boot_after e1 e2 e3 e4 n1 n2 n3 n4 }}.
Proof. intros Htt Hup. apply triple_wp. by apply init_task_wp. Qed.
End boot.

(** An image of one section, and tasks with one letter as a name. *)
Lemma init_task_correct_witness :
  let tc := task_caches 8 16 in let ss := [Section_ 2 0x30400 0x9000] in
  0 < 0x2000 ∧ 0 < 0x3000 ∧
  triple (boot_before 0x100 0x200 0x400 0x500 0x700 0x800 0x2000 0x3000 0x5000 0x5004 0x5008 (TaskCaches0 := tc) 0 0xFFFFF 0xC092 0 0xFFFFF 0xC09A
            (extent ss).1 (u32 ((extent ss).2 - (extent ss).1 - 1)) 0x2000000 0x70000 0x100 40 ss 0 0 1 2 3 4 [105] [116] [65] [68] 0 0 0)
    (init_task 0x100 0x200 0x300 0x400 0x500 0x600 (bump 8 680) (bump 16 sizeof_thread_union) 0x700 0x800 0x2000 0x3000 0x4000 0x5000 0x5004 0x5008)
    (λ _, boot_after 0x100 0x200 0x300 0x500 0x600 0x700 0x4000 0x5000 0 0xFFFFF 0xC092 0 0xFFFFF 0xC09A
            (extent ss).1 (u32 ((extent ss).2 - (extent ss).1 - 1)) 1 2 3 4 [105] [116] [65] [68]).
Proof.
  intros tc ss. split; [done|]. split; [done|].
  refine (init_task_correct 0x100 0x200 0x300 0x400 0x500 0x600 0x700 0x800 0x2000 0x3000 0x4000 0x5000 0x5004 0x5008 (TaskCaches0 := tc) 0 0xFFFFF 0xC092 0 0xFFFFF 0xC09A
            _ _ 0x2000000 0x70000 0x100 40 ss 0 0 1 2 3 4 [105] [116] [65] [68] 0 0 0 _ _); done.
Defined.

(** ** The start of the kernel, then the clock

    The two tasks of the run queue alternate for ever, and the other two never run. *)

Section boot.
Context (sched_rq current rr pidmap ticks_var do_signal_addr gdt selector_ldt task_table user_proc_table task_stack k_reenter k_base k_limit jiffies : Z).
Context {kmem_get_tsk kmem_get_union : M Z} `{!TaskCaches kmem_get_tsk kmem_get_union}.
Context (base limit attribute cbase climit cattribute kb kl : Z).

Local Abbreviation boot := (init_task sched_rq current rr pidmap ticks_var do_signal_addr kmem_get_tsk kmem_get_union gdt selector_ldt task_table user_proc_table task_stack k_reenter k_base k_limit).
Local Abbreviation before_boot := (boot_before sched_rq current pidmap ticks_var gdt selector_ldt task_table user_proc_table k_reenter k_base k_limit
  base limit attribute cbase climit cattribute kb kl).

(** A new task can run; what remains is where it starts and its number. *)
Lemma boot_task_ready p u sel pid eip esp name ldt v :
  boot_task rr do_signal_addr gdt base p u sel pid eip esp name ldt ⊢ ready rr (p, v) ∗ (p + r_eip) ↦ eip ∗ (p + p_pid) ↦ pid.
Proof.
  iIntros "(%Hp & (_ & Hs & _ & Hpid & _) & Hc & Hcl & _)". unfold context_at. cbn [boot_context c_eip c_ticks].
  iDestruct "Hc" as "(_ & _ & _ & _ & _ & _ & Heip & _ & _ & Ht & _)". unfold ready. iFrame. iPureIntro. simpl. lia.
Qed.

(** C4: From the start of the kernel on, under ticks of the clock that all interrupt a task outside the kernel ([k_reenter] is 0) and with no code of the tasks in between, the first
    task of the user (number 3) and the second task of the kernel (number 2) have the processor in turn, four ticks each, for any number of ticks; the tasks with the numbers 1
    and 4 are in no run queue. *)
Theorem boot_alternates k ms ka o z ss b l e1 e2 e3 e4 n1 n2 n3 n4 r t c : 0 < task_table → 0 < user_proc_table →
  {{ before_boot ms ka o z ss b l e1 e2 e3 e4 n1 n2 n3 n4 r t c ∗ jiffies ↦ 0 }}
    (boot;; run_ticks sched_rq current rr jiffies ticks_var k_reenter (4 * k))
  {{ _, ∃ p1 p2 p3 p4 ts, ⌜ts.*1 = if Nat.even k then [p3; p2] else [p2; p3]⌝ ∗ cpus sched_rq current rr ts ∗ clock jiffies ticks_var k_reenter (NR_PROCESS * k) ∗
        ((p3 + r_eip) ↦ e3 ∗ (p3 + p_pid) ↦ 3) ∗ ((p2 + r_eip) ↦ e2 ∗ (p2 + p_pid) ↦ 2) ∗
        ((p1 + p_pid) ↦ 1 ∗ se_free (p1 + sched_entity) 0) ∗ ((p4 + p_pid) ↦ 4 ∗ se_free (p4 + sched_entity) (MIN_VRUNTIME + 1)) }}.
Proof.
  intros Htt Hup. apply triple_wp. iIntros "[H Hj]". iApply wp_bind. iApply (wp_wand with "[H]"); [by iApply init_task_wp|].
  iIntros (_) "(%p1 & %p2 & %p3 & %p4 & %u1 & %u2 & %u3 & %u4 & T1 & T2 & T3 & T4 & Ht & Hc & F1 & F4 & Hr & Htv & Hm)".
  iDestruct (boot_task_ready _ _ _ _ _ _ _ _ 0 with "T1") as "(_ & _ & I1)". iDestruct (boot_task_ready _ _ _ _ _ _ _ _ (MIN_VRUNTIME + 1) with "T2") as "(R2 & I2)".
  iDestruct (boot_task_ready _ _ _ _ _ _ _ _ MIN_VRUNTIME with "T3") as "(R3 & I3)". iDestruct (boot_task_ready _ _ _ _ _ _ _ _ 0 with "T4") as "(_ & _ & I4)".
  set (ts := [(p3, MIN_VRUNTIME); (p2, MIN_VRUNTIME + 1)]).
  assert (spread ts) as Hs by (split; [by repeat constructor|constructor]).
  iDestruct (timeline_open _ [] with "Ht") as "[Hv Ht]".
  iApply (slices_wp _ _ _ _ _ _ k ts 0 with "[Ht Hv Hc Hm R2 R3] [Hj Htv Hr]"); [done|done| | |].
  - unfold ts, cpus, cpu. iFrame "Hc Ht Hm R3 R2". iSplitL; [iExact "Hv"|done].
  - unfold clock. change (s32 0) with 0. iFrame.
  - iIntros "Hc Hn". iExists p1, p2, p3, p4, (Nat.iter k slice ts). iFrame "Hc Hn I1 I2 I3 I4 F1 F4". iPureIntro. rw slices_turn; [|done].
    change (ts.*1) with [p3; p2]. clear. induction k as [|k IH]; [done|]. rw Nat.iter_succ IH Nat.even_succ -Nat.negb_even. by destruct (Nat.even k).
Qed.
End boot.

Lemma boot_alternates_witness :
  let tc := task_caches 8 16 in let ss := [Section_ 2 0x30400 0x9000] in
  0 < 0x2000 ∧ 0 < 0x3000 ∧
  triple (boot_before 0x100 0x200 0x400 0x500 0x700 0x800 0x2000 0x3000 0x5000 0x5004 0x5008 (TaskCaches0 := tc) 0 0xFFFFF 0xC092 0 0xFFFFF 0xC09A
            (extent ss).1 (u32 ((extent ss).2 - (extent ss).1 - 1)) 0x2000000 0x70000 0x100 40 ss 0 0 1 2 3 4 [105] [116] [65] [68] 0 0 0 ∗ 0x600C ↦ 0)
    (init_task 0x100 0x200 0x300 0x400 0x500 0x600 (bump 8 680) (bump 16 sizeof_thread_union) 0x700 0x800 0x2000 0x3000 0x4000 0x5000 0x5004 0x5008;;
     run_ticks 0x100 0x200 0x300 0x600C 0x500 0x5000 12)
    (λ _, ∃ p1 p2 p3 p4 ts, ⌜ts.*1 = [p2; p3]⌝ ∗ cpus 0x100 0x200 0x300 ts ∗ clock 0x600C 0x500 0x5000 12 ∗
        ((p3 + r_eip) ↦ 3 ∗ (p3 + p_pid) ↦ 3) ∗ ((p2 + r_eip) ↦ 2 ∗ (p2 + p_pid) ↦ 2) ∗
        ((p1 + p_pid) ↦ 1 ∗ se_free (p1 + sched_entity) 0) ∗ ((p4 + p_pid) ↦ 4 ∗ se_free (p4 + sched_entity) (MIN_VRUNTIME + 1)))%I.
Proof.
  intros tc ss. split; [done|]. split; [done|].
  refine (boot_alternates 0x100 0x200 0x300 0x400 0x500 0x600 0x700 0x800 0x2000 0x3000 0x4000 0x5000 0x5004 0x5008 0x600C (TaskCaches0 := tc) 0 0xFFFFF 0xC092 0 0xFFFFF 0xC09A
            _ _ 3 0x2000000 0x70000 0x100 40 ss 0 0 1 2 3 4 [105] [116] [65] [68] 0 0 0 _ _); done.
Defined.
