(* ===== verification/Programs.v ===== *)
(** * The programs of the first tasks: kernel/proc.c

    Messages are not modelled; where a message needs a member of a structure, the member is read.  The programs do not end: the number of rounds of
    their last loops is a parameter.  [get_ticks] is the system call, [polls] bounds the waiting of [milli_delay]. *)

From S2P Require Export Proc SchedRun.

Section programs.
Context (getblk : Z → Z → M Z) (hd_rw : Z → Z → Z → Z → M Z) (brelse : Z → M unit) (super_block : Z).
Context (kmem_get_inode kmem_get_file : M Z) (nr_inodes_count nr_file_count root_inode pfs general_fop current : Z).
Context (lk_de dn_inode on_name on_namelen on_dir on_de op_inode : Z).
Context (get_ticks : M Z) (polls : nat).

Local Abbreviation open := (open getblk hd_rw brelse super_block kmem_get_inode kmem_get_file nr_inodes_count nr_file_count root_inode pfs general_fop current
  lk_de dn_inode on_name on_namelen on_dir on_de op_inode).
Local Abbreviation close := (close getblk hd_rw brelse super_block root_inode current).
Local Abbreviation sys_write := (sys_write getblk hd_rw brelse super_block current).
Local Abbreviation sys_read := (sys_read getblk hd_rw brelse current).
Local Abbreviation delay := (milli_delay get_ticks polls).

(** [while(1) { printk("..", getpid()); milli_delay(ms); }] *)
Fixpoint print_rounds (rounds : nat) (ms : Z) : M unit :=
  match rounds with
  | O => mret tt
  | S rounds => getpid current;; delay ms;; print_rounds rounds ms
  end.

Definition init_p (rounds : nat) : M unit := print_rounds rounds 100.
Definition TestB (rounds : nat) : M unit := print_rounds rounds 100.
Definition TestC (rounds : nat) : M unit := print_rounds rounds 100.
Definition TestD (rounds : nat) : M unit := print_rounds rounds 100.
Definition ChildProc (rounds : nat) : M unit := print_rounds rounds 10.

(** The loop at the end of [TestA], which does not ask for the number of the task. *)
Fixpoint wait_rounds (rounds : nat) (ms : Z) : M unit :=
  match rounds with
  | O => mret tt
  | S rounds => delay ms;; wait_rounds rounds ms
  end.

(** [current->filp[fd]->f_inode] with its number. *)
Definition opened_inode (fd : Z) : M Z :=
  cur ← load current; fp ← load (cur + filp fd); inode ← load (fp + f_inode);
  _ ← load (inode + i_num);
  mret inode.

(** [root], [dir] and [file] are the addresses of the names ["/"], ["/sunkang"] and ["/sunkang/kamus"], [buf] and [abc] those of the local arrays of 15 bytes;
    [fd0] and [i0] are what the variables of [open] and [general_file_read] hold before they are set. *)
Definition TestA (rounds : nat) (fd0 i0 root dir file buf abc : Z) : M unit :=
  fd ← open fd0 root 0 0;
  close fd;;
  fd ← open fd0 dir 0 O_CREAT;
  (if fd <? 0 then mret tt else opened_inode fd;; close fd;; mret tt);;
  fd ← open fd0 file I_REGULAR O_CREAT;
  (if fd <? 0 then mret tt else inode ← opened_inode fd; _ ← load (inode + i_mode); mret tt);;
  sys_write fd buf 15;;
  close fd;;
  fd ← open fd0 file I_REGULAR 0;
  memset abc 0 15;;
  sys_read i0 fd abc 15;;
  close fd;;
  wait_rounds rounds 100.
End programs.

(** ** Waiting

    The clock interrupts the waiting task while it asks for the time: system calls run with interrupts open.  [irqs k] is the number of interrupts that arrive before the
    [k]-th call reads the counter, any sequence of numbers, [poll] counts the calls. *)

Section delay.
Context (sched_rq current rr_sched_addr jiffies ticks_var k_reenter poll : Z) (irqs : nat → nat).

Definition interrupted_get_ticks : M Z :=
  k ← load poll;
  store poll (k + 1);;
  run_ticks sched_rq current rr_sched_addr jiffies ticks_var k_reenter (irqs (Z.to_nat k));;
  sys_get_ticks ticks_var.

(** The interrupts before the call [k]. *)
Fixpoint irqs_before (k : nat) : nat :=
  match k with O => 0 | S k => irqs_before k + irqs k end.

(** The milliseconds between what the calls [k0] and [k] return. *)
Definition waited (k0 k : nat) : Z := 10 * (irqs_before (S k) - irqs_before (S k0)).

(** What is assumed of the timer chip: among [g] calls in a row one is interrupted, and none by more than [step] ticks. *)
Definition clock_runs (g step : nat) : Prop := ∀ k, (irqs k ≤ step)%nat ∧ ∃ i, (i < g)%nat ∧ (0 < irqs (k + i))%nat.

(** The counters and the task that waits, inside a system call. *)
Definition in_syscall (n : Z) : heapProp :=
  (∃ j, jiffies ↦ j) ∗ ticks_var ↦ s32 n ∗ (∃ r, k_reenter ↦ r ∗ ⌜r ≠ 0⌝) ∗
  ∃ cur, current ↦ cur ∗ (∃ c, (cur + ticks) ↦ c) ∗ ∃ v, (cur + sched_entity + vruntime) ↦ v.

Lemma nested_ticks_wp (m : nat) n (Q : unit → heapProp) :
  in_syscall n -∗ (in_syscall (n + m) -∗ Q tt) -∗ wp (run_ticks sched_rq current rr_sched_addr jiffies ticks_var k_reenter m) Q.
Proof.
  revert n. induction m as [|m IH]; intros n; iIntros "H HQ"; cbn [run_ticks].
  - iApply wp_ret. rw (_ : n + 0%nat = n); [|lia]. by iApply "HQ".
  - iDestruct "H" as "((%j & Hj) & Ht & (%r & Hr & %Hr0) & %cur & Hc & (%c & Hct) & %v & Hv)". iApply wp_bind. unfold clock_handler.
    wp_load. wp_store. wp_load. wp_store. wp_load. wp_load. wp_store. wp_load. wp_load. wp_store. wp_load. rw (eqb_false r); [|done]. wp_pures. rw s32_succ.
    iApply (IH (n + 1) with "[-HQ]"); [by iFrame|]. rw (_ : n + 1 + m = n + S m); [|lia]. done.
Qed.

Lemma interrupted_get_ticks_wp n (k : nat) (Q : Z → heapProp) :
  in_syscall (n + irqs_before k) -∗ poll ↦ k -∗ (in_syscall (n + irqs_before (S k)) -∗ poll ↦ S k -∗ Q (s32 (n + irqs_before (S k)))) -∗ wp interrupted_get_ticks Q.
Proof.
  iIntros "H Hp HQ". unfold interrupted_get_ticks. wp_load. wp_store. rw Nat2Z.id. iApply wp_bind. iApply (nested_ticks_wp with "H").
  rw (_ : n + irqs_before k + irqs k = n + irqs_before (S k)); [|simpl; lia]. iIntros "(Hj & Ht & H)". unfold sys_get_ticks. wp_load.
  rw (_ : k + 1 = S k); [|lia]. iApply ("HQ" with "[Hj Ht H] Hp"). iFrame.
Qed.

Lemma irqs_before_mono d k : (irqs_before k ≤ irqs_before (k + d))%nat.
Proof. induction d as [|d IH]; [by rw Nat.add_0_r|]. rw Nat.add_succ_r. simpl. lia. Qed.

Lemma irqs_before_fair g step k m : clock_runs g step → (irqs_before k + m ≤ irqs_before (k + g * m))%nat.
Proof.
  intros Hr. induction m as [|m IH]; [rw Nat.mul_0_r !Nat.add_0_r; lia|]. destruct (Hr (k + g * m)%nat) as [_ (i & Hi & Hpos)].
  pose proof (irqs_before_mono i (k + g * m)%nat). pose proof (irqs_before_mono (g - S i)%nat (S (k + g * m + i))) as Hend.
  rw (_ : (S (k + g * m + i) + (g - S i) = k + g * S m)%nat) in Hend; [|lia]. simpl in Hend. lia.
Qed.

(** When every call before [c] came too early, the call [c] is at most [step] ticks late. *)
Lemma waited_bound g step k0 c ms : clock_runs g step → (k0 < c)%nat → 0 ≤ ms → (∀ i, (k0 < i < c)%nat → waited k0 i < ms) → 0 ≤ waited k0 c ≤ ms + 10 * step.
Proof.
  intros Hr Hc Hms Hs. destruct (Hr c) as [Hc1 _]. pose proof (irqs_before_mono (c - k0) (S k0)) as Hmono. rw (_ : (S k0 + (c - k0) = S c)%nat) in Hmono; [|lia].
  destruct (decide (c = S k0)) as [->|Hne]; [unfold waited; simpl in *; lia|].
  pose proof (Hs (c - 1)%nat ltac:(lia)) as Hlast. unfold waited in *. rw (_ : S (c - 1) = c) in Hlast; [|lia]. simpl in *. lia.
Qed.

End delay.

(** An interrupt at every third call: a delay of 100 milliseconds ends with the thirtieth call. *)
Definition every_third (k : nat) : nat := if (k mod 3 =? 2)%nat then 1%nat else 0%nat.

Lemma every_third_runs : clock_runs every_third 3 1.
Proof.
  intros k. unfold every_third. split; [destruct (k mod 3 =? 2)%nat; lia|]. exists (2 - k mod 3)%nat. pose proof (Nat.mod_upper_bound k 3 ltac:(lia)).
  split; [lia|]. rw (_ : ((k + (2 - k mod 3)) mod 3 = 2)%nat); [simpl; lia|]. pose proof (Nat.div_mod_eq k 3).
  rw (_ : (k + (2 - k mod 3) = 2 + k / 3 * 3)%nat); [|lia]. by rw Nat.Div0.mod_add.
Qed.

