(* ===== verification/Mkfs.v ===== *)
(** * The super block and the making of the file system: fs/super.c, fs/fs.c

    A sector is an array of bytes; the super blocks in memory have their members as cells.  [sb] is the address of the local
    super block of [mk_fs], whose bytes are copied to the sector: it is an array of bytes, those of the members that are
    not set included. *)

From S2P Require Export Namei Console.

Definition MAGIC_FS : Z := 0x0001.
Definition NR_INODES : Z := BITS_SECTOR.
Definition NR_ZONES : Z := BITS_SECTOR.
Definition INODE_SECTS : Z := Z.quot (NR_INODE_MAP_SECTS * BITS_SECTOR) (Z.quot SECTOR_SIZE INODE_SIZE).
Definition ROOT_INODE : Z := 1.
(** The member [root_inode] of a super block. *)
Definition s_root_inode : Z := 20.

(** Members of 16 bits, from the pointers on. *)
Fixpoint halves_from_disk (src dst : Z) (k : nat) : M unit :=
  match k with
  | O => mret tt
  | S k => v ← load16 src; store dst v;; halves_from_disk (src + 2) (dst + 2) k
  end.

(** [memcpy] of a super block in a sector to one in memory, member by member. *)
Definition super_from_disk (sbp p : Z) : M unit :=
  halves_from_disk (p + s_magic) (sbp + s_magic) 7;;
  v ← load32 (p + file_max_size); store (sbp + file_max_size) v;;
  inode_from_disk (sbp + s_root_inode) (p + s_root_inode);;
  halves_from_disk (p + s_root_inode + i_dev) (sbp + s_root_inode + i_dev) 5;;
  data_from_disk (p + s_root_inode + i_mmap) (sbp + s_root_inode + i_mmap) 5;;
  data_from_disk (p + s_inodes) (sbp + s_inodes) 8.

Section mkfs.
Context (getblk : Z → Z → M Z) (hd_rw : Z → Z → Z → Z → M Z) (brelse : Z → M unit) (super_block : Z).

(** ** fs/super.c *)

(** The search for a free super block; [NR_SUPER] when there is none. *)
Definition free_super : M Z :=
  run (S (Z.to_nat NR_SUPER)) (λ i,
    if i <? NR_SUPER then
      d ← load (super_block + sizeof_super_block * i + s_dev);
      if d =? NO_DEV then mret (inr i) else mret (inl (i + 1))
    else mret (inr i)) 0.

Definition read_super_block (dev : Z) : M unit :=
  i ← free_super;
  bh ← getblk ROOT_DEV 1;
  hd_rw ROOT_DEV 1 ATA_READ bh;;
  sb ← load (bh + b_data);
  let s := super_block + sizeof_super_block * i in
  super_from_disk s sb;;
  INIT_LIST_HEAD (s + s_inodes);;
  INIT_LIST_HEAD (s + s_dirty);;
  INIT_LIST_HEAD (s + s_io);;
  INIT_LIST_HEAD (s + s_files);;
  brelse bh.

(** ** fs/fs.c *)

(** The members of the local super block. *)
Definition fill_super (sb : Z) : M unit :=
  store16 (sb + s_dev) ROOT_DEV;;
  store16 (sb + s_magic) MAGIC_FS;;
  store16 (sb + s_ninodes) NR_INODES;;
  store16 (sb + s_nzones) NR_ZONES;;
  store16 (sb + s_nimap_sects) NR_INODE_MAP_SECTS;;
  store16 (sb + s_nzmap_sects) NR_ZONE_MAP_SECTS;;
  n ← load16 (sb + s_nimap_sects);
  store16 (sb + s_ninodes) (n * BITS_SECTOR);;
  n ← load16 (sb + s_nzmap_sects);
  store16 (sb + s_nzones) (n * BITS_SECTOR);;
  store16 (sb + s_firstzone) (1 + NR_INODE_MAP_SECTS + NR_ZONE_MAP_SECTS + INODE_SECTS + 1);;
  store32 (sb + file_max_size) (SECTOR_SIZE * 2).

(** [memset(bh->b_data,0,SECTOR_SIZE)] *)
Definition clear_buffer (bh : Z) : M unit := d ← load (bh + b_data); memset d 0 SECTOR_SIZE;; mret tt.

(** The super block on the disk. *)
Definition mk_super (sb : Z) : M unit :=
  bh ← getblk ROOT_DEV 1;
  clear_buffer bh;;
  d ← load (bh + b_data);
  memcpy d sb (Z.to_nat sizeof_super_block);;
  hd_rw ROOT_DEV 1 ATA_WRITE bh;;
  brelse bh.

(** The sectors of the map of inodes: inodes 0 (reserved), 1 (the root) and three more are taken. *)
Definition mk_imap (sb : Z) : M unit :=
  bh ← getblk ROOT_DEV (1 + NR_SUPER_BLOCK_SECTS);
  clear_buffer bh;;
  run (S (Z.to_nat (NR_CONSOLES + 2))) (λ i,
    if i <? NR_CONSOLES + 2 then
      d ← load (bh + b_data);
      c ← load d;
      store d (u8 (Z.lor c (Z.shiftl 1 i)));;
      mret (inl (i + 1))
    else mret (inr tt)) 0;;
  d ← load (bh + b_data);
  c ← load d;
  (if negb (c =? 0x1f) then panic else mret tt);;
  hd_rw ROOT_DEV (1 + NR_SUPER_BLOCK_SECTS) ATA_WRITE bh;;
  clear_buffer bh;;
  n ← load16 (sb + s_nimap_sects);
  run (S (Z.to_nat n)) (λ i,
    n ← load16 (sb + s_nimap_sects);
    if i <? n then
      hd_rw ROOT_DEV (1 + NR_SUPER_BLOCK_SECTS + i) ATA_WRITE bh;;
      mret (inl (i + 1))
    else mret (inr tt)) 1;;
  brelse bh.

(** The sectors of the map of zones.  The buffer is not cleared before its first byte is set and it is written. *)
Definition mk_zmap : M unit :=
  bh ← getblk ROOT_DEV (1 + NR_SUPER_BLOCK_SECTS + NR_INODE_MAP_SECTS);
  d ← load (bh + b_data);
  store d 0x01;;
  hd_rw ROOT_DEV (1 + NR_SUPER_BLOCK_SECTS + NR_INODE_MAP_SECTS) ATA_WRITE bh;;
  clear_buffer bh;;
  run (S (Z.to_nat NR_INODE_MAP_SECTS)) (λ i,
    if i <? NR_INODE_MAP_SECTS then
      hd_rw ROOT_DEV (1 + NR_SUPER_BLOCK_SECTS + NR_INODE_MAP_SECTS + i) ATA_WRITE bh;;
      mret (inl (i + 1))
    else mret (inr tt)) 1;;
  brelse bh.

(** The inode of the root.  Its blocks are entered in the sector: [i_data] is an array of bytes. *)
Definition mk_root_inode : M unit :=
  let blk := 1 + NR_SUPER_BLOCK_SECTS + NR_INODE_MAP_SECTS + NR_ZONE_MAP_SECTS in
  bh ← getblk ROOT_DEV blk;
  clear_buffer bh;;
  dinode ← load (bh + b_data);
  store16 (dinode + i_mode) I_DIRECTORY;;
  store16 (dinode + i_size) DENTRY_SIZE;;
  set_block_nums getblk hd_rw brelse super_block load32 store32 ROOT_DEV dinode NR_DEFAULT_SECTS;;
  hd_rw ROOT_DEV blk ATA_WRITE bh;;
  brelse bh.

(** The first entry of the root directory; [dot] is the address of its name. *)
Definition mk_root_dir (dot sb : Z) : M unit :=
  z ← load16 (sb + s_firstzone);
  bh ← getblk ROOT_DEV z;
  clear_buffer bh;;
  de ← load (bh + b_data);
  store16 (de + inode_num) 1;;
  strcpy (de + file_name) dot;;
  z ← load16 (sb + s_firstzone);
  hd_rw ROOT_DEV z ATA_WRITE bh;;
  brelse bh.

Definition mk_fs (dot sb : Z) : M unit :=
  fill_super sb;;
  mk_super sb;;
  read_super_block ROOT_DEV;;
  mk_imap sb;;
  mk_zmap;;
  mk_root_inode;;
  mk_root_dir dot sb.

Context (kmem_get_inode : M Z) (nr_inodes_count root_inode pfs : Z).

(** The first part of [init_fs]: the super block of the root device. *)
Definition mount_root : M Z :=
  run (S (Z.to_nat NR_SUPER)) (λ i,
    if i <? NR_SUPER then
      store (super_block + sizeof_super_block * i + s_dev) NO_DEV;;
      mret (inl (i + 1))
    else mret (inr tt)) 0;;
  read_super_block ROOT_DEV;;
  get_super_block super_block ROOT_DEV.

Definition init_fs (dot sb : Z) : M Z :=
  s ← mount_root;
  m ← load (s + s_magic);
  (if negb (m =? MAGIC_FS) then mk_fs dot sb else mret tt);;
  inode ← iget getblk hd_rw brelse super_block kmem_get_inode nr_inodes_count pfs ROOT_DEV ROOT_INODE;
  store root_inode inode;;
  mret 0.
End mkfs.
