(* ===== verification/MkfsSpec.v ===== *)
(** * The super block on disk and in memory *)

From S2P Require Export Mkfs InodeSpec CStringSpec.

(** ** The members of a super block *)

(** The seven members of 16 bits, the greatest size of a file, the root inode (what is on disk of it, five members of 16 bits and five of 32), and
    the eight pointers of the lists. *)
Record super := Super {
  su_halves : list Z; su_max : Z; su_root_h : list Z; su_root_w : list Z; su_root_m : list Z; su_root_p : list Z; su_lists : list Z }.

Definition halves_ok (n : nat) (vs : list Z) : Prop := length vs = n ∧ Forall (λ v, 0 ≤ v < 2 ^ 16) vs.
Definition words_ok (n : nat) (vs : list Z) : Prop := length vs = n ∧ Forall (λ v, 0 ≤ v < 2 ^ 32) vs.

Definition super_ok (su : super) : Prop :=
  halves_ok 7 (su_halves su) ∧ 0 ≤ su_max su < 2 ^ 32 ∧ halves_ok 4 (su_root_h su) ∧ words_ok 14 (su_root_w su) ∧
  halves_ok 5 (su_root_m su) ∧ words_ok 5 (su_root_p su) ∧ words_ok 8 (su_lists su).

(** The bytes, with those between the members. *)
Definition super_image (su : super) (pad pad' : list Z) : list Z :=
  (su_halves su ≫= le16) ++ pad ++ le32 (su_max su) ++ inode_bytes (su_root_h su) (su_root_w su) ++ (su_root_m su ≫= le16) ++ pad' ++
  (su_root_p su ≫= le32) ++ (su_lists su ≫= le32).

Lemma super_image_members p su pad pad' : super_ok su → length pad = 2%nat → length pad' = 2%nat →
  bytes p (super_image su pad pad') ⊣⊢ bytes (p + s_magic) (su_halves su ≫= le16) ∗ bytes (p + 14) pad ∗ bytes (p + file_max_size) (le32 (su_max su)) ∗
    bytes (p + s_root_inode) (inode_bytes (su_root_h su) (su_root_w su)) ∗ bytes (p + s_root_inode + i_dev) (su_root_m su ≫= le16) ∗ bytes (p + 94) pad' ∗
    bytes (p + s_root_inode + i_mmap) (su_root_p su ≫= le32) ∗ bytes (p + s_inodes) (su_lists su ≫= le32).
Proof.
  intros ([H1 _] & _ & [H3 _] & [H4 _] & [H5 _] & [H6 _] & [H7 _]) Hp Hp'. unfold super_image.
  rw !arr_app length_inode_bytes // !length_le16s !length_le32s H1 H5 H6 Hp Hp'. change (length (le32 (su_max su))) with 4%nat.
  unfold s_magic, file_max_size, s_root_inode, i_dev, i_mmap, s_inodes.
  rw (_ : p + 0 = p); [|lia]. rw (_ : p + 1 * (2 * 7)%nat = p + 14); [|lia]. rw (_ : p + 14 + 1 * 2%nat = p + 16); [|lia].
  rw (_ : p + 16 + 1 * 4%nat = p + 20); [|lia]. rw (_ : p + 20 + 1 * 64%nat = p + 20 + 64); [|lia]. rw (_ : p + 20 + 64 + 1 * (2 * 5)%nat = p + 94); [|lia].
  rw (_ : p + 94 + 1 * 2%nat = p + 20 + 76); [|lia]. by rw (_ : p + 20 + 76 + 1 * (4 * 5)%nat = p + 116); [|lia].
Qed.

(** A super block in memory. *)
Definition super_cells (s : Z) (su : super) : heapProp :=
  arr (s + s_magic) 2 (su_halves su) ∗ (s + file_max_size) ↦ su_max su ∗ dinode (s + s_root_inode) (su_root_h su) (su_root_w su) ∗
  arr (s + s_root_inode + i_dev) 2 (su_root_m su) ∗ arr (s + s_root_inode + i_mmap) 4 (su_root_p su) ∗ arr (s + s_inodes) 4 (su_lists su).

Lemma halves_from_disk_wp n vs src dst old (Q : unit → heapProp) : halves_ok n vs → length old = n →
  bytes src (vs ≫= le16) -∗ arr dst 2 old -∗ (bytes src (vs ≫= le16) -∗ arr dst 2 vs -∗ Q tt) -∗ wp (halves_from_disk src dst n) Q.
Proof.
  intros [<- Hvs]. revert src dst old. induction Hvs as [|v vs Hv Hvs IH]; intros src dst [|o old] Hl; try done; iIntros "Hs Hd HQ"; cbn [halves_from_disk length].
  - wp_pures. iApply ("HQ" with "Hs Hd").
  - iEval (rw bind_cons arr_app) in "Hs". iDestruct "Hs" as "[Hv Hs]". iEval (rw arr_cons) in "Hd". iDestruct "Hd" as "[Ho Hd]".
    iApply wp_bind. iApply (load16_wp with "Hv"); [done|]. iIntros "Hv". wp_store. change (1 * length (le16 v)) with 2.
    iApply (IH with "Hs Hd"); [by injection Hl|]. iIntros "Hs Hd". iApply ("HQ" with "[Hv Hs]"); [rw bind_cons arr_app; iFrame|]. rw arr_cons. iFrame.
Qed.

Lemma words_from_disk_wp n vs src dst old (Q : unit → heapProp) : words_ok n vs → length old = n →
  bytes src (vs ≫= le32) -∗ arr dst 4 old -∗ (bytes src (vs ≫= le32) -∗ arr dst 4 vs -∗ Q tt) -∗ wp (data_from_disk src dst n) Q.
Proof. intros [<- Hvs] Hl. by apply data_from_disk_wp. Qed.

Lemma super_from_disk_wp s p su su0 pad pad' (Q : unit → heapProp) : super_ok su → super_ok su0 → length pad = 2%nat → length pad' = 2%nat →
  super_cells s su0 -∗ bytes p (super_image su pad pad') -∗ (super_cells s su -∗ bytes p (super_image su pad pad') -∗ Q tt) -∗ wp (super_from_disk s p) Q.
Proof.
  intros Hok Hok0 Hp Hp'. rw super_image_members; [|done..]. destruct Hok as (H1 & H2 & H3 & H4 & H5 & H6 & H7).
  destruct Hok0 as ([G1 _] & _ & _ & _ & [G5 _] & [G6 _] & [G7 _]). iIntros "(S1 & S2 & S3 & S4 & S5 & S6) (B1 & P1 & B2 & B3 & B4 & P2 & B5 & B6) HQ".
  unfold super_from_disk. iApply wp_bind. iApply (halves_from_disk_wp with "B1 S1"); [done|done|]. iIntros "B1 S1".
  iApply wp_bind. iApply (load32_wp with "B2"); [done|]. iIntros "B2". wp_store.
  iApply wp_bind. iApply (inode_from_disk_wp with "S3 B3"); [split; [apply H3|apply H4]|apply H3|apply H4|]. iIntros "S3 B3".
  iApply wp_bind. iApply (halves_from_disk_wp with "B4 S4"); [done|done|]. iIntros "B4 S4".
  iApply wp_bind. iApply (words_from_disk_wp with "B5 S5"); [done|done|]. iIntros "B5 S5".
  iApply (words_from_disk_wp with "B6 S6"); [done|done|]. iIntros "B6 S6". iApply ("HQ" with "[$S1 $S2 $S3 $S4 $S5 $S6] [$B1 $P1 $B2 $B3 $B4 $P2 $B5 $B6]").
Qed.

(** The device of a super block. *)
Definition su_dev (su : super) : Z := nth 6 (su_halves su) 0.

(** A super block that is in use: its lists are empty rings. *)
Definition super_ready (s : Z) (su : super) : heapProp :=
  arr (s + s_magic) 2 (su_halves su) ∗ (s + file_max_size) ↦ su_max su ∗ dinode (s + s_root_inode) (su_root_h su) (su_root_w su) ∗
  arr (s + s_root_inode + i_dev) 2 (su_root_m su) ∗ arr (s + s_root_inode + i_mmap) 4 (su_root_p su) ∗
  dlist (s + s_inodes) [] ∗ dlist (s + s_dirty) [] ∗ dlist (s + s_io) [] ∗ dlist (s + s_files) [].

Lemma halves_dev s su : super_ok su →
  arr (s + s_magic) 2 (su_halves su) ⊢ (s + s_dev) ↦ su_dev su ∗
    (∀ d, (s + s_dev) ↦ d -∗ arr (s + s_magic) 2 (<[6%nat := d]> (su_halves su))).
Proof.
  intros [[Hl _] _]. unfold su_dev. destruct (lookup_lt_is_Some_2 (su_halves su) 6) as [d Hd]; [lia|]. rw (nth_lookup_Some _ _ _ d Hd).
  iIntros "H". iDestruct (arr_acc _ _ _ 6 with "H") as "[Hd H]"; [done|]. rw (_ : s + s_magic + 2 * 6%nat = s + s_dev); [|unfold s_magic, s_dev; lia]. iFrame.
Qed.

Lemma dev_back su : super_ok su → <[6%nat := su_dev su]> (su_halves su) = su_halves su.
Proof.
  intros [[Hl _] _]. unfold su_dev. destruct (lookup_lt_is_Some_2 (su_halves su) 6) as [d Hd]; [lia|]. rw (nth_lookup_Some _ _ _ d Hd). by apply list_insert_id.
Qed.

(** The eight pointers are the heads of four lists. *)
Lemma list_heads s us : 0 < s → length us = 8%nat →
  arr (s + s_inodes) 4 us ⊢ lnode (s + s_inodes) ∗ lnode (s + s_dirty) ∗ lnode (s + s_io) ∗ lnode (s + s_files).
Proof.
  intros Hs Hl. destruct us as [|a1 [|a2 [|a3 [|a4 [|a5 [|a6 [|a7 [|a8 [|]]]]]]]]]; try done. rw !arr_cons. unfold lnode, list_next, list_prev.
  rw (_ : s + s_inodes + 4 + 4 = s + s_dirty); [|unfold s_inodes, s_dirty; lia]. rw (_ : s + s_dirty + 4 + 4 = s + s_io); [|unfold s_io, s_dirty; lia].
  rw (_ : s + s_io + 4 + 4 = s + s_files); [|unfold s_io, s_files; lia]. rw !Z.add_0_r.
  iIntros "(H1 & H2 & H3 & H4 & H5 & H6 & H7 & H8 & _)". iSplitL "H1 H2"; [|iSplitL "H3 H4"; [|iSplitL "H5 H6"]].
  - iSplitL "H1"; [by iExists _|]. iSplitL "H2"; [by iExists _|]. iPureIntro. unfold s_inodes, NULL. lia.
  - iSplitL "H3"; [by iExists _|]. iSplitL "H4"; [by iExists _|]. iPureIntro. unfold s_dirty, NULL. lia.
  - iSplitL "H5"; [by iExists _|]. iSplitL "H6"; [by iExists _|]. iPureIntro. unfold s_io, NULL. lia.
  - iSplitL "H7"; [by iExists _|]. iSplitL "H8"; [by iExists _|]. iPureIntro. unfold s_files, NULL. lia.
Qed.

Section mount.
Context {getblk : Z → Z → M Z} {hd_rw : Z → Z → Z → Z → M Z} {brelse : Z → M unit} `{!BlockIO getblk hd_rw brelse}.
Context (super_block : Z).

(** The second super block. *)
Definition slot1 : Z := super_block + sizeof_super_block * 1.

Lemma free_super_wp d0 d1 Q : (super_block + s_dev) ↦ d0 -∗ (slot1 + s_dev) ↦ d1 -∗
  ((super_block + s_dev) ↦ d0 -∗ (slot1 + s_dev) ↦ d1 -∗ Q (if d0 =? NO_DEV then 0 else if d1 =? NO_DEV then 1 else 2)) -∗ wp (free_super super_block) Q.
Proof.
  iIntros "H0 H1 HQ". unfold free_super. change (Z.to_nat NR_SUPER) with 2%nat. cbn [run]. change (0 <? NR_SUPER) with true.
  rw (_ : super_block + sizeof_super_block * 0 = super_block); [|lia]. wp_load. destruct (d0 =? NO_DEV); [wp_pures; iApply ("HQ" with "H0 H1")|].
  wp_pures. change (0 + 1) with 1. change (1 <? NR_SUPER) with true. rw -/slot1. wp_load. destruct (d1 =? NO_DEV); wp_pures; [iApply ("HQ" with "H0 H1")|]. change (1 + 1) with 2. change (2 <? NR_SUPER) with false. wp_pures.
  iApply ("HQ" with "H0 H1").
Qed.

(** Reading the super block into the place [i] that [free_super] finds. *)
Lemma read_super_block_wp F F' i dev su0 su pad pad' tl n (Q : unit → heapProp) :
  (F ⊢ wp (free_super super_block) (λ r, ⌜r = i⌝ ∗ super_cells (super_block + sizeof_super_block * i) su0 ∗ F')) →
  0 < super_block + sizeof_super_block * i → super_ok su0 → super_ok su → length pad = 2%nat → length pad' = 2%nat →
  F -∗ bio_pool (S n) -∗ bio_sector ROOT_DEV 1 (super_image su pad pad' ++ tl) -∗
  (F' -∗ super_ready (super_block + sizeof_super_block * i) su -∗ bio_pool (S n) -∗ bio_sector ROOT_DEV 1 (super_image su pad pad' ++ tl) -∗ Q tt) -∗
  wp (read_super_block getblk hd_rw brelse super_block dev) Q.
Proof.
  intros HF Hs Hok0 Hok Hp Hp'. iIntros "HF Hn Hd HQ". unfold read_super_block. iApply wp_bind. iApply (wp_wand with "[HF]"); [iApply (HF with "HF")|].
  iIntros (r) "(-> & Hc & HF)". set (s := super_block + sizeof_super_block * i) in *. iApply wp_bind. iApply (getblk_wp with "Hn"). iIntros (bh d bs) "(%Hbh & %Hbs) Hn Hb Hx Hbytes".
  iApply wp_bind. iApply (read_wp with "Hb Hx Hbytes Hd"); [done|]. iIntros "%Hl Hb Hx Hbytes Hd". wp_load.
  iEval (rw arr_app) in "Hbytes". iDestruct "Hbytes" as "[Hbytes Htl]".
  iApply wp_bind. iApply (super_from_disk_wp with "Hc Hbytes"); [done..|]. iIntros "(C1 & C2 & C3 & C4 & C5 & C6) Hbytes".
  iDestruct (list_heads with "C6") as "(L1 & L2 & L3 & L4)"; [done|apply Hok|].
  iApply wp_bind. iApply (INIT_LIST_HEAD_wp with "L1"). iIntros "L1". iApply wp_bind. iApply (INIT_LIST_HEAD_wp with "L2"). iIntros "L2".
  iApply wp_bind. iApply (INIT_LIST_HEAD_wp with "L3"). iIntros "L3". iApply wp_bind. iApply (INIT_LIST_HEAD_wp with "L4"). iIntros "L4".
  iApply (brelse_wp _ _ (super_image su pad pad' ++ tl) with "Hb Hx [Hbytes Htl] Hn"); [done|rw arr_app; iFrame|]. iIntros "Hn".
  iApply ("HQ" with "HF [$C1 $C2 $C3 $C4 $C5 $L1 $L2 $L3 $L4] Hn Hd").
Qed.
Definition set_dev (d : Z) (su : super) : super :=
  Super (<[6%nat := d]> (su_halves su)) (su_max su) (su_root_h su) (su_root_w su) (su_root_m su) (su_root_p su) (su_lists su).

Lemma set_dev_ok d su : 0 ≤ d < 2 ^ 16 → super_ok su → super_ok (set_dev d su).
Proof. intros Hd ([H1 H1'] & H). split; [|exact H]. split; [by rw length_insert|]. by apply Forall_insert. Qed.

Lemma set_dev_dev d su : super_ok su → su_dev (set_dev d su) = d.
Proof. intros [[Hl _] _]. unfold su_dev. cbn [set_dev su_halves]. rw (nth_lookup_Some _ _ _ d); [done|]. apply list_lookup_insert_eq. lia. Qed.

(** The device of a super block in memory is read and set. *)
Lemma super_cells_dev s su : super_ok su → super_cells s su ⊢ (s + s_dev) ↦ su_dev su ∗ (∀ d, (s + s_dev) ↦ d -∗ super_cells s (set_dev d su)).
Proof. intros Hok. iIntros "(H & Hr)". iDestruct (halves_dev with "H") as "[$ H]"; [done|]. iIntros (d) "Hd". iFrame "Hr". by iApply "H". Qed.

Lemma super_cells_same s su : super_ok su → super_cells s (set_dev (su_dev su) su) ⊢ super_cells s su.
Proof. intros Hok. unfold super_cells. cbn [set_dev su_halves su_max su_root_h su_root_w su_root_m su_root_p su_lists]. by rw dev_back. Qed.

Lemma super_ready_dev s su : super_ok su → super_ready s su ⊢ (s + s_dev) ↦ su_dev su ∗ ((s + s_dev) ↦ su_dev su -∗ super_ready s su).
Proof.
  intros Hok. iIntros "(H & Hr)". iDestruct (halves_dev with "H") as "[$ H]"; [done|]. iIntros "Hd". iFrame "Hr". iDestruct ("H" with "Hd") as "H". by rw dev_back.
Qed.

Lemma find_super_wp d0 d1 dev Q : (super_block + s_dev) ↦ d0 -∗ (slot1 + s_dev) ↦ d1 -∗
  ((super_block + s_dev) ↦ d0 -∗ (slot1 + s_dev) ↦ d1 -∗ Q (if d0 =? dev then super_block else if d1 =? dev then slot1 else NULL)) -∗
  wp (get_super_block super_block dev) Q.
Proof.
  iIntros "H0 H1 HQ". unfold get_super_block. change (Z.to_nat NR_SUPER) with 2%nat. rw run_one. rw (proj2 (Z.ltb_lt _ _)); [|unfold NR_SUPER, sizeof_super_block; lia].
  wp_load. destruct (d0 =? dev); [wp_pures; iApply ("HQ" with "H0 H1")|]. wp_pures. rw run_one. rw (proj2 (Z.ltb_lt _ _)); [|unfold NR_SUPER, sizeof_super_block; lia].
  change (super_block + sizeof_super_block) with slot1. wp_load. destruct (d1 =? dev); [wp_pures; iApply ("HQ" with "H0 H1")|]. wp_pures. rw run_one.
  rw (proj2 (Z.ltb_ge _ _)); [|unfold slot1, NR_SUPER, sizeof_super_block; lia]. wp_pures. iApply ("HQ" with "H0 H1").
Qed.

(** The start of the file system reads the super block of the disk into memory, with empty lists.  It is found afterwards only if the disk says that it is the root device:
    for any other content of the sector the answer is the null pointer, whose magic number [init_fs] reads next. *)
Theorem mount_root_correct su0 su1 su pad pad' tl n : 0 < super_block → super_ok su0 → super_ok su1 → super_ok su → length pad = 2%nat → length pad' = 2%nat →
  {{ super_cells super_block su0 ∗ super_cells slot1 su1 ∗ bio_pool (S n) ∗ bio_sector ROOT_DEV 1 (super_image su pad pad' ++ tl) }}
    mount_root getblk hd_rw brelse super_block
  {{ r, ⌜r = if su_dev su =? ROOT_DEV then super_block else NULL⌝ ∗ super_ready super_block su ∗ super_cells slot1 (set_dev NO_DEV su1) ∗
        bio_pool (S n) ∗ bio_sector ROOT_DEV 1 (super_image su pad pad' ++ tl) }}.
Proof.
  intros Hsb Hok0 Hok1 Hok Hp Hp'. apply triple_wp. iIntros "(H0 & H1 & Hn & Hd)". unfold mount_root. change (Z.to_nat NR_SUPER) with 2%nat. cbn [run].
  change (0 <? NR_SUPER) with true. rw (_ : super_block + sizeof_super_block * 0 = super_block); [|lia].
  iDestruct (super_cells_dev with "H0") as "[D0 H0]"; [done|]. iDestruct (super_cells_dev with "H1") as "[D1 H1]"; [done|]. iApply wp_bind. wp_store.
  change (0 + 1) with 1. change (1 <? NR_SUPER) with true. rw -/slot1. wp_store. change (1 + 1) with 2. change (2 <? NR_SUPER) with false. wp_pures.
  iDestruct ("H0" with "D0") as "H0". iDestruct ("H1" with "D1") as "H1". iApply wp_bind.
  iApply (read_super_block_wp (super_cells super_block (set_dev NO_DEV su0) ∗ super_cells slot1 (set_dev NO_DEV su1)) (super_cells slot1 (set_dev NO_DEV su1)) 0
            _ (set_dev NO_DEV su0) su pad pad' tl with "[$H0 $H1] Hn Hd").
  - iIntros "[H0 H1]". iDestruct (super_cells_dev with "H0") as "[D0 H0]"; [by apply set_dev_ok|]. iDestruct (super_cells_dev with "H1") as "[D1 H1]"; [by apply set_dev_ok|].
    iApply (free_super_wp with "D0 D1"). iIntros "D0 D1". iDestruct ("H0" with "D0") as "H0". iDestruct ("H1" with "D1") as "H1".
    rw !super_cells_same; [|by apply set_dev_ok..]. rw (set_dev_dev NO_DEV su0); [|done]. rw Z.mul_0_r Z.add_0_r. by iFrame.
  - lia.
  - by apply set_dev_ok.
  - done.
  - done.
  - done.
  - rw Z.mul_0_r Z.add_0_r. iIntros "H1 H0 Hn Hd". iDestruct (super_ready_dev with "H0") as "[D0 H0]"; [done|].
    iDestruct (super_cells_dev with "H1") as "[D1 H1]"; [by apply set_dev_ok|]. iApply (find_super_wp with "D0 D1"). iIntros "D0 D1".
    iDestruct ("H0" with "D0") as "H0". iDestruct ("H1" with "D1") as "H1". rw super_cells_same; [|by apply set_dev_ok]. rw (set_dev_dev NO_DEV su1); [|done].
    change (NO_DEV =? ROOT_DEV) with false. by iFrame.
Qed.

(** ** The super block that is written *)

Lemma le16_u16 v : le16 (u16 v) = le16 v.
Proof. unfold le16, u8, u16. rw !Z.shiftr_div_pow2; [|lia..]. f_equal; [dlia|f_equal; dlia]. Qed.

Lemma half_split (hs : list Z) i h : hs !! i = Some h → hs ≫= le16 = (take i hs ≫= le16) ++ le16 h ++ (drop (S i) hs ≫= le16).
Proof. intros Hi. rw -{1}(take_drop_middle hs i h Hi). by rw bind_app bind_cons. Qed.

Lemma store_half_wp p hs (i : nat) v q (Q : unit → heapProp) : (i < length hs)%nat → q = p + 2 * Z.of_nat i →
  bytes p (hs ≫= le16) -∗ (bytes p (<[i := u16 v]> hs ≫= le16) -∗ Q tt) -∗ wp (store16 q v) Q.
Proof.
  iIntros (Hi ->) "H HQ". destruct (lookup_lt_is_Some_2 hs i Hi) as [h Hh]. rw (half_split _ _ _ Hh) (half_split (<[i := u16 v]> hs) i (u16 v)); [|by apply list_lookup_insert_eq].
  rw take_insert_ge; [|lia]. rw drop_insert_lt; [|lia]. rw !arr_app. iDestruct "H" as "(H1 & H2 & H3)". rw !length_le16s length_take. 
  rw (_ : p + 1 * Z.of_nat (2 * (i `min` length hs)) = p + 2 * Z.of_nat i); [|lia]. iApply (store16_wp with "H2"); [done|]. iIntros "H2". iApply "HQ". rw le16_u16. iFrame.
Qed.

Lemma load_half_wp p hs (i : nat) h q Q : hs !! i = Some h → 0 ≤ h < 2 ^ 16 → q = p + 2 * Z.of_nat i →
  bytes p (hs ≫= le16) -∗ (bytes p (hs ≫= le16) -∗ Q h) -∗ wp (load16 q) Q.
Proof.
  iIntros (Hi Hh ->) "H HQ". rw (half_split _ _ _ Hi) !arr_app. iDestruct "H" as "(H1 & H2 & H3)". rw !length_le16s length_take. pose proof (lookup_lt_Some _ _ _ Hi).
  rw (_ : p + 1 * Z.of_nat (2 * (i `min` length hs)) = p + 2 * Z.of_nat i); [|lia]. iApply (load16_wp with "H2"); [done|]. iIntros "H2". iApply "HQ". iFrame.
Qed.

(** The super block that [fill_super] leaves: the members that it does not set are those of [su]. *)
Definition new_super (su : super) : super :=
  Super [MAGIC_FS; BITS_SECTOR; BITS_SECTOR; 1; 1; 516; ROOT_DEV] 1024 (su_root_h su) (su_root_w su) (su_root_m su) (su_root_p su) (su_lists su).

Lemma new_super_ok su : super_ok su → super_ok (new_super su).
Proof. intros (_ & _ & H). split; [|split; [done|exact H]]. split; [done|]. repeat constructor; done. Qed.

Lemma fill_super_wp sb su pad pad' (Q : unit → heapProp) : super_ok su → length pad = 2%nat → length pad' = 2%nat →
  bytes sb (super_image su pad pad') -∗ (bytes sb (super_image (new_super su) pad pad') -∗ Q tt) -∗ wp (fill_super sb) Q.
Proof.
  intros Hok Hp Hp'. rw (super_image_members sb su); [|done..]. rw (super_image_members sb (new_super su)); [|by apply new_super_ok|done..]. iIntros "(B1 & P1 & B2 & Br) HQ". destruct Hok as [[Hl _] _].
  destruct (su_halves su) as [|h0 [|h1 [|h2 [|h3 [|h4 [|h5 [|h6 [|]]]]]]]]; try done. unfold fill_super.
  iApply wp_bind. iApply (store_half_wp _ _ 6 with "B1"); [simpl; lia|unfold s_magic, s_dev; lia|]. iIntros "B1".
  iApply wp_bind. iApply (store_half_wp _ _ 0 with "B1"); [simpl; lia|unfold s_magic; lia|]. iIntros "B1".
  iApply wp_bind. iApply (store_half_wp _ _ 1 with "B1"); [simpl; lia|unfold s_magic, s_ninodes; lia|]. iIntros "B1".
  iApply wp_bind. iApply (store_half_wp _ _ 2 with "B1"); [simpl; lia|unfold s_magic, s_nzones; lia|]. iIntros "B1".
  iApply wp_bind. iApply (store_half_wp _ _ 3 with "B1"); [simpl; lia|unfold s_magic, s_nimap_sects; lia|]. iIntros "B1".
  iApply wp_bind. iApply (store_half_wp _ _ 4 with "B1"); [simpl; lia|unfold s_magic, s_nzmap_sects; lia|]. iIntros "B1".
  iApply wp_bind. iApply (load_half_wp _ _ 3 1 with "B1"); [done|done|unfold s_magic, s_nimap_sects; lia|]. iIntros "B1".
  iApply wp_bind. iApply (store_half_wp _ _ 1 with "B1"); [simpl; lia|unfold s_magic, s_ninodes; lia|]. iIntros "B1".
  iApply wp_bind. iApply (load_half_wp _ _ 4 1 with "B1"); [done|done|unfold s_magic, s_nzmap_sects; lia|]. iIntros "B1".
  iApply wp_bind. iApply (store_half_wp _ _ 2 with "B1"); [simpl; lia|unfold s_magic, s_nzones; lia|]. iIntros "B1".
  iApply wp_bind. iApply (store_half_wp _ _ 5 with "B1"); [simpl; lia|unfold s_magic, s_firstzone; lia|]. iIntros "B1".
  iApply (store32_wp with "B2"); [done|]. iIntros "B2". iApply "HQ". iFrame "P1 B2 Br". iExact "B1".
Qed.
(** ** Sectors that are written *)

Lemma held_intro bh d bs : length bs = 512%nat → bio_buf bh d -∗ (bh + b_data) ↦ d -∗ bytes d bs -∗ held bh d bs.
Proof. iIntros (Hl) "Hb Hd H". unfold held. iSplit; [iPureIntro; exact Hl|]. iSplitL "Hb"; [iExact "Hb"|]. iSplitL "Hd"; [iExact "Hd"|iExact "H"]. Qed.

Lemma clear_buffer_wp bh d bs (Q : unit → heapProp) : held bh d bs -∗ (held bh d (replicate 512 0) -∗ Q tt) -∗ wp (clear_buffer bh) Q.
Proof.
  iIntros "(%Hl & Hb & Hd & H) HQ". iDestruct (bio_buf_data with "Hb") as %Hd. unfold clear_buffer. wp_load. rw -(app_nil_r bs). iApply wp_bind.
  iApply (memset_wp d 0 SECTOR_SIZE bs [] with "H"); [by rw Hl|done|done|]. iIntros "H". wp_pures. change (Z.to_nat SECTOR_SIZE) with 512%nat. rw app_nil_r. iApply "HQ".
  iApply (held_intro with "Hb Hd H"). apply length_replicate.
Qed.

(** A buffer is taken, filled, written and released. *)
Lemma write_release_wp blk bh d bs old n (Q : unit → heapProp) :
  held bh d bs -∗ bio_sector ROOT_DEV blk old -∗ bio_pool n -∗ (bio_sector ROOT_DEV blk bs -∗ bio_pool (S n) -∗ Q tt) -∗
  wp (hd_rw ROOT_DEV blk ATA_WRITE bh;; brelse bh) Q.
Proof.
  iIntros "(%Hl & Hb & Hd & H) Hs Hp HQ". iApply wp_bind. iApply (write_wp with "Hb Hd H Hs"); [done|]. iIntros "Hb Hd H Hs".
  iApply (brelse_wp with "Hb Hd H Hp"); [done|]. iIntros "Hp". iApply ("HQ" with "Hs Hp").
Qed.

Lemma mk_super_wp sb img old n (Q : unit → heapProp) : length img = 148%nat →
  bytes sb img -∗ bio_pool (S n) -∗ bio_sector ROOT_DEV 1 old -∗
  (bytes sb img -∗ bio_pool (S n) -∗ bio_sector ROOT_DEV 1 (img ++ replicate 364 0) -∗ Q tt) -∗ wp (mk_super getblk hd_rw brelse sb) Q.
Proof.
  iIntros (Hi) "Hsb Hp Hs HQ". unfold mk_super. iApply wp_bind. iApply (getblk_wp with "Hp"). iIntros (bh d bs) "(%Hbh & %Hbs) Hp Hb Hd H". iApply wp_bind.
  iApply (clear_buffer_wp with "[$Hb $Hd $H //]"). iIntros "(_ & Hb & Hd & H)". wp_load. change 512%nat with (148 + 364)%nat. rw replicate_add arr_app length_replicate.
  iDestruct "H" as "[H1 H2]". iApply wp_bind. iApply (memcpy_wp with "Hsb H1"); [done|by rw length_replicate|]. iIntros "Hsb H1".
  iApply (write_release_wp _ _ _ (img ++ replicate 364 0) with "[Hb Hd H1 H2] Hs Hp").
  { iApply (held_intro with "Hb Hd"); [by rw length_app Hi length_replicate|]. rw arr_app Hi. iSplitL "H1"; [iExact "H1"|iExact "H2"]. }
  iIntros "Hs Hp". iApply ("HQ" with "Hsb Hp Hs").
Qed.

Lemma length_super_image su pad pad' : super_ok su → length pad = 2%nat → length pad' = 2%nat → length (super_image su pad pad') = 148%nat.
Proof.
  intros ([H1 _] & _ & [H3 _] & [H4 _] & [H5 _] & [H6 _] & [H7 _]) Hp Hp'. unfold super_image.
  by rw !length_app !length_le16s !length_le32s H1 H3 H4 H5 H6 H7 Hp Hp'.
Qed.

(** The super block that [mk_fs] writes is read back with its members: the magic number, the numbers of inodes and zones, the sizes of the maps, the first zone and the
    root device.  It goes to the second place in memory when the first one holds what the disk had before, and [get_super_block] still finds that one. *)
Theorem super_block_roundtrip sb su0 su1 su pad pad' old n : 0 < super_block → super_ok su0 → super_ok su1 → super_ok su → length pad = 2%nat → length pad' = 2%nat →
  su_dev su0 = ROOT_DEV → su_dev su1 = NO_DEV →
  {{ super_ready super_block su0 ∗ super_cells slot1 su1 ∗ bytes sb (super_image su pad pad') ∗ bio_pool (S n) ∗ bio_sector ROOT_DEV 1 old }}
    (fill_super sb;; mk_super getblk hd_rw brelse sb;; read_super_block getblk hd_rw brelse super_block ROOT_DEV;; get_super_block super_block ROOT_DEV)
  {{ r, ⌜r = super_block⌝ ∗ super_ready super_block su0 ∗ super_ready slot1 (new_super su) ∗ bytes sb (super_image (new_super su) pad pad') ∗
        bio_pool (S n) ∗ bio_sector ROOT_DEV 1 (super_image (new_super su) pad pad' ++ replicate 364 0) }}.
Proof.
  intros Hsb Hok0 Hok1 Hok Hp Hp' Hd0 Hd1. pose proof (new_super_ok su Hok) as Hokn. apply triple_wp. iIntros "(H0 & H1 & Hs & Hn & Hd)".
  iApply wp_bind. iApply (fill_super_wp with "Hs"); [done..|]. iIntros "Hs". iApply wp_bind. iApply (mk_super_wp with "Hs Hn Hd"); [by apply length_super_image|].
  iIntros "Hs Hn Hd". iApply wp_bind.
  iApply (read_super_block_wp (super_ready super_block su0 ∗ super_cells slot1 su1) (super_ready super_block su0) 1 _ su1 with "[$H0 $H1] Hn Hd"); [| |done..|].
  - iIntros "[H0 H1]". iDestruct (super_ready_dev with "H0") as "[D0 H0]"; [done|]. iDestruct (super_cells_dev with "H1") as "[D1 H1]"; [done|].
    iApply (free_super_wp with "D0 D1"). iIntros "D0 D1". iDestruct ("H0" with "D0") as "H0". iDestruct ("H1" with "D1") as "H1".
    rw super_cells_same; [|done]. rw Hd0 Hd1. rw -/slot1. by iFrame.
  - unfold sizeof_super_block. lia.
  - iIntros "H0 H1 Hn Hd". rw -/slot1. iDestruct (super_ready_dev with "H0") as "[D0 H0]"; [done|]. iDestruct (super_ready_dev with "H1") as "[D1 H1]"; [done|].
    iApply (find_super_wp with "D0 D1"). iIntros "D0 D1". iDestruct ("H0" with "D0") as "H0". iDestruct ("H1" with "D1") as "H1". rw Hd0 Z.eqb_refl. by iFrame.
Qed.

(** The bits 0 to [k - 1] of a byte are set one by one. *)
Lemma next_bit (k : nat) : (k < 5)%nat → u8 (Z.lor (Z.ones (Z.of_nat k)) (Z.shiftl 1 (Z.of_nat k))) = Z.ones (Z.of_nat (S k)).
Proof. intros Hk. do 5 (destruct k as [|k]; [reflexivity|]). lia. Qed.

Lemma zeros_cons : replicate 512 0 = 0 :: replicate 511 0.
Proof. reflexivity. Qed.

Lemma mk_imap_wp sb hs old n (Q : unit → heapProp) : hs !! 3%nat = Some 1 →
  bytes sb (hs ≫= le16) -∗ bio_pool (S n) -∗ bio_sector ROOT_DEV 2 old -∗
  (bytes sb (hs ≫= le16) -∗ bio_pool (S n) -∗ bio_sector ROOT_DEV 2 (0x1f :: replicate 511 0) -∗ Q tt) -∗ wp (mk_imap getblk hd_rw brelse sb) Q.
Proof.
  iIntros (Hhs) "Hsb Hp Hs HQ". unfold mk_imap. iApply wp_bind. iApply (getblk_wp with "Hp"). iIntros (bh d bs) "(%Hbh & %Hbs) Hp Hb Hd H". iApply wp_bind.
  iApply (clear_buffer_wp with "[Hb Hd H]"); [iApply (held_intro with "Hb Hd H"); exact Hbs|]. iIntros "(_ & Hb & Hd & H)". rw zeros_cons.
  assert (length (replicate 511 0) = 511%nat) as Hz by apply length_replicate. set (zs := replicate 511 0) in *. clearbody zs.
  iEval (rw arr_cons) in "H". iDestruct "H" as "[H0 H]". iApply wp_bind.
  iApply (wp_wand with "[Hd H0]"); first iApply (wp_run_from _ (λ m i, ∃ k : nat, ⌜i = Z.of_nat k ∧ (m + k = 5)%nat⌝ ∗ (bh + b_data) ↦ d ∗ d ↦ Z.ones (Z.of_nat k))%I
    (λ _, (bh + b_data) ↦ d ∗ d ↦ 0x1f)%I 5); [by vm_compute| |iExists 0%nat; by iFrame|].
  { intros m i. iIntros "(%k & (-> & %Hk) & Hd & H0)". destruct m as [|m].
    { rw (_ : k = 5%nat); [|lia]. change (Z.of_nat 5 <? NR_CONSOLES + 2) with false. wp_pures. iFrame "Hd". iExact "H0". }
    rw (proj2 (Z.ltb_lt _ _)); [|unfold NR_CONSOLES; lia]. wp_load. wp_load. wp_store. rw next_bit; [|lia]. iExists m. iSplit; [iPureIntro; lia|]. iExists (S k). iFrame. iPureIntro. lia. }
  iIntros (_) "[Hd H0]". wp_load. wp_load. wp_pures. iApply wp_bind. iApply (write_wp _ _ _ _ (0x1f :: zs) with "Hb Hd [H0 H] Hs"); [simpl; by rw Hz|rw arr_cons; iFrame|].
  iIntros "Hb Hd H Hs". iApply wp_bind. iApply (clear_buffer_wp with "[Hb Hd H]"); [iApply (held_intro with "Hb Hd H"); simpl; by rw Hz|]. iIntros "(_ & Hb & Hd & H)".
  iApply wp_bind. iApply (load_half_wp _ _ 3 1 with "Hsb"); [done|done|unfold s_nimap_sects; lia|]. iIntros "Hsb". iApply wp_bind. change (Z.to_nat 1) with 1%nat. rw run_one.
  iApply wp_bind. iApply wp_bind. iApply (load_half_wp _ _ 3 1 with "Hsb"); [done|done|unfold s_nimap_sects; lia|]. iIntros "Hsb". change (1 <? 1) with false. wp_pures.
  iApply (brelse_wp with "Hb Hd H Hp"); [apply length_replicate|]. iIntros "Hp". iApply ("HQ" with "Hsb Hp Hs").
Qed.

Lemma mk_zmap_wp old n (Q : unit → heapProp) : bio_pool (S n) -∗ bio_sector ROOT_DEV 3 old -∗
  (∀ rest, ⌜length rest = 511%nat⌝ -∗ bio_pool (S n) -∗ bio_sector ROOT_DEV 3 (1 :: rest) -∗ Q tt) -∗ wp (mk_zmap getblk hd_rw brelse) Q.
Proof.
  iIntros "Hp Hs HQ". unfold mk_zmap. iApply wp_bind. iApply (getblk_wp with "Hp"). iIntros (bh d bs) "(%Hbh & %Hbs) Hp Hb Hd H". destruct bs as [|b rest]; [done|].
  iEval (rw arr_cons) in "H". iDestruct "H" as "[H0 H]". wp_load. wp_store. iApply wp_bind.
  iApply (write_wp _ _ _ _ (1 :: rest) with "Hb Hd [H0 H] Hs"); [exact Hbs|rw arr_cons; iFrame|]. iIntros "Hb Hd H Hs". iApply wp_bind.
  iApply (clear_buffer_wp with "[Hb Hd H]"); [iApply (held_intro with "Hb Hd H"); exact Hbs|]. iIntros "(_ & Hb & Hd & H)". change (Z.to_nat NR_INODE_MAP_SECTS) with 1%nat. iApply wp_bind.
  rw run_one. change (1 <? NR_INODE_MAP_SECTS) with false. wp_pures. iApply (brelse_wp with "Hb Hd H Hp"); [apply length_replicate|]. iIntros "Hp".
  iApply ("HQ" with "[%] Hp Hs"). by injection Hbs.
Qed.

(** [mk_imap] marks the inodes 0 to 4; [mk_zmap] marks the zone 0 and leaves the other 511 bytes of the sector as they were in the buffer. *)
Theorem mk_maps_correct sb hs old2 old3 n : hs !! 3%nat = Some 1 →
  {{ bytes sb (hs ≫= le16) ∗ bio_pool (S n) ∗ bio_sector ROOT_DEV 2 old2 ∗ bio_sector ROOT_DEV 3 old3 }}
    (mk_imap getblk hd_rw brelse sb;; mk_zmap getblk hd_rw brelse)
  {{ _, ∃ rest, ⌜length rest = 511%nat⌝ ∗ bytes sb (hs ≫= le16) ∗ bio_pool (S n) ∗ bio_sector ROOT_DEV 2 (0x1f :: replicate 511 0) ∗ bio_sector ROOT_DEV 3 (1 :: rest) }}.
Proof.
  intros Hhs. apply triple_wp. iIntros "(Hsb & Hp & H2 & H3)". iApply wp_bind. iApply (mk_imap_wp with "Hsb Hp H2"); [done|]. iIntros "Hsb Hp H2".
  iApply (mk_zmap_wp with "Hp H3"). iIntros (rest) "%Hl Hp H3". iExists rest. iFrame "Hsb Hp H3". iSplit; [done|]. iExact "H2".
Qed.
End mount.


(** ** On the disk in memory *)

Definition su_zero : super := Super (replicate 7 0) 0 (replicate 4 0) (replicate 14 0) (replicate 5 0) (replicate 5 0) (replicate 8 0).

Lemma su_zero_ok : super_ok su_zero.
Proof. unfold super_ok, halves_ok, words_ok; simpl. split_and!; try done; repeat constructor; done. Qed.

(** A disk that has not been formatted: the root device is not found. *)
Lemma mount_root_correct_witness :
  let rd := ram_disk 100000 64 4096 in
  0 < 8192 ∧ super_ok su_zero ∧
  triple (super_cells 8192 su_zero ∗ super_cells (slot1 8192) su_zero ∗ bio_pool 1 ∗ bio_sector ROOT_DEV 1 (super_image su_zero [0; 0] [0; 0] ++ replicate 364 0))%I
    (mount_root (ram_getblk 64) (ram_rw 100000) ram_brelse 8192)
    (λ r, ⌜r = if su_dev su_zero =? ROOT_DEV then 8192 else NULL⌝ ∗ super_ready 8192 su_zero ∗ super_cells (slot1 8192) (set_dev NO_DEV su_zero) ∗
        bio_pool 1 ∗ bio_sector ROOT_DEV 1 (super_image su_zero [0; 0] [0; 0] ++ replicate 364 0))%I.
Proof.
  intros rd. split; [done|]. split; [exact su_zero_ok|].
  refine (mount_root_correct (BlockIO0 := rd) 8192 su_zero su_zero su_zero [0; 0] [0; 0] (replicate 364 0) 0 _ su_zero_ok su_zero_ok su_zero_ok _ _); done.
Defined.

Lemma super_block_roundtrip_witness :
  let rd := ram_disk 100000 64 4096 in let su0 := set_dev ROOT_DEV su_zero in
  0 < 8192 ∧ super_ok su0 ∧ super_ok su_zero ∧ su_dev su0 = ROOT_DEV ∧ su_dev su_zero = NO_DEV ∧
  triple (super_ready 8192 su0 ∗ super_cells (slot1 8192) su_zero ∗ bytes 20000 (super_image su_zero [0; 0] [0; 0]) ∗ bio_pool 1 ∗ bio_sector ROOT_DEV 1 (replicate 512 0))%I
    (fill_super 20000;; mk_super (ram_getblk 64) (ram_rw 100000) ram_brelse 20000;; read_super_block (ram_getblk 64) (ram_rw 100000) ram_brelse 8192 ROOT_DEV;;
     get_super_block 8192 ROOT_DEV)
    (λ r, ⌜r = 8192⌝ ∗ super_ready 8192 su0 ∗ super_ready (slot1 8192) (new_super su_zero) ∗ bytes 20000 (super_image (new_super su_zero) [0; 0] [0; 0]) ∗
        bio_pool 1 ∗ bio_sector ROOT_DEV 1 (super_image (new_super su_zero) [0; 0] [0; 0] ++ replicate 364 0))%I.
Proof.
  intros rd su0. assert (super_ok su0) as Hok0 by (apply set_dev_ok; [done|exact su_zero_ok]). split; [done|]. split; [exact Hok0|]. split; [exact su_zero_ok|].
  split; [reflexivity|]. split; [reflexivity|].
  refine (super_block_roundtrip (BlockIO0 := rd) 8192 20000 su0 su_zero su_zero [0; 0] [0; 0] (replicate 512 0) 0 _ Hok0 su_zero_ok su_zero_ok _ _ _ _); done.
Defined.
