(* ===== verification/SmallOps.v ===== *)
(** * Short functions of several components

    The stack and the task of the processor (kernel/sched.c, sched.h), counters (asm-i386/atomic.h), and functions that only answer: of the route table
    (net/inet/route.c), of inodes (fs/inode.c), of the page cache (mm/filemap.c) and of the radix tree (lib/radix-tree.c). *)

From S2P Require Export Slab PageCache File Ip.

(** ** kernel/sched.c, include/linux/sched.h *)

Definition THREAD_SIZE_ORDER : Z := 1.
Definition THREAD_SIZE : Z := Z.shiftl PAGE_SIZE THREAD_SIZE_ORDER.

(** [esp] is the register. *)
Definition current_thread_info (esp : Z) : Z := Z.land esp (u32 (Z.lnot (THREAD_SIZE - 1))).
Definition ti_task : Z := 0.
Definition get_current (esp : Z) : M Z := load (current_thread_info esp + ti_task).
Definition setpid : M Z := mret 0.
Definition switch_to (prev next : Z) : M unit := mret tt.

(** ** include/asm-i386/atomic.h *)

(** [atomic_dec] has the instruction of [atomic_inc]. *)
Definition atomic_dec (v : Z) : M unit := n ← load v; store v (s32 (n + 1)).
Definition atomic_add (i v : Z) : M unit := n ← load v; store v (s32 (n + i)).
Definition atomic_sub (i v : Z) : M unit := n ← load v; store v (s32 (n - i)).

(** ** Answers *)

Definition rt_new (re : Z) : M Z := mret 0.
Definition rt_get_info (buffer start offset length : Z) : M Z := mret 0.

Definition SIOCADDRT : Z := 0x800B.
Definition SIOCDELRT : Z := 0x800C.
Definition ip_rt_ioctl (cmd arg : Z) : M Z :=
  if (cmd =? SIOCADDRT) || (cmd =? SIOCDELRT) then mret (- EINVAL) else mret (- EINVAL).

Definition sync_dev (dev : Z) : M unit := mret tt.

Definition page_cache_read (file offset : Z) : M Z :=
  i ← load (file + f_inode); _ ← load (i + i_mapping); mret 0.

(** The cache of the nodes: [name] is the address of ["radix tree node"]. *)
Definition radix_tree_node_free (cachep node : Z) : M unit := c ← load cachep; kmem_free_obj c node;; mret tt.
Definition sizeof_radix_tree_node : Z := 68.
Definition radix_tree_init (buddy_list cache_chain cachep name : Z) : M unit :=
  c ← kmem_cache_create buddy_list cache_chain name sizeof_radix_tree_node 0;
  store cachep c;;
  if c =? NULL then panic else mret tt.

(** [args] is the address of the arguments behind the format. *)
Definition sprintf (tmp buf fmt args : Z) : M Z := vsprintf tmp buf fmt args.

(** ** Properties *)

Lemma thread_info_base u esp : u mod THREAD_SIZE = 0 → 0 ≤ u → u ≤ esp < u + THREAD_SIZE → esp < 2 ^ 32 → current_thread_info esp = u.
Proof.
  intros Hu H0 Hesp H32. unfold current_thread_info. change (u32 (Z.lnot (THREAD_SIZE - 1))) with (Z.ldiff (Z.ones 32) (Z.ones 13)).
  rw Z.ldiff_land Z.land_assoc Z.land_ones; [|lia]. rw Z.mod_small; [|lia]. rw -Z.ldiff_land Z.ldiff_ones_r; [|lia].
  rw Z.shiftr_div_pow2; [|lia]. rw Z.shiftl_mul_pow2; [|lia]. change (2 ^ 13) with THREAD_SIZE in *. change THREAD_SIZE with 8192 in *. dlia.
Qed.

(** On a stack in a [thread_union] that is aligned to its size, [get_current] finds the task whose address is at its base, wherever the stack pointer is. *)
Theorem get_current_correct u esp p :
  {{ u ↦ p ∗ ⌜u mod THREAD_SIZE = 0 ∧ 0 ≤ u ∧ u ≤ esp < u + THREAD_SIZE ∧ esp < 2 ^ 32⌝ }} get_current esp {{ r, ⌜r = p⌝ ∗ u ↦ p }}.
Proof.
  apply triple_wp. iIntros "(H & %H1 & %H2 & %H3 & %H4)". unfold get_current. rw (thread_info_base u esp H1 H2 H3 H4). unfold ti_task. rw (_ : u + 0 = u); [|lia].
  wp_load. by iFrame.
Qed.

(** ** drivers/block/ll_rw_blk.c *)

Definition ll_rw_swap_file (rw dev b nb buf : Z) : M unit := mret tt.
