(* ===== verification/Printk.v ===== *)
(** * Messages: lib/printf.c, kernel/panic.c, lib/klibc.c, and the functions of mm/ that print the state of the memory

    [printx] is the system call, [disp_str] writes to the screen; both are parameters.  The arguments behind a format are 32-bit cells four bytes apart, at [args].
    Local buffers are at the addresses [buf], [tmp] is the one of [vsprintf]. *)

From Stdlib Require Import String.
From S2P Require Export CStringSpec Tty Slab MmapSpec.

Section printing.
Context (printx : Z → Z → M unit) (disp_str : Z → M unit).

Definition printf (tmp buf fmt args : Z) : M Z :=
  i ← vsprintf tmp buf fmt args;
  store (buf + i) 0;;
  printx buf i;;
  mret i.

Definition printk (tmp buf fmt args : Z) : M Z :=
  memset buf 0 512;;
  num ← vsprintf tmp buf fmt args;
  store (buf + num) 0;;
  disp_str buf;;
  mret num.

(** [fmt2] is the address of ["%c panic %s"], [args2] that of the arguments of the call of [printf], whose buffer is at [buf2]. *)
Definition panic_msg (tmp buf fmt args fmt2 buf2 args2 : Z) : M unit :=
  _ ← vsprintf tmp buf fmt args;
  store args2 MAG_CH_PANIC;;
  store (args2 + 4) buf;;
  printf tmp buf2 fmt2 args2;;
  mret tt.

(** [fmt] is the address of ["%s"]; [rounds] turns of the endless loop. *)
Definition spin (rounds : nat) (tmp buf fmt args str : Z) : M unit :=
  store args str;;
  printf tmp buf fmt args;;
  run (S rounds) (λ n : nat, mret (match n with O => inr tt | S n => inl n end)) rounds.

(** [fmt] is the address of the format of the message, [fmt2] that of ["%s"], [str] that of ["assertion_failure"]. *)
Definition assertion_failure (rounds : nat) (tmp buf fmt args fmt2 str exp file base_file line : Z) : M unit :=
  store args MAG_CH_ASSERT;;
  store (args + 4) exp;;
  store (args + 8) file;;
  store (args + 12) base_file;;
  store (args + 16) line;;
  printf tmp buf fmt args;;
  spin rounds tmp buf fmt2 args str.
End printing.

(** ** A reference for the format *)

(** A character of the format, a character argument, and a string argument with its address. *)
Inductive piece := Plain (c : Z) | Chr (a : Z) | Str (p : Z) (s : list Z).

Definition piece_fmt (x : piece) : list Z := match x with Plain c => [c] | Chr _ => [37; 99] | Str _ _ => [37; 115] end.
Definition piece_args (x : piece) : list Z := match x with Plain _ => [] | Chr a => [a] | Str p _ => [p] end.
Definition piece_out (x : piece) : list Z := match x with Plain c => [c] | Chr a => [s8 a] | Str _ s => s end.
Definition not_str (x : piece) : bool := match x with Str _ _ => false | _ => true end.
Definition piece_ok (x : piece) : Prop := match x with Plain c => c ≠ 0 ∧ c ≠ 37 | _ => True end.
Definition piece_str (x : piece) : heapProp := match x with Str p s => cstr p s | _ => emp end.

Definition fmt_of (xs : list piece) : list Z := xs ≫= piece_fmt.
Definition args_of (xs : list piece) : list Z := xs ≫= piece_args.
Definition render (xs : list piece) : list Z := xs ≫= piece_out.

Lemma fmt_of_app xs x ys : fmt_of (xs ++ x :: ys) = fmt_of xs ++ piece_fmt x ++ fmt_of ys.
Proof. unfold fmt_of. by rw bind_app. Qed.
Lemma args_of_app xs x ys : args_of (xs ++ x :: ys) = args_of xs ++ piece_args x ++ args_of ys.
Proof. unfold args_of. by rw bind_app. Qed.
Lemma render_snoc xs x : render (xs ++ [x]) = render xs ++ piece_out x.
Proof. unfold render. by rw bind_app bind_singleton. Qed.
Lemma render_app xs x ys : render (xs ++ x :: ys) = render xs ++ piece_out x ++ render ys.
Proof. unfold render. by rw bind_app. Qed.

Lemma fmt_snoc xs x : fmt_of (xs ++ [x]) = fmt_of xs ++ piece_fmt x.
Proof. unfold fmt_of. by rw bind_app bind_singleton. Qed.
Lemma args_snoc xs x : args_of (xs ++ [x]) = args_of xs ++ piece_args x.
Proof. unfold args_of. by rw bind_app bind_singleton. Qed.

Lemma fmt_length xs : (length xs ≤ length (fmt_of xs))%nat.
Proof. induction xs as [|x xs IH]; [done|]. unfold fmt_of in *. rw bind_cons length_app. simpl length. destruct x; simpl; lia. Qed.

(** A byte of the format or a cell of the arguments, behind [l1]. *)
Lemma arr_load_mid p k l1 x l2 q Q : q = p + k * length l1 → arr p k (l1 ++ x :: l2) -∗ (arr p k (l1 ++ x :: l2) -∗ Q x) -∗ wp (load q) Q.
Proof. iIntros (->) "H HQ". iApply (arr_load _ _ _ (length l1) x with "H"); [by apply list_lookup_middle|done|done]. Qed.

(** A character at the end of what is written. *)
Lemma put_char_wp buf out r rest c q (Q : unit → heapProp) : q = buf + length out →
  bytes buf (out ++ r :: rest) -∗ (bytes buf ((out ++ [c]) ++ rest) -∗ Q tt) -∗ wp (store q c) Q.
Proof.
  iIntros (->) "Hb HQ". iApply (arr_store _ _ _ (length out) r with "Hb"); [by apply list_lookup_middle|lia|]. rw insert_app_r_alt; [|done]. rw Nat.sub_diag /= -app_assoc. done.
Qed.

(** A string there; its end is written too. *)
Lemma put_str_wp buf out s old rest src q Q : q = buf + length out → 0 < buf → length old = S (length s) →
  cstr src s -∗ bytes buf (out ++ old ++ rest) -∗ (cstr src s -∗ bytes buf ((out ++ s) ++ 0 :: rest) -∗ Q 0) -∗ wp (strcpy q src) Q.
Proof.
  iIntros (-> Hb Hl) "Hs H HQ". rw arr_app Z.mul_1_l. iDestruct "H" as "[H1 H2]". iApply (strcpy_wp with "Hs H2"); [done|lia|]. iIntros "Hs H2". iApply ("HQ" with "Hs").
  iEval (rw -app_assoc arr_app Z.mul_1_l). iFrame.
Qed.

(** The end of a step: the new state, and the memory with the bytes in "Hb". *)
Ltac step_done :=
  iSplit; [iPureIntro; f_equal; f_equal; [f_equal|]; lia|]; iFrame; iPureIntro; simpl length in *; split; [lia|];
  intros [Hn [Hx _]%Forall_cons]%Forall_app; by try match goal with Hr : _ → _ :: ?rest = drop _ _ |- ?rest = _ => rw -drop_drop -(Hr Hn) end.

Section vsprintf.
Context (tmp fmt args buf : Z) (xs : list piece) (old : list Z).

(** What the pieces [xs1] have written, with room for the others and an end; only a string also changes the byte behind it. *)
Definition written_so_far (xs1 : list piece) : heapProp :=
  ∃ rest, ⌜(length (render xs) < length (render xs1) + length rest)%nat ∧ (Forall not_str xs1 → rest = drop (length (render xs1)) old)⌝ ∗
    bytes buf (render xs1 ++ rest).

Definition vs_state (xs1 : list piece) : Z * Z * Z := (fmt + length (fmt_of xs1), buf + length (render xs1), args + 4 * length (args_of xs1)).

Definition vs_mem (xs1 : list piece) : heapProp :=
  bytes fmt (fmt_of xs ++ [0]) ∗ arr args 4 (args_of xs) ∗ ([∗ list] x ∈ xs, piece_str x) ∗ written_so_far xs1.

Lemma vsprintf_step_wp xs1 x xs2 : xs = xs1 ++ x :: xs2 → piece_ok x → 0 < buf →
  vs_mem xs1 ⊢ wp (vsprintf_step tmp (vs_state xs1)) (λ r, ⌜r = inl (vs_state (xs1 ++ [x]))⌝ ∗ vs_mem (xs1 ++ [x])).
Proof.
  intros Hxs Hok Hbuf. assert (fmt_of xs ++ [0] = fmt_of xs1 ++ piece_fmt x ++ fmt_of xs2 ++ [0]) as HF by (by rw Hxs fmt_of_app -!app_assoc).
  assert (args_of xs = args_of xs1 ++ piece_args x ++ args_of xs2) as HA by (by rw Hxs args_of_app).
  assert (length (render xs) = length (render xs1) + length (piece_out x) + length (render xs2))%nat as HR by (rw Hxs render_app !length_app; lia).
  iIntros "(Hf & Ha & Hs & (%rest & [%Hrest %Hstale] & Hb))". unfold vsprintf_step, vs_state, vs_mem, written_so_far. rw fmt_snoc args_snoc render_snoc !length_app HF HA.
  destruct x as [c|a|p s]; cbn [piece_fmt piece_args piece_out app length] in *.
  - destruct Hok as [H0 H37]. destruct rest as [|r rest]; [simpl in Hrest; lia|]. iApply wp_bind. iApply (arr_load_mid fmt 1 (fmt_of xs1) c with "Hf"); [lia|]. iIntros "Hf".
    rw (eqb_false c 0 H0) (eqb_false c 37 H37). wp_pures. iApply wp_bind. iApply (put_char_wp _ (render xs1) with "Hb"); [lia|]. iIntros "Hb". wp_pures. step_done.
  - destruct rest as [|r rest]; [simpl in Hrest; lia|]. iApply wp_bind. iApply (arr_load_mid fmt 1 (fmt_of xs1) 37 with "Hf"); [lia|]. iIntros "Hf". wp_pures. iApply wp_bind.
    rw (cons_middle 37). iApply (arr_load_mid fmt 1 (fmt_of xs1 ++ [37]) 99 with "[Hf]"); [rw length_app; simpl; lia|by rw -app_assoc|]. rw -app_assoc. iIntros "Hf". wp_pures. iApply wp_bind.
    iApply (arr_load_mid args 4 (args_of xs1) a with "Ha"); [lia|]. iIntros "Ha". iApply wp_bind. iApply (put_char_wp _ (render xs1) with "Hb"); [lia|]. iIntros "Hb". wp_pures. step_done.
  - iApply wp_bind. iApply (arr_load_mid fmt 1 (fmt_of xs1) 37 with "Hf"); [lia|]. iIntros "Hf". wp_pures. iApply wp_bind.
    rw (cons_middle 37). iApply (arr_load_mid fmt 1 (fmt_of xs1 ++ [37]) 115 with "[Hf]"); [rw length_app; simpl; lia|by rw -app_assoc|]. rw -app_assoc. iIntros "Hf". wp_pures. iApply wp_bind.
    iApply (arr_load_mid args 4 (args_of xs1) p with "Ha"); [lia|]. iIntros "Ha". iDestruct (big_sepL_elem_of_acc _ _ (Str p s) with "Hs") as "[Hstr Hs]"; [rw Hxs; apply elem_of_app; right; left|].
    iApply wp_bind. rw -(take_drop (S (length s)) rest). iApply (put_str_wp _ (render xs1) s with "Hstr Hb"); [lia|done|rw length_take; lia|]. iIntros "Hstr Hb". iApply wp_bind.
    iApply (arr_load_mid args 4 (args_of xs1) p with "Ha"); [lia|]. iIntros "Ha". iApply wp_bind. iApply (strlen_wp with "Hstr"). iIntros "Hstr". iDestruct ("Hs" with "Hstr") as "Hs". wp_pures.
    assert (length rest = S (length s) + length (drop (S (length s)) rest))%nat as Hl by (rw length_drop; lia). step_done.
Qed.

Lemma vsprintf_wp (oldt : list Z) Q : Forall piece_ok xs → 0 < buf → 0 < tmp → length oldt = 32%nat → (length (render xs) < length old)%nat →
  bytes tmp oldt -∗ bytes fmt (fmt_of xs ++ [0]) -∗ arr args 4 (args_of xs) -∗ ([∗ list] x ∈ xs, piece_str x) -∗ bytes buf old -∗
  (bytes tmp (replicate 32 0) -∗ bytes fmt (fmt_of xs ++ [0]) -∗ arr args 4 (args_of xs) -∗ ([∗ list] x ∈ xs, piece_str x) -∗ written_so_far xs -∗ Q (Z.of_nat (length (render xs)))) -∗
  wp (vsprintf tmp buf fmt args) Q.
Proof.
  iIntros (Hok Hbuf Htmp Holdt Hold) "Ht Hf Ha Hs Hb HQ". unfold vsprintf. iApply wp_bind. rw -(app_nil_r oldt). iApply (memset_wp with "Ht"); [by rw Holdt|lia|done|].
  rw app_nil_r. change (Z.to_nat 32) with 32%nat. iIntros "Ht". iApply wp_bind.
  iApply (wp_wand with "[Hf Ha Hs Hb]"); first iApply (wp_loop _ (λ n s, ∃ xs1 xs2, ⌜xs = xs1 ++ xs2 ∧ n = length xs2 ∧ s = vs_state xs1⌝ ∗ vs_mem xs1)%I
    (λ p, ⌜p = (buf + length (render xs))%Z⌝ ∗ vs_mem xs)%I (length xs)).
  - iIntros "(%xs1 & %xs2 & (%E & -> & _) & (H & _))". rw arr_cells length_app. iApply (cells_le with "H"). pose proof (fmt_length xs) as Hl. rw {1}E length_app in Hl. simpl. lia.
  - intros n s. iIntros "(%xs1 & %xs2 & (%E & -> & ->) & Hm)". destruct xs2 as [|x xs2].
    + rw app_nil_r in E. subst xs1. iDestruct "Hm" as "(Hf & Hr)". unfold vsprintf_step, vs_state. iApply wp_bind. iApply (arr_load_mid fmt 1 (fmt_of xs) 0 [] with "Hf"); [lia|]. iIntros "Hf".
      wp_pures. iSplit; [done|]. iFrame.
    + iApply (wp_wand with "[Hm]"); [iApply (vsprintf_step_wp xs1 x xs2 with "Hm"); [done| |done]; rw E in Hok; by apply Forall_app in Hok as [_ [Hx _]%Forall_cons]|].
      iIntros (r) "[-> Hm]". iExists (length xs2). iSplit; [iPureIntro; simpl; lia|]. iExists (xs1 ++ [x]), xs2. rw -app_assoc. by iFrame.
  - iExists [], xs. iSplit; [iPureIntro; split_and!; [done|done|]|].
    + unfold vs_state. simpl. f_equal; [f_equal|]; lia.
    + iFrame. iPureIntro. simpl. split; [lia|done].
  - iIntros (p) "[-> (Hf & Ha & Hs & Hw)]". wp_pures. rw (_ : buf + length (render xs) - buf = length (render xs)); [|lia]. iApply ("HQ" with "Ht Hf Ha Hs Hw").
Qed.
End vsprintf.

(** C39: For formats of characters, [%c] and [%s], [vsprintf] writes what the reference [render] says and returns its length. *)
Theorem vsprintf_renders tmp fmt args buf xs (oldt old : list Z) :
  {{ bytes tmp oldt ∗ bytes fmt (fmt_of xs ++ [0]) ∗ arr args 4 (args_of xs) ∗ ([∗ list] x ∈ xs, piece_str x) ∗ bytes buf old ∗
     ⌜Forall piece_ok xs ∧ 0 < buf ∧ 0 < tmp ∧ length oldt = 32%nat ∧ (length (render xs) < length old)%nat⌝ }}
    vsprintf tmp buf fmt args
  {{ r, ⌜r = length (render xs)⌝ ∗ (∃ rest, ⌜(0 < length rest)%nat⌝ ∗ bytes buf (render xs ++ rest)) ∗
        bytes fmt (fmt_of xs ++ [0]) ∗ arr args 4 (args_of xs) ∗ [∗ list] x ∈ xs, piece_str x }}.
Proof.
  apply triple_wp. iIntros "(Ht & Hf & Ha & Hs & Hb & %Hok & %Hb & %Ht & %Hl & %Ho)". iApply (vsprintf_wp with "Ht Hf Ha Hs Hb"); [done..|].
  iIntros "_ $ $ $ (%rest & [%Hr _] & Hb)". iSplit; [done|]. iExists rest. iFrame. iPureIntro. lia.
Qed.

(** ** The message of panic *)

Lemma printf_wp printx tmp fmt args buf xs (oldt old : list Z) Q : Forall piece_ok xs → 0 < buf → 0 < tmp → length oldt = 32%nat → (length (render xs) < length old)%nat →
  bytes tmp oldt -∗ bytes fmt (fmt_of xs ++ [0]) -∗ arr args 4 (args_of xs) -∗ ([∗ list] x ∈ xs, piece_str x) -∗ bytes buf old -∗
  (∀ rest, bytes buf (render xs ++ 0 :: rest) -∗ wp (printx buf (Z.of_nat (length (render xs)))) (λ _, Q (Z.of_nat (length (render xs))))) -∗
  wp (printf printx tmp buf fmt args) Q.
Proof.
  iIntros (Hok Hb Ht Hlt Hl) "Ht Hf Ha Hs Hb HQ". unfold printf. iApply wp_bind. iApply (vsprintf_wp with "Ht Hf Ha Hs Hb"); [done..|].
  iIntros "_ _ _ _ (%rest & [%Hr _] & Hb)". destruct rest as [|r rest]; [simpl in Hr; lia|]. iApply wp_bind. iApply (put_char_wp with "Hb"); [done|]. rw -app_assoc. iIntros "Hb".
  iApply wp_bind. iApply (wp_wand with "[HQ Hb]"); [iApply ("HQ" with "Hb")|]. iIntros (_) "HQ". by wp_pures.
Qed.

Definition plain (s : list Z) : list piece := Plain <$> s.

Lemma plain_fmt s : fmt_of (plain s) = s.
Proof. unfold fmt_of, plain. induction s as [|c s IH]; [done|]. cbn. by f_equal. Qed.
Lemma plain_args s : args_of (plain s) = [].
Proof. unfold args_of, plain. by induction s. Qed.
Lemma plain_render s : render (plain s) = s.
Proof. unfold render, plain. induction s as [|c s IH]; [done|]. cbn. by f_equal. Qed.
Lemma plain_str s : ⊢ [∗ list] x ∈ plain s, piece_str x.
Proof. iInduction s as [|c s] "IH"; [done|]. simpl. by iSplit. Qed.
Lemma plain_not_str s : Forall not_str (plain s).
Proof. apply Forall_fmap, Forall_forall. done. Qed.

(** The format ["%c panic %s"] with its arguments. *)
Definition panic_pieces (buf : Z) (s : list Z) : list piece := Chr MAG_CH_PANIC :: plain [32; 112; 97; 110; 105; 99; 32] ++ [Str buf s].

(** The text that [panic] shows for a message [s]: the mark, [" panic "], the message. *)
Definition panic_text (s : list Z) : list Z := MAG_CH_PANIC :: [32; 112; 97; 110; 105; 99; 32] ++ s.

Lemma panic_render buf s : render (panic_pieces buf s) = panic_text s.
Proof. unfold render, panic_text. cbn. by rw app_nil_r. Qed.

(** [panic] does not put an end behind its message: it prints what the stack held behind it, up to the next zero byte.  ([printx] is called once, with this text.) *)
Theorem panic_shows_stale (printx : Z → Z → M unit) tmp fmt args buf fmt2 args2 buf2 msg stale (over more oldt old2 : list Z) a b P Q :
  (∀ rest, {{ P ∗ bytes buf2 (panic_text (msg ++ stale) ++ 0 :: rest) }} printx buf2 (length (panic_text (msg ++ stale))) {{ _, Q }}) →
  {{ P ∗ bytes tmp oldt ∗ bytes fmt (msg ++ [0]) ∗ bytes buf (over ++ stale ++ 0 :: more) ∗ bytes fmt2 (fmt_of (panic_pieces buf []) ++ [0]) ∗
     args2 ↦ a ∗ (args2 + 4) ↦ b ∗ bytes buf2 old2 ∗
     ⌜Forall (λ c, c ≠ 0 ∧ c ≠ 37) msg ∧ Forall (λ c, c ≠ 0) stale ∧ length over = length msg ∧ length (msg ++ stale) < 2 ^ 31 ∧
      0 < buf ∧ 0 < tmp ∧ 0 < buf2 ∧ length oldt = 32%nat ∧ (length (panic_text (msg ++ stale)) < length old2)%nat⌝ }}
    panic_msg printx tmp buf fmt args fmt2 buf2 args2
  {{ _, Q }}.
Proof.
  intros Hx. apply triple_wp. iIntros "(HP & Ht & Hf & Hb & Hf2 & Ha & Ha2 & Hb2 & %Hm & %Hst & %Hov & %Hlen & %Hb & %Htmp & %Hb2 & %Hot & %Ho2)".
  unfold panic_msg. iApply wp_bind. iApply (vsprintf_wp tmp fmt args buf (plain msg) (over ++ stale ++ 0 :: more) with "Ht [Hf] [] [] Hb"); try done.
  { apply Forall_fmap. done. }
  { rw plain_render !length_app /=. lia. }
  { by rw plain_fmt. }
  { by rw plain_args arr_nil. }
  { iApply plain_str. }
  iIntros "Ht _ _ _ (%rest & [_ %Hr] & Hb)". rw (Hr (plain_not_str msg)) plain_render -Hov drop_app_length. iApply wp_bind. wp_store. iApply wp_bind. wp_store. iApply wp_bind.
  rw (_ : msg ++ stale ++ 0 :: more = ((msg ++ stale) ++ [0]) ++ more); [|by rw -!app_assoc]. iEval (rw arr_app) in "Hb". iDestruct "Hb" as "[Hb _]".
  iApply (printf_wp printx tmp fmt2 args2 buf2 (panic_pieces buf (msg ++ stale)) with "Ht [Hf2] [Ha Ha2] [Hb] Hb2"); try done.
  { repeat constructor; done. }
  { by rw panic_render. }
  { unfold args_of. simpl. rw arr_cons arr_one. iFrame. }
  { simpl. iFrame. iPureIntro. split_and!; [|done|done]. apply Forall_app. split; [|done]. eapply Forall_impl; [exact Hm|]. by intros c []. }
  iIntros (rest') "Hb2". rw panic_render. specialize (Hx rest'). apply triple_wp in Hx. iApply (wp_wand with "[HP Hb2]"); [iApply Hx; iFrame|]. iIntros (_) "HQ". by wp_pures.
Qed.

(** * Printing of the state of the memory: mm/mmap.c, mm/buddy.c, mm/slab.c

    A call of [printk] is kept as its format and the numbers it is given, and a printing function returns its calls in order.  [n] bounds the depth of the
    recursion. *)

Record call := Say { format : string; numbers : list Z }.

Definition AREA : string := "%08lX-%08lX".

(** ** mm/mmap.c *)

Definition printk_list_step (s : Z * list call) : M (Z * list call + list call) :=
  let '(vma, out) := s in
  if vma =? NULL then mret (inr out) else
  b ← load (vma + vm_start);
  e ← load (vma + vm_end);
  vma ← load (vma + vm_next);
  if vma =? NULL then mret (inr (out ++ [Say AREA [b; e]])) else
  mret (inl (vma, out ++ [Say AREA [b; e]; Say " " []])).

Definition printk_list (vma : Z) : M (list call) :=
  out ← loop printk_list_step (vma, [Say "[" []]);
  mret (out ++ [Say "]" []]).

Fixpoint printk_avl (n : nat) (tree : Z) : M (list call) :=
  match n with
  | O => timeout
  | S n =>
      if tree =? avl_empty then mret [] else
      l ← load (tree + vm_avl_left);
      out1 ← (if l =? avl_empty then mret [] else l ← load (tree + vm_avl_left); out ← printk_avl n l; mret (out ++ [Say "<" []]));
      b ← load (tree + vm_start);
      e ← load (tree + vm_end);
      r ← load (tree + vm_avl_right);
      out2 ← (if r =? avl_empty then mret [] else r ← load (tree + vm_avl_right); out ← printk_avl n r; mret (Say ">" [] :: out));
      mret ([Say "(" []] ++ out1 ++ [Say AREA [b; e]] ++ out2 ++ [Say ")" []])
  end.

(** ** mm/buddy.c *)

Definition print_buddy_list (buddy_list : Z) : M (list call) :=
  run 11 (λ '(i, out),
    if i <? NR_MEM_LISTS then
      f ← load (header buddy_list i + nr_free_pages);
      mret (inl (i + 1, out ++ [Say "(%d  %d)  " [i; f]]))
    else mret (inr out)) (0, []).

(** ** mm/slab.c *)

Definition print_slab_info (slabp : Z) : M (Z * list call) :=
  if slabp =? NULL then mret (-1, [Say "****" []]) else
  m ← load (slabp + s_mem);
  f ← load (slabp + slab_free);
  u ← load (slabp + inuse);
  mret (0, [Say "s_mem = %x." [m]; Say "free = %d." [f]; Say "inuse = %d.\n" [u]]).

Definition print_kmem_info (cachep : Z) : M (Z * list call) :=
  if cachep =? NULL then mret (-1, []) else
  s ← load (cachep + obj_size);
  p ← list_num (cachep + partial);
  f ← list_num (cachep + Slab.full);
  e ← list_num (cachep + lists_free);
  k ← load (cachep + nr_frees);
  mret (0, [Say "name = %s." [cachep + kc_name]; Say "obj_size = %d." [s]; Say "partial num = %d." [p]; Say "full num = %d." [f];
            Say "free num = %d." [e]; Say "nr_frees = %d.\n" [k]]).

Definition print_kmem_chain (cache_chain : Z) : M (list call) :=
  r ← list_for_each_safe (R := Empty_set) cache_chain (λ pos out,
    '(_, o) ← print_kmem_info (pos - kc_next);
    mret (inl (out ++ o))) [];
  match r with
  | inl out => mret out
  | inr e => match (e : Empty_set) with end
  end.

(** ** The tree and the list show the same areas *)

(** The areas in what was printed: beginning and end of each. *)
Definition areas (out : list call) : list (list Z) := numbers <$> filter (λ c, format c = AREA) out.

Definition extents (st : Z → Z) (xs : list (Z * Z)) : list (list Z) := (λ x, [st x.1; x.2]) <$> xs.

Lemma areas_app out1 out2 : areas (out1 ++ out2) = areas out1 ++ areas out2.
Proof. unfold areas. by rw filter_app fmap_app. Qed.
Lemma areas_text s out : s ≠ AREA → areas (Say s [] :: out) = areas out.
Proof. intros H. unfold areas. by rw filter_cons_False. Qed.
Lemma areas_area b e out : areas (Say AREA [b; e] :: out) = [b; e] :: areas out.
Proof. unfold areas. by rw filter_cons_True. Qed.

Lemma areas_end : areas [] = [].
Proof. done. Qed.

Create Rewrite HintDb areas.
#[local] Hint Rewrite areas_app areas_area areas_end : areas.
#[local] Hint Rewrite areas_text using done : areas.

Lemma starts_app st xs ys : starts st (xs ++ ys) ⊣⊢ starts st xs ∗ starts st ys.
Proof. apply big_sepL_app. Qed.

Lemma starts_load st xs x : x ∈ xs → starts st xs ⊢ (x.1 + vm_start) ↦ st x.1 ∗ ((x.1 + vm_start) ↦ st x.1 -∗ starts st xs).
Proof. intros H. by rw /starts {1}(big_sepL_elem_of_acc _ _ _ H). Qed.

Lemma sub_ptr t : sub t ⊢ ⌜t = E ∨ ptr t ≠ NULL⌝.
Proof. destruct t; [by auto|]. iIntros "H". iEval (rw sub_T) in "H". iDestruct "H" as "(%Hp & _)". by auto. Qed.

(** A child is printed unless it is missing. *)
Lemma avl_child_wp st n cell t (wrap : list call → list call) (Q : list call → heapProp) : (∀ out, areas (wrap out) = areas out) →
  (∀ Q', sub t -∗ starts st (nodes t) -∗ (∀ out, ⌜areas out = extents st (nodes t)⌝ -∗ sub t -∗ starts st (nodes t) -∗ Q' out) -∗ wp (printk_avl n (ptr t)) Q') →
  tree_at cell t -∗ starts st (nodes t) -∗ (∀ out, ⌜areas out = extents st (nodes t)⌝ -∗ tree_at cell t -∗ starts st (nodes t) -∗ Q out) -∗
  wp (if ptr t =? avl_empty then mret [] else l ← load cell; out ← printk_avl n l; mret (wrap out)) Q.
Proof.
  iIntros (Hw Hf) "[Hc Ht] Hs HQ". iDestruct (sub_ptr with "Ht") as %[->|Hp].
  - change (ptr E =? avl_empty) with true. wp_pures. by iApply ("HQ" $! [] with "[] [$Hc $Ht] Hs").
  - rw (eqb_false _ avl_empty Hp). wp_load. iApply wp_bind. iApply (Hf with "Ht Hs"). iIntros (out Ho) "Ht Hs". wp_pures. iApply ("HQ" with "[] [$Hc $Ht] Hs").
    iPureIntro. by rw Hw.
Qed.

Lemma printk_avl_wp st n t (Q : list call → heapProp) : height t < Z.of_nat n →
  sub t -∗ starts st (nodes t) -∗ (∀ out, ⌜areas out = extents st (nodes t)⌝ -∗ sub t -∗ starts st (nodes t) -∗ Q out) -∗ wp (printk_avl n (ptr t)) Q.
Proof.
  revert t Q. induction n as [|n IH]; intros t Q Hn; [pose proof (height_nonneg t); lia|]. iIntros "H Hs HQ". cbn [printk_avl].
  destruct t as [|l p k r]; cbn [ptr]; [change (NULL =? avl_empty) with true; wp_pures; by iApply ("HQ" $! [] with "[] H")|].
  cbn [nodes]. iEval (rw sub_T) in "H". iEval (rw starts_app (starts_app st [(p, k)])) in "Hs". iDestruct "H" as "(%Hp & Hk & Hh & [Hl Hls] & [Hr Hrs])". iDestruct "Hs" as "(Hsl & Hsp & Hsr)". cbn [height] in Hn.
  rw (eqb_false p avl_empty Hp). wp_load. iApply wp_bind.
  iApply (avl_child_wp st n _ l (λ out, out ++ [Say "<" []]) with "[$Hl $Hls] Hsl"); [intros out; autorewrite with areas; by rw app_nil_r|intros Q'; apply IH; lia|].
  iIntros (out1 Ho1) "[Hl Hls] Hsl". iDestruct (starts_load st [(p, k)] (p, k) with "Hsp") as "[Hp Hsp]"; [by left|]. cbn [fst]. wp_load. iDestruct ("Hsp" with "Hp") as "Hsp".
  change vm_end with vm_avl_key. wp_load. wp_load. iApply wp_bind.
  iApply (avl_child_wp st n _ r (λ out, Say ">" [] :: out) with "[$Hr $Hrs] Hsr"); [intros out; by autorewrite with areas|intros Q'; apply IH; lia|].
  iIntros (out2 Ho2) "Hr Hsr". iApply wp_ret. iApply ("HQ" with "[] [Hk Hh Hl Hls Hr] [Hsl Hsp Hsr]"); [iPureIntro|by iFrame|iEval (rw starts_app (starts_app st [(p, k)])); iFrame].
  autorewrite with areas. rw Ho1 Ho2 /extents fmap_app app_nil_r /=. done.
Qed.

(** The next area of a list, which is there unless the area is the last one. *)
Lemma list_next_area link (t : tree) xs p k ys : nodes t = xs ++ (p, k) :: ys → slist vm_next link (nodes t).*1 ⊢
  (p + vm_next) ↦ head_ptr ys ∗ ⌜ys ≠ [] → head_ptr ys ≠ NULL⌝ ∗ ((p + vm_next) ↦ head_ptr ys -∗ slist vm_next link (nodes t).*1).
Proof.
  intros ->. rw fmap_app fmap_cons head_ptr_first. iIntros "Hl". iAssert ⌜ys ≠ [] → first_or NULL ys.*1 ≠ NULL⌝%I as %Hy.
  { destruct ys as [|[q k'] ys]; [done|]. rw fmap_cons cons_middle app_assoc. iDestruct (slist_ne_at with "Hl") as %Hq. done. }
  iDestruct (slist_next with "Hl") as "[$ $]". done.
Qed.

Lemma printk_list_wp st link t (Q : list call → heapProp) :
  sub t -∗ starts st (nodes t) -∗ slist vm_next link (nodes t).*1 -∗
  (∀ out, ⌜areas out = extents st (nodes t)⌝ -∗ sub t -∗ starts st (nodes t) -∗ slist vm_next link (nodes t).*1 -∗ Q out) -∗ wp (printk_list (head_ptr (nodes t))) Q.
Proof.
  iIntros "Ht Hs Hl HQ". unfold printk_list. iApply wp_bind. iApply (wp_wand with "[Ht Hs Hl]").
  - iApply (wp_loop _ (λ n s, ∃ xs ys out, ⌜nodes t = xs ++ ys ∧ n = length ys ∧ s = (head_ptr ys, out) ∧ areas out = extents st xs⌝ ∗
      sub t ∗ starts st (nodes t) ∗ slist vm_next link (nodes t).*1)%I
      (λ out, ⌜areas out = extents st (nodes t)⌝ ∗ sub t ∗ starts st (nodes t) ∗ slist vm_next link (nodes t).*1)%I (length (nodes t))).
    + iIntros "(%xs & %ys & %out & (%E & %Hn & _) & _ & _ & Hl)". rw slist_cells length_fmap. iApply (cells_le with "Hl"). lia.
    + intros n s. iIntros "(%xs & %ys & %out & (%E & -> & -> & %Ho) & Ht & Hs & Hl)". unfold printk_list_step. destruct ys as [|[p k] ys].
      { change (head_ptr [] =? NULL) with true. wp_pures. rw app_nil_r in E. iFrame. iPureIntro. by rw E. }
      assert ((p, k) ∈ nodes t) as Hin by (rw E; apply elem_of_app; right; left). iAssert ⌜p ≠ NULL⌝%I as %Hp.
      { rw E fmap_app fmap_cons. by iApply (slist_ne_at with "Hl"). }
      cbn [head_ptr head from_option fst]. rw (eqb_false p NULL Hp). iDestruct (starts_load with "Hs") as "[Hb Hs]"; [done|]. cbn [fst]. wp_load. iDestruct ("Hs" with "Hb") as "Hs".
      change vm_end with vm_avl_key. iDestruct (sub_key with "Ht") as "[Hk Ht]"; [done|]. wp_load. iDestruct ("Ht" with "Hk") as "Ht".
      iDestruct (list_next_area with "Hl") as "(Hn & %Hy & Hl)"; [exact E|]. wp_load. iDestruct ("Hl" with "Hn") as "Hl".
      assert (areas (out ++ [Say AREA [st p; k]]) = extents st (xs ++ [(p, k)])) as Ho' by (autorewrite with areas; by rw Ho /extents fmap_app).
      destruct ys as [|[q k'] ys].
      * change (head_ptr [] =? NULL) with true. wp_pures. iFrame. iPureIntro. by rw E.
      * rw (eqb_false _ NULL (Hy ltac:(done))). wp_pures. iExists _. iSplit; [|iExists (xs ++ [(p, k)]), ((q, k') :: ys), _; iFrame; iPureIntro; split_and!; [|done|done|]].
        -- iPureIntro. simpl. lia.
        -- by rw -app_assoc.
        -- rw -Ho' !areas_app. by autorewrite with areas.
    + iExists [], (nodes t), _. iFrame. iPureIntro. split_and!; [done|done|done|]. by autorewrite with areas.
  - iIntros (out) "(%Ho & Ht & Hs & Hl)". wp_pures. iApply ("HQ" with "[] Ht Hs Hl"). iPureIntro. autorewrite with areas. by rw app_nil_r.
Qed.

(** The list and the tree of the areas of a process show the same areas, in the order of their ends. *)
Theorem printed_areas_agree n st mm t :
  {{ tree_at (mm + mm_mmap_avl) t ∗ slist vm_next (mm + mm_mmap) (nodes t).*1 ∗ starts st (nodes t) ∗ ⌜height t < Z.of_nat n⌝ }}
    (t ← load (mm + mm_mmap_avl); a ← printk_avl n t; l ← load (mm + mm_mmap); b ← printk_list l; mret (a, b))
  {{ r, ⌜areas r.1 = extents st (nodes t) ∧ areas r.2 = extents st (nodes t)⌝ ∗
        tree_at (mm + mm_mmap_avl) t ∗ slist vm_next (mm + mm_mmap) (nodes t).*1 ∗ starts st (nodes t) }}.
Proof.
  apply triple_wp. iIntros "([Hroot Ht] & Hl & Hs & %Hn)". wp_load. iApply wp_bind. iApply (printk_avl_wp with "Ht Hs"); [done|]. iIntros (a Ha) "Ht Hs".
  iDestruct (slist_first with "Hl") as "[Hf Hl]". wp_load. iDestruct ("Hl" with "Hf") as "Hl". rw -head_ptr_first. iApply wp_bind.
  iApply (printk_list_wp with "Ht Hs Hl"). iIntros (b Hb) "Ht Hs Hl". wp_pures. by iFrame.
Qed.
